(* ===== verification/_CoqProject ===== *)
-Q . S2P
Prelude.v
Bytes.v
Param.v
BlockCache.v
Log.v
LogCrash.v
LogOps.v
LogExamples.v
Bio.v
BioSpec.v
BioOps.v
CString.v
Ulib.v
Pipe.v
Kalloc.v
Vm.v
Spinlock.v
Proc.v
ProcInv.v
ProcThms.v
TxDisk.v
CrashDisk.v
Fs.v
Dir.v
FsSim.v
FsAlloc.v
FsFile.v
FsWrite.v
Mkfs.v
FsCheck.v
FsThms.v
MkfsThms.v
Hw.v
Mp.v
Ide.v
Console.v
File.v
FileThms.v
Syscall.v
Exec.v
SysFile.v
Procfs.v
Kernel.v
Sh.v
ShThms.v
ShMem.v
ShMemThms.v
VmThms.v
VmFree.v
WaitThms.v
IdeThms.v
Icache.v
TruncThms.v
CText.v
DirThms.v
PathThms.v
ProcfsThms.v
Umalloc.v
UmallocThms.v
Sys.v
Progs.v
Grep.v
ShRun.v
ProgsThms.v
GrepThms.v
ShRunThms.v
Boot.v
BootThms.v
Usertests.v
System.v
SystemThms.v
KernelSim.v
CrashThms.v
