(* ===== verification/Prelude.v ===== *)
(** * The xv6 kernel of this repository, its boot loader and its programs

    The program is xv6 for a multiprocessor PC, with the /proc file system and
    the program lsof of the fourth assignment.  This development models its C
    code as functions on explicit states and proves what makes each part correct.

    ** The parts and how they interact

    The boot loader (bootmain.c) reads the kernel from the disk.  The kernel starts
    the processors and the first process (main.c), and from then on runs in traps
    (trap.c).  A system call (syscall.c, sysproc.c, sysfile.c, exec.c) works on
    processes (proc.c), address spaces (vm.c over kalloc.c), open files (file.c) and
    pipes (pipe.c).  Files are inodes (fs.c) whose blocks are changed in
    transactions (log.c) through the buffer cache (bio.c) of a disk (memide.c or
    ide.c), or devices: the console (console.c, kbd.c, uart.c) and /proc
    (procfs.c).  mkfs.c makes the image of the disk.  User programs make system
    calls through the library (ulib.c, printf.c, umalloc.c).

    ** How code is modelled

    A C integer is a [Z] with its wrap-around written out ([u8], [s32], [u32]...).
    Memory is a map from addresses to bytes where code works with pointers, and a
    list of bytes where it works with one array.  A pointer into a table is an index.
    Kernel code is a state-passing computation [M S A] whose outcomes ([res]) are a
    value, a panic, a sleep on a channel, or a fault: behaviour that C leaves
    undefined, or fuel that has run out.  Code between [acquire] and [release] is
    one step, and what [fork] and [exit] do outside is a step for each statement;
    Spinlock.v proves what the first rests on.  User programs are interaction
    trees over the system calls (Sys.v).

    ** The files

    - Prelude.v: integers, the computations, shared lemmas, the hint database.
      Bytes.v: words in memory.  Param.v: constants of the headers.
      CString.v, CText.v: string.c.
    - BlockCache.v: the interface of the buffer cache, a type class with its laws
      and the abstract cache.  Log.v, LogCrash.v, LogOps.v, LogExamples.v: log.c
      over that interface.  Bio.v, BioSpec.v, BioOps.v: bio.c and memide.c, which
      implement it.
    - TxDisk.v: the interface of the log towards fs.c, a type class of disks with
      the relation between a disk and the one it implements.  CrashDisk.v: the
      abstract disk that remembers its commits.  Fs.v, Dir.v: fs.c.
      FsSim.v, FsAlloc.v, FsFile.v, FsWrite.v, FsCheck.v, FsThms.v: its theorems;
      Icache.v: the inode cache; TruncThms.v: freeing and allocating inodes;
      DirThms.v: directories; PathThms.v: path names.
      Mkfs.v: mkfs.c, whose [main] takes the sizes of the disk as arguments
      ([main_xv6] has those of the source); MkfsThms.v: its bitmap and [balloc].
    - Hw.v: picirq.c, timer.c, ioapic.c, lapic.c, uart.c.  Mp.v: mp.c.
      Ide.v, IdeThms.v: ide.c.  Console.v: console.c, kbd.c.
    - Spinlock.v: spinlock.c.  Kalloc.v: kalloc.c.  Vm.v, VmThms.v, VmFree.v: vm.c.
      Proc.v, ProcInv.v, ProcThms.v: proc.c, against the class [ProcEnv] of what it
      calls; WaitThms.v: [exit] and [wait] on the memory of the kernel.
      Pipe.v: pipe.c.  File.v, FileThms.v: file.c.
    - Syscall.v: syscall.c, sysproc.c.  Exec.v: exec.c.  SysFile.v: sysfile.c.
      Procfs.v, ProcfsThms.v: procfs.c.  Kernel.v: trap.c, main.c.
      Boot.v, BootThms.v: bootmain.c.
    - Ulib.v: ulib.c, printf.c.  Umalloc.v, UmallocThms.v: umalloc.c.
      Sys.v: system calls and how programs run.  Progs.v, ProgsThms.v: the small
      programs.  Grep.v, GrepThms.v: grep.c.  Sh.v, ShThms.v: the parser of sh.c on
      words; ShMem.v, ShMemThms.v: the same with its pointers; ShRun.v, ShRunThms.v:
      the commands.  Usertests.v: usertests.c.  System.v, SystemThms.v: programs
      running on the kernel.
    - KernelSim.v: every system call over one disk does what it does over another
      that it implements.  CrashThms.v: traps and crashes of the whole kernel.

    Definitions have the names of the C functions.  A loop that is a function of
    its own has the name of the C function with a suffix.

    ** What the theorems show

    - Crash safety: whatever system calls and traps run, a crash at any sector write,
      and crashes of the recoveries, leave the contents of one commit, whole
      ([kernel_crash_safe]).  It rests on one commit ([commit_crash_safe]), also for
      the log on bio.c ([bcache_crash_safe]); a completed write survives
      ([write_durable]).  The space [begin_op] reserves suffices with a header
      block more than the code has, and with the code's log it does not
      ([reservation_suffices], [reservation_one_short]).
    - Refinement: bio.c is the abstract cache ([cache_refines]), fs.c on log.c and
      bio.c is fs.c on an abstract disk ([fs_refines]), the console is a line
      editor whose readers sleep and are resumed ([console_refines]), the screen
      is a terminal ([cga_refines]), a pipe is a bounded queue ([pipe_queue]), the
      pointers and NULs of the parser of the shell are the words of the line
      ([parsecmd_memory]).
    - Functional correctness: reading what was written ([write_read],
      [filewrite_correct]), adding a name to a directory ([dirlink_durable]), the
      inode a path leads to and the references kept on the way ([namex_resolves]),
      the blocks and the inode of a file that ends ([file_reclaimed]),
      the block allocator ([balloc_first_fit]), the copy of an
      address space ([copyuvm_copies]) and its end ([freevm_reclaims]), the disk
      driver ([ide_serves]), the boot loader ([bootmain_loads]), the tables of the
      BIOS ([mpinit_reads]), wc and the matcher of grep ([wc_counts], [match_spec]), the parser of the shell
      ([parse_print]) and what the processes of a command line
      do, with which descriptors, whichever of their calls fail ([shell_acts]).
    - Safety in every interleaving: mutual exclusion ([spinlock_mutex]), the process
      table ([ptable_consistent]), pages and blocks of memory are
      given to one owner ([kalloc_exclusive], [malloc_exclusive]); a parent in
      [wait] is woken by [exit] and gets back the entry and the memory of the
      child ([exit_then_wait]).
    - The parts together: nine tests of usertests.c are evaluated on the kernel
      ([usertests_pass], an example).
    - Where the code does not do what it means to: [reservation_one_short],
      [balloc_takes_log], [procfs_overflow], [procfs_status_slot],
      [proc_needs_17_files], [kill_zero_poisons], [allocuvm_lost_page],
      [mpinit_unknown_loops], [pipewrite_killed_silent], [grep_repeats].

    The theorems about the whole stack are proved once, for any two disks that
    [DiskSpec] relates, and used with [tdisk], the contents of the disk, and with
    [hdisk], which keeps those of every commit.  Where the abstract disk faults
    (a block changed outside the log, a log that is full, the counters of the
    cache in /proc) they promise nothing.

    ** Bounds and fuel

    A loop that is not structural takes fuel.  [blocks_fuel] is one more than the
    blocks a request of [n] bytes can touch.  [namex] takes one step for each element
    of the path.  [dir_fuel] is the number of entries of a directory; for
    /proc, whose size is not known, [DEV_DIR_FUEL] is above the 66 entries of its array.  [parse_fuel] is proved to suffice ([parsecmd_total]).
    [ring_fuel] is the number of headers that fit in the memory of the process.  A
    loop that waits for a device takes one answer for each turn, and the table of
    mp.c one byte, so the number of answers or bytes bounds it.  [readseg] reads no
    more sectors than its last address has.  Theorems that a program or a
    call returns are stated of the outcome itself, so they show that the fuel is
    enough; [runs] has none.

    ** Not modelled

    - Assembly: the context switch, trap entry, the boot sector and the code of
      the other processors are not among the sources except as listings; [swtch] is
      the boundary at which a process of Proc.v stops and resumes.  The processor
      is one that executes memory operations in order.
    - Declarations (defs.h, user.h, types.h, date.h, asm.h) and generated listings.
    - A system call that sleeps inside CrashThms.v leaves its state to the others;
      its continuation is not an event of its own.
    - In System.v one process runs: [fork], [exec] and [sbrk] on the whole kernel
      are Kernel.v and Proc.v, and the tests that need them are not run there,
      since copying an address space byte by byte is not practical to evaluate.
    - The time: a sleeping process is one that is tried again once woken. *)

From stdpp Require Import prelude strings gmap list.

#[global] Set Default Goal Selector "!".
#[global] Set Warnings "-clear-no-such-hyp".
#[global] Open Scope Z_scope.

(** ** Machine integers

    [int], [uint], [short], [ushort], [char] and [uchar] values are kept as
    [Z]; the conversions write the wrap-around out. *)

Declare Scope c_scope.
Delimit Scope c_scope with c.
Notation "a .& b" := (Z.land a b) (at level 40, left associativity) : c_scope.
Notation "a .| b" := (Z.lor a b) (at level 50, left associativity) : c_scope.
Notation "a .^ b" := (Z.lxor a b) (at level 45, left associativity) : c_scope.
Notation "a << b" := (Z.shiftl a b) (at level 35, no associativity) : c_scope.
Notation "a >> b" := (Z.shiftr a b) (at level 35, no associativity) : c_scope.
Notation "l .[ i ]" := (nth (Z.to_nat i) l 0)
  (at level 1, i at level 200, format "l .[ i ]") : c_scope.
#[global] Open Scope c_scope.

Definition u8 (z : Z) : Z := z mod 256.
Definition s8 (z : Z) : Z := (z + 128) mod 256 - 128.
Definition u16 (z : Z) : Z := z mod 65536.
Definition s16 (z : Z) : Z := (z + 32768) mod 65536 - 32768.
Definition u32 (z : Z) : Z := z mod 4294967296.
Definition s32 (z : Z) : Z := (z + 2147483648) mod 4294967296 - 2147483648.

Abbreviation is_u8 z := (0 <= z < 256).
Abbreviation is_u16 z := (0 <= z < 65536).
Abbreviation is_u32 z := (0 <= z < 4294967296).
Abbreviation is_s16 z := (-32768 <= z < 32768).
Abbreviation is_s32 z := (-2147483648 <= z < 2147483648).

(** C truth values: an [int] used as a condition. *)
Definition ctrue (z : Z) : bool := negb (z =? 0).

Lemma u32_small z : is_u32 z -> u32 z = z.
Proof. unfold u32. intros. by apply Z.mod_small. Qed.

Lemma u32_range z : is_u32 (u32 z).
Proof. unfold u32. by apply Z.mod_pos_bound. Qed.

Lemma u32_add_l a b : u32 (u32 a + b) = u32 (a + b).
Proof. unfold u32. by rewrite Zplus_mod_idemp_l. Qed.

Lemma u32_sub_r a b : u32 (a - u32 b) = u32 (a - b).
Proof. unfold u32. by rewrite Zminus_mod_idemp_r. Qed.

Lemma u32_eq a b : is_u32 a -> is_u32 b -> u32 (a - b) = 0 -> a = b.
Proof.
  unfold u32. intros Ha Hb H.
  apply Z.mod_divide in H; [|lia]. destruct H as [k Hk]. assert (k = 0) by lia. lia.
Qed.

Lemma u32_sub_l a b : u32 (u32 a - b) = u32 (a - b).
Proof. unfold u32. by rewrite Zminus_mod_idemp_l. Qed.

Lemma u16_small z : is_u16 z -> u16 z = z.
Proof. unfold u16. intros. by apply Z.mod_small. Qed.

Lemma u16_range z : is_u16 (u16 z).
Proof. unfold u16. by apply Z.mod_pos_bound. Qed.

Lemma u8_small z : is_u8 z -> u8 z = z.
Proof. unfold u8. intros. by apply Z.mod_small. Qed.

Lemma u8_range z : is_u8 (u8 z).
Proof. unfold u8. by apply Z.mod_pos_bound. Qed.

Lemma s32_small z : is_s32 z -> s32 z = z.
Proof. unfold s32. intros. rewrite Z.mod_small; lia. Qed.

Lemma s32_range z : is_s32 (s32 z).
Proof.
  unfold s32. pose proof (Z.mod_pos_bound (z + 2147483648) 4294967296). lia.
Qed.

Lemma s16_small z : is_s16 z -> s16 z = z.
Proof. unfold s16. intros. rewrite Z.mod_small; lia. Qed.

Lemma s16_range z : is_s16 (s16 z).
Proof.
  unfold s16. pose proof (Z.mod_pos_bound (z + 32768) 65536). lia.
Qed.

Lemma s16_u16 z : is_s16 z -> s16 (u16 z) = z.
Proof.
  unfold s16, u16. intros. rewrite Zplus_mod_idemp_l.
  rewrite Z.mod_small; lia.
Qed.

Create HintDb machine.
Create Rewrite HintDb machine.
#[export] Hint Resolve u32_range u16_range u8_range s32_range s16_range : machine.
#[export] Hint Rewrite u32_small u16_small u8_small s32_small s16_small
  using (lia || auto with machine) : machine.

(** ** Results of kernel code

    A call into the kernel returns a value and the new state, panics, puts the
    process to sleep on a channel (with the state in which it sleeps), or runs
    into behaviour the C language does not define. *)

(** Channels are the kernel addresses passed to [sleep] and [wakeup]. *)
Inductive chan :=
| ChBuf (i : Z)        (* a struct buf *)
| ChInode (i : Z)      (* a struct inode *)
| ChLog                (* &log *)
| ChProc (i : Z)       (* a struct proc, in wait() *)
| ChTicks              (* &ticks *)
| ChPipeRead (i : Z)   (* &p->nread *)
| ChPipeWrite (i : Z)  (* &p->nwrite *)
| ChInput              (* &input.r *)
| ChNever.             (* a process that has exited *)

#[export] Instance chan_eq_dec : EqDecision chan.
Proof. solve_decision. Defined.

Inductive res (S A : Type) :=
| Ok (a : A) (s : S)
| Panic (msg : string)
| Sleep (ch : chan) (s : S)
| Fault (what : string).
Arguments Ok {S A}.
Arguments Panic {S A}.
Arguments Sleep {S A}.
Arguments Fault {S A}.

Definition M (S A : Type) : Type := S -> res S A.

#[export] Instance M_ret S : MRet (M S) := fun A a s => Ok a s.
#[export] Instance M_bind S : MBind (M S) := fun A B f m s =>
  match m s with
  | Ok a s' => f a s'
  | Panic e => Panic e
  | Sleep c s' => Sleep c s'
  | Fault e => Fault e
  end.

Definition panic {S A} (msg : string) : M S A := fun _ => Panic msg.
Definition fault {S A} (what : string) : M S A := fun _ => Fault what.
Definition sleep_on {S A} (c : chan) : M S A := fun s => Sleep c s.
Definition get {S} : M S S := fun s => Ok s s.
Definition gets {S A} (f : S -> A) : M S A := fun s => Ok (f s) s.
Definition modify {S} (f : S -> S) : M S unit := fun s => Ok tt (f s).
Definition of_option {S A} (what : string) (o : option A) : M S A :=
  match o with Some a => mret a | None => fault what end.
Definition when {S} (b : bool) (m : M S unit) : M S unit :=
  if b then m else mret tt.

(** The values of a counter [for(i = 0; i < n; i++)]. *)
Definition upto (n : Z) : list Z := Z.of_nat <$> seq 0 (Z.to_nat n).

(** A [for] loop whose body runs once for each element of a list. *)
Fixpoint for_each {S A} (f : A -> M S unit) (l : list A) : M S unit :=
  match l with
  | [] => mret tt
  | a :: l' => f a;; for_each f l'
  end.

(** Running a computation on a component of a larger state. *)
Definition lift {S T A} (getter : T -> S) (setter : S -> T -> T) (m : M S A) : M T A :=
  fun t =>
    match m (getter t) with
    | Ok a s => Ok a (setter s t)
    | Panic e => Panic e
    | Sleep c s => Sleep c (setter s t)
    | Fault e => Fault e
    end.

Lemma bind_Ok {S A B} (m : M S A) (f : A -> M S B) s b s'' :
  (m ≫= f) s = Ok b s'' <-> exists a s', m s = Ok a s' /\ f a s' = Ok b s''.
Proof.
  unfold mbind, M_bind. split.
  - destruct (m s) eqn:E; intros; try discriminate. eauto.
  - intros (a & s' & -> & H). exact H.
Qed.

Lemma bind_run {S A B} (m : M S A) (f : A -> M S B) s a s' :
  m s = Ok a s' -> (m ≫= f) s = f a s'.
Proof. unfold mbind, M_bind. by intros ->. Qed.

Lemma bind_Panic {S A B} (m : M S A) (f : A -> M S B) s e :
  m s = Panic e -> (m ≫= f) s = Panic e.
Proof. unfold mbind, M_bind. by intros ->. Qed.

Lemma bind_Sleep {S A B} (m : M S A) (f : A -> M S B) s ch s' :
  m s = Sleep ch s' -> (m ≫= f) s = Sleep ch s'.
Proof. unfold mbind, M_bind. by intros ->. Qed.

Lemma lift_Ok {S T A} (g : T -> S) (st : S -> T -> T) (m : M S A) t a s' :
  m (g t) = Ok a s' -> lift g st m t = Ok a (st s' t).
Proof. unfold lift. by intros ->. Qed.

Lemma for_each_app {S A} (f : A -> M S unit) l1 l2 s :
  for_each f (l1 ++ l2) s = (for_each f l1;; for_each f l2) s.
Proof.
  revert s. induction l1 as [|a l1 IH]; intros s; [done|].
  cbn. unfold mbind, M_bind in *. destruct (f a s); try done.
Qed.

(** The rule for loops: an invariant indexed by the number of iterations done. *)
Lemma for_each_inv {S A} (f : A -> M S unit) (I : nat -> S -> Prop) l s :
  (forall i a s, l !! i = Some a -> I i s -> exists s', f a s = Ok tt s' /\ I (Datatypes.S i) s') ->
  I 0%nat s -> exists s', for_each f l s = Ok tt s' /\ I (length l) s'.
Proof.
  revert s I. induction l as [|a l IH]; intros s I Hf H0; [by exists s|].
  destruct (Hf 0%nat a s eq_refl H0) as (s1 & E1 & H1).
  destruct (IH s1 (fun i => I (Datatypes.S i))) as (s2 & E2 & H2); [|done|].
  - intros i a' s' Hi. apply (Hf (Datatypes.S i)). exact Hi.
  - exists s2. split; [|exact H2]. cbn. by rewrite (bind_run _ _ _ _ _ E1).
Qed.

(** The rule for loops that go through known states. *)
Lemma for_each_run {S A} (f : A -> M S unit) (st : nat -> S) l s s' :
  (forall i a, l !! i = Some a -> f a (st i) = Ok tt (st (Datatypes.S i))) ->
  s = st 0%nat -> s' = st (length l) -> for_each f l s = Ok tt s'.
Proof.
  intros Hf -> ->.
  destruct (for_each_inv f (fun i s => s = st i) l (st 0%nat)) as (s' & -> & ->); [|done..].
  intros i a s Hi ->. eauto.
Qed.

Lemma length_upto n : length (upto n) = Z.to_nat n.
Proof. unfold upto. by rewrite length_fmap, length_seq. Qed.

Lemma upto_S k : upto (Z.of_nat (S k)) = upto (Z.of_nat k) ++ [Z.of_nat k].
Proof. unfold upto. rewrite !Nat2Z.id, seq_S, fmap_app. done. Qed.

Lemma elem_of_upto n j : j ∈ upto n <-> 0 <= j < n.
Proof.
  unfold upto. rewrite list_elem_of_fmap. split.
  - intros (i & -> & Hi%elem_of_seq). lia.
  - intros Hj. exists (Z.to_nat j). rewrite elem_of_seq. lia.
Qed.

Lemma NoDup_upto n : NoDup (upto n).
Proof. unfold upto. apply (NoDup_fmap_2 Z.of_nat), NoDup_seq. Qed.

Lemma lookup_upto n i a : upto n !! i = Some a -> a = Z.of_nat i /\ a < n.
Proof.
  unfold upto. rewrite list_lookup_fmap, fmap_Some. intros (j & Hj & ->).
  apply lookup_seq in Hj. lia.
Qed.

(** ** Simulation of one machine by another

    [spec] is the machine a component promises; when [spec] faults nothing is
    promised. *)
Definition rsim {S T A} (R : S -> T -> Prop) (impl : res S A) (spec : res T A) : Prop :=
  match spec, impl with
  | Ok b t, Ok a s => a = b /\ R s t
  | Panic e', Panic e => e = e'
  | Sleep _ t, Sleep _ s => R s t
  | Fault _, _ => True
  | _, _ => False
  end.

Lemma rsim_weaken {S T A} (R R' : S -> T -> Prop) (impl : res S A) (spec : res T A) :
  (forall s t, R s t -> R' s t) -> rsim R impl spec -> rsim R' impl spec.
Proof. intros HR. destruct spec, impl; simpl; naive_solver. Qed.

Definition msim {S T A} (R : S -> T -> Prop) (impl : M S A) (spec : M T A) : Prop :=
  forall s t, R s t -> rsim R (impl s) (spec t).

Section simulation.
Context {S T : Type} (R : S -> T -> Prop).

Lemma msim_ret {A} (a : A) : msim R (mret a) (mret a).
Proof. intros s t H. by split. Qed.

Lemma msim_panic {A} e : msim (A:=A) R (panic e) (panic e).
Proof. by intros s t H. Qed.

Lemma msim_fault {A} (m : M S A) e : msim R m (fault e).
Proof. by intros s t H. Qed.

Lemma msim_bind {A B} (m : M S A) (m' : M T A) (f : A -> M S B) f' :
  msim R m m' -> (forall a, msim R (f a) (f' a)) -> msim R (m ≫= f) (m' ≫= f').
Proof.
  intros Hm Hf s t Hst. specialize (Hm s t Hst). unfold mbind, M_bind.
  destruct (m' t) eqn:E', (m s) eqn:E; simpl in Hm; try done.
  destruct Hm as [-> Hm]. by apply Hf.
Qed.

Lemma msim_Ok {A} (m : M S A) (m' : M T A) s t a t' :
  msim R m m' -> R s t -> m' t = Ok a t' -> exists s', m s = Ok a s' /\ R s' t'.
Proof.
  intros Hm Hst E. specialize (Hm s t Hst). rewrite E in Hm.
  destruct (m s); simpl in Hm; try done. destruct Hm as [-> Hm]. eauto.
Qed.

Lemma msim_for_each {A} (f : A -> M S unit) f' l :
  (forall a, msim R (f a) (f' a)) -> msim R (for_each f l) (for_each f' l).
Proof.
  intros Hf. induction l as [|a l IH]; [apply msim_ret|].
  apply msim_bind; [apply Hf|intros _; exact IH].
Qed.

End simulation.

(** Simulations compose. *)
Definition rel_comp {S T U} (R : S -> T -> Prop) (Q : T -> U -> Prop) (s : S) (u : U) : Prop :=
  exists t, R s t /\ Q t u.

Lemma msim_comp {S T U A} (R : S -> T -> Prop) (Q : T -> U -> Prop) (m1 : M S A) m2 (m3 : M U A) :
  msim R m1 m2 -> msim Q m2 m3 -> msim (rel_comp R Q) m1 m3.
Proof.
  intros H12 H23 s u (t & Hst & Htu). specialize (H12 s t Hst). specialize (H23 t u Htu).
  destruct (m3 u), (m2 t), (m1 s); simpl in *; try done; unfold rel_comp; naive_solver.
Qed.

Create HintDb msim.
#[export] Hint Resolve msim_ret msim_panic msim_fault msim_bind msim_for_each : msim.

(** ** Lists *)

(** [splice l off l'] overwrites the elements of [l] from [off] with [l']. *)
Definition splice {A} (l : list A) (off : nat) (l' : list A) : list A :=
  take off l ++ l' ++ drop (off + length l') l.

(** The [n] elements from [off]. *)
Definition slice {A} (l : list A) (off n : nat) : list A := take n (drop off l).

Section splice_lemmas.
Context {A : Type}.
Implicit Types l : list A.

Lemma length_splice l off l' :
  (off + length l' <= length l)%nat -> length (splice l off l') = length l.
Proof. intros. unfold splice. rewrite !length_app, length_take, length_drop. lia. Qed.

Lemma length_slice l off n :
  (off + n <= length l)%nat -> length (slice l off n) = n.
Proof. intros. unfold slice. rewrite length_take, length_drop. lia. Qed.

Lemma lookup_splice_in l off l' i :
  (off + length l' <= length l)%nat -> (off <= i < off + length l')%nat ->
  splice l off l' !! i = l' !! (i - off)%nat.
Proof.
  intros. unfold splice. rewrite lookup_app_r by (rewrite length_take; lia).
  rewrite length_take. rewrite lookup_app_l by lia. f_equal. lia.
Qed.

Lemma lookup_splice_out l off l' i :
  (off + length l' <= length l)%nat -> ~ (off <= i < off + length l')%nat ->
  splice l off l' !! i = l !! i.
Proof.
  intros. unfold splice. destruct (decide (i < off)%nat).
  - rewrite lookup_app_l by (rewrite length_take; lia). by rewrite lookup_take_lt.
  - rewrite lookup_app_r by (rewrite length_take; lia). rewrite length_take.
    rewrite lookup_app_r by lia. rewrite lookup_drop. f_equal. lia.
Qed.

Lemma slice_splice_eq l off l' :
  (off + length l' <= length l)%nat -> slice (splice l off l') off (length l') = l'.
Proof.
  intros. unfold slice, splice. rewrite drop_app_length'.
  - by rewrite take_app_length.
  - rewrite length_take. lia.
Qed.

Lemma lookup_slice l off n i :
  (i < n)%nat -> slice l off n !! i = l !! (off + i)%nat.
Proof. intros. unfold slice. rewrite lookup_take_lt by lia. by rewrite lookup_drop. Qed.

Lemma slice_splice_ne l off l' off2 n :
  (off + length l' <= length l)%nat ->
  (off2 + n <= off \/ off + length l' <= off2)%nat ->
  slice (splice l off l') off2 n = slice l off2 n.
Proof.
  intros Hl Hd. apply list_eq. intros i.
  destruct (decide (i < n)%nat) as [Hi|Hi].
  - rewrite !lookup_slice by done. apply lookup_splice_out; lia.
  - unfold slice. by rewrite !lookup_take_ge by lia.
Qed.

Lemma splice_id l off n :
  (off + n <= length l)%nat -> splice l off (slice l off n) = l.
Proof.
  intros. apply list_eq. intros i.
  pose proof (length_slice l off n H) as Hs.
  destruct (decide (off <= i < off + n)%nat).
  - rewrite lookup_splice_in by lia. rewrite lookup_slice by lia. f_equal. lia.
  - apply lookup_splice_out; lia.
Qed.

End splice_lemmas.
