(* ===== verification/Bytes.v ===== *)
(** Bytes and little-endian words in memory objects.

    An object in kernel memory (a disk block, a [struct dirent], a C string
    buffer) is the list of its bytes, each a [Z] in [0, 256).  [short] and
    [int] fields of a struct are little-endian words at a byte offset. *)

From stdpp Require Import prelude strings gmap list.
From S2P Require Import Prelude.

(** ** Little-endian words *)

Fixpoint le_split (n : nat) (z : Z) : list Z :=
  match n with
  | O => []
  | S n => z mod 256 :: le_split n (z / 256)
  end.

Fixpoint le_combine (l : list Z) : Z :=
  match l with
  | [] => 0
  | b :: l => b + 256 * le_combine l
  end.

Definition bytes_ok (l : list Z) : Prop := Forall (fun b => is_u8 b) l.

Lemma length_le_split n z : length (le_split n z) = n.
Proof. revert z. induction n; intros; simpl; auto. Qed.

Lemma le_split_ok n z : bytes_ok (le_split n z).
Proof.
  revert z. induction n; intros z; simpl; constructor.
  - by apply Z.mod_pos_bound.
  - apply IHn.
Qed.

Lemma le_combine_split n z : le_combine (le_split n z) = z mod 256 ^ Z.of_nat n.
Proof.
  revert z. induction n as [|n IH]; intros z.
  - simpl. by rewrite Z.mod_1_r.
  - cbn [le_split le_combine]. rewrite IH.
    rewrite Nat2Z.inj_succ, Z.pow_succ_r by lia.
    rewrite Z.rem_mul_r by lia. lia.
Qed.

Lemma le_combine_range l : bytes_ok l -> 0 <= le_combine l < 256 ^ Z.of_nat (length l).
Proof.
  induction 1 as [|b l Hb Hl IH]; [simpl; lia|].
  cbn [length le_combine]. rewrite Nat2Z.inj_succ, Z.pow_succ_r by lia. lia.
Qed.

Lemma le_split_combine l : bytes_ok l -> le_split (length l) (le_combine l) = l.
Proof.
  induction 1 as [|b l Hb Hl IH]; [done|].
  cbn [length le_combine le_split].
  replace (b + 256 * le_combine l) with (b + le_combine l * 256) by lia. f_equal.
  - rewrite Z.mod_add by lia. by apply Z.mod_small.
  - rewrite Z.div_add by lia. rewrite Z.div_small by lia. exact IH.
Qed.

(** ** Typed access to an object *)

Definition get_le (k : nat) (l : list Z) (off : nat) : Z := le_combine (slice l off k).
Definition set_le (k : nat) (l : list Z) (off : nat) (z : Z) : list Z :=
  splice l off (le_split k z).

(** [((uint * )l)[i]] *)
Definition get_word (l : list Z) (i : Z) : Z := get_le 4 l (Z.to_nat (4 * i)).
Definition set_word (l : list Z) (i : Z) (w : Z) : list Z := set_le 4 l (Z.to_nat (4 * i)) w.

Lemma length_set_le k l off z :
  (off + k <= length l)%nat -> length (set_le k l off z) = length l.
Proof. intros. unfold set_le. apply length_splice. by rewrite length_le_split. Qed.

Lemma get_set_le_eq k l off z :
  (off + k <= length l)%nat -> get_le k (set_le k l off z) off = z mod 256 ^ Z.of_nat k.
Proof.
  intros. unfold get_le, set_le.
  assert (slice (splice l off (le_split k z)) off (length (le_split k z)) = le_split k z) as E
    by (apply slice_splice_eq; by rewrite length_le_split).
  rewrite length_le_split in E. rewrite E. apply le_combine_split.
Qed.

Lemma get_set_le_ne k k' l off off' z :
  (off + k <= length l)%nat -> (off' + k' <= off \/ off + k <= off')%nat ->
  get_le k' (set_le k l off z) off' = get_le k' l off'.
Proof.
  intros. unfold get_le, set_le. rewrite slice_splice_ne; rewrite ?length_le_split; auto.
Qed.

Lemma get_le_splice k l off l' j :
  (off + length l' <= length l)%nat -> (j + k <= length l')%nat ->
  get_le k (splice l off l') (off + j) = le_combine (slice l' j k).
Proof.
  intros Hl Hj. unfold get_le. f_equal. apply list_eq. intros x.
  destruct (decide (x < k)%nat).
  - rewrite !lookup_slice, lookup_splice_in by lia. f_equal. lia.
  - unfold slice. by rewrite !lookup_take_ge by lia.
Qed.

Lemma bytes_ok_slice l off n : bytes_ok l -> bytes_ok (slice l off n).
Proof. intros. unfold slice. by apply Forall_take, Forall_drop. Qed.

Lemma bytes_ok_splice l off l' : bytes_ok l -> bytes_ok l' -> bytes_ok (splice l off l').
Proof.
  intros. unfold splice, bytes_ok. rewrite !Forall_app.
  repeat split; auto using Forall_take, Forall_drop.
Qed.

Lemma bytes_ok_set_le k l off z : bytes_ok l -> bytes_ok (set_le k l off z).
Proof. intros. by apply bytes_ok_splice, le_split_ok. Qed.

Lemma get_le_range k l off :
  bytes_ok l -> (off + k <= length l)%nat -> 0 <= get_le k l off < 256 ^ Z.of_nat k.
Proof.
  intros Hl Hk. unfold get_le. pose proof (le_combine_range (slice l off k)) as H.
  rewrite length_slice in H by done. by apply H, bytes_ok_slice.
Qed.

Lemma length_set_word l i w :
  0 <= i -> 4 * i + 4 <= Z.of_nat (length l) -> length (set_word l i w) = length l.
Proof. intros. apply length_set_le. lia. Qed.

Lemma get_set_word_eq l i w :
  0 <= i -> 4 * i + 4 <= Z.of_nat (length l) -> is_u32 w ->
  get_word (set_word l i w) i = w.
Proof.
  intros. unfold get_word, set_word. rewrite get_set_le_eq by lia.
  by apply Z.mod_small.
Qed.

Lemma get_set_word_ne l i j w :
  0 <= i -> 0 <= j -> 4 * i + 4 <= Z.of_nat (length l) -> i <> j ->
  get_word (set_word l i w) j = get_word l j.
Proof. intros. unfold get_word, set_word. apply get_set_le_ne; lia. Qed.

Lemma bytes_ok_set_word l i w : bytes_ok l -> bytes_ok (set_word l i w).
Proof. apply bytes_ok_set_le. Qed.

Lemma get_word_range l i :
  bytes_ok l -> 0 <= i -> 4 * i + 4 <= Z.of_nat (length l) -> is_u32 (get_word l i).
Proof. intros. apply (get_le_range 4 l); [done|lia]. Qed.

Lemma bytes_ok_replicate n : bytes_ok (replicate n 0).
Proof. apply Forall_replicate. lia. Qed.

#[export] Hint Resolve le_split_ok bytes_ok_slice bytes_ok_splice bytes_ok_set_le
  bytes_ok_set_word bytes_ok_replicate : machine.

Arguments get_word : simpl never.
Arguments set_word : simpl never.
Arguments get_le : simpl never.
Arguments set_le : simpl never.
