(* ===== verification/BlockCache.v ===== *)
(** The buffer cache as its clients see it.

    [acache] is the abstract machine bio.c promises to log.c and fs.c: the
    logical contents of every sector, the contents of the disk itself, which
    sectors are locked by a [bread] not yet undone by [brelse], and which are
    pinned by [B_DIRTY] until they are written.  [ac_writes] is the history of
    the sector writes that reached the disk; crash reasoning looks at its
    prefixes.

    [BlockCache] is the interface log.c and fs.c are written against, and
    [BlockCacheSpec] the promise: an implementation is simulated by [acache].
    Bio.v discharges it for the cache of bio.c over the disk of memide.c. *)

From stdpp Require Import prelude strings gmap list.
From S2P Require Import Prelude Param.

Abbreviation block := (list Z).

(** Operations on the buffer of a sector.  [bread] locks it and returns its
    data; [bset] stores into [b->data]; [bdirty] is [b->flags |= B_DIRTY]. *)
Class BlockCache (C : Type) := {
  bread : Z -> Z -> M C block;
  bset : Z -> block -> M C unit;
  bdirty : Z -> M C unit;
  bwrite : Z -> M C unit;
  brelse : Z -> M C unit
}.

Record acache := ACache {
  ac_mem : gmap Z block;
  ac_disk : gmap Z block;
  ac_busy : gset Z;
  ac_dirty : gset Z;
  ac_writes : list (Z * block)
}.

Definition a_full (c : acache) : bool :=
  NBUF <=? Z.of_nat (size (ac_busy c ∪ ac_dirty c)).

Definition a_bread (dev sector : Z) : M acache block := fun c =>
  if negb (dev =? 1) then
    if a_full c then Panic "bget: no buffers"
    else Panic "iderw: request not for disk 1"
  else if decide (sector ∈ ac_busy c) then Sleep (ChBuf sector) c
  else if (bool_decide (sector ∉ ac_dirty c) && a_full c)%bool then Panic "bget: no buffers"
  else match ac_mem c !! sector with
       | None => Panic "iderw: sector out of range"
       | Some d => Ok d (ACache (ac_mem c) (ac_disk c) ({[sector]} ∪ ac_busy c)
                           (ac_dirty c) (ac_writes c))
       end.

Definition a_bset (sector : Z) (d : block) : M acache unit := fun c =>
  if decide (sector ∈ ac_busy c) then
    Ok tt (ACache (<[sector := d]> (ac_mem c)) (ac_disk c) (ac_busy c) (ac_dirty c) (ac_writes c))
  else Fault "buffer not held".

Definition a_bdirty (sector : Z) : M acache unit := fun c =>
  if decide (sector ∈ ac_busy c) then
    Ok tt (ACache (ac_mem c) (ac_disk c) (ac_busy c) ({[sector]} ∪ ac_dirty c) (ac_writes c))
  else Fault "buffer not held".

Definition a_bwrite (sector : Z) : M acache unit := fun c =>
  match decide (sector ∈ ac_busy c), ac_mem c !! sector with
  | left _, Some d =>
      Ok tt (ACache (ac_mem c) (<[sector := d]> (ac_disk c)) (ac_busy c)
               (ac_dirty c ∖ {[sector]}) (ac_writes c ++ [(sector, d)]))
  | _, _ => Fault "buffer not held"
  end.

(** A buffer changed but neither written nor pinned may be recycled at any
    time after [brelse]: nothing is promised to a client that does that. *)
Definition a_brelse (sector : Z) : M acache unit := fun c =>
  if decide (sector ∈ ac_busy c) then
    if decide (sector ∈ ac_dirty c \/ ac_mem c !! sector = ac_disk c !! sector) then
      Ok tt (ACache (ac_mem c) (ac_disk c) (ac_busy c ∖ {[sector]}) (ac_dirty c) (ac_writes c))
    else Fault "unlogged change released"
  else Fault "buffer not held".

#[export] Instance acache_BlockCache : BlockCache acache := {|
  bread := a_bread; bset := a_bset; bdirty := a_bdirty;
  bwrite := a_bwrite; brelse := a_brelse
|}.

(** What an implementation owes its clients. *)
Class BlockCacheSpec (C : Type) `{BlockCache C} := {
  bc_rep : C -> acache -> Prop;
  bread_sim dev sector : msim bc_rep (bread dev sector) (a_bread dev sector);
  bset_sim sector d : msim bc_rep (bset sector d) (a_bset sector d);
  bdirty_sim sector : msim bc_rep (bdirty sector) (a_bdirty sector);
  bwrite_sim sector : msim bc_rep (bwrite sector) (a_bwrite sector);
  brelse_sim sector : msim bc_rep (brelse sector) (a_brelse sector)
}.

(** The cache after a reboot on disk [d]. *)
Definition boot (d : gmap Z block) : acache := ACache d d ∅ ∅ [].

(** The disk after a sequence of sector writes. *)
Definition apply_writes (ws : list (Z * block)) (d : gmap Z block) : gmap Z block :=
  foldl (fun d '(b, x) => <[b := x]> d) d ws.

Lemma apply_writes_app ws1 ws2 d :
  apply_writes (ws1 ++ ws2) d = apply_writes ws2 (apply_writes ws1 d).
Proof. apply foldl_app. Qed.

Lemma apply_writes_snoc ws b x d :
  apply_writes (ws ++ [(b, x)]) d = <[b := x]> (apply_writes ws d).
Proof. by rewrite apply_writes_app. Qed.

Lemma apply_writes_ne ws d b : b ∉ ws.*1 -> apply_writes ws d !! b = d !! b.
Proof.
  revert d. induction ws as [|[b' x] ws IH]; intros d Hb; [done|].
  simpl in *. rewrite not_elem_of_cons in Hb. destruct Hb as [Hne Hb].
  unfold apply_writes in *. simpl. rewrite IH by done. by rewrite lookup_insert_ne.
Qed.

Lemma apply_writes_in ws d b x :
  NoDup ws.*1 -> (b, x) ∈ ws -> apply_writes ws d !! b = Some x.
Proof.
  revert d. induction ws as [|[b' x'] ws IH]; intros d Hnd Hin; [by apply elem_of_nil in Hin|].
  simpl in Hnd. apply NoDup_cons in Hnd as [Hnin Hnd].
  apply elem_of_cons in Hin as [[= -> ->]|Hin].
  - change (apply_writes ws (<[b' := x']> d) !! b' = Some x').
    rewrite apply_writes_ne by done. by rewrite lookup_insert_eq.
  - by apply IH.
Qed.

(** Two disks that differ only where they are written become equal. *)
Lemma apply_writes_agree ws d1 d2 :
  (forall b, b ∉ ws.*1 -> d1 !! b = d2 !! b) -> apply_writes ws d1 = apply_writes ws d2.
Proof.
  revert d1 d2. induction ws as [|[b x] ws IH]; intros d1 d2 H.
  - apply map_eq. intros b. apply H. apply not_elem_of_nil.
  - change (apply_writes ws (<[b := x]> d1) = apply_writes ws (<[b := x]> d2)).
    apply IH. intros b' Hb'. destruct (decide (b = b')) as [->|Hne].
    + by rewrite !lookup_insert_eq.
    + rewrite !lookup_insert_ne by done. apply H. simpl. rewrite not_elem_of_cons. auto.
Qed.

Lemma apply_writes_dom ws d :
  (forall b, b ∈ ws.*1 -> is_Some (d !! b)) -> dom (apply_writes ws d) = dom d.
Proof.
  revert d. induction ws as [|[b x] ws IH]; intros d H; [done|].
  assert (is_Some (d !! b)) as Hb by (apply H; simpl; apply elem_of_cons; auto).
  change (dom (apply_writes ws (<[b := x]> d)) = dom d). rewrite IH.
  - rewrite dom_insert_L. apply elem_of_dom in Hb. clear -Hb. set_solver.
  - intros b' Hb'. destruct (decide (b = b')) as [->|]; simplify_map_eq; eauto.
    apply H. simpl. apply elem_of_cons. auto.
Qed.
