(* ===== verification/LogCrash.v ===== *)
(** Crash safety of the log. *)

From stdpp Require Import prelude strings gmap list.
From S2P Require Import Prelude Bytes Param BlockCache Log.

Abbreviation st l mem disk busy dirty ws wk :=
  (LState l (ACache mem disk busy dirty ws) wk).

(** Runs one operation of the buffer cache at the head of a program. *)
Ltac io_step :=
  erewrite bind_run;
  [ | first [ apply io_bread | apply io_bset | apply io_bdirty | apply io_bwrite
            | apply io_brelse ] ].

Lemma set_remove_both (a b : Z) : ({[a]} ∪ ({[b]} ∪ (∅ : gset Z))) ∖ {[a]} ∖ {[b]} = ∅.
Proof. set_solver. Qed.

Lemma set_remove_both' (a b : Z) : ({[a]} ∪ ({[b]} ∪ (∅ : gset Z))) ∖ {[b]} ∖ {[a]} = ∅.
Proof. set_solver. Qed.

(** Room for one more buffer beside the pinned ones. *)
Lemma size_one_more (a : Z) (dirty : gset Z) :
  Z.of_nat (size ({[a]} ∪ (∅ : gset Z) ∪ dirty)) <= Z.of_nat (size dirty) + 1.
Proof.
  assert (size ({[a]} ∪ (∅ : gset Z) ∪ dirty) <= size ({[a]} : gset Z) + size dirty)%nat.
  { rewrite union_empty_r_L. rewrite size_union_alt.
    pose proof (subseteq_size (dirty ∖ {[a]}) dirty). set_solver by lia. }
  rewrite size_singleton in H. lia.
Qed.

Section copies.
Context (l : log) (mem disk : gmap Z block) (dirty : gset Z).
Context (ws : list (Z * block)) (wk : list chan).

(** The body of the loop of [write_log]. *)
Lemma copy_to_log t f old d :
  t <> f -> t ∉ dirty -> f ∈ dirty -> Z.of_nat (size dirty) < NBUF ->
  mem !! t = Some old -> mem !! f = Some d ->
  (io (bread 1 t);; from ← io (bread 1 f); io (bset t from);; io (bwrite t);;
   io (brelse f);; io (brelse t)) (st l mem disk ∅ dirty ws wk) =
  Ok tt (st l (<[t := d]> mem) (<[t := d]> disk) ∅ dirty (ws ++ [(t, d)]) wk).
Proof.
  intros Hne Ht Hf Hsz Hmt Hmf.
  io_step; [|set_solver|rewrite union_empty_l_L; auto|exact Hmt].
  io_step; [|set_solver|auto|exact Hmf].
  io_step; [|set_solver].
  io_step; [|set_solver|by simplify_map_eq].
  replace (dirty ∖ {[t]}) with dirty by set_solver.
  io_step; [|set_solver|auto].
  rewrite io_brelse; [|set_solver|right; by simplify_map_eq].
  by rewrite set_remove_both.
Qed.

(** The body of the loop of [install_trans]. *)
Lemma copy_from_log s t d old :
  s <> t -> s ∉ dirty ->
  (t ∈ dirty /\ Z.of_nat (size dirty) < NBUF \/ Z.of_nat (size dirty) + 1 < NBUF) ->
  mem !! s = Some d -> disk !! s = Some d -> mem !! t = Some old ->
  (lbuf ← io (bread 1 s); io (bread 1 t);; io (bset t lbuf);; io (bwrite t);;
   io (brelse s);; io (brelse t)) (st l mem disk ∅ dirty ws wk) =
  Ok tt (st l (<[t := d]> mem) (<[t := d]> disk) ∅ (dirty ∖ {[t]}) (ws ++ [(t, d)]) wk).
Proof.
  intros Hne Hs Hsz Hms Hds Hmt. pose proof (size_one_more s dirty).
  io_step; [|set_solver|rewrite union_empty_l_L; right; lia|exact Hms].
  io_step; [|set_solver|destruct Hsz as [[? _]|?]; [auto|right; lia]|exact Hmt].
  io_step; [|set_solver].
  io_step; [|set_solver|by simplify_map_eq].
  io_step; [|set_solver|right; by simplify_map_eq].
  rewrite io_brelse; [|set_solver|right; by simplify_map_eq].
  by rewrite set_remove_both'.
Qed.

(** [write_head] after reading the header block [h]. *)
Lemma write_head_run h :
  lg_dev l = 1 -> is_u32 (lg_start l) -> lg_start l ∉ dirty ->
  Z.of_nat (size dirty) < NBUF -> mem !! lg_start l = Some h ->
  write_head (st l mem disk ∅ dirty ws wk) =
  Ok tt (st l (<[lg_start l := store_head l h]> mem) (<[lg_start l := store_head l h]> disk)
           ∅ dirty (ws ++ [(lg_start l, store_head l h)]) wk).
Proof.
  intros Hdev Hr Hd Hsz Hm. unfold write_head. erewrite bind_run; [|reflexivity].
  cbn [ls_log]. rewrite Hdev, (u32_small _ Hr).
  io_step; [|set_solver|rewrite union_empty_l_L; auto|exact Hm].
  io_step; [|set_solver].
  io_step; [|set_solver|by simplify_map_eq].
  replace (dirty ∖ {[lg_start l]}) with dirty by set_solver.
  rewrite io_brelse; [|set_solver|right; by simplify_map_eq].
  do 3 f_equal. set_solver.
Qed.

End copies.

(** ** The header block *)

Lemma foldl_set_word_length d (f : Z -> Z) n :
  0 <= n -> 4 * n + 4 <= Z.of_nat (length d) ->
  length (foldl (fun b i => set_word b (1 + i) (f i)) d (upto n)) = length d.
Proof.
  intros Hn Hl. unfold upto. rewrite <- (Z2Nat.id n) in Hl by done.
  induction (Z.to_nat n) as [|k IH]; [done|].
  rewrite seq_S, fmap_app, foldl_app. cbn [foldl fmap list_fmap].
  rewrite length_set_word; rewrite ?IH; lia.
Qed.

Lemma foldl_set_word_get d (f : Z -> Z) n j :
  0 <= n -> 4 * n + 4 <= Z.of_nat (length d) -> 0 <= j < n -> is_u32 (f j) ->
  get_word (foldl (fun b i => set_word b (1 + i) (f i)) d (upto n)) (1 + j) = f j.
Proof.
  intros Hn Hl Hj Hf. unfold upto. rewrite <- (Z2Nat.id n) in Hl, Hj by done.
  induction (Z.to_nat n) as [|k IH]; [lia|].
  rewrite seq_S, fmap_app, foldl_app. cbn [foldl fmap list_fmap].
  pose proof (foldl_set_word_length d f (Z.of_nat k)) as Hlen.
  unfold upto in Hlen. rewrite Nat2Z.id in Hlen.
  destruct (decide (j = Z.of_nat k)) as [->|Hne].
  - rewrite get_set_word_eq; [done|lia|rewrite Hlen; lia|done].
  - rewrite get_set_word_ne; [apply IH; lia|lia|lia|rewrite Hlen; lia|lia].
Qed.

Lemma foldl_set_word_get0 d (f : Z -> Z) n :
  0 <= n -> 4 * n + 4 <= Z.of_nat (length d) ->
  get_word (foldl (fun b i => set_word b (1 + i) (f i)) d (upto n)) 0 = get_word d 0.
Proof.
  intros Hn Hl. unfold upto. rewrite <- (Z2Nat.id n) in Hl by done.
  induction (Z.to_nat n) as [|k IH]; [done|].
  rewrite seq_S, fmap_app, foldl_app. cbn [foldl fmap list_fmap].
  pose proof (foldl_set_word_length d f (Z.of_nat k)) as Hlen.
  unfold upto in Hlen. rewrite Nat2Z.id in Hlen.
  rewrite get_set_word_ne; [apply IH; lia|lia|lia|rewrite Hlen; lia|lia].
Qed.

Section header.
Context (l : log) (h : block).
Hypothesis Hn : 0 <= lh_n l <= LOGSIZE.
Hypothesis Hh : length h = Z.to_nat BSIZE.

Lemma store_head_length : length (store_head l h) = Z.to_nat BSIZE.
Proof.
  unfold store_head, LOGSIZE, BSIZE, MAXOPBLOCKS in *.
  rewrite foldl_set_word_length; rewrite ?length_set_word; lia.
Qed.

Lemma store_head_n : get_word (store_head l h) 0 = lh_n l.
Proof.
  unfold store_head, LOGSIZE, BSIZE, MAXOPBLOCKS in *.
  rewrite foldl_set_word_get0; rewrite ?length_set_word; try lia.
  rewrite get_set_word_eq; lia.
Qed.

Lemma store_head_sector j :
  0 <= j < lh_n l -> is_u32 (lh_sector l).[j] ->
  get_word (store_head l h) (1 + j) = (lh_sector l).[j].
Proof.
  intros. unfold store_head, LOGSIZE, BSIZE, MAXOPBLOCKS in *.
  rewrite (foldl_set_word_get _ (fun i => (lh_sector l).[i]));
    rewrite ?length_set_word; lia.
Qed.

End header.

(** ** The loops of a commit *)

Abbreviation sec l j := ((lh_sector l).[j]).

(** The sectors of the transaction. *)
Definition secs (l : log) : list Z := (fun j => sec l j) <$> upto (lh_n l).
Definition secset (l : log) : gset Z := list_to_set (secs l).

(** The writes of [write_log] and of [install_trans]. *)
Definition logw (l : log) (src : gmap Z block) (k : Z) : list (Z * block) :=
  (fun j => (lg_start l + j + 1, src !!! sec l j)) <$> upto k.
Definition homew (l : log) (src : gmap Z block) (k : Z) : list (Z * block) :=
  (fun j => (sec l j, src !!! (lg_start l + j + 1))) <$> upto k.

(** The log lies behind the home sectors; what is logged is distinct sectors
    in front of it; one buffer is left beside the pinned ones. *)
Record log_geom (l : log) : Prop := {
  geom_dev : lg_dev l = 1;
  geom_start : 2 <= lg_start l;
  geom_end : lg_start l + lg_size l < 2147483648;
  geom_n : 0 <= lh_n l <= LOGSIZE;
  geom_size : lh_n l < lg_size l;
  geom_buf : lh_n l < NBUF;
  geom_len : length (lh_sector l) = Z.to_nat LOGSIZE;
  geom_home j : 0 <= j < lh_n l -> 2 <= sec l j < lg_start l;
  geom_inj i j : 0 <= i < lh_n l -> 0 <= j < lh_n l -> sec l i = sec l j -> i = j
}.

Lemma elem_of_secset l s : s ∈ secset l <-> exists j, 0 <= j < lh_n l /\ s = sec l j.
Proof.
  unfold secset, secs. rewrite elem_of_list_to_set, list_elem_of_fmap.
  split; intros (j & H1 & H2); exists j; rewrite elem_of_upto in *; naive_solver.
Qed.

Lemma NoDup_map_upto {A} (f : Z -> A) n :
  (forall i j, 0 <= i < n -> 0 <= j < n -> f i = f j -> i = j) -> NoDup (f <$> upto n).
Proof.
  intros Hf. apply NoDup_fmap_2_strong, NoDup_upto.
  intros x y ?%elem_of_upto ?%elem_of_upto. auto.
Qed.

Lemma NoDup_secs l : log_geom l -> NoDup (secs l).
Proof. intros G. apply NoDup_map_upto, (geom_inj l G). Qed.

Lemma size_secset l : log_geom l -> Z.of_nat (size (secset l)) = lh_n l.
Proof.
  intros G. unfold secset. rewrite size_list_to_set by by apply NoDup_secs.
  unfold secs. rewrite length_fmap, length_upto. pose proof (geom_n l G). lia.
Qed.

Lemma logw_fst l src k b : b ∈ (logw l src k).*1 -> lg_start l < b <= lg_start l + k.
Proof.
  unfold logw. rewrite <- list_fmap_compose, list_elem_of_fmap.
  intros (j & -> & Hj%elem_of_upto). simpl. lia.
Qed.

Lemma homew_fst l src k b :
  b ∈ (homew l src k).*1 -> exists j, 0 <= j < k /\ b = sec l j.
Proof.
  unfold homew. rewrite <- list_fmap_compose, list_elem_of_fmap.
  intros (j & -> & Hj%elem_of_upto). simpl. eauto.
Qed.

Lemma NoDup_logw l src k : NoDup (logw l src k).*1.
Proof.
  unfold logw. rewrite <- list_fmap_compose. apply NoDup_map_upto. simpl. lia.
Qed.

Lemma NoDup_homew l src k : log_geom l -> k <= lh_n l -> NoDup (homew l src k).*1.
Proof.
  intros G Hk. unfold homew. rewrite <- list_fmap_compose. apply NoDup_map_upto.
  simpl. intros. apply (geom_inj l G); auto; lia.
Qed.

Lemma logw_S l src k :
  logw l src (Z.of_nat (S k)) =
  logw l src (Z.of_nat k) ++ [(lg_start l + Z.of_nat k + 1, src !!! sec l (Z.of_nat k))].
Proof. unfold logw. by rewrite upto_S, fmap_app. Qed.

Lemma homew_S l src k :
  homew l src (Z.of_nat (S k)) =
  homew l src (Z.of_nat k) ++ [(sec l (Z.of_nat k), src !!! (lg_start l + Z.of_nat k + 1))].
Proof. unfold homew. by rewrite upto_S, fmap_app. Qed.

Lemma lookup_total_some (m : gmap Z block) b : is_Some (m !! b) -> m !! b = Some (m !!! b).
Proof. intros [d Hd]. by rewrite Hd, (lookup_total_correct _ _ _ Hd). Qed.

Section loops.
Context (l : log) (G : log_geom l).

Lemma write_log_run mem disk ws wk :
  (forall j, 0 <= j < lh_n l -> is_Some (mem !! sec l j)) ->
  (forall b, lg_start l <= b < lg_start l + lg_size l -> is_Some (mem !! b)) ->
  write_log (st l mem disk ∅ (secset l) ws wk) =
  Ok tt (st l (apply_writes (logw l mem (lh_n l)) mem) (apply_writes (logw l mem (lh_n l)) disk)
           ∅ (secset l) (ws ++ logw l mem (lh_n l)) wk).
Proof.
  intros Hhome Hlog. destruct G. pose proof (size_secset l G) as Hsz.
  unfold write_log. erewrite bind_run; [|reflexivity]. cbn [ls_log].
  apply (for_each_run _ (fun i => st l (apply_writes (logw l mem (Z.of_nat i)) mem)
                       (apply_writes (logw l mem (Z.of_nat i)) disk) ∅ (secset l)
                       (ws ++ logw l mem (Z.of_nat i)) wk)).
  2:{ by rewrite app_nil_r. }
  2:{ by rewrite length_upto, Z2Nat.id by lia. }
  intros i a [-> Hi]%lookup_upto.
  pose proof (geom_home0 (Z.of_nat i)) as Hs. rewrite geom_dev0.
  rewrite !u32_small by lia. rewrite logw_S, !apply_writes_snoc, app_assoc.
  assert (forall b, ~ (lg_start l < b <= lg_start l + Z.of_nat i) ->
            apply_writes (logw l mem (Z.of_nat i)) mem !! b = mem !! b) as Hout.
  { intros b Hb. apply apply_writes_ne. by intros ?%logw_fst. }
  destruct (Hlog (lg_start l + Z.of_nat i + 1)) as [old Hold]; [lia|].
  apply copy_to_log with (old := old); [lia| | |lia|by rewrite Hout by lia|].
  - rewrite elem_of_secset. intros (j & Hj & E). pose proof (geom_home0 j). lia.
  - apply elem_of_secset. exists (Z.of_nat i). lia.
  - rewrite Hout by lia. apply lookup_total_some, Hhome. lia.
Qed.

(** Before iteration [i] of [install_trans] the first [i] sectors are no
    longer pinned. *)
Definition pinned_after (dirty : gset Z) (i : nat) : gset Z :=
  dirty ∖ list_to_set ((fun j => sec l j) <$> upto (Z.of_nat i)).

Lemma pinned_after_S dirty i :
  pinned_after dirty i ∖ {[sec l (Z.of_nat i)]} = pinned_after dirty (S i).
Proof.
  unfold pinned_after. rewrite upto_S, fmap_app, list_to_set_app_L. set_solver.
Qed.

Lemma size_pinned_after dirty i : (size (pinned_after dirty i) <= size dirty)%nat.
Proof. apply subseteq_size. unfold pinned_after. set_solver. Qed.

Lemma install_trans_run mem disk dirty ws wk :
  dirty = secset l \/ dirty = ∅ ->
  (forall j, 0 <= j < lh_n l -> is_Some (mem !! sec l j)) ->
  (forall b, lg_start l < b <= lg_start l + lh_n l ->
     is_Some (mem !! b) /\ disk !! b = mem !! b) ->
  install_trans (st l mem disk ∅ dirty ws wk) =
  Ok tt (st l (apply_writes (homew l mem (lh_n l)) mem) (apply_writes (homew l mem (lh_n l)) disk)
           ∅ ∅ (ws ++ homew l mem (lh_n l)) wk).
Proof.
  intros Hdirty Hhome Hlog. destruct G. pose proof (size_secset l G) as Hsz.
  unfold install_trans. erewrite bind_run; [|reflexivity]. cbn [ls_log].
  apply (for_each_run _ (fun i => st l (apply_writes (homew l mem (Z.of_nat i)) mem)
                       (apply_writes (homew l mem (Z.of_nat i)) disk) ∅ (pinned_after dirty i)
                       (ws ++ homew l mem (Z.of_nat i)) wk)).
  2:{ rewrite app_nil_r. unfold pinned_after. simpl. by rewrite difference_empty_L. }
  2:{ rewrite length_upto, Z2Nat.id by lia. do 3 f_equal. unfold pinned_after, secset in *.
      rewrite Z2Nat.id by lia. fold (secs l). set_solver. }
  intros i a [-> Hi]%lookup_upto.
  pose proof (geom_home0 (Z.of_nat i)) as Hs. rewrite geom_dev0.
  rewrite !u32_small by lia. rewrite homew_S, !apply_writes_snoc, app_assoc.
  rewrite <- pinned_after_S.
  assert (forall m b, (lg_start l <= b \/ b = sec l (Z.of_nat i)) ->
            apply_writes (homew l mem (Z.of_nat i)) m !! b = m !! b) as Hout.
  { intros m b Hb. apply apply_writes_ne. intros (j & Hj & ->)%homew_fst.
    pose proof (geom_home0 j). destruct Hb as [|Hb]; [lia|].
    apply geom_inj0 in Hb; lia. }
  destruct (Hhome (Z.of_nat i)) as [old Hold]; [lia|].
  destruct (Hlog (lg_start l + Z.of_nat i + 1)) as [Hsrc Hdsk]; [lia|].
  apply copy_from_log with (old := old); [lia| | | | |].
  - unfold pinned_after. intros [Hin _]%elem_of_difference. destruct Hdirty as [-> | ->]; [|set_solver].
    apply elem_of_secset in Hin as (j & Hj & E). pose proof (geom_home0 j). lia.
  - pose proof (size_pinned_after dirty i). destruct Hdirty as [-> | ->].
    + left. split; [|lia]. unfold pinned_after. apply elem_of_difference. split.
      * apply elem_of_secset. exists (Z.of_nat i). lia.
      * rewrite elem_of_list_to_set, list_elem_of_fmap.
        intros (j & E & Hj%elem_of_upto). apply geom_inj0 in E; lia.
    + right. rewrite size_empty in *. unfold NBUF, MAXOPBLOCKS. lia.
  - rewrite Hout by lia. by apply lookup_total_some.
  - rewrite Hout by lia. rewrite Hdsk. by apply lookup_total_some.
  - rewrite Hout by auto. exact Hold.
Qed.

End loops.

(** ** A whole commit *)

(** Sectors outside the log region. *)
Definition home (l : log) (b : Z) : Prop :=
  ~ (lg_start l <= b < lg_start l + lg_size l).

(** The log between operations: what is pinned is what is logged, everything
    else in the cache agrees with the disk, the header on disk is empty and
    the superblock describes the log region. *)
Record log_inv (s : alog) : Prop := {
  inv_geom : log_geom (ls_log s);
  inv_busy : ac_busy (ls_cache s) = ∅;
  inv_dirty : ac_dirty (ls_cache s) = secset (ls_log s);
  inv_clean b : b ∉ secset (ls_log s) ->
    ac_mem (ls_cache s) !! b = ac_disk (ls_cache s) !! b;
  inv_len b d : ac_mem (ls_cache s) !! b = Some d -> length d = Z.to_nat BSIZE;
  inv_dlen b d : ac_disk (ls_cache s) !! b = Some d -> length d = Z.to_nat BSIZE;
  inv_secs j : 0 <= j < lh_n (ls_log s) ->
    is_Some (ac_mem (ls_cache s) !! sec (ls_log s) j) /\
    is_Some (ac_disk (ls_cache s) !! sec (ls_log s) j);
  inv_region b : lg_start (ls_log s) <= b < lg_start (ls_log s) + lg_size (ls_log s) ->
    is_Some (ac_mem (ls_cache s) !! b);
  inv_head : get_word (ac_disk (ls_cache s) !!! lg_start (ls_log s)) 0 = 0;
  inv_super : exists d, ac_disk (ls_cache s) !! 1 = Some d /\
    sb_size (superblock_of d) - sb_nlog (superblock_of d) = lg_start (ls_log s) /\
    sb_nlog (superblock_of d) = lg_size (ls_log s)
}.

Lemma geom_set_n l n : log_geom l -> 0 <= n <= lh_n l -> log_geom (set_n n l).
Proof.
  intros [] Hn. constructor; simpl; auto; try lia.
  - intros j Hj. apply geom_home0. lia.
  - intros i j Hi Hj. apply geom_inj0; lia.
Qed.

(** What [install_trans] writes during a commit. *)
Definition homev (l : log) (mem : gmap Z block) : list (Z * block) :=
  (fun j => (sec l j, mem !!! sec l j)) <$> upto (lh_n l).

Definition head1 (l : log) (mem : gmap Z block) : block :=
  store_head l (mem !!! lg_start l).
Definition head2 (l : log) (mem : gmap Z block) : block :=
  store_head (set_n 0 l) (head1 l mem).

(** The sector writes of a commit, in order. *)
Definition commit_writes (l : log) (mem : gmap Z block) : list (Z * block) :=
  logw l mem (lh_n l) ++ (lg_start l, head1 l mem) ::
  homev l mem ++ [(lg_start l, head2 l mem)].

Lemma homev_fst l mem b : b ∈ (homev l mem).*1 <-> b ∈ secset l.
Proof.
  unfold homev. rewrite <- list_fmap_compose, list_elem_of_fmap, elem_of_secset.
  split; intros (j & H1 & H2); exists j; rewrite elem_of_upto in *; naive_solver.
Qed.

Lemma NoDup_homev l mem : log_geom l -> NoDup (homev l mem).*1.
Proof.
  intros G. unfold homev. rewrite <- list_fmap_compose. apply NoDup_map_upto.
  simpl. apply (geom_inj l G).
Qed.

Lemma homew_homev l src mem :
  (forall j, 0 <= j < lh_n l -> src !! (lg_start l + j + 1) = Some (mem !!! sec l j)) ->
  homew l src (lh_n l) = homev l mem.
Proof.
  intros Hsrc. unfold homew, homev. apply list_fmap_ext.
  intros i j [-> Hi]%lookup_upto. f_equal. apply lookup_total_correct, Hsrc. lia.
Qed.

Lemma lookup_logw l mem d j :
  0 <= j < lh_n l ->
  apply_writes (logw l mem (lh_n l)) d !! (lg_start l + j + 1) = Some (mem !!! sec l j).
Proof.
  intros Hj. apply apply_writes_in; [apply NoDup_logw|].
  unfold logw. apply list_elem_of_fmap. exists j. by rewrite elem_of_upto.
Qed.

Lemma lookup_homev l mem d b :
  log_geom l -> b ∈ secset l -> apply_writes (homev l mem) d !! b = Some (mem !!! b).
Proof.
  intros G Hb. apply apply_writes_in; [by apply NoDup_homev|].
  unfold homev. apply list_elem_of_fmap. apply elem_of_secset in Hb as (j & Hj & ->).
  exists j. by rewrite elem_of_upto.
Qed.

Lemma secset_home l b : log_geom l -> b ∈ secset l -> 2 <= b < lg_start l.
Proof. intros G (j & Hj & ->)%elem_of_secset. by apply (geom_home l G). Qed.

Lemma commit_run s :
  log_inv s -> 0 < lh_n (ls_log s) ->
  let l := ls_log s in
  let c := ls_cache s in
  let W := commit_writes l (ac_mem c) in
  commit s = Ok tt (LState (set_n 0 l)
    (ACache (apply_writes W (ac_mem c)) (apply_writes W (ac_disk c)) ∅ ∅ (ac_writes c ++ W))
    (ls_wakeups s)).
Proof.
  intros I Hn l c W. destruct s as [l0 [mem disk busy dirty ws] wk].
  subst l c. destruct I as [G Hbusy Hdirty Hclean Hlen _ Hsecs Hreg Hhead _].
  cbn [ls_log ls_cache ac_mem ac_disk ac_busy ac_dirty ac_writes ls_wakeups] in *.
  subst busy dirty. pose proof (size_secset l0 G) as Hsz. destruct (G).
  assert (is_u32 (lg_start l0)) as Hu by lia.
  assert (lg_start l0 ∉ secset l0) as Hnin by (intros ?%secset_home; [lia|done]).
  assert (mem !! lg_start l0 = Some (mem !!! lg_start l0)) as Hh
    by (apply lookup_total_some, Hreg; lia).
  unfold commit. erewrite bind_run; [|reflexivity]. cbn [ls_log].
  destruct (Z.ltb_spec 0 (lh_n l0)); [|lia].
  erewrite bind_run; [|apply write_log_run; naive_solver].
  erewrite bind_run.
  2:{ apply write_head_run; [done|done|done|lia|].
      rewrite apply_writes_ne; [exact Hh|]. intros ?%logw_fst. lia. }
  fold (head1 l0 mem).
  erewrite bind_run.
  2:{ apply install_trans_run; [done|by left| |].
      - intros j Hj. pose proof (geom_home0 j Hj).
        rewrite lookup_insert_ne by lia. rewrite apply_writes_ne; [apply Hsecs, Hj|].
        intros ?%logw_fst. lia.
      - intros b Hb. rewrite !lookup_insert_ne by lia.
        replace b with (lg_start l0 + (b - lg_start l0 - 1) + 1) by lia.
        rewrite !lookup_logw by lia. eauto. }
  rewrite (homew_homev _ _ mem).
  2:{ intros j Hj. rewrite lookup_insert_ne by lia. by apply lookup_logw. }
  erewrite bind_run; [|reflexivity]. cbn [ls_log ls_cache ls_wakeups].
  rewrite (write_head_run (set_n 0 l0) _ _ _ _ _ (head1 l0 mem)); [|done|done|set_solver| |].
  - cbn [lg_start set_n]. fold (head2 l0 mem). subst W. unfold commit_writes.
    rewrite !(cons_middle (lg_start l0, head1 l0 mem)), !apply_writes_app, !app_assoc, app_nil_r. done.
  - rewrite size_empty. unfold NBUF, MAXOPBLOCKS. lia.
  - cbn [lg_start set_n]. rewrite apply_writes_ne; [by rewrite lookup_insert_eq|].
    rewrite homev_fst. done.
Qed.

(** ** Recovery *)

(** [read_head]'s copy of the sector numbers. *)
Definition load_sectors (h : block) (n : Z) (ss : list Z) : list Z :=
  foldl (fun ss i => <[Z.to_nat i := s32 (get_word h (1 + i))]> ss) ss (upto n).

Lemma load_sectors_S h k ss :
  load_sectors h (Z.of_nat (S k)) ss =
  <[k := s32 (get_word h (1 + Z.of_nat k))]> (load_sectors h (Z.of_nat k) ss).
Proof. unfold load_sectors. rewrite upto_S, foldl_app. simpl. by rewrite Nat2Z.id. Qed.

Lemma load_sectors_length h k ss : length (load_sectors h (Z.of_nat k) ss) = length ss.
Proof.
  unfold load_sectors. induction k as [|k IH]; [done|].
  rewrite upto_S, foldl_app. simpl. by rewrite length_insert.
Qed.

Lemma load_sectors_get h k ss j :
  (k <= length ss)%nat -> 0 <= j < Z.of_nat k ->
  (load_sectors h (Z.of_nat k) ss).[j] = s32 (get_word h (1 + j)).
Proof.
  intros Hk Hj. induction k as [|k IH]; [lia|].
  pose proof (load_sectors_length h k ss) as Hlen.
  unfold load_sectors in *. rewrite upto_S, foldl_app. simpl. rewrite Nat2Z.id.
  rewrite nth_lookup. destruct (decide (j = Z.of_nat k)) as [->|Hne].
  - rewrite Nat2Z.id, list_lookup_insert_eq; [done|]. rewrite Hlen. lia.
  - rewrite list_lookup_insert_ne by lia. rewrite <- nth_lookup. apply IH; lia.
Qed.

Lemma read_head_run l d ws wk h n :
  lg_dev l = 1 -> is_u32 (lg_start l) -> d !! lg_start l = Some h ->
  n = s32 (get_word h 0) -> 0 <= n <= LOGSIZE ->
  read_head (st l d d ∅ ∅ ws wk) =
  Ok tt (st (set_sectors (load_sectors h n (lh_sector l)) (set_n n l)) d d ∅ ∅ ws wk).
Proof.
  intros Hdev Hu Hh Hn Hr. unfold read_head. erewrite bind_run; [|reflexivity].
  cbn [ls_log]. rewrite Hdev, (u32_small _ Hu).
  io_step; [|set_solver|right; rewrite union_empty_l_L, size_empty; done|exact Hh].
  rewrite <- Hn. erewrite bind_run; [|reflexivity]. cbn [ls_log ls_cache ls_wakeups].
  erewrite bind_run.
  2:{ apply (for_each_run _ (fun i => st
        (set_sectors (load_sectors h (Z.of_nat i) (lh_sector l)) (set_n n l))
        d d ({[lg_start l]} ∪ ∅) ∅ ws wk)).
      - intros i a [-> Hi]%lookup_upto. destruct (Z.ltb_spec (Z.of_nat i) LOGSIZE); [|lia].
        unfold set_log, modify. cbn [ls_log ls_cache ls_wakeups].
        rewrite load_sectors_S. by rewrite Nat2Z.id.
      - by destruct l.
      - reflexivity. }
  rewrite length_upto, Z2Nat.id by lia.
  rewrite io_brelse; [|set_solver|by right].
  do 3 f_equal. set_solver.
Qed.

Lemma geom_ext l l' :
  log_geom l -> lg_dev l' = 1 -> lg_start l' = lg_start l -> lg_size l' = lg_size l ->
  lh_n l' = lh_n l -> length (lh_sector l') = Z.to_nat LOGSIZE ->
  (forall j, 0 <= j < lh_n l -> sec l' j = sec l j) -> log_geom l'.
Proof.
  intros [] Hd Hs Hz Hn Hl Hsec. constructor; rewrite ?Hs, ?Hz, ?Hn; auto.
  - intros j Hj. rewrite Hsec by done. auto.
  - intros i j Hi Hj. rewrite !Hsec by done. auto.
Qed.

(** A disk on which recovery will find the transaction of [l], logged under
    the header block [h]. *)
Record log_disk (l : log) (d : gmap Z block) (h : block) : Prop := {
  ld_geom : log_geom l;
  ld_head : d !! lg_start l = Some h;
  ld_n : get_word h 0 = lh_n l;
  ld_sector j : 0 <= j < lh_n l -> get_word h (1 + j) = sec l j;
  ld_secs j : 0 <= j < lh_n l -> is_Some (d !! sec l j);
  ld_region b : lg_start l <= b < lg_start l + lg_size l -> is_Some (d !! b);
  ld_len b x : d !! b = Some x -> length x = Z.to_nat BSIZE;
  ld_super : exists b, d !! 1 = Some b /\
    sb_size (superblock_of b) - sb_nlog (superblock_of b) = lg_start l /\
    sb_nlog (superblock_of b) = lg_size l
}.

Definition recovery_writes (l : log) (d : gmap Z block) (h : block) : list (Z * block) :=
  homew l d (lh_n l) ++ [(lg_start l, set_word h 0 0)].

(** The log state recovery leaves behind. *)
Definition recovered (l : log) (h : block) : log :=
  Log (lg_start l) (lg_size l) 0 0 ROOTDEV 0 (load_sectors h (lh_n l) (lh_sector log0)).

Lemma initlog_run l d h :
  log_disk l d h ->
  let W := recovery_writes l d h in
  initlog (LState log0 (boot d) []) =
  Ok tt (st (recovered l h) (apply_writes W d) (apply_writes W d) ∅ ∅ W []).
Proof.
  intros [G Hh Hn Hsec Hsecs Hlog _ (b & Hb & Hs1 & Hs2)] W. destruct (G).
  unfold initlog. change (BSIZE <=? sizeof_logheader) with false. cbv iota.
  erewrite bind_run.
  2:{ unfold readsb, boot.
      io_step; [|set_solver|right; rewrite union_empty_l_L, size_empty; done|exact Hb].
      io_step; [|set_solver|by right]. reflexivity. }
  rewrite Hs1, Hs2, !s32_small by lia.
  erewrite bind_run; [|reflexivity]. cbn [ls_log ls_cache ls_wakeups].
  replace (({[1]} ∪ (∅ : gset Z)) ∖ {[1]}) with (∅ : gset Z) by set_solver.
  set (l1 := set_region _ _ _ _). set (l2 := set_sectors (load_sectors h (lh_n l) (lh_sector l1))
    (set_n (lh_n l) l1)).
  assert (forall j, 0 <= j < lh_n l -> sec l2 j = sec l j) as Hget.
  { intros j Hj. cbn [lh_sector l2 set_sectors]. rewrite <- (Z2Nat.id (lh_n l)) by lia.
    rewrite load_sectors_get; [|simpl; unfold LOGSIZE, MAXOPBLOCKS in *; lia|lia].
    rewrite Hsec by lia. pose proof (geom_home0 j Hj). apply s32_small. lia. }
  assert (log_geom l2) as G2.
  { apply (geom_ext l); auto. cbn [lh_sector l2 set_sectors].
    by rewrite <- (Z2Nat.id (lh_n l)), load_sectors_length by lia. }
  unfold recover_from_log. erewrite bind_run.
  2:{ apply (read_head_run l1 d [] [] h (lh_n l)); cbn [lg_dev lg_start l1 set_region log0];
        [done|lia|done| |done].
      rewrite Hn. symmetry. apply s32_small. unfold LOGSIZE, MAXOPBLOCKS in *. lia. }
  fold l2. erewrite bind_run.
  2:{ apply install_trans_run; [done|by right| |].
      - intros j Hj. rewrite Hget by done. by apply Hsecs.
      - intros b' Hb'. split; [|done]. cbn in Hb'. apply Hlog. lia. }
  change (lh_n l2) with (lh_n l). replace (homew l2 d (lh_n l)) with (homew l d (lh_n l)).
  2:{ apply list_fmap_ext. intros i j [-> Hj]%lookup_upto. by rewrite Hget by lia. }
  erewrite bind_run; [|reflexivity]. cbn [ls_log ls_cache ls_wakeups].
  rewrite (write_head_run _ _ _ _ _ _ h); [|done|cbn; lia|set_solver|by rewrite size_empty|].
  - cbn [lg_start set_n l2 set_sectors l1 set_region]. subst W. unfold recovery_writes.
    by rewrite !apply_writes_app.
  - cbn [lg_start set_n l2 set_sectors l1 set_region]. rewrite apply_writes_ne; [done|].
    intros (j & Hj & E)%homew_fst. pose proof (geom_home0 j Hj). lia.
Qed.

(** What recovery makes of the disk. *)
Lemma recovery_home l d h b :
  log_disk l d h -> home l b ->
  apply_writes (recovery_writes l d h) d !! b = apply_writes (homew l d (lh_n l)) d !! b.
Proof.
  intros [G] Hb. pose proof (geom_size l G). pose proof (geom_n l G). unfold home in Hb.
  unfold recovery_writes. rewrite apply_writes_snoc, lookup_insert_ne by lia. done.
Qed.

Lemma lookup_homew l d d' j :
  log_geom l -> 0 <= j < lh_n l ->
  apply_writes (homew l d (lh_n l)) d' !! sec l j = Some (d !!! (lg_start l + j + 1)).
Proof.
  intros G Hj. apply apply_writes_in; [by apply NoDup_homew|].
  unfold homew. apply list_elem_of_fmap. exists j. by rewrite elem_of_upto.
Qed.

Lemma homew_other l d d' k b :
  log_geom l -> k <= lh_n l -> b ∉ secset l -> apply_writes (homew l d k) d' !! b = d' !! b.
Proof.
  intros G Hk Hb. apply apply_writes_ne. intros (j & Hj & ->)%homew_fst.
  apply Hb, elem_of_secset. exists j. split; [lia|done].
Qed.

(** The disk [d] recovers to [target] on the home sectors of the log region
    [start, start + size). *)
Definition recovers_to (start size : Z) (target d : gmap Z block) : Prop :=
  exists l h, lg_start l = start /\ lg_size l = size /\ log_disk l d h /\
    forall b, home l b -> apply_writes (recovery_writes l d h) d !! b = target !! b.

Lemma apply_writes_len ws d :
  Forall (fun w => length w.2 = Z.to_nat BSIZE) ws ->
  (forall b x, d !! b = Some x -> length x = Z.to_nat BSIZE) ->
  forall b x, apply_writes ws d !! b = Some x -> length x = Z.to_nat BSIZE.
Proof.
  intros Hws Hd. induction ws as [|[b0 x0] ws IH] using rev_ind; [done|].
  apply Forall_app in Hws as [Hws Hx]. inversion_clear Hx. intros b x.
  rewrite apply_writes_snoc. destruct (decide (b0 = b)) as [->|].
  - rewrite lookup_insert_eq. naive_solver.
  - rewrite lookup_insert_ne by done. by apply IH.
Qed.

Lemma apply_writes_some ws d b : is_Some (d !! b) -> is_Some (apply_writes ws d !! b).
Proof.
  intros Hd. induction ws as [|[b0 x0] ws IH] using rev_ind; [done|].
  rewrite apply_writes_snoc. destruct (decide (b0 = b)) as [->|].
  - rewrite lookup_insert_eq. eauto.
  - by rewrite lookup_insert_ne.
Qed.

Lemma recovery_writes_len l d h :
  log_disk l d h -> Forall (fun w => length w.2 = Z.to_nat BSIZE) (recovery_writes l d h).
Proof.
  intros [G Hh Hn Hsec Hsecs Hreg Hlen Hsup]. pose proof (geom_size l G).
  unfold recovery_writes. apply Forall_app. split.
  - unfold homew. apply Forall_fmap, Forall_forall. intros j Hj%elem_of_upto. simpl.
    apply (Hlen (lg_start l + j + 1)), lookup_total_some, Hreg. lia.
  - apply Forall_singleton. cbn [snd]. rewrite length_set_word; [by eapply Hlen|lia|].
    rewrite (Hlen _ _ Hh). unfold BSIZE. lia.
Qed.

Lemma geom_recovered l h : log_geom l -> log_geom (recovered l h).
Proof.
  intros G. apply (geom_ext (set_n 0 l)); auto.
  - apply geom_set_n; [done|]. pose proof (geom_n l G). lia.
  - unfold recovered. cbn [lh_sector]. pose proof (geom_n l G).
    by rewrite <- (Z2Nat.id (lh_n l)), load_sectors_length by lia.
  - cbn. lia.
Qed.

Lemma secset_0 l : lh_n l = 0 -> secset l = ∅.
Proof. intros H. unfold secset, secs. by rewrite H. Qed.

Lemma recovery_writes_1 l d h d' :
  log_geom l -> apply_writes (recovery_writes l d h) d' !! 1 = d' !! 1.
Proof.
  intros G. apply apply_writes_ne. unfold recovery_writes. rewrite fmap_app, elem_of_app.
  pose proof (geom_start l G). intros [(j & Hj & E)%homew_fst|Hin].
  - pose proof (geom_home l G j Hj). lia.
  - simpl in Hin. apply list_elem_of_singleton in Hin. lia.
Qed.

(** The state recovery ends in. *)
Lemma recovered_inv l d h :
  log_disk l d h ->
  log_inv (st (recovered l h) (apply_writes (recovery_writes l d h) d)
             (apply_writes (recovery_writes l d h) d) ∅ ∅ (recovery_writes l d h) []).
Proof.
  intros LD. destruct (LD) as [G Hh Hn Hsec Hsecs Hreg Hlen Hsup].
  pose proof (geom_start l G).
  constructor; cbn [ls_log ls_cache ac_mem ac_disk ac_busy ac_dirty lg_start lg_size recovered].
  - by apply geom_recovered.
  - done.
  - by rewrite secset_0.
  - done.
  - intros b x. apply apply_writes_len; [by apply recovery_writes_len|done].
  - intros b x. apply apply_writes_len; [by apply recovery_writes_len|done].
  - cbn. lia.
  - intros b Hb. by apply apply_writes_some, Hreg.
  - unfold recovery_writes. rewrite apply_writes_snoc, lookup_total_insert_eq.
    apply get_set_word_eq; [lia| |lia]. rewrite (Hlen _ _ Hh). unfold BSIZE. lia.
  - rewrite recovery_writes_1 by done. exact Hsup.
Qed.

Lemma recovers_to_ok start size target d :
  recovers_to start size target d ->
  exists s, initlog (LState log0 (boot d) []) = Ok tt s /\ log_inv s /\
    lh_n (ls_log s) = 0 /\ lg_start (ls_log s) = start /\ lg_size (ls_log s) = size /\
    forall b, home (ls_log s) b -> ac_disk (ls_cache s) !! b = target !! b.
Proof.
  intros (l & h & <- & <- & LD & Ht). eexists. split; [by apply initlog_run|].
  split; [by apply recovered_inv|]. repeat split. intros b Hb. by apply Ht.
Qed.

(** A header that has been cleared: nothing is left to install. *)
Lemma log_disk_cleared l d h :
  log_disk l d h -> lh_n l = 0 ->
  forall b, home l b -> apply_writes (recovery_writes l d h) d !! b = d !! b.
Proof. intros LD Hn b Hb. rewrite (recovery_home l d h b LD Hb), Hn. done. Qed.

(** Recovery is insensitive to the home sectors it is going to overwrite. *)
Lemma log_disk_stable l d d' h :
  log_disk l d h ->
  (forall b, b ∉ secset l -> d' !! b = d !! b) ->
  (forall b, is_Some (d !! b) -> is_Some (d' !! b)) ->
  (forall b x, d' !! b = Some x -> length x = Z.to_nat BSIZE) ->
  log_disk l d' h /\
  forall b, home l b ->
    apply_writes (recovery_writes l d' h) d' !! b = apply_writes (recovery_writes l d h) d !! b.
Proof.
  intros LD Hout Hdom Hlen'. destruct (LD) as [G Hh Hn Hsec Hsecs Hreg Hlen Hsup].
  pose proof (geom_start l G) as Hs0.
  assert (log_disk l d' h) as LD'.
  { constructor; auto.
    - rewrite Hout; [done|]. intros ?%secset_home; [lia|done].
    - rewrite Hout; [done|]. intros ?%secset_home; [lia|done]. }
  split; [done|]. intros b Hb. rewrite !recovery_home by done.
  destruct (decide (b ∈ secset l)) as [Hin|Hin].
  - apply elem_of_secset in Hin as (j & Hj & ->). rewrite !lookup_homew by done.
    f_equal. unfold lookup_total, map_lookup_total. rewrite Hout; [done|].
    intros ?%secset_home; [lia|done].
  - rewrite !homew_other by (done || lia). by apply Hout.
Qed.

Lemma take_homew l d k : take k (homew l d (lh_n l)) = homew l d (Z.min (Z.of_nat k) (lh_n l)).
Proof.
  unfold homew, upto. rewrite <- !fmap_take, take_seq. do 3 f_equal. lia.
Qed.

(** The transaction is installed and the header cleared. *)
Lemma log_disk_recovered l d h :
  log_disk l d h ->
  log_disk (set_n 0 l) (apply_writes (recovery_writes l d h) d) (set_word h 0 0).
Proof.
  intros LD. destruct (LD) as [G Hh Hn Hsec Hsecs Hreg Hlen Hsup].
  pose proof (geom_n l G). constructor; cbn [lh_n set_n lg_start lg_size].
  - apply geom_set_n; [done|lia].
  - unfold recovery_writes. by rewrite apply_writes_snoc, lookup_insert_eq.
  - apply get_set_word_eq; [lia| |lia]. rewrite (Hlen _ _ Hh). unfold BSIZE. lia.
  - lia.
  - lia.
  - intros b Hb. by apply apply_writes_some, Hreg.
  - apply apply_writes_len; [by apply recovery_writes_len|done].
  - by rewrite recovery_writes_1.
Qed.

(** A crash during recovery loses nothing. *)
Lemma recovers_to_crash start size target d s k :
  recovers_to start size target d ->
  initlog (LState log0 (boot d) []) = Ok tt s ->
  recovers_to start size target (apply_writes (take k (ac_writes (ls_cache s))) d).
Proof.
  intros (l & h & <- & <- & LD & Ht) Hrun. rewrite (initlog_run l d h LD) in Hrun.
  injection Hrun as <-. cbn [ls_cache ac_writes].
  destruct (LD) as [G Hh Hn Hsec Hsecs Hreg Hlen Hsup]. pose proof (geom_n l G).
  destruct (decide (k <= Z.to_nat (lh_n l))%nat) as [Hk|Hk].
  - assert (take k (recovery_writes l d h) = homew l d (Z.of_nat k)) as Etake.
    { unfold recovery_writes. rewrite take_app_le.
      - rewrite take_homew. f_equal. lia.
      - unfold homew. rewrite length_fmap, length_upto. done. }
    destruct (log_disk_stable l d (apply_writes (take k (recovery_writes l d h)) d) h)
      as [LD' Hsame]; [done| | | |].
    + intros b Hb. rewrite Etake. apply homew_other; [done|lia|done].
    + intros b. apply apply_writes_some.
    + apply apply_writes_len; [by apply Forall_take, recovery_writes_len|done].
    + exists l, h. split_and!; [done..|]. intros b Hb. rewrite Hsame by done. auto.
  - assert (take k (recovery_writes l d h) = recovery_writes l d h) as ->.
    { apply take_ge. unfold recovery_writes, homew.
      rewrite length_app, length_fmap, length_upto. simpl. lia. }
    pose proof (log_disk_recovered l d h LD) as LD'.
    exists (set_n 0 l), (set_word h 0 0). split_and!; [done..|].
    intros b Hb. rewrite log_disk_cleared by done. auto.
Qed.

(** ** Crashes during a commit *)

(** The disk after any number of recoveries that themselves crashed. *)
Inductive crashes : gmap Z block -> gmap Z block -> Prop :=
| crashes_none d : crashes d d
| crashes_more d s k d' :
    initlog (LState log0 (boot d) []) = Ok tt s ->
    crashes (apply_writes (take k (ac_writes (ls_cache s))) d) d' ->
    crashes d d'.

Lemma recovers_to_crashes start size target d d' :
  crashes d d' -> recovers_to start size target d -> recovers_to start size target d'.
Proof.
  induction 1; intros HR; [done|]. apply IHcrashes. by apply recovers_to_crash.
Qed.

Section commit.
Context (s : alog) (I : log_inv s).
#[local] Abbreviation l := (ls_log s).
#[local] Abbreviation mem := (ac_mem (ls_cache s)).
#[local] Abbreviation disk := (ac_disk (ls_cache s)).

Lemma start_not_logged : lg_start l ∉ secset l.
Proof.
  intros H%secset_home; [lia|]. apply (inv_geom s I).
Qed.

Lemma mem_start : mem !! lg_start l = Some (mem !!! lg_start l).
Proof.
  apply lookup_total_some, (inv_region s I).
  pose proof (geom_size _ (inv_geom s I)). pose proof (geom_n _ (inv_geom s I)).
  lia.
Qed.

Lemma disk_start : disk !! lg_start l = Some (mem !!! lg_start l).
Proof.
  rewrite <- mem_start. symmetry. apply (inv_clean s I), start_not_logged.
Qed.

(** Nothing of the transaction has reached the header yet. *)
Lemma log_disk_uncommitted d :
  (forall b, ~ (lg_start l < b < lg_start l + lg_size l) -> d !! b = disk !! b) ->
  (forall b, is_Some (disk !! b) -> is_Some (d !! b)) ->
  (forall b x, d !! b = Some x -> length x = Z.to_nat BSIZE) ->
  log_disk (set_n 0 l) d (mem !!! lg_start l).
Proof.
  intros Hout Hdom Hlen. destruct (I) as [G _ _ Hclean _ _ Hsecs Hreg Hhead Hsup].
  pose proof (geom_n _ G). pose proof (geom_start _ G).
  constructor; cbn [lh_n set_n lg_start lg_size].
  - apply geom_set_n; [done|]. lia.
  - rewrite Hout by lia. apply disk_start.
  - rewrite <- (lookup_total_correct _ _ _ disk_start). exact Hhead.
  - lia.
  - lia.
  - intros b Hb. apply Hdom. rewrite <- Hclean; [by apply Hreg|].
    intros Hin. apply secset_home in Hin; [|done]. lia.
  - done.
  - rewrite Hout; [exact Hsup|]. lia.
Qed.

Lemma head1_len : length (head1 l mem) = Z.to_nat BSIZE.
Proof.
  apply store_head_length; [apply (geom_n _ (inv_geom s I))|]. apply (inv_len s I _ _ mem_start).
Qed.

Lemma head2_len : length (head2 l mem) = Z.to_nat BSIZE.
Proof. apply store_head_length; [done|apply head1_len]. Qed.

Lemma commit_writes_len :
  Forall (fun w => length w.2 = Z.to_nat BSIZE) (commit_writes l mem).
Proof.
  assert (forall j, 0 <= j < lh_n l -> length (mem !!! sec l j) = Z.to_nat BSIZE) as Hj.
  { intros j Hj. apply (inv_len s I (sec l j)), lookup_total_some. by apply (inv_secs s I). }
  unfold commit_writes, logw, homev. rewrite Forall_app, Forall_cons, Forall_app, !Forall_fmap.
  split_and!.
  - apply Forall_forall. intros j ?%elem_of_upto. by apply Hj.
  - apply head1_len.
  - apply Forall_forall. intros j ?%elem_of_upto. by apply Hj.
  - apply Forall_singleton, head2_len.
Qed.

(** The header has been written: recovery finishes the transaction. *)
Lemma log_disk_committed d :
  d !! lg_start l = Some (head1 l mem) ->
  (forall j, 0 <= j < lh_n l -> d !! (lg_start l + j + 1) = Some (mem !!! sec l j)) ->
  (forall b, home l b -> b ∉ secset l -> d !! b = disk !! b) ->
  (forall b, is_Some (disk !! b) -> is_Some (d !! b)) ->
  (forall b x, d !! b = Some x -> length x = Z.to_nat BSIZE) ->
  log_disk l d (head1 l mem) /\
  forall b, home l b -> apply_writes (recovery_writes l d (head1 l mem)) d !! b = mem !! b.
Proof.
  intros Hhd Hlog Hout Hdom Hlen.
  destruct (I) as [G _ _ Hclean Hmlen _ Hsecs Hreg Hhead Hsup].
  pose proof (geom_n _ G). pose proof (geom_start _ G). pose proof (geom_end _ G).
  pose proof (geom_size _ G).
  assert (log_disk l d (head1 l mem)) as LD.
  { constructor; auto.
    - apply store_head_n; [done|]. apply (Hmlen _ _ mem_start).
    - intros j Hj. pose proof (geom_home l G j Hj).
      apply store_head_sector; [done|apply (Hmlen _ _ mem_start)|done|lia].
    - intros j Hj. by apply Hdom, Hsecs.
    - intros b Hb. apply Hdom. rewrite <- Hclean; [by apply Hreg|].
      intros Hin%secset_home; [lia|done].
    - rewrite Hout; [done|unfold home; lia|]. intros Hin%secset_home; [lia|done]. }
  split; [done|]. intros b Hb. rewrite recovery_home by done.
  rewrite (homew_homev l d mem) by done. destruct (decide (b ∈ secset l)) as [Hin|Hin].
  - rewrite lookup_homev by done. symmetry. apply lookup_total_some.
    apply elem_of_secset in Hin as (j & Hj & ->). by apply Hsecs.
  - rewrite apply_writes_ne by by rewrite homev_fst. rewrite Hout by done. by rewrite Hclean.
Qed.

(** The home sectors are written and the header cleared. *)
Lemma log_disk_done :
  log_disk (set_n 0 l) (apply_writes (commit_writes l mem) disk) (head2 l mem) /\
  forall b, home l b -> apply_writes (commit_writes l mem) disk !! b = mem !! b.
Proof.
  destruct (I) as [G _ _ Hclean Hmlen Hdlen Hsecs Hreg Hhead Hsup].
  pose proof (geom_n _ G). pose proof (geom_start _ G). pose proof (geom_size _ G).
  assert (apply_writes (commit_writes l mem) disk =
    <[lg_start l := head2 l mem]> (apply_writes (homev l mem)
      (<[lg_start l := head1 l mem]> (apply_writes (logw l mem (lh_n l)) disk)))) as E.
  { unfold commit_writes. by rewrite !(cons_middle (lg_start l, _)), !apply_writes_app. }
  assert (forall b, home l b -> apply_writes (commit_writes l mem) disk !! b = mem !! b) as Hh.
  { intros b Hb. unfold home in Hb. rewrite E, lookup_insert_ne by lia.
    destruct (decide (b ∈ secset l)) as [Hin|Hin].
    - rewrite lookup_homev by done. symmetry. apply lookup_total_some.
      apply elem_of_secset in Hin as (j & Hj & ->). by apply Hsecs.
    - rewrite apply_writes_ne by by rewrite homev_fst.
      rewrite lookup_insert_ne by lia. rewrite apply_writes_ne; [by rewrite Hclean|].
      intros ?%logw_fst. lia. }
  split; [|done]. constructor; cbn [lh_n set_n lg_start lg_size].
  - apply geom_set_n; [done|lia].
  - by rewrite E, lookup_insert_eq.
  - apply (store_head_n (set_n 0 l)); [done|apply head1_len].
  - lia.
  - lia.
  - intros b Hb. apply apply_writes_some. rewrite <- Hclean; [by apply Hreg|].
    intros Hin%secset_home; [lia|done].
  - apply apply_writes_len; [apply commit_writes_len|done].
  - rewrite Hh by (unfold home; lia). rewrite Hclean; [done|].
    intros Hin%secset_home; [lia|done].
Qed.

End commit.

(** ** Main theorems *)

(** The disk when the power fails after [k] of the writes of [commit]. *)
Definition crash_disk (s s' : alog) (k : nat) : gmap Z block :=
  apply_writes (take k (drop (length (ac_writes (ls_cache s))) (ac_writes (ls_cache s'))))
    (ac_disk (ls_cache s)).

Lemma take_commit_writes l mem k :
  log_geom l ->
  let n := Z.to_nat (lh_n l) in
  (k <= n)%nat /\ take k (commit_writes l mem) = logw l mem (Z.of_nat k) \/
  (n < k < 2 * n + 2)%nat /\ take k (commit_writes l mem) =
    (logw l mem (lh_n l) ++ [(lg_start l, head1 l mem)]) ++ take (k - n - 1) (homev l mem) \/
  (2 * n + 2 <= k)%nat /\ take k (commit_writes l mem) = commit_writes l mem.
Proof.
  intros G n. pose proof (geom_n l G).
  assert (length (logw l mem (lh_n l)) = n) as Hl
    by (unfold logw; by rewrite length_fmap, length_upto).
  assert (length (homev l mem) = n) as Hv by (unfold homev; by rewrite length_fmap, length_upto).
  unfold commit_writes. destruct (decide (k <= n)%nat); [left|right].
  - split; [done|]. rewrite take_app_le by lia. unfold logw, upto.
    rewrite <- !fmap_take, take_seq. do 3 f_equal. subst n. lia.
  - destruct (decide (k < 2 * n + 2)%nat); [left|right]; (split; [lia|]).
    + rewrite cons_middle, app_assoc, take_app_ge by (rewrite length_app; simpl; lia).
      rewrite length_app, Hl. simpl. f_equal. rewrite take_app_le by lia. f_equal. lia.
    + apply take_ge. rewrite length_app. simpl. rewrite length_app. simpl. lia.
Qed.

(** The disk once the header is written, away from the sectors of the transaction. *)
Lemma mid_commit_lookup l mem disk m b :
  b ∉ secset l ->
  apply_writes ((logw l mem (lh_n l) ++ [(lg_start l, head1 l mem)]) ++ take m (homev l mem)) disk
    !! b = <[lg_start l := head1 l mem]> (apply_writes (logw l mem (lh_n l)) disk) !! b.
Proof.
  intros Hb. rewrite apply_writes_app, apply_writes_snoc. apply apply_writes_ne.
  rewrite fmap_take. intros Hin%list_elem_of_In. apply Hb, (homev_fst l mem).
  apply list_elem_of_In. rewrite <- (take_drop m), in_app_iff. by left.
Qed.

Lemma commit_prefix_recovers s k :
  log_inv s ->
  recovers_to (lg_start (ls_log s)) (lg_size (ls_log s))
    (if decide (k <= Z.to_nat (lh_n (ls_log s)))%nat then ac_disk (ls_cache s) else ac_mem (ls_cache s))
    (apply_writes (take k (commit_writes (ls_log s) (ac_mem (ls_cache s)))) (ac_disk (ls_cache s))).
Proof.
  intros I. pose proof (inv_geom s I) as G.
  pose proof (geom_n (ls_log s) G). pose proof (geom_start (ls_log s) G). pose proof (geom_size (ls_log s) G).
  pose proof (commit_writes_len s I) as HW.
  assert (forall b x, apply_writes (take k (commit_writes (ls_log s) (ac_mem (ls_cache s))))
    (ac_disk (ls_cache s)) !! b = Some x -> length x = Z.to_nat BSIZE) as Hlen.
  { apply apply_writes_len; [by apply Forall_take|apply (inv_dlen s I)]. }
  destruct (take_commit_writes (ls_log s) (ac_mem (ls_cache s)) k G) as [[Hk E]|[[Hk E]|[Hk E]]].
  - rewrite decide_True by done.
    assert (forall b, ~ (lg_start (ls_log s) < b < lg_start (ls_log s) + lg_size (ls_log s)) ->
      apply_writes (take k (commit_writes (ls_log s) (ac_mem (ls_cache s)))) (ac_disk (ls_cache s)) !! b =
      ac_disk (ls_cache s) !! b) as Hout.
    { intros b Hb. rewrite E. apply apply_writes_ne. intros ?%logw_fst. lia. }
    exists (set_n 0 (ls_log s)), (ac_mem (ls_cache s) !!! lg_start (ls_log s)). split_and!; [done..| |].
    + apply log_disk_uncommitted; [done|done|intros b; apply apply_writes_some|done].
    + intros b Hb. rewrite log_disk_cleared; [|by apply log_disk_uncommitted;
        [done|done|intros b'; apply apply_writes_some|done]|done..].
      apply Hout. unfold home in Hb. cbn in Hb. lia.
  - rewrite decide_False by lia. exists (ls_log s), (head1 (ls_log s) (ac_mem (ls_cache s))).
    split; [done|]. split; [done|]. apply (log_disk_committed s I); [| | | |done].
    + rewrite E, mid_commit_lookup by apply (start_not_logged s I). apply lookup_insert_eq.
    + intros j Hj. rewrite E, mid_commit_lookup by (intros ?%secset_home; [lia|done]).
      rewrite lookup_insert_ne by lia. by apply lookup_logw.
    + intros b Hb Hn. rewrite E, mid_commit_lookup by done. unfold home in Hb.
      rewrite lookup_insert_ne by lia. apply apply_writes_ne. intros ?%logw_fst. lia.
    + intros b. apply apply_writes_some.
  - rewrite decide_False by lia. rewrite E. destruct (log_disk_done s I) as [LD Hh].
    exists (set_n 0 (ls_log s)), (head2 (ls_log s) (ac_mem (ls_cache s))). split_and!; [done..|].
    intros b Hb. rewrite log_disk_cleared by done. by apply Hh.
Qed.

Lemma commit_writes_agree s :
  log_inv s ->
  apply_writes (commit_writes (ls_log s) (ac_mem (ls_cache s))) (ac_mem (ls_cache s)) =
  apply_writes (commit_writes (ls_log s) (ac_mem (ls_cache s))) (ac_disk (ls_cache s)).
Proof.
  intros I. apply apply_writes_agree. intros b Hb. apply (inv_clean s I).
  intros Hin. apply Hb. unfold commit_writes. rewrite fmap_app, fmap_cons, fmap_app.
  apply elem_of_app. right. apply elem_of_cons. right. apply elem_of_app. left.
  by apply homev_fst.
Qed.

Lemma log_inv_of_disk l d h ws wk :
  log_disk l d h -> lh_n l = 0 -> log_inv (st l d d ∅ ∅ ws wk).
Proof.
  intros [G Hh Hn Hsec Hsecs Hreg Hlen Hsup] H0.
  constructor; cbn [ls_log ls_cache ac_mem ac_disk ac_busy ac_dirty]; auto.
  - by rewrite secset_0.
  - rewrite (lookup_total_correct _ _ _ Hh). by rewrite Hn.
Qed.

Lemma commit_crash_spec s :
  log_inv s -> 0 < lh_n (ls_log s) ->
  exists s', commit s = Ok tt s' /\
    forall k d, crashes (crash_disk s s' k) d ->
      exists r, initlog (LState log0 (boot d) []) = Ok tt r /\
        log_inv r /\ lh_n (ls_log r) = 0 /\
        forall b, home (ls_log s) b ->
          ac_disk (ls_cache r) !! b =
            (if decide (k <= Z.to_nat (lh_n (ls_log s)))%nat
             then ac_disk (ls_cache s) else ac_mem (ls_cache s)) !! b.
Proof.
  intros I Hn. eexists. split; [by apply commit_run|]. intros k d Hc.
  unfold crash_disk in Hc. cbn [ls_cache ac_writes] in Hc. rewrite drop_app_length in Hc.
  pose proof (recovers_to_crashes _ _ _ _ _ Hc (commit_prefix_recovers s k I)) as HR.
  destruct (recovers_to_ok _ _ _ _ HR) as (r & Hr & Ir & Hn0 & Hs & Hz & Hh).
  exists r. split_and!; [done..|]. intros b Hb. apply Hh. unfold home in *. by rewrite Hs, Hz.
Qed.

(** C2: atomicity of transactions under crashes.  Whatever prefix of the
    sector writes of [commit] reaches the disk before the power fails, and
    however often the recoveries that follow are themselves interrupted, the
    next [initlog] that completes restores a consistent log whose home sectors
    hold either their contents before the transaction (if the header had not
    been written) or all of the transaction's new contents (if it had). *)
Theorem commit_crash_safe s :
  log_inv s -> 0 < lh_n (ls_log s) ->
  exists s', commit s = Ok tt s' /\
    forall k d, crashes (crash_disk s s' k) d ->
      exists r, initlog (LState log0 (boot d) []) = Ok tt r /\
        log_inv r /\ lh_n (ls_log r) = 0 /\
        forall b, home (ls_log s) b ->
          ac_disk (ls_cache r) !! b =
            (if decide (k <= Z.to_nat (lh_n (ls_log s)))%nat
             then ac_disk (ls_cache s) else ac_mem (ls_cache s)) !! b.
Proof. apply commit_crash_spec. Qed.

Lemma commit_installs_spec s :
  log_inv s ->
  exists s', commit s = Ok tt s' /\ log_inv s' /\ lh_n (ls_log s') = 0 /\
    ac_dirty (ls_cache s') = ∅ /\ lg_start (ls_log s') = lg_start (ls_log s) /\
    lg_size (ls_log s') = lg_size (ls_log s) /\ lg_outstanding (ls_log s') = lg_outstanding (ls_log s) /\
    lg_committing (ls_log s') = lg_committing (ls_log s) /\
    forall b, home (ls_log s) b ->
      ac_disk (ls_cache s') !! b = ac_mem (ls_cache s) !! b /\
      ac_mem (ls_cache s') !! b = ac_mem (ls_cache s) !! b.
Proof.
  intros I. destruct (Z.ltb_spec 0 (lh_n (ls_log s))) as [Hn|Hn].
  - eexists. split; [by apply commit_run|].
    rewrite (commit_writes_agree s I). destruct (log_disk_done s I) as [LD Hh].
    split; [by eapply log_inv_of_disk|]. split_and!; [done..|].
    intros b Hb. split; by apply Hh.
  - pose proof (geom_n _ (inv_geom s I)). exists s.
    assert (secset (ls_log s) = ∅) as He by (apply secset_0; lia).
    split_and!; [|done|lia|by rewrite (inv_dirty s I)|done..|].
    + unfold commit. erewrite bind_run; [|reflexivity].
      by destruct (Z.ltb_spec 0 (lh_n (ls_log s))); [lia|].
    + intros b Hb. rewrite (inv_clean s I) by (rewrite He; set_solver). done.
Qed.

(** Without a crash, [commit] empties the log, keeps its invariant, unpins
    every block and leaves on the disk exactly the logical contents. *)
Theorem commit_installs s :
  log_inv s ->
  exists s', commit s = Ok tt s' /\ log_inv s' /\ lh_n (ls_log s') = 0 /\
    ac_dirty (ls_cache s') = ∅ /\
    forall b, home (ls_log s) b ->
      ac_disk (ls_cache s') !! b = ac_mem (ls_cache s) !! b /\
      ac_mem (ls_cache s') !! b = ac_mem (ls_cache s) !! b.
Proof.
  intros I. destruct (commit_installs_spec s I) as (s' & ? & ? & ? & ? & _ & _ & _ & _ & ?). eauto 10.
Qed.
