(* ===== verification/LogOps.v ===== *)
(** File-system operations on the log: the [bread] / modify / [log_write] /
    [brelse] idiom between [begin_op] and [end_op], and the reservation of log
    space [begin_op] makes for concurrent operations. *)

From stdpp Require Import prelude strings gmap list.
From S2P Require Import Prelude Bytes Param BlockCache Log LogCrash.

(** The idiom log.c documents above [log_write]. *)
Definition log_update {C} `{BlockCache C} (dev sector : Z) (d : block) : M (lstate C) unit :=
  io (bread dev sector);;
  io (bset sector d);;
  log_write sector;;
  io (brelse sector).

(** ** One logged update *)

Lemma find_sector_spec ss sector n :
  (forall j, (j < n)%nat -> is_u32 (nth j ss 0)) -> (n <= length ss)%nat ->
  let i := find_sector ss sector n in
  (i <= n)%nat /\ ((i < n)%nat -> nth i ss 0 = sector) /\
  (i = n -> forall j, (j < n)%nat -> nth j ss 0 <> sector).
Proof.
  revert n. induction ss as [|s ss IH]; intros [|n] Hr Hn; simpl in *; try (split_and!; lia).
  - destruct (Z.eqb_spec (u32 s) sector) as [E|E].
    + rewrite u32_small in E by apply (Hr 0%nat (Nat.lt_0_succ n)). split_and!; [lia|done|lia].
    + rewrite u32_small in E by apply (Hr 0%nat (Nat.lt_0_succ n)).
      destruct (IH n) as (H1 & H2 & H3); [|lia|].
      * intros j Hj. apply (Hr (S j)). lia.
      * split_and!; [lia| |].
        -- intros ?. apply H2. lia.
        -- intros ? [|j] Hj; [done|]. apply H3; lia.
Qed.

(** The log after [log_write]. *)
Definition logged (l : log) (sector : Z) : log :=
  let i := find_sector (lh_sector l) sector (Z.to_nat (lh_n l)) in
  let l' := set_sectors (<[i := s32 sector]> (lh_sector l)) l in
  if Z.of_nat i =? lh_n l then set_n (lh_n l + 1) l' else l'.

Lemma log_write_run l mem disk busy dirty ws wk sector :
  lh_n l < LOGSIZE -> lh_n l < lg_size l - 1 -> 1 <= lg_outstanding l -> sector ∈ busy ->
  log_write sector (st l mem disk busy dirty ws wk) =
  Ok tt (st (logged l sector) mem disk busy ({[sector]} ∪ dirty) ws wk).
Proof.
  intros H1 H2 H3 Hb. unfold log_write. erewrite bind_run; [|reflexivity]. cbn [ls_log].
  destruct (Z.leb_spec LOGSIZE (lh_n l)); [lia|].
  destruct (Z.leb_spec (lg_size l - 1) (lh_n l)); [lia|].
  destruct (Z.ltb_spec (lg_outstanding l) 1); [lia|]. cbn [orb].
  erewrite bind_run; [|reflexivity]. unfold logged. cbn [ls_log ls_cache ls_wakeups].
  destruct (Z.of_nat _ =? lh_n l); (erewrite bind_run; [|reflexivity]); by apply io_bdirty.
Qed.

Section logged.
Context (l : log) (G : log_geom l) (sector : Z).
Hypothesis Hsec : 2 <= sector < lg_start l.
Hypothesis Hroom : lh_n l < LOGSIZE /\ lh_n l < lg_size l - 1 /\ lh_n l + 1 < NBUF.

Let i := find_sector (lh_sector l) sector (Z.to_nat (lh_n l)).

Lemma find_logged :
  (i <= Z.to_nat (lh_n l))%nat /\
  ((i < Z.to_nat (lh_n l))%nat -> sec l (Z.of_nat i) = sector) /\
  (i = Z.to_nat (lh_n l) -> forall j, 0 <= j < lh_n l -> sec l j <> sector).
Proof.
  pose proof (geom_home l G) as Hh. pose proof (geom_start l G). pose proof (geom_end l G).
  pose proof (geom_size l G). pose proof (geom_len l G). pose proof (geom_n l G).
  unfold LOGSIZE, MAXOPBLOCKS in *. destruct (find_sector_spec (lh_sector l) sector (Z.to_nat (lh_n l))) as (Hf1 & Hf2 & Hf3).
  - intros j Hj. specialize (Hh (Z.of_nat j)). rewrite Nat2Z.id in Hh. lia.
  - lia.
  - split_and!; [done|by rewrite Nat2Z.id|]. intros E j Hj. apply Hf3; [done|lia].
Qed.

Lemma sec_logged j :
  0 <= j < lh_n (logged l sector) ->
  sec (logged l sector) j = if decide (j = Z.of_nat i) then sector else sec l j.
Proof.
  destruct find_logged as (H1 & H2 & H3). pose proof (geom_len l G). pose proof (geom_end l G).
  pose proof (geom_size l G). pose proof (geom_n l G). unfold logged. fold i. intros Hj.
  assert (j < lh_n l + 1) by (destruct (Z.eqb_spec (Z.of_nat i) (lh_n l)); cbn in Hj; lia).
  assert (lh_sector (if Z.of_nat i =? lh_n l
    then set_n (lh_n l + 1) (set_sectors (<[i:=s32 sector]> (lh_sector l)) l)
    else set_sectors (<[i:=s32 sector]> (lh_sector l)) l) = <[i:=s32 sector]> (lh_sector l)) as ->
    by by destruct (Z.of_nat i =? lh_n l).
  rewrite !nth_lookup. unfold LOGSIZE, MAXOPBLOCKS in *. case_decide as Hd.
  - subst j. rewrite Nat2Z.id, list_lookup_insert_eq by lia. simpl. apply s32_small. lia.
  - by rewrite list_lookup_insert_ne by lia.
Qed.

Lemma logged_n :
  lh_n (logged l sector) = if decide (sector ∈ secset l) then lh_n l else lh_n l + 1.
Proof.
  destruct find_logged as (H1 & H2 & H3). pose proof (geom_n l G).
  unfold logged. fold i. destruct (Z.eqb_spec (Z.of_nat i) (lh_n l)) as [E|E].
  - rewrite decide_False; [done|]. rewrite elem_of_secset. intros (j & Hj & Ej).
    apply (H3 ltac:(lia) j Hj). done.
  - rewrite decide_True; [done|]. apply elem_of_secset. exists (Z.of_nat i).
    split; [lia|]. symmetry. apply H2. lia.
Qed.

Lemma secset_logged : secset (logged l sector) = {[sector]} ∪ secset l.
Proof.
  destruct find_logged as (H1 & H2 & H3). pose proof (geom_n l G) as Hn.
  assert (lh_n (logged l sector) = if Z.of_nat i =? lh_n l then lh_n l + 1 else lh_n l) as En
    by (unfold logged; fold i; by destruct (Z.of_nat i =? lh_n l)).
  apply set_eq. intros s. rewrite elem_of_union, elem_of_singleton, !elem_of_secset.
  destruct (Z.eqb_spec (Z.of_nat i) (lh_n l)) as [E|E]; split.
  - intros (j & Hj & ->). rewrite sec_logged by done. case_decide; [by left|right].
    exists j. split; [lia|done].
  - intros [-> | (j & Hj & ->)].
    + exists (Z.of_nat i). split; [lia|]. rewrite sec_logged by lia. by rewrite decide_True.
    + exists j. split; [lia|]. rewrite sec_logged by lia. rewrite decide_False; [done|lia].
  - intros (j & Hj & ->). rewrite sec_logged by done. case_decide; [by left|right].
    exists j. split; [lia|done].
  - intros [-> | (j & Hj & ->)].
    + exists (Z.of_nat i). split; [lia|]. rewrite sec_logged by lia. by rewrite decide_True.
    + exists j. split; [lia|]. rewrite sec_logged by lia. case_decide; [|done].
      subst j. apply H2. lia.
Qed.

Lemma geom_logged : log_geom (logged l sector).
Proof.
  destruct find_logged as (H1 & H2 & H3). pose proof logged_n as En.
  pose proof (geom_n l G). pose proof (geom_len l G) as Hl. pose proof (geom_dev l G).
  pose proof (geom_start l G). pose proof (geom_end l G).
  assert (lh_n (logged l sector) <= lh_n l + 1 /\ lh_n l <= lh_n (logged l sector)) as [Hle Hge]
    by (rewrite En; case_decide; lia). clear En.
  assert (lg_start (logged l sector) = lg_start l /\ lg_size (logged l sector) = lg_size l /\
    lg_dev (logged l sector) = lg_dev l) as (Es & Ez & Ed)
    by (unfold logged; fold i; destruct (Z.of_nat i =? lh_n l); done).
  constructor; rewrite ?Es, ?Ez, ?Ed; try lia.
  - unfold logged. fold i. by destruct (Z.of_nat i =? lh_n l); cbn [lh_sector set_n set_sectors]; rewrite length_insert.
  - intros j Hj. rewrite sec_logged by done. case_decide; [lia|]. apply (geom_home l G).
    unfold logged in Hj. fold i in Hj. destruct (Z.eqb_spec (Z.of_nat i) (lh_n l)); cbn in Hj; lia.
  - assert (forall j, 0 <= j < lh_n (logged l sector) -> j <> Z.of_nat i ->
      0 <= j < lh_n l /\ sec l j <> sector) as Hother.
    { intros j Hj Hne. assert (0 <= j < lh_n l) as Hjn.
      { unfold logged in Hj. fold i in Hj.
        destruct (Z.eqb_spec (Z.of_nat i) (lh_n l)); cbn in Hj; lia. }
      split; [done|]. destruct (decide (i = Z.to_nat (lh_n l))) as [Ei|Ei]; [by apply H3|].
      intros Ej. apply Hne. apply (geom_inj l G); [lia|lia|]. rewrite Ej, H2; [done|lia]. }
    intros j k Hj Hk. rewrite !sec_logged by done. case_decide; case_decide; subst; try done.
    + intros E. destruct (Hother k) as [_ Hc]; naive_solver.
    + intros E. destruct (Hother j) as [_ Hc]; naive_solver.
    + intros E. apply (geom_inj l G); [by apply Hother|by apply Hother|done].
Qed.

End logged.

Lemma log_update_spec s sector d :
  log_inv s -> 2 <= sector < lg_start (ls_log s) ->
  is_Some (ac_mem (ls_cache s) !! sector) -> is_Some (ac_disk (ls_cache s) !! sector) ->
  length d = Z.to_nat BSIZE ->
  1 <= lg_outstanding (ls_log s) -> lg_size (ls_log s) <= NBUF ->
  lh_n (ls_log s) < lg_size (ls_log s) - 1 ->
  exists s', log_update ROOTDEV sector d s = Ok tt s' /\ log_inv s' /\
    ac_mem (ls_cache s') = <[sector := d]> (ac_mem (ls_cache s)) /\
    ac_disk (ls_cache s') = ac_disk (ls_cache s) /\
    ac_writes (ls_cache s') = ac_writes (ls_cache s) /\
    lg_start (ls_log s') = lg_start (ls_log s) /\ lg_size (ls_log s') = lg_size (ls_log s) /\
    secset (ls_log s') = {[sector]} ∪ secset (ls_log s) /\
    lg_outstanding (ls_log s') = lg_outstanding (ls_log s) /\
    lh_n (ls_log s') = if decide (sector ∈ secset (ls_log s))
                       then lh_n (ls_log s) else lh_n (ls_log s) + 1.
Proof.
  intros I Hsec [old Hold] Hdisk Hd Ho Hsz Hn.
  destruct s as [l [mem disk busy dirty ws] wk].
  destruct I as [G Hbusy Hdirty Hclean Hlen Hdlen Hsecs Hreg Hhead Hsup].
  cbn [ls_log ls_cache ac_mem ac_disk ac_busy ac_dirty ac_writes ls_wakeups] in *.
  subst busy dirty. pose proof (size_secset l G). pose proof (geom_buf l G).
  unfold NBUF, LOGSIZE, MAXOPBLOCKS in *.
  assert (lh_n l < LOGSIZE /\ lh_n l < lg_size l - 1 /\ lh_n l + 1 < NBUF) as Hroom
    by (unfold NBUF, LOGSIZE, MAXOPBLOCKS; lia).
  eexists. split.
  { unfold log_update.
    io_step; [|set_solver|rewrite union_empty_l_L; right; unfold NBUF, MAXOPBLOCKS; lia|exact Hold].
    io_step; [|set_solver].
    erewrite bind_run; [|apply log_write_run; [lia|lia|lia|set_solver]].
    apply io_brelse; [set_solver|left; set_solver]. }
  cbn [ls_log ls_cache ac_mem ac_disk ac_busy ac_dirty ac_writes].
  assert (lg_start (logged l sector) = lg_start l /\ lg_size (logged l sector) = lg_size l /\
    lg_outstanding (logged l sector) = lg_outstanding l)
    as (Es & Ez & Eo) by (unfold logged; by destruct (_ =? _)).
  split; [|split_and!; [done..|by apply secset_logged|done|by apply logged_n]].
  constructor; cbn [ls_log ls_cache ac_mem ac_disk ac_busy ac_dirty]; rewrite ?Es, ?Ez; auto.
  - by apply geom_logged.
  - set_solver.
  - by rewrite secset_logged.
  - intros b. rewrite secset_logged, not_elem_of_union, not_elem_of_singleton by done.
    intros [Hb1 Hb2]. rewrite lookup_insert_ne by done. auto.
  - intros b x. destruct (decide (sector = b)) as [->|].
    + rewrite lookup_insert_eq. naive_solver.
    + rewrite lookup_insert_ne by done. apply Hlen.
  - intros j Hj. rewrite sec_logged by done. destruct (decide (j = _)) as [->|Hne].
    + rewrite lookup_insert_eq. eauto.
    + assert (sec l j ∈ secset (logged l sector)) as Hin.
      { apply elem_of_secset. exists j. split; [done|]. rewrite sec_logged by done.
        by rewrite decide_False. }
      rewrite secset_logged, elem_of_union, elem_of_singleton, elem_of_secset in Hin by done.
      destruct Hin as [-> | (k & Hk & ->)]; [by rewrite lookup_insert_eq; eauto|].
      destruct (decide (sector = sec l k)) as [->|].
      * rewrite lookup_insert_eq. eauto.
      * rewrite lookup_insert_ne by done. by apply Hsecs.
  - intros b Hb. rewrite lookup_insert_ne by lia. by apply Hreg.
Qed.

(** C27: the write-ahead rule.  A logged update between operations changes the
    logical contents of its sector and nothing on the disk, absorbs a sector
    already in the log, and keeps the invariant of the log. *)
Theorem log_update_ok s sector d :
  log_inv s -> 2 <= sector < lg_start (ls_log s) ->
  is_Some (ac_mem (ls_cache s) !! sector) -> is_Some (ac_disk (ls_cache s) !! sector) ->
  length d = Z.to_nat BSIZE ->
  1 <= lg_outstanding (ls_log s) -> lg_size (ls_log s) <= NBUF ->
  lh_n (ls_log s) < lg_size (ls_log s) - 1 ->
  exists s', log_update ROOTDEV sector d s = Ok tt s' /\ log_inv s' /\
    ac_mem (ls_cache s') = <[sector := d]> (ac_mem (ls_cache s)) /\
    ac_disk (ls_cache s') = ac_disk (ls_cache s) /\
    ac_writes (ls_cache s') = ac_writes (ls_cache s) /\
    lh_n (ls_log s') = if decide (sector ∈ secset (ls_log s))
                       then lh_n (ls_log s) else lh_n (ls_log s) + 1.
Proof.
  intros I H1 H2 H3 H4 H5 H6 H7.
  destruct (log_update_spec s sector d I H1 H2 H3 H4 H5 H6 H7)
    as (s' & ? & ? & ? & ? & ? & _ & _ & _ & _ & ?). exists s'. tauto.
Qed.

(** ** Programs that leave the log header alone *)

Section keeps.
Context {C : Type} `{BlockCache C}.

Definition keeps_log {A} (m : M (lstate C) A) : Prop :=
  forall s a s', m s = Ok a s' -> ls_log s' = ls_log s.

Lemma keeps_io {A} (m : M C A) : keeps_log (io m).
Proof. intros s a s'. unfold io, lift. destruct (m _); naive_solver. Qed.

Lemma keeps_bind {A B} (m : M (lstate C) A) (f : A -> M (lstate C) B) :
  keeps_log m -> (forall a, keeps_log (f a)) -> keeps_log (m ≫= f).
Proof.
  intros Hm Hf s b s'' (a & s' & H1 & H2)%bind_Ok.
  apply Hf in H2. apply Hm in H1. congruence.
Qed.

Lemma keeps_gets {A} (f : lstate C -> A) : keeps_log (gets f).
Proof. unfold gets. intros s a s'. naive_solver. Qed.

Lemma keeps_for_each {A} (f : A -> M (lstate C) unit) l :
  (forall a, keeps_log (f a)) -> keeps_log (for_each f l).
Proof.
  intros Hf. induction l; simpl; [intros s a s' [= <- <-]; done|]. by apply keeps_bind.
Qed.

End keeps.

Create HintDb keeps_log.
#[export] Hint Resolve keeps_io keeps_bind keeps_gets keeps_for_each : keeps_log.

Section reservation.
Context {C : Type} `{BlockCache C}.
Implicit Types s : lstate C.

Lemma keeps_write_log : keeps_log (C:=C) write_log.
Proof. unfold write_log. auto 20 with keeps_log. Qed.

Lemma keeps_write_head : keeps_log (C:=C) write_head.
Proof. unfold write_head. auto 20 with keeps_log. Qed.

Lemma keeps_install_trans : keeps_log (C:=C) install_trans.
Proof. unfold install_trans. auto 20 with keeps_log. Qed.

(** What a commit does to the header in memory. *)
Lemma commit_log s s' :
  0 <= lh_n (ls_log s) -> commit s = Ok tt s' -> ls_log s' = set_n 0 (ls_log s).
Proof.
  intros Hn. unfold commit. intros (l & s0 & [= <- <-] & Hc)%bind_Ok.
  destruct (Z.ltb_spec 0 (lh_n (ls_log s))).
  - apply bind_Ok in Hc as (? & s1 & H1%keeps_write_log & Hc).
    apply bind_Ok in Hc as (? & s2 & H2%keeps_write_head & Hc).
    apply bind_Ok in Hc as (? & s3 & H3%keeps_install_trans & Hc).
    apply bind_Ok in Hc as (? & s4 & [= <- <-] & H4%keeps_write_head).
    cbn in H4. congruence.
  - injection Hc as <-. destruct (ls_log s) as []. unfold set_n. simpl in *. f_equal. lia.
Qed.

(** Concurrent operations: the log beside the number of blocks each operation
    in progress may still log.  Traffic of the buffer cache ([op_io]) is free; an operation is admitted by [begin_op] with a
    budget of [MAXOPBLOCKS] (param.h: max # of blocks any FS op writes). *)
Inductive op_step : lstate C * list Z -> lstate C * list Z -> Prop :=
| op_begin s s' ops :
    begin_op s = Ok tt s' -> op_step (s, ops) (s', MAXOPBLOCKS :: ops)
| op_io {A} s s' ops (m : M C A) a :
    io m s = Ok a s' -> op_step (s, ops) (s', ops)
| op_write s s' ops1 k ops2 sector :
    0 < k -> log_write sector s = Ok tt s' ->
    op_step (s, ops1 ++ k :: ops2) (s', ops1 ++ (k - 1) :: ops2)
| op_end s s' ops1 k ops2 :
    end_op s = Ok tt s' -> op_step (s, ops1 ++ k :: ops2) (s', ops1 ++ ops2).

Definition sum_list (l : list Z) : Z := foldr Z.add 0 l.

Lemma sum_list_app l1 l2 : sum_list (l1 ++ l2) = sum_list l1 + sum_list l2.
Proof. induction l1; simpl; [done|]. rewrite IHl1. lia. Qed.

Record ops_inv (x : lstate C * list Z) : Prop := {
  oi_outstanding : lg_outstanding (ls_log x.1) = Z.of_nat (length x.2);
  oi_committing : lg_committing (ls_log x.1) = 0;
  oi_n : 0 <= lh_n (ls_log x.1);
  oi_budgets : Forall (fun k => 0 <= k <= MAXOPBLOCKS) x.2;
  oi_space : lh_n (ls_log x.1) + sum_list x.2 <= LOGSIZE
}.

Lemma sum_budgets ops :
  Forall (fun k => 0 <= k <= MAXOPBLOCKS) ops ->
  0 <= sum_list ops <= Z.of_nat (length ops) * MAXOPBLOCKS.
Proof. unfold MAXOPBLOCKS. induction 1; simpl; [lia|]. unfold sum_list in *. simpl. lia. Qed.

Lemma log_write_log sector s s' :
  log_write sector s = Ok tt s' ->
  lg_outstanding (ls_log s') = lg_outstanding (ls_log s) /\
  lg_committing (ls_log s') = lg_committing (ls_log s) /\
  lg_size (ls_log s') = lg_size (ls_log s) /\
  lh_n (ls_log s) <= lh_n (ls_log s') <= lh_n (ls_log s) + 1.
Proof.
  unfold log_write. intros (l & s0 & [= <- <-] & Hc)%bind_Ok.
  destruct ((_ || _)%bool); [done|]. destruct (_ <? 1); [done|].
  apply bind_Ok in Hc as (? & s1 & [= <- <-] & Hc).
  apply bind_Ok in Hc as (? & s2 & Hw & Hc%keeps_io).
  unfold when in Hw. destruct (_ =? _); injection Hw as <- <-; rewrite Hc; cbn; lia.
Qed.

Lemma end_op_log s s' :
  0 <= lh_n (ls_log s) -> end_op s = Ok tt s' ->
  lg_committing (ls_log s) = 0 /\
  ls_log s' = set_outstanding (lg_outstanding (ls_log s) - 1)
    (if lg_outstanding (ls_log s) =? 1 then set_n 0 (ls_log s) else ls_log s).
Proof.
  intros Hn. unfold end_op. intros (? & s1 & [= <- <-] & Hc)%bind_Ok.
  apply bind_Ok in Hc as (? & s2 & [= <- <-] & Hc). cbn [ls_log lg_committing set_outstanding] in Hc.
  destruct (ctrue (lg_committing (ls_log s))) eqn:Ec; [done|].
  assert (lg_committing (ls_log s) = 0) as E0
    by (unfold ctrue in Ec; apply negb_false_iff, Z.eqb_eq in Ec; done).
  split; [done|]. cbn [lg_outstanding set_outstanding] in Hc.
  destruct (Z.eqb_spec (lg_outstanding (ls_log s) - 1) 0) as [E1|E1].
  - apply bind_Ok in Hc as (? & s3 & [= <- <-] & Hc).
    apply bind_Ok in Hc as ([] & s4 & H4%commit_log & Hc); [|done].
    apply bind_Ok in Hc as (? & s5 & [= <- <-] & Hc). injection Hc as <-. cbn [ls_log].
    rewrite H4. destruct (Z.eqb_spec (lg_outstanding (ls_log s)) 1); [|lia].
    cbn. unfold set_committing, set_n, set_outstanding. cbn. f_equal. done.
  - injection Hc as <-. cbn. destruct (Z.eqb_spec (lg_outstanding (ls_log s)) 1); [lia|done].
Qed.

Lemma begin_op_log s s' :
  begin_op s = Ok tt s' ->
  lg_committing (ls_log s) = 0 /\
  lh_n (ls_log s) + (lg_outstanding (ls_log s) + 1) * MAXOPBLOCKS <= LOGSIZE /\
  ls_log s' = set_outstanding (lg_outstanding (ls_log s) + 1) (ls_log s).
Proof.
  unfold begin_op. intros (l & s0 & [= <- <-] & Hc)%bind_Ok.
  destruct (ctrue _) eqn:Ec; [done|]. unfold ctrue in Ec. apply negb_false_iff, Z.eqb_eq in Ec.
  destruct (Z.ltb_spec LOGSIZE (lh_n (ls_log s) + (lg_outstanding (ls_log s) + 1) * MAXOPBLOCKS));
    [done|]. injection Hc as <-. done.
Qed.

Lemma ops_inv_step x y : op_step x y -> ops_inv x -> ops_inv y.
Proof.
  intros Hstep [Ho Hc Hn Hb Hs]. inversion Hstep; subst; cbn [fst snd] in *.
  - apply begin_op_log in H0 as (H1 & H2 & H3). pose proof (sum_budgets _ Hb).
    constructor; cbn [fst snd]; rewrite ?H3; cbn -[Z.mul Z.add MAXOPBLOCKS LOGSIZE]; try lia.
    + constructor; [unfold MAXOPBLOCKS; lia|done].
    + fold (sum_list ops). lia.
  - apply keeps_io in H0. constructor; cbn [fst snd]; by rewrite ?H0.
  - apply log_write_log in H1 as (H1 & H2 & _ & H3).
    rewrite sum_list_app in Hs. rewrite length_app in Ho. cbn in Hs, Ho.
    apply Forall_app in Hb as [Hb1 Hb2]. apply Forall_cons in Hb2 as [Hk Hb2].
    constructor; cbn [fst snd]; rewrite ?H1, ?H2, ?sum_list_app, ?length_app; cbn; try lia.
    apply Forall_app. split; [done|]. constructor; [lia|done].
  - apply end_op_log in H0 as [_ H1]; [|done].
    rewrite sum_list_app in Hs. rewrite length_app in Ho. cbn in Hs, Ho.
    apply Forall_app in Hb as [Hb1 Hb2]. apply Forall_cons in Hb2 as [Hk Hb2].
    constructor; cbn [fst snd]; rewrite ?H1, ?sum_list_app, ?length_app.
    + destruct (_ =? 1); cbn; lia.
    + destruct (_ =? 1); cbn; lia.
    + destruct (_ =? 1); cbn; lia.
    + by apply Forall_app.
    + fold (sum_list ops2) in *. destruct (Z.eqb_spec (lg_outstanding (ls_log s)) 1); cbn; lia.
Qed.

Lemma ops_inv_reachable x y : rtc op_step x y -> ops_inv x -> ops_inv y.
Proof. induction 1; eauto using ops_inv_step. Qed.

Lemma lg_size_reachable x y : rtc op_step x y -> ops_inv x ->
  lg_size (ls_log y.1) = lg_size (ls_log x.1).
Proof.
  induction 1 as [|x y z Hxy Hyz IH]; [done|]. intros Hx.
  rewrite IH by by eapply ops_inv_step. destruct Hx as [_ _ Hn _ _].
  inversion Hxy; subst; cbn [fst snd] in *.
  - apply begin_op_log in H0 as (_ & _ & ->). done.
  - apply keeps_io in H0 as ->. done.
  - apply log_write_log in H1 as (_ & _ & -> & _). done.
  - apply end_op_log in H0 as [_ ->]; [|done]. by destruct (_ =? 1).
Qed.

End reservation.

(** C28: the reservation [begin_op] makes is enough.  If the log region has a
    block for the header beside [LOGSIZE] data blocks, then in every
    interleaving of operations that each log at most [MAXOPBLOCKS] blocks, an
    operation that has not used up its budget can call [log_write] without
    making the kernel panic. *)
Theorem reservation_suffices (s0 s : alog) ops1 k ops2 :
  lg_outstanding (ls_log s0) = 0 -> lg_committing (ls_log s0) = 0 -> lh_n (ls_log s0) = 0 ->
  LOGSIZE < lg_size (ls_log s0) ->
  rtc op_step (s0, []) (s, ops1 ++ k :: ops2) -> 0 < k ->
  forall sector msg, log_write sector s <> Panic msg.
Proof.
  intros H1 H2 H3 Hsz Hr Hk sector msg.
  assert (ops_inv (s0, [])) as I0 by (constructor; simpl; rewrite ?H1, ?H2, ?H3; done).
  pose proof (lg_size_reachable _ _ Hr I0) as Esz. cbn in Esz.
  destruct (ops_inv_reachable _ _ Hr I0) as [Ho _ Hn Hb Hs]. cbn [fst snd] in *.
  rewrite sum_list_app in Hs. rewrite length_app in Ho. cbn in Hs, Ho.
  apply Forall_app in Hb as [Hb1 Hb2]. apply Forall_cons in Hb2 as [_ Hb2].
  pose proof (sum_budgets _ Hb1). pose proof (sum_budgets _ Hb2).
  fold (sum_list ops2) in Hs. unfold log_write. erewrite bind_run; [|reflexivity].
  destruct (Z.leb_spec LOGSIZE (lh_n (ls_log s))); [lia|].
  destruct (Z.leb_spec (lg_size (ls_log s) - 1) (lh_n (ls_log s))); [lia|].
  destruct (Z.ltb_spec (lg_outstanding (ls_log s)) 1); [lia|]. cbn [orb].
  erewrite bind_run; [|reflexivity]. unfold when.
  destruct (_ =? lh_n (ls_log s)); (erewrite bind_run; [|reflexivity]);
    unfold io, lift; cbn; unfold a_bdirty; by case_decide.
Qed.


(** ** The space mkfs leaves for the log *)

Lemma log_inv_outstanding l c wk o :
  log_inv (LState l c wk) -> log_inv (LState (set_outstanding o l) c wk).
Proof.
  intros [G Hb Hd Hc Hl Hdl Hs Hr Hh Hsup]. constructor; try done.
  destruct G. by constructor.
Qed.

Lemma begin_op_ok (s : alog) :
  log_inv s -> lg_committing (ls_log s) = 0 ->
  lh_n (ls_log s) + (lg_outstanding (ls_log s) + 1) * MAXOPBLOCKS <= LOGSIZE ->
  exists s', begin_op s = Ok tt s' /\ log_inv s' /\
    s' = LState (set_outstanding (lg_outstanding (ls_log s) + 1) (ls_log s)) (ls_cache s)
           (ls_wakeups s).
Proof.
  intros I Hc Hs. unfold begin_op. erewrite bind_run; [|reflexivity]. rewrite Hc. cbn [ctrue].
  destruct (Z.ltb_spec LOGSIZE (lh_n (ls_log s) + (lg_outstanding (ls_log s) + 1) * MAXOPBLOCKS));
    [lia|]. eexists. split; [reflexivity|]. split; [|done]. destruct s.
  by apply log_inv_outstanding.
Qed.

Lemma log_update_steps {C} `{BlockCache C} (s s' : lstate C) dev sector d ops1 k ops2 :
  log_update dev sector d s = Ok tt s' -> 0 < k ->
  rtc op_step (s, ops1 ++ k :: ops2) (s', ops1 ++ (k - 1) :: ops2).
Proof.
  unfold log_update. intros (? & s1 & H1 & Hr)%bind_Ok Hk.
  apply bind_Ok in Hr as (? & s2 & H2 & Hr). apply bind_Ok in Hr as ([] & s3 & H3 & H4).
  eapply rtc_l; [by eapply op_io|]. eapply rtc_l; [by eapply op_io|].
  eapply rtc_l; [by eapply op_write|]. apply rtc_once. by eapply op_io.
Qed.

(** The log with sectors 2 .. [i + 1] logged by three operations. *)
Record filling (s : alog) (i : Z) : Prop := {
  fill_inv : log_inv s;
  fill_n : lh_n (ls_log s) = i;
  fill_out : lg_outstanding (ls_log s) = 3;
  fill_size : lg_size (ls_log s) = LOGSIZE;
  fill_start : 31 < lg_start (ls_log s);
  fill_secs b : b ∈ secset (ls_log s) -> b < 2 + i;
  fill_dom b : 2 <= b <= 31 ->
    is_Some (ac_mem (ls_cache s) !! b) /\ is_Some (ac_disk (ls_cache s) !! b)
}.

Lemma drain ops1 ops2 (m : nat) : forall s i k,
  filling s i -> Z.of_nat m <= k -> 0 <= i -> i + Z.of_nat m <= 29 ->
  exists s', rtc op_step (s, ops1 ++ k :: ops2) (s', ops1 ++ (k - Z.of_nat m) :: ops2) /\
    filling s' (i + Z.of_nat m).
Proof.
  induction m as [|m IH]; intros s i k F Hk Hi0 Hi.
  { exists s. rewrite Z.sub_0_r, Z.add_0_r. split; [constructor|done]. }
  destruct F as [I Hn Ho Hz Hs Hb Hd].
  destruct (log_update_spec s (2 + i) (replicate 512 0))
    as (s1 & Hrun & I1 & Em & Ed & _ & Es1 & Ez1 & Esec & Eo1 & En1);
    [done|lia|apply Hd; lia|apply Hd; lia|done|lia|by rewrite Hz|rewrite Hz; unfold LOGSIZE, MAXOPBLOCKS; lia|].
  rewrite decide_False in En1 by (intros ?%Hb; lia).
  destruct (IH s1 (i + 1) (k - 1)) as (s2 & Hr2 & F2); [|lia|lia|lia|].
  - constructor; [done|lia|lia|lia|lia| |].
    + intros b. rewrite Esec, elem_of_union, elem_of_singleton. intros [->|?%Hb]; lia.
    + intros b Hb'. rewrite Em, Ed. split; [|by apply Hd].
      destruct (decide (2 + i = b)) as [->|]; simplify_map_eq; [eauto|by apply Hd].
  - exists s2. split.
    + etrans; [eapply log_update_steps; [exact Hrun|lia]|].
      replace (k - Z.of_nat (S m)) with (k - 1 - Z.of_nat m) by lia. exact Hr2.
    + by replace (i + Z.of_nat (S m)) with (i + 1 + Z.of_nat m) by lia.
Qed.

(** C38: with the log region mkfs creates ([nlog = LOGSIZE] blocks, one of them
    the header) the reservation is one block short: three operations that
    each stay within [MAXOPBLOCKS] are admitted together by [begin_op], and
    the thirtieth block they log makes [log_write] panic. *)
Theorem reservation_one_short (s0 : alog) :
  log_inv s0 -> lh_n (ls_log s0) = 0 -> lg_outstanding (ls_log s0) = 0 ->
  lg_committing (ls_log s0) = 0 -> lg_size (ls_log s0) = LOGSIZE -> 31 < lg_start (ls_log s0) ->
  (forall b, 2 <= b <= 31 ->
    is_Some (ac_mem (ls_cache s0) !! b) /\ is_Some (ac_disk (ls_cache s0) !! b)) ->
  exists s, rtc op_step (s0, []) (s, [0; 0; 1]) /\
    forall sector, log_write sector s = Panic "too big a transaction".
Proof.
  intros I Hn Ho Hc Hz Hs Hd. unfold LOGSIZE, MAXOPBLOCKS in *.
  destruct (begin_op_ok s0) as (s1 & R1 & I1 & E1); [done|done|rewrite Hn, Ho; done|].
  destruct (begin_op_ok s1) as (s2 & R2 & I2 & E2); [done|by rewrite E1|rewrite E1; cbn; rewrite Hn, Ho; done|].
  destruct (begin_op_ok s2) as (s3 & R3 & I3 & E3);
    [done|by rewrite E2, E1|rewrite E2, E1; cbn; rewrite Hn, Ho; done|].
  assert (filling s3 0) as F.
  { constructor; [done|..]; rewrite E3, E2, E1; cbn; [done|by rewrite Ho|done|done| |done].
    intros b Hb. rewrite secset_0 in Hb by done. by apply not_elem_of_empty in Hb. }
  destruct (drain [] [10; 10] 10 s3 0 10 F) as (s4 & R4 & F4); [lia..|].
  destruct (drain [0] [10] 10 s4 _ 10 F4) as (s5 & R5 & F5); [lia..|].
  destruct (drain [0; 0] [] 9 s5 _ 10 F5) as (s6 & R6 & F6); [lia..|].
  exists s6. split.
  - eapply rtc_l; [by apply op_begin|]. eapply rtc_l; [by apply op_begin|].
    eapply rtc_l; [by apply op_begin|]. etrans; [exact R4|]. etrans; [exact R5|exact R6].
  - intros sector. destruct F6 as [_ En _ Ez _ _ _]. unfold log_write.
    erewrite bind_run; [|reflexivity]. by rewrite En, Ez.
Qed.
