(* ===== verification/LogExamples.v ===== *)
(** Concrete disks and logs on which the hypotheses of the theorems about the
    log hold. *)

From stdpp Require Import prelude strings gmap list.
From S2P Require Import Prelude Bytes Param BlockCache Log LogCrash LogOps.

(** The superblock of a disk of [start] sectors followed by [nlog] log blocks. *)
Definition example_sb (start nlog : Z) : block :=
  set_word (set_word (replicate 512 0) 3 nlog) 0 (start + nlog).

Definition example_disk (start nlog : Z) : gmap Z block :=
  <[1 := example_sb start nlog]>
    (list_to_map ((fun i => (i, replicate 512 0)) <$> upto (start + nlog))).

Definition example_log (start nlog out : Z) : log :=
  Log start nlog out 0 ROOTDEV 0 (replicate 30 0).

Definition example_state (start nlog out : Z) : alog :=
  LState (example_log start nlog out) (boot (example_disk start nlog)) [].

Lemma example_lookup start nlog b :
  0 <= b < start + nlog -> is_Some (example_disk start nlog !! b).
Proof.
  intros Hb. unfold example_disk. destruct (decide (1 = b)) as [->|]; simplify_map_eq; eauto.
  exists (replicate 512 0). apply elem_of_list_to_map_1.
  - rewrite <- list_fmap_compose. apply NoDup_map_upto. simpl. auto.
  - apply list_elem_of_fmap. exists b. by rewrite elem_of_upto.
Qed.

Lemma example_zero start nlog b d :
  b <> 1 -> example_disk start nlog !! b = Some d -> d = replicate 512 0.
Proof.
  intros Hb. unfold example_disk. rewrite lookup_insert_ne by done.
  intros H%elem_of_list_to_map_2. apply list_elem_of_fmap in H as (i & [= -> ->] & _). done.
Qed.

Lemma example_sb_len start nlog : length (example_sb start nlog) = Z.to_nat BSIZE.
Proof.
  unfold example_sb. rewrite !length_set_word; rewrite ?length_set_word; try lia;
    by rewrite length_replicate.
Qed.

Lemma example_sb_size start nlog :
  is_u32 (start + nlog) -> get_word (example_sb start nlog) 0 = start + nlog.
Proof.
  intros. unfold example_sb. apply get_set_word_eq; [lia| |done].
  rewrite length_set_word; rewrite ?length_replicate; lia.
Qed.

Lemma example_sb_nlog start nlog :
  is_u32 nlog -> get_word (example_sb start nlog) 3 = nlog.
Proof.
  intros. unfold example_sb. rewrite get_set_word_ne; [|lia|lia| |lia].
  - apply get_set_word_eq; rewrite ?length_replicate; lia.
  - rewrite length_set_word; rewrite ?length_replicate; lia.
Qed.

Lemma example_inv start nlog out :
  2 <= start -> 1 <= nlog -> start + nlog < 2147483648 -> log_inv (example_state start nlog out).
Proof.
  intros Hs Hl Hm.
  assert (forall b d, example_disk start nlog !! b = Some d -> length d = Z.to_nat BSIZE) as Hlen.
  { intros b d Hd. destruct (decide (b = 1)) as [->|Hne].
    - unfold example_disk in Hd. rewrite lookup_insert_eq in Hd. injection Hd as <-.
      apply example_sb_len.
    - by rewrite (example_zero start nlog b d). }
  constructor; cbn [ls_log ls_cache example_state boot ac_mem ac_disk ac_busy ac_dirty
    lh_n example_log lg_start lg_size]; auto; try lia.
  - constructor; cbn -[LOGSIZE NBUF]; unfold LOGSIZE, NBUF, MAXOPBLOCKS; try lia; done.
  - intros b Hb. apply example_lookup. lia.
  - destruct (example_lookup start nlog start) as [d Hd]; [lia|].
    rewrite (lookup_total_correct _ _ _ Hd).
    rewrite (example_zero start nlog start d); [done|lia|done].
  - exists (example_sb start nlog). unfold example_disk. rewrite lookup_insert_eq. split; [done|].
    unfold superblock_of. cbn [sb_size sb_nlog].
    rewrite example_sb_size, example_sb_nlog by lia. lia.
Qed.

(** One block of a two-block log filled with sevens. *)
Definition sevens : block := replicate 512 7.

Definition one_logged : alog :=
  match log_update ROOTDEV 2 sevens (example_state 3 2 1) with
  | Ok _ s => s
  | _ => example_state 3 2 1
  end.

Lemma one_logged_inv : log_inv one_logged.
Proof.
  destruct (log_update_spec (example_state 3 2 1) 2 sevens) as (s' & Hr & Hi & _);
    [by apply example_inv|cbn; lia|by apply example_lookup|by apply example_lookup
    |done|cbn; lia|cbn; unfold NBUF, MAXOPBLOCKS; lia|cbn; lia|].
  unfold one_logged. by rewrite Hr.
Qed.

Lemma one_logged_home : home (ls_log one_logged) 2.
Proof.
  unfold home. replace (lg_start (ls_log one_logged)) with 3 by by vm_compute. lia.
Qed.

Lemma one_logged_n : lh_n (ls_log one_logged) = 1.
Proof. by vm_compute. Qed.

Lemma one_logged_disk : ac_disk (ls_cache one_logged) !! 2 = Some (replicate 512 0).
Proof. by vm_compute. Qed.

Lemma one_logged_mem : ac_mem (ls_cache one_logged) !! 2 = Some sevens.
Proof. by vm_compute. Qed.

Lemma commit_crash_safe_witness :
  log_inv one_logged /\ lh_n (ls_log one_logged) = 1 /\
  exists s', commit one_logged = Ok tt s' /\
    forall k d, crashes (crash_disk one_logged s' k) d ->
      exists r, initlog (LState log0 (boot d) []) = Ok tt r /\
        ac_disk (ls_cache r) !! 2 =
          Some (if decide (k <= 1)%nat then replicate 512 0 else sevens).
Proof.
  split; [exact one_logged_inv|]. split; [exact one_logged_n|].
  destruct (commit_crash_safe one_logged one_logged_inv) as (s' & Hc & H);
    [rewrite one_logged_n; lia|].
  exists s'. split; [exact Hc|]. intros k d Hd. destruct (H k d Hd) as (r & Hr & _ & _ & Hh).
  exists r. split; [exact Hr|]. specialize (Hh 2 one_logged_home).
  rewrite one_logged_n in Hh. rewrite Hh.
  destruct (decide (k <= Z.to_nat 1)%nat), (decide (k <= 1)%nat); try lia.
  - exact one_logged_disk.
  - exact one_logged_mem.
Defined.

Lemma commit_installs_witness :
  exists s', commit one_logged = Ok tt s' /\ ac_disk (ls_cache s') !! 2 = Some sevens.
Proof.
  destruct (commit_installs one_logged one_logged_inv) as (s' & Hc & _ & _ & _ & H).
  exists s'. split; [exact Hc|]. destruct (H 2 one_logged_home) as [H2 _].
  rewrite H2. exact one_logged_mem.
Defined.

Lemma log_update_ok_witness :
  exists s', log_update ROOTDEV 2 sevens (example_state 3 2 1) = Ok tt s' /\
    log_inv s' /\ lh_n (ls_log s') = 1.
Proof.
  destruct (log_update_ok (example_state 3 2 1) 2 sevens) as (s' & Hr & Hi & _ & _ & _ & Hn);
    [by apply example_inv|cbn; lia|by apply example_lookup|by apply example_lookup
    |done|cbn; lia|cbn; unfold NBUF, MAXOPBLOCKS; lia|cbn; lia|].
  exists s'. split; [exact Hr|]. split; [exact Hi|]. rewrite Hn. reflexivity.
Defined.

Lemma reservation_suffices_witness :
  log_write 2 (LState (set_outstanding 1 (example_log 3 31 0)) (boot (example_disk 3 31)) [])
    <> Panic "too big a transaction".
Proof.
  apply (reservation_suffices (example_state 3 31 0) _ [] 10 []); try reflexivity; try lia.
  apply rtc_once. apply op_begin. reflexivity.
Defined.

Lemma reservation_one_short_witness :
  exists s, rtc op_step (example_state 994 30 0, []) (s, [0; 0; 1]) /\
    log_write 31 s = Panic "too big a transaction".
Proof.
  destruct (reservation_one_short (example_state 994 30 0)) as (s & Hr & Hp);
    [by apply example_inv|reflexivity|reflexivity|reflexivity|reflexivity|cbn; lia| |].
  - intros b Hb. split; apply example_lookup; lia.
  - exists s. split; [exact Hr|apply Hp].
Defined.
