(* ===== verification/Bio.v ===== *)
(** The buffer cache of bio.c over the in-memory disk of memide.c.

    The buffers are an array; [prev] and [next] pointers are indices into it,
    the sentinel [bcache.head] being the entry after the last buffer.  The
    model keeps the linked list as the code does: [bget] walks it from
    [head.next] and from [head.prev], [brelse] relinks the buffer at the front.

    The counters [free_block_number], [number_of_hits] and
    [number_of_block_acsses] are the statistics procfs reports. *)

From stdpp Require Import prelude strings gmap list.
From S2P Require Import Prelude Param BlockCache.

(** ** Data *)

Record buf := Buf {
  b_flags : Z;
  b_dev : Z;
  b_sector : Z;
  b_prev : nat;
  b_next : nat;
  b_data : block
}.

Record bcache := BCache {
  bufs : list buf;                 (* buf[0 .. NBUF-1] and head *)
  free_block_number : Z;
  number_of_hits : Z;
  number_of_block_acsses : Z;
  memdisk : gmap Z block;          (* sectors 0 .. disksize-1 *)
  disk_writes : list (Z * block);  (* history of the sectors written *)
  wakeups : list chan
}.

(** The index of [bcache.head]. *)
Definition HEAD : nat := Z.to_nat NBUF.

Definition buf0 : buf := Buf 0 0 0 0 0 (replicate 512 0).

Definition set_flags (f : Z) (b : buf) : buf :=
  Buf f (b_dev b) (b_sector b) (b_prev b) (b_next b) (b_data b).
Definition set_dev (d : Z) (b : buf) : buf :=
  Buf (b_flags b) d (b_sector b) (b_prev b) (b_next b) (b_data b).
Definition set_sector (s : Z) (b : buf) : buf :=
  Buf (b_flags b) (b_dev b) s (b_prev b) (b_next b) (b_data b).
Definition set_prev (p : nat) (b : buf) : buf :=
  Buf (b_flags b) (b_dev b) (b_sector b) p (b_next b) (b_data b).
Definition set_next (n : nat) (b : buf) : buf :=
  Buf (b_flags b) (b_dev b) (b_sector b) (b_prev b) n (b_data b).
Definition set_data (d : block) (b : buf) : buf :=
  Buf (b_flags b) (b_dev b) (b_sector b) (b_prev b) (b_next b) d.

Definition nextf (l : list buf) (i : nat) : nat := from_option b_next HEAD (l !! i).
Definition prevf (l : list buf) (i : nat) : nat := from_option b_prev HEAD (l !! i).
Definition getb (l : list buf) (i : nat) : buf := default buf0 (l !! i).

Definition upd (f : list buf -> list buf) (c : bcache) : bcache :=
  BCache (f (bufs c)) (free_block_number c) (number_of_hits c) (number_of_block_acsses c)
    (memdisk c) (disk_writes c) (wakeups c).
Definition counters (free hits acc : Z) (c : bcache) : bcache :=
  BCache (bufs c) (s32 (free_block_number c + free)) (s32 (number_of_hits c + hits))
    (s32 (number_of_block_acsses c + acc)) (memdisk c) (disk_writes c) (wakeups c).

Definition busy (b : buf) : bool := ctrue (b_flags b .& B_BUSY).
Definition valid (b : buf) : bool := ctrue (b_flags b .& B_VALID).
Definition dirty (b : buf) : bool := ctrue (b_flags b .& B_DIRTY).

(** ** Operations *)

(** One iteration of the loop of [binit] for buffer [i]. *)
Definition link_front (i : nat) (l : list buf) : list buf :=
  let l := alter (set_next (nextf l HEAD)) i l in
  let l := alter (set_prev HEAD) i l in
  let l := alter (set_dev (u32 (-1))) i l in
  let l := alter (set_prev i) (nextf l HEAD) l in
  alter (set_next i) HEAD l.

Definition binit (d : gmap Z block) : bcache :=
  let l := replicate (S HEAD) buf0 in
  let l := alter (set_prev HEAD) HEAD l in
  let l := alter (set_next HEAD) HEAD l in
  BCache (foldl (fun l i => link_front i l) l (seq 0 HEAD)) NBUF 0 0 d [] [].

(** Walk the list along [step] from [i] to the first buffer satisfying [p];
    [Some None] when the walk reaches [&bcache.head]. *)
Fixpoint walk (step : list buf -> nat -> nat) (p : buf -> bool) (fuel : nat)
    (l : list buf) (i : nat) : option (option nat) :=
  if decide (i = HEAD) then Some None
  else match fuel with
       | O => None
       | S fuel => if p (getb l i) then Some (Some i) else walk step p fuel l (step l i)
       end.

Definition bget_loop (dev sector : Z) : M bcache nat :=
  c ← get;
  cached ← of_option "bcache list"
    (walk nextf (fun b => (b_dev b =? dev) && (b_sector b =? sector))%bool HEAD
      (bufs c) (nextf (bufs c) HEAD));
  match cached with
  | Some i =>
      if negb (busy (getb (bufs c) i)) then
        modify (upd (alter (fun b => set_flags (b_flags b .| B_BUSY) b) i));;
        modify (counters (-1) 1 0);;
        mret i
      else sleep_on (ChBuf (Z.of_nat i))
  | None =>
      free ← of_option "bcache list"
        (walk prevf (fun b => (b_flags b .& B_BUSY =? 0) && (b_flags b .& B_DIRTY =? 0))%bool HEAD
          (bufs c) (prevf (bufs c) HEAD));
      match free with
      | Some i =>
          modify (upd (alter (fun b => set_flags B_BUSY (set_sector sector (set_dev dev b))) i));;
          modify (counters (-1) 0 0);;
          mret i
      | None => panic "bget: no buffers"
      end
  end.

(** A process that sleeps in [bget] continues at [loop]. *)
Definition bget (dev sector : Z) : M bcache nat :=
  modify (counters 0 0 1);;
  bget_loop dev sector.

(** memide.c *)
Definition iderw (i : nat) : M bcache unit :=
  c ← get;
  let b := getb (bufs c) i in
  if negb (busy b) then panic "iderw: buf not busy"
  else if b_flags b .& (B_VALID .| B_DIRTY) =? B_VALID then panic "iderw: nothing to do"
  else if negb (b_dev b =? 1) then panic "iderw: request not for disk 1"
  else match memdisk c !! b_sector b with
       | None => panic "iderw: sector out of range"
       | Some p =>
           (if dirty b then
             modify (upd (alter (fun b => set_flags (b_flags b .& Z.lnot B_DIRTY) b) i));;
             modify (fun c => BCache (bufs c) (free_block_number c) (number_of_hits c)
               (number_of_block_acsses c) (<[b_sector b := b_data b]> (memdisk c))
               (disk_writes c ++ [(b_sector b, b_data b)]) (wakeups c))
           else modify (upd (alter (set_data p) i)));;
           modify (upd (alter (fun b => set_flags (b_flags b .| B_VALID) b) i))
       end.

Definition bread_buf (dev sector : Z) : M bcache nat :=
  i ← bget dev sector;
  c ← get;
  when (negb (valid (getb (bufs c) i))) (iderw i);;
  mret i.

Definition bwrite_buf (i : nat) : M bcache unit :=
  c ← get;
  if b_flags (getb (bufs c) i) .& B_BUSY =? 0 then panic "bwrite"
  else
    modify (upd (alter (fun b => set_flags (b_flags b .| B_DIRTY) b) i));;
    iderw i.

(** The six pointer assignments of [brelse]. *)
Definition relink (i : nat) (l : list buf) : list buf :=
  let l := alter (set_prev (prevf l i)) (nextf l i) l in
  let l := alter (set_next (nextf l i)) (prevf l i) l in
  let l := alter (set_next (nextf l HEAD)) i l in
  let l := alter (set_prev HEAD) i l in
  let l := alter (set_prev i) (nextf l HEAD) l in
  alter (set_next i) HEAD l.

Definition brelse_buf (i : nat) : M bcache unit :=
  c ← get;
  if b_flags (getb (bufs c) i) .& B_BUSY =? 0 then panic "brelse"
  else
    modify (upd (relink i));;
    modify (upd (alter (fun b => set_flags (b_flags b .& Z.lnot B_BUSY) b) i));;
    modify (counters 1 0 0);;
    modify (fun c => BCache (bufs c) (free_block_number c) (number_of_hits c)
      (number_of_block_acsses c) (memdisk c) (disk_writes c) (wakeups c ++ [ChBuf (Z.of_nat i)])).

Definition get_free_block_number (c : bcache) : Z := free_block_number c.
Definition get_total_block_number (c : bcache) : Z := NBUF.
Definition get_number_of_block_acsses (c : bcache) : Z := number_of_block_acsses c.
Definition get_number_of_hits (c : bcache) : Z := number_of_hits c.

(** ** The interface of BlockCache

    A client holds the pointer [bread] returned; while the buffer is locked
    that pointer is the only buffer of its sector. *)
Fixpoint find_buf (l : list buf) (sector : Z) (i : nat) : option nat :=
  match l with
  | [] => None
  | b :: l => if (busy b && (b_dev b =? 1) && (b_sector b =? sector))%bool then Some i
              else find_buf l sector (S i)
  end.

Definition held {A} (sector : Z) (f : nat -> M bcache A) : M bcache A :=
  c ← get;
  match find_buf (take HEAD (bufs c)) sector 0 with
  | Some i => f i
  | None => fault "buffer not held"
  end.

#[export] Instance bcache_BlockCache : BlockCache bcache := {|
  bread dev sector := i ← bread_buf dev sector; c ← get; mret (b_data (getb (bufs c) i));
  bset sector d := held sector (fun i => modify (upd (alter (set_data d) i)));
  bdirty sector :=
    held sector (fun i => modify (upd (alter (fun b => set_flags (b_flags b .| B_DIRTY) b) i)));
  bwrite sector := held sector bwrite_buf;
  brelse sector := held sector brelse_buf
|}.

Example binit_order :
  let l := bufs (binit ∅) in
  nextf l HEAD = 29%nat /\ nextf l 29 = 28%nat /\ nextf l 0 = HEAD /\
  prevf l HEAD = 0%nat /\ prevf l 28 = 29%nat.
Proof. by vm_compute. Qed.
