(* ===== verification/BioSpec.v ===== *)
(** bio.c implements the abstract cache of BlockCache.v.

    [seg] describes the doubly linked list, [crep] what the buffers hold; their
    conjunction [bio_rep] is preserved by every operation and relates it to the
    corresponding operation of [acache]. *)

From stdpp Require Import prelude strings functions gmap list.
From S2P Require Import Prelude Param BlockCache Bio.

(** ** Linked lists as index functions *)

(** Following [f] from [x] visits [l] and then arrives at [y]. *)
Fixpoint seg (f : nat -> nat) (x : nat) (l : list nat) (y : nat) : Prop :=
  match l with
  | [] => f x = y
  | z :: l => f x = z /\ seg f z l y
  end.

Lemma seg_app f x l1 z l2 y : seg f x (l1 ++ z :: l2) y <-> seg f x l1 z /\ seg f z l2 y.
Proof. revert x. induction l1 as [|a l1 IH]; intros x; simpl; [done|]. rewrite IH. tauto. Qed.

Lemma seg_ext f g x l y :
  (forall i, i ∈ x :: l -> f i = g i) -> seg f x l y -> seg g x l y.
Proof.
  revert x. induction l as [|a l IH]; intros x Hfg; simpl.
  - rewrite <- Hfg by left. done.
  - rewrite <- Hfg by left. intros [-> H]. split; [done|].
    apply IH; [|done]. intros i Hi. apply Hfg. by right.
Qed.

Lemma seg_first f x l y : seg f x l y -> f x = default y (head l).
Proof. destruct l; simpl; [done|]. by intros [-> _]. Qed.

(** The node before the end of a segment. *)
Definition last_of (x : nat) (l : list nat) : nat := default x (last l).

Lemma last_of_cons x z l : last_of x (z :: l) = last_of z l.
Proof. unfold last_of. rewrite last_cons. by destruct (last l). Qed.

Lemma last_of_in x l : last_of x l ∈ x :: l.
Proof.
  revert x. induction l as [|z l IH]; intros x; [left|].
  rewrite last_of_cons. right. apply IH.
Qed.

Lemma last_of_rev x l : last_of x (reverse l) = default x (head l).
Proof. unfold last_of. destruct l as [|z l]; [done|]. by rewrite reverse_cons, last_snoc. Qed.

Lemma head_rev x l : default x (head (reverse l)) = last_of x l.
Proof. by rewrite <- (reverse_involutive l) at 2; rewrite last_of_rev. Qed.

Lemma seg_redirect f x l y z :
  NoDup (x :: l) -> seg f x l y -> seg (<[last_of x l := z]> f) x l z.
Proof.
  revert x. induction l as [|a l IH]; intros x Hnd; simpl.
  - intros _. apply fn_lookup_insert.
  - intros [Ha Hs]. apply NoDup_cons in Hnd as [Hx Hnd]. rewrite last_of_cons. split.
    + rewrite fn_lookup_insert_ne; [done|].
      intros E. pose proof (last_of_in a l) as Hl. rewrite E in Hl. contradiction.
    + by apply IH.
Qed.

(** Removing a node: its predecessor is redirected to its successor. *)
Lemma seg_remove f x l1 i l2 y :
  NoDup (x :: l1 ++ i :: l2) -> seg f x (l1 ++ i :: l2) y ->
  seg (<[last_of x l1 := f i]> f) x (l1 ++ l2) y.
Proof.
  intros Hnd [H1 H2]%seg_app.
  rewrite app_comm_cons in Hnd. apply NoDup_app in Hnd as (Hnd1 & Hdis & Hnd2).
  destruct l2 as [|z l2].
  - simpl in H2. rewrite app_nil_r, <- H2. eapply seg_redirect; eauto.
  - simpl in H2. destruct H2 as [E2 H2]. rewrite E2.
    apply seg_app. split; [eapply seg_redirect; eauto|].
    eapply seg_ext; [|exact H2]. intros j Hj. symmetry. apply fn_lookup_insert_ne.
    intros <-. apply (Hdis _ (last_of_in x l1)). right. exact Hj.
Qed.

Lemma seg_insert_front f x i l y :
  i <> x -> i ∉ l -> x ∉ l -> seg f x l y ->
  seg (<[x := i]> (<[i := f x]> f)) x (i :: l) y.
Proof.
  intros Hix Hil Hxl Hs. split; [apply fn_lookup_insert|].
  destruct l as [|z l]; simpl in *.
  - rewrite fn_lookup_insert_ne by done. by rewrite fn_lookup_insert.
  - destruct Hs as [<- Hs]. rewrite fn_lookup_insert_ne, fn_lookup_insert by done.
    split; [done|]. eapply seg_ext; [|exact Hs].
    intros j Hj. rewrite !fn_lookup_insert_ne; [done|..]; intros ->; contradiction.
Qed.

Lemma seg_insert_back f x i l y :
  i <> x -> i ∉ l -> NoDup (x :: l) -> seg f x l y ->
  seg (<[last_of x l := i]> (<[i := y]> f)) x (l ++ [i]) y.
Proof.
  intros Hix Hil Hnd Hs. apply seg_app. simpl. split.
  - eapply seg_redirect; [done|]. eapply seg_ext; [|exact Hs].
    intros j Hj. rewrite fn_lookup_insert_ne; [done|].
    intros <-. apply elem_of_cons in Hj as [|]; congruence.
  - rewrite fn_lookup_insert_ne.
    + by rewrite fn_lookup_insert.
    + intros E. pose proof (last_of_in x l) as Hl. rewrite E in Hl.
      apply elem_of_cons in Hl as [|]; congruence.
Qed.

(** ** The list of the cache *)

(** [ord] lists the buffers from the most to the least recently released. *)
Record ring (l : list buf) (ord : list nat) : Prop := {
  ring_len : length l = S HEAD;
  ring_perm : ord ≡ₚ seq 0 HEAD;
  ring_next : seg (nextf l) HEAD ord HEAD;
  ring_prev : seg (prevf l) HEAD (reverse ord) HEAD
}.

Lemma ring_elem l ord i : ring l ord -> i ∈ ord <-> (i < HEAD)%nat.
Proof. intros R. rewrite (ring_perm l ord R), elem_of_seq. lia. Qed.

Lemma ring_NoDup l ord : ring l ord -> NoDup (HEAD :: ord).
Proof.
  intros R. apply NoDup_cons. split.
  - rewrite (ring_elem l) by done. lia.
  - rewrite (ring_perm l ord R). apply NoDup_seq.
Qed.

Lemma ring_step_lt l ord i : ring l ord -> (i <= HEAD)%nat ->
  (nextf l i <= HEAD)%nat /\ (prevf l i <= HEAD)%nat.
Proof.
  intros R Hi.
  assert (forall f o, (forall j, j ∈ o -> j < HEAD)%nat -> seg f HEAD o HEAD ->
    i = HEAD \/ i ∈ o -> f i <= HEAD)%nat as H.
  { intros f o Ho Hs [->|[o1 [o2 ->]]%list_elem_of_split].
    - rewrite (seg_first _ _ _ _ Hs). destruct o as [|z o]; simpl; [done|].
      apply Nat.lt_le_incl, Ho. left.
    - apply seg_app in Hs as [_ Hs]. rewrite (seg_first _ _ _ _ Hs).
      destruct o2 as [|z o2]; simpl; [done|].
      apply Nat.lt_le_incl, Ho. apply elem_of_app. right. right. left. }
  assert (i = HEAD \/ i ∈ ord) as Hin.
  { rewrite (ring_elem l ord) by done. lia. }
  split.
  - apply (H _ ord); [|apply R|done]. intros j. by apply (ring_elem l ord).
  - apply (H _ (reverse ord)); [|apply R|].
    + intros j. rewrite elem_of_reverse. by apply (ring_elem l ord).
    + by rewrite elem_of_reverse.
Qed.

Lemma alter_alter {A} (f g : A -> A) i (l : list A) :
  alter g i (alter f i l) = alter (fun x => g (f x)) i l.
Proof.
  apply list_eq. intros j. rewrite !list_lookup_alter. repeat case_decide; try done.
  by destruct (l !! i).
Qed.

Section pointers.
Implicit Types l : list buf.

Lemma nextf_set_next l i v k :
  (i < length l)%nat -> nextf (alter (set_next v) i l) k = <[i := v]> (nextf l) k.
Proof.
  intros [b Hb]%lookup_lt_is_Some. unfold nextf. rewrite list_lookup_alter.
  case_decide as E; [subst; by rewrite Hb, fn_lookup_insert|by rewrite fn_lookup_insert_ne].
Qed.

Lemma nextf_alter l f i k :
  (forall b, b_next (f b) = b_next b) -> nextf (alter f i l) k = nextf l k.
Proof.
  intros Hf. unfold nextf. rewrite list_lookup_alter. case_decide as E; [|done].
  subst. destruct (l !! k); simpl; auto.
Qed.

Lemma prevf_set_prev l i v k :
  (i < length l)%nat -> prevf (alter (set_prev v) i l) k = <[i := v]> (prevf l) k.
Proof.
  intros [b Hb]%lookup_lt_is_Some. unfold prevf. rewrite list_lookup_alter.
  case_decide as E; [subst; by rewrite Hb, fn_lookup_insert|by rewrite fn_lookup_insert_ne].
Qed.

Lemma prevf_alter l f i k :
  (forall b, b_prev (f b) = b_prev b) -> prevf (alter f i l) k = prevf l k.
Proof.
  intros Hf. unfold prevf. rewrite list_lookup_alter. case_decide as E; [|done].
  subst. destruct (l !! k); simpl; auto.
Qed.

Lemma ring_alter l ord f i :
  (forall b, b_next (f b) = b_next b) -> (forall b, b_prev (f b) = b_prev b) ->
  ring l ord -> ring (alter f i l) ord.
Proof.
  intros Hn Hp [Hl Ho HN HP]. split; [by rewrite length_alter|done|..].
  - eapply seg_ext; [|exact HN]. intros j _. by rewrite nextf_alter.
  - eapply seg_ext; [|exact HP]. intros j _. by rewrite prevf_alter.
Qed.

(** The pointers after [relink]: [i] is unlinked, then linked at the front. *)
Lemma relink_next l i k :
  length l = S HEAD -> (i < HEAD)%nat -> (nextf l i <= HEAD)%nat -> (prevf l i <= HEAD)%nat ->
  nextf l i <> i ->
  let F := <[prevf l i := nextf l i]> (nextf l) in
  nextf (relink i l) k = <[HEAD := i]> (<[i := F HEAD]> F) k.
Proof.
  intros Hl Hi Hn Hp Hni F. unfold relink. cbv zeta.
  set (l1 := alter (set_prev (prevf l i)) (nextf l i) l).
  assert (forall j, nextf l1 j = nextf l j) as N1 by (intros; by apply nextf_alter).
  assert (prevf l1 i = prevf l i) as P1.
  { unfold l1. rewrite prevf_set_prev by lia. by rewrite fn_lookup_insert_ne. }
  rewrite P1, N1. set (l2 := alter (set_next (nextf l i)) (prevf l i) l1).
  assert (length l2 = S HEAD) as L2 by (unfold l2, l1; by rewrite !length_alter).
  assert (forall j, nextf l2 j = F j) as N2.
  { intros j. unfold l2, F. rewrite nextf_set_next by (unfold l1; rewrite length_alter; lia).
    unfold insert, fn_insert. case_decide; auto. }
  rewrite N2. set (l3 := alter (set_next (F HEAD)) i l2).
  rewrite nextf_set_next by (rewrite !length_alter; unfold l3; rewrite length_alter; lia).
  destruct (decide (k = HEAD)) as [->|Hk]; [by rewrite !fn_lookup_insert|].
  rewrite !(fn_lookup_insert_ne _ HEAD) by done. rewrite !nextf_alter by done.
  unfold l3. rewrite nextf_set_next by lia.
  destruct (decide (k = i)) as [->|Hki]; [by rewrite !fn_lookup_insert|].
  by rewrite !fn_lookup_insert_ne by done.
Qed.

Lemma relink_prev l i k :
  length l = S HEAD -> (i < HEAD)%nat -> (nextf l i <= HEAD)%nat -> (prevf l i <= HEAD)%nat ->
  (nextf l HEAD <= HEAD)%nat -> nextf l i <> i ->
  let F := <[prevf l i := nextf l i]> (nextf l) in
  prevf (relink i l) k =
    <[F HEAD := i]> (<[i := HEAD]> (<[nextf l i := prevf l i]> (prevf l))) k.
Proof.
  intros Hl Hi Hn Hp Hh Hni F. unfold relink. cbv zeta.
  set (l1 := alter (set_prev (prevf l i)) (nextf l i) l).
  assert (forall j, nextf l1 j = nextf l j) as N1 by (intros; by apply nextf_alter).
  assert (prevf l1 i = prevf l i) as P1.
  { unfold l1. rewrite prevf_set_prev by lia. by rewrite fn_lookup_insert_ne. }
  rewrite P1, N1. set (l2 := alter (set_next (nextf l i)) (prevf l i) l1).
  assert (length l2 = S HEAD) as L2 by (unfold l2, l1; by rewrite !length_alter).
  assert (forall j, nextf l2 j = F j) as N2.
  { intros j. unfold l2, F. rewrite nextf_set_next by (unfold l1; rewrite length_alter; lia).
    unfold insert, fn_insert. case_decide; auto. }
  assert (F HEAD <= HEAD)%nat as HF.
  { unfold F, insert, fn_insert. case_decide; lia. }
  rewrite N2. rewrite prevf_alter by done.
  rewrite (nextf_alter _ (set_prev HEAD)) by done.
  rewrite (nextf_set_next l2), fn_lookup_insert_ne, N2 by lia.
  rewrite prevf_set_prev by (rewrite !length_alter; lia).
  destruct (decide (k = F HEAD)) as [->|Hk]; [by rewrite !fn_lookup_insert|].
  rewrite !(fn_lookup_insert_ne _ (F HEAD)) by done.
  rewrite prevf_set_prev by (rewrite length_alter; lia).
  destruct (decide (k = i)) as [->|Hki]; [by rewrite !fn_lookup_insert|].
  rewrite !(fn_lookup_insert_ne _ i) by done. rewrite !prevf_alter by done.
  unfold l2. rewrite prevf_alter by done. unfold l1. rewrite prevf_set_prev by lia. done.
Qed.

End pointers.

(** [relink] moves the buffer to the front. *)
Lemma ring_relink l l1 i l2 :
  ring l (l1 ++ i :: l2) -> ring (relink i l) (i :: l1 ++ l2).
Proof.
  intros R. pose proof (ring_NoDup _ _ R) as Hnd.
  assert (i < HEAD)%nat as Hi by (apply (ring_elem _ _ i R), elem_of_app; right; left).
  destruct (ring_step_lt l _ i R) as [Hn Hp]; [lia|].
  destruct (ring_step_lt l _ HEAD R) as [Hh _]; [lia|].
  pose proof (ring_len _ _ R) as Hl. pose proof (ring_next _ _ R) as HN.
  pose proof (ring_prev _ _ R) as HP.
  rewrite reverse_app, reverse_cons, <- app_assoc in HP. simpl in HP.
  pose proof HN as HN'. pose proof HP as HP'.
  apply seg_app in HN' as [_ HN'%seg_first]. apply seg_app in HP' as [_ HP'%seg_first].
  assert (prevf l i = last_of HEAD l1) as Ep by (by rewrite HP', head_rev).
  assert (nextf l i = last_of HEAD (reverse l2)) as En by (by rewrite HN', last_of_rev).
  assert ((HEAD ∉ l1 ++ l2) /\ (i ∉ l1 ++ l2) /\ NoDup (l1 ++ l2)) as (Hh' & Hi' & Hnd').
  { rewrite <- Permutation_middle in Hnd. apply NoDup_cons in Hnd as [Hx Hnd].
    apply NoDup_cons in Hnd as [Hy Hnd]. rewrite not_elem_of_cons in Hx. tauto. }
  assert (nextf l i <> i) as Hni.
  { rewrite HN'. destruct l2 as [|z l2]; simpl; [lia|]. intros ->.
    apply Hi', elem_of_app. right. left. }
  set (F := <[prevf l i := nextf l i]> (nextf l)).
  assert (seg F HEAD (l1 ++ l2) HEAD) as HF.
  { unfold F. rewrite Ep. by apply seg_remove. }
  assert (seg (<[nextf l i := prevf l i]> (prevf l)) HEAD (reverse (l1 ++ l2)) HEAD) as HG.
  { rewrite En, reverse_app. apply seg_remove; [|done].
    replace (reverse l2 ++ i :: reverse l1) with (reverse (l1 ++ i :: l2))
      by (rewrite reverse_app, reverse_cons, <- app_assoc; done).
    by rewrite reverse_Permutation. }
  split.
  - unfold relink. by rewrite !length_alter.
  - rewrite Permutation_middle. apply R.
  - eapply seg_ext; [intros j _; symmetry; by apply relink_next|].
    apply seg_insert_front; [lia|done..].
  - eapply seg_ext; [intros j _; symmetry; by apply relink_prev|].
    rewrite reverse_cons. fold F. rewrite (seg_first _ _ _ _ HF).
    rewrite <- last_of_rev. apply seg_insert_back; [lia| |..].
    + by rewrite elem_of_reverse.
    + rewrite reverse_Permutation. by apply NoDup_cons.
    + done.
Qed.

(** Walking the list finds the first buffer in its order. *)
Lemma walk_find step p l ord fuel x :
  seg (step l) x ord HEAD -> HEAD ∉ ord -> (length ord <= fuel)%nat ->
  walk step p fuel l (step l x) = Some (List.find (fun i => p (getb l i)) ord).
Proof.
  revert fuel x. induction ord as [|i ord IH]; intros fuel x Hs Hh Hf.
  - simpl in Hs. rewrite Hs. by destruct fuel; cbn [walk]; rewrite decide_True.
  - simpl in Hs. destruct Hs as [-> Hs]. rewrite not_elem_of_cons in Hh.
    destruct fuel as [|fuel]; simpl in Hf; [lia|]. cbn [walk List.find].
    rewrite decide_False by naive_solver. case_match; [done|].
    apply IH; [done|naive_solver|lia].
Qed.

Lemma walk_next l ord p :
  ring l ord -> walk nextf p HEAD l (nextf l HEAD) = Some (List.find (fun i => p (getb l i)) ord).
Proof.
  intros R. pose proof (ring_NoDup _ _ R) as [Hh _]%NoDup_cons.
  apply walk_find; [apply R|done|]. by rewrite (ring_perm _ _ R), length_seq.
Qed.

Lemma walk_prev l ord p :
  ring l ord ->
  walk prevf p HEAD l (prevf l HEAD) = Some (List.find (fun i => p (getb l i)) (reverse ord)).
Proof.
  intros R. pose proof (ring_NoDup _ _ R) as [Hh _]%NoDup_cons.
  apply walk_find; [apply R|by rewrite elem_of_reverse|].
  by rewrite length_reverse, (ring_perm _ _ R), length_seq.
Qed.

(** ** What the buffers hold *)

(** The buffers without their links. *)
Definition core (b : buf) : buf := Buf (b_flags b) (b_dev b) (b_sector b) 0 0 (b_data b).
Definition view (l : list buf) : list buf := core <$> take HEAD l.

(** Buffer [i] holds sector [s]. *)
Definition has (v : list buf) (s : Z) (i : nat) (b : buf) : Prop :=
  v !! i = Some b /\ b_dev b = 1 /\ b_sector b = s.

(** A buffer between two operations: never used, or filled with a sector, and
    equal to the disk unless it is locked or pinned. *)
Definition buf_ok (d : gmap Z block) (b : buf) : Prop :=
  (0 <= b_flags b < 8 /\ b_dev b = 1 /\ valid b = true /\ is_Some (d !! b_sector b) /\
   (busy b = false -> dirty b = false -> d !! b_sector b = Some (b_data b))) \/
  (b_flags b = 0 /\ b_dev b = u32 (-1)).

Record crep (v : list buf) (a : acache) : Prop := {
  cr_len : length v = HEAD;
  cr_ok i b : v !! i = Some b -> buf_ok (ac_disk a) b;
  cr_uniq s i j b b' : has v s i b -> has v s j b' -> i = j;
  cr_has s i b : has v s i b ->
    (s ∈ ac_busy a <-> busy b = true) /\ (s ∈ ac_dirty a <-> dirty b = true) /\
    ac_mem a !! s = Some (b_data b);
  cr_rest s : (forall i b, ~ has v s i b) ->
    (s ∉ ac_busy a) /\ (s ∉ ac_dirty a) /\ ac_mem a !! s = ac_disk a !! s
}.

Lemma has_dec v s : {i & {b | has v s i b}} + {forall i b, ~ has v s i b}.
Proof.
  destruct (list_find (fun b => b_dev b = 1 /\ b_sector b = s) v) as [[i b]|] eqn:E.
  - left. exists i, b. apply list_find_Some in E. unfold has. naive_solver.
  - right. intros i b (Hi & Hb). apply list_find_None in E.
    rewrite Forall_lookup in E. by apply (E i b).
Qed.

(** The abstract states agree on a sector. *)
Definition agree (a a' : acache) (s : Z) : Prop :=
  (s ∈ ac_busy a <-> s ∈ ac_busy a') /\ (s ∈ ac_dirty a <-> s ∈ ac_dirty a') /\
  ac_mem a !! s = ac_mem a' !! s /\ ac_disk a !! s = ac_disk a' !! s.

Lemma buf_ok_disk d d' b :
  (b_dev b = 1 -> d !! b_sector b = d' !! b_sector b) -> buf_ok d b -> buf_ok d' b.
Proof.
  intros E [(Hf & Hd & Hv & Hs & Hc)|H]; [left|by right].
  by rewrite <- E.
Qed.

(** Replacing the contents of one buffer by those of sector [s]: the buffer held
    [s] before, or was unused and no buffer held [s]. *)
Lemma crep_set v a a' i b b' :
  let s := b_sector b' in
  crep v a -> v !! i = Some b -> b_dev b' = 1 -> buf_ok (ac_disk a') b' ->
  (b_dev b = 1 /\ b_sector b = s \/
   busy b = false /\ dirty b = false /\ forall j c, ~ has v s j c) ->
  (forall s', s' <> s -> agree a a' s') ->
  (s ∈ ac_busy a' <-> busy b' = true) -> (s ∈ ac_dirty a' <-> dirty b' = true) ->
  ac_mem a' !! s = Some (b_data b') ->
  crep (<[i := b']> v) a'.
Proof.
  intros s C Hi Hd Hok Hold Hag Hb Hdi Hm.
  assert (Hlt := lookup_lt_Some _ _ _ Hi).
  assert (forall s' j c, has (<[i := b']> v) s' j c ->
    (j = i /\ s' = s /\ c = b') \/ (j <> i /\ s' <> s /\ has v s' j c)) as Hinv.
  { intros s' j c (Hj & Hcd & Hcs). apply list_lookup_insert_Some in Hj as [(<- & <- & _)|[Hne Hj]].
    - left. done.
    - right. assert (has v s' j c) as Hh by done. split; [done|split; [|done]].
      intros ->. destruct Hold as [[]|(_ & _ & Hno)]; [|by apply (Hno j c)].
      apply Hne. by apply (cr_uniq _ _ C s i j b c). }
  split.
  - rewrite length_insert. apply C.
  - intros j c Hj. apply list_lookup_insert_Some in Hj as [(<- & <- & _)|[Hne Hj]]; [done|].
    destruct (decide (b_dev c = 1)) as [E|]; [|eapply buf_ok_disk; [|by eapply (cr_ok _ _ C)]; done].
    eapply buf_ok_disk; [|by eapply (cr_ok _ _ C)]. intros _. apply Hag.
    destruct (Hinv (b_sector c) j c) as [(? & ? & ?)|(? & ? & ?)]; [|congruence|done].
    split; [by rewrite list_lookup_insert_ne|done].
  - intros s' j k c c' H1%Hinv H2%Hinv.
    destruct H1 as [(? & ? & ?)|(? & ? & ?)], H2 as [(? & ? & ?)|(? & ? & ?)]; try congruence.
    by eapply (cr_uniq _ _ C).
  - intros s' j c [(-> & -> & ->)|(? & Hs & Hh)]%Hinv; [done|].
    destruct (Hag s' Hs) as (A1 & A2 & A3 & A4). rewrite <- A1, <- A2, <- A3.
    by eapply (cr_has _ _ C).
  - intros s' Hno. assert (s' <> s) as Hs.
    { intros ->. apply (Hno i b'). split; [by apply list_lookup_insert_eq|done]. }
    destruct (Hag s' Hs) as (A1 & A2 & A3 & A4). rewrite <- A1, <- A2, <- A3, <- A4.
    destruct (has_dec v s') as [(j & c & Hh)|Hno']; [|by apply C].
    destruct (decide (j = i)) as [->|Hne].
    + assert (c = b) as -> by (destruct Hh; congruence).
      destruct (cr_has _ _ C _ _ _ Hh) as (B1 & B2 & B3). rewrite B1, B2, B3.
      destruct Hold as [[_ ?]|(E1 & E2 & _)]; [destruct Hh as (_ & _ & ?); congruence|].
      rewrite E1, E2. destruct Hh as (_ & Hbd & <-).
      destruct (cr_ok _ _ C _ _ Hi) as [(_ & _ & _ & _ & Hc)|[_ E]]; [|by rewrite E in Hbd].
      rewrite Hc by done. done.
    + exfalso. destruct Hh as [Hj Hc]. apply (Hno j c). split; [|done].
      by rewrite list_lookup_insert_ne by congruence.
Qed.

(** The cache is full when every buffer is locked or pinned. *)
Definition used (b : buf) : bool := (busy b || dirty b)%bool.

Lemma buf_ok_used d b : buf_ok d b -> used b = true -> b_dev b = 1.
Proof.
  intros [(_ & ? & _)|[E _]] Hu; [done|].
  unfold used, busy, dirty in Hu. by rewrite E in Hu.
Qed.

(** Counting: the buffers satisfying [P] correspond to the sectors of [X]. *)
Definition idx_of (P : buf -> bool) (v : list buf) : list nat :=
  filter (fun i => P (getb v i) = true) (seq 0 HEAD).

Lemma elem_of_idx P v i :
  length v = HEAD -> i ∈ idx_of P v <-> exists b, v !! i = Some b /\ P b = true.
Proof.
  intros Hl. unfold idx_of. rewrite list_elem_of_filter, elem_of_seq. unfold getb. split.
  - intros [Hu Hi]. destruct (lookup_lt_is_Some_2 v i) as [b Hb]; [lia|].
    rewrite Hb in Hu. eauto.
  - intros (b & Hb & Hu). rewrite Hb. split; [done|]. apply lookup_lt_Some in Hb. lia.
Qed.

Record counts (v : list buf) (P : buf -> bool) (X : gset Z) : Prop := {
  cn_dev i b : v !! i = Some b -> P b = true -> b_dev b = 1;
  cn_has s i b : has v s i b -> s ∈ X <-> P b = true;
  cn_rest s : (forall i b, ~ has v s i b) -> s ∉ X
}.

Lemma counts_size v a P X : crep v a -> counts v P X -> size X = length (idx_of P v).
Proof.
  intros C [Hdev Hhas Hrest].
  assert (X = list_to_set (b_sector ∘ getb v <$> idx_of P v)) as ->.
  { apply set_eq. intros s. rewrite elem_of_list_to_set, list_elem_of_fmap. split.
    - intros Hs. destruct (has_dec v s) as [(i & b & Hh)|Hno]; [|by apply Hrest in Hno].
      pose proof Hh as (Hi & Hd & Hs'). exists i. rewrite elem_of_idx by apply C. simpl.
      unfold getb. rewrite Hi. split; [done|]. exists b. split; [done|]. by apply (Hhas s i b).
    - intros (i & -> & (b & Hb & Hu)%elem_of_idx); [|apply C]. simpl.
      unfold getb. rewrite Hb. simpl. apply (Hhas _ i b); [|done]. split; [done|]. eauto. }
  rewrite size_list_to_set, length_fmap; [done|].
  apply NoDup_fmap_2_strong; [|apply NoDup_filter, NoDup_seq].
  intros i j (b & Hi & Hui)%elem_of_idx (b' & Hj & Huj)%elem_of_idx E; [|apply C..].
  unfold getb in E. simpl in E. rewrite Hi, Hj in E. simpl in E.
  eapply (cr_uniq _ _ C _ i j b b'); (split; [eassumption|split; [|eauto]]); eauto.
Qed.

Lemma crep_full v a :
  crep v a -> a_full a = true <-> (forall i b, v !! i = Some b -> used b = true).
Proof.
  intros C. unfold a_full. rewrite (counts_size v a used).
  - rewrite Z.leb_le. split.
    + intros Hlen i b Hi. destruct (used b) eqn:Hu; [done|].
      assert (length (idx_of used v) < length (seq 0 HEAD))%nat as Hlt.
      { assert (Hli := lookup_lt_Some _ _ _ Hi). rewrite (cr_len _ _ C) in Hli.
        apply (length_filter_lt _ _ i); [apply elem_of_seq; lia|].
        unfold getb. rewrite Hi. simpl. by rewrite Hu. }
      rewrite length_seq in Hlt. unfold HEAD in Hlt. lia.
    + intros Hall. assert (seq 0 HEAD ⊆+ idx_of used v) as Hsub%submseteq_length.
      { apply NoDup_submseteq; [apply NoDup_seq|]. intros i Hi%elem_of_seq.
        apply elem_of_idx; [apply C|].
        destruct (lookup_lt_is_Some_2 v i) as [b Hb]; [rewrite (cr_len _ _ C); lia|]. eauto. }
      rewrite length_seq in Hsub. unfold HEAD in Hsub. lia.
  - done.
  - split.
    + intros i b Hi. eapply buf_ok_used. by eapply (cr_ok _ _ C).
    + intros s i b Hh. destruct (cr_has _ _ C _ _ _ Hh) as (B1 & B2 & _).
      rewrite elem_of_union, B1, B2. symmetry. apply orb_true_iff.
    + intros s Hno. destruct (cr_rest _ _ C s Hno) as (? & ? & _). set_solver.
Qed.

(** ** The representation *)

Definition free_count (v : list buf) : Z :=
  Z.of_nat (length (filter (fun b => busy b = false) v)).

Record bio_rep (c : bcache) (a : acache) : Prop := {
  br_ring : exists ord, ring (bufs c) ord;
  br_crep : crep (view (bufs c)) a;
  br_disk : memdisk c = ac_disk a;
  br_writes : disk_writes c = ac_writes a;
  br_free : free_block_number c = free_count (view (bufs c))
}.

Lemma lookup_view l i : (i < HEAD)%nat -> view l !! i = core <$> l !! i.
Proof. intros. unfold view. rewrite list_lookup_fmap. by rewrite lookup_take_lt. Qed.

Lemma lookup_view_Some l i c :
  view l !! i = Some c -> (i < HEAD)%nat /\ exists b, l !! i = Some b /\ c = core b.
Proof.
  unfold view. rewrite list_lookup_fmap, fmap_Some. intros (b & Hb & ->).
  rewrite lookup_take_Some in Hb. destruct Hb. eauto.
Qed.

Lemma view_alter l f i b :
  (i < HEAD)%nat -> l !! i = Some b -> view (alter f i l) = <[i := core (f b)]> (view l).
Proof.
  intros Hi Hb. unfold view. rewrite take_alter_lt by done.
  apply list_eq. intros j. rewrite list_lookup_fmap, list_lookup_alter.
  case_decide as E.
  - subst. rewrite lookup_take_lt, Hb by done. simpl.
    rewrite list_lookup_insert_eq; [done|].
    rewrite length_fmap. apply (lookup_lt_Some _ _ b). by rewrite lookup_take_lt.
  - rewrite list_lookup_insert_ne by done. by rewrite list_lookup_fmap.
Qed.

Lemma view_links l f i : (forall b, core (f b) = core b) -> view (alter f i l) = view l.
Proof.
  intros Hf. unfold view. rewrite take_alter. case_decide; [|done].
  apply list_eq. intros j. rewrite !list_lookup_fmap, list_lookup_alter.
  case_decide; [|done]. subst. destruct (take HEAD l !! j); simpl; by rewrite ?Hf.
Qed.

Lemma view_relink l i : view (relink i l) = view l.
Proof. unfold relink. by rewrite !view_links. Qed.

Lemma free_count_set v i b b' :
  v !! i = Some b ->
  free_count (<[i := b']> v) =
    free_count v - (if busy b then 0 else 1) + (if busy b' then 0 else 1).
Proof.
  intros Hi. pose proof (lookup_lt_Some _ _ _ Hi) as Hlt.
  rewrite insert_take_drop by done.
  assert (free_count v = free_count (take i v ++ b :: drop (S i) v)) as ->
    by (by rewrite (take_drop_middle v i b Hi)).
  unfold free_count. rewrite !filter_app, !filter_cons, !length_app.
  destruct (busy b) eqn:E, (busy b') eqn:E'; repeat case_decide; try congruence; cbn [length]; lia.
Qed.

Lemma free_count_range v : length v = HEAD -> 0 <= free_count v <= NBUF.
Proof.
  intros Hl. unfold free_count.
  pose proof (length_filter (fun b => busy b = false) v) as H. rewrite Hl in H.
  split; [lia|].
  change NBUF with (Z.of_nat HEAD). lia.
Qed.

(** Case analysis on the three flag bits. *)
Ltac flag_cases b :=
  unfold busy, dirty, valid, used, set_flags, core, ctrue in *; simpl in *;
  let H := fresh in
  assert (b_flags b = 0 \/ b_flags b = 1 \/ b_flags b = 2 \/ b_flags b = 3 \/ b_flags b = 4 \/
          b_flags b = 5 \/ b_flags b = 6 \/ b_flags b = 7) as H by lia;
  repeat (destruct H as [H|H]); rewrite H in *; vm_compute; try done; try tauto; try lia.

(** One buffer changes; it holds sector [b_sector (f b)] afterwards. *)
Lemma bio_set c a c' a' i b f :
  bio_rep c a -> (i < HEAD)%nat -> bufs c !! i = Some b ->
  (forall b, b_next (f b) = b_next b) -> (forall b, b_prev (f b) = b_prev b) ->
  bufs c' = alter f i (bufs c) -> memdisk c' = ac_disk a' -> disk_writes c' = ac_writes a' ->
  free_block_number c' =
    free_count (view (bufs c)) - (if busy b then 0 else 1) + (if busy (f b) then 0 else 1) ->
  b_dev (f b) = 1 -> buf_ok (ac_disk a') (f b) ->
  (b_dev b = 1 /\ b_sector b = b_sector (f b) \/
   busy b = false /\ dirty b = false /\ forall j x, ~ has (view (bufs c)) (b_sector (f b)) j x) ->
  (forall s', s' <> b_sector (f b) -> agree a a' s') ->
  (b_sector (f b) ∈ ac_busy a' <-> busy (f b) = true) ->
  (b_sector (f b) ∈ ac_dirty a' <-> dirty (f b) = true) ->
  ac_mem a' !! b_sector (f b) = Some (b_data (f b)) ->
  bio_rep c' a'.
Proof.
  intros [[ord R] C Hd Hw Hf] Hi Hb Hfn Hfp Ebufs Ed Ew Ef Hdev Hok Hold Hag H1 H2 H3.
  assert (view (bufs c) !! i = Some (core b)) as Hv by (rewrite lookup_view, Hb; done).
  split; [exists ord; rewrite Ebufs; by apply ring_alter| |done|done|].
  - rewrite Ebufs, (view_alter _ _ _ b) by done. by eapply crep_set.
  - rewrite Ebufs, (view_alter _ _ _ b) by done. by rewrite Ef, (free_count_set _ _ (core b)).
Qed.

(** ** The buffer a client holds *)

Lemma find_buf_Some l s n i :
  find_buf l s n = Some i ->
  exists k b, i = (n + k)%nat /\ l !! k = Some b /\ busy b = true /\ b_dev b = 1 /\ b_sector b = s.
Proof.
  revert n. induction l as [|b l IH]; intros n H; simpl in H; [done|].
  destruct (_ && _ && _)%bool eqn:E.
  - injection H as <-. exists 0%nat, b. rewrite !andb_true_iff, !Z.eqb_eq in E.
    split; [lia|]. split; [done|tauto].
  - destruct (IH _ H) as (k & b' & -> & Hk). exists (S k), b'. split; [lia|done].
Qed.

Lemma find_buf_None l s n :
  find_buf l s n = None ->
  forall k b, l !! k = Some b -> b_dev b = 1 -> b_sector b = s -> busy b = false.
Proof.
  revert n. induction l as [|b l IH]; intros n H k c Hk Hd Hs; [done|]. simpl in H.
  destruct (_ && _ && _)%bool eqn:E; [done|].
  destruct k; simpl in Hk; [|by eapply IH].
  injection Hk as ->. rewrite Hd, Hs, !Z.eqb_refl, !andb_true_r in E. done.
Qed.

(** The locked buffer of a sector, and what is known of it. *)
Record locked (c : bcache) (a : acache) (s : Z) (i : nat) (b : buf) : Prop := {
  lk_i : (i < HEAD)%nat;
  lk_b : bufs c !! i = Some b;
  lk_dev : b_dev b = 1;
  lk_sector : b_sector b = s;
  lk_busy : busy b = true;
  lk_flags : 0 <= b_flags b < 8;
  lk_valid : valid b = true;
  lk_disk : is_Some (ac_disk a !! s);
  lk_inbusy : s ∈ ac_busy a;
  lk_dirty : s ∈ ac_dirty a <-> dirty b = true;
  lk_mem : ac_mem a !! s = Some (b_data b)
}.

Lemma bio_has c a i b :
  bio_rep c a -> (i < HEAD)%nat -> bufs c !! i = Some b -> b_dev b = 1 ->
  has (view (bufs c)) (b_sector b) i (core b).
Proof. intros R Hi Hb Hd. split; [|done]. by rewrite lookup_view, Hb. Qed.

Lemma bio_ok c a i b :
  bio_rep c a -> (i < HEAD)%nat -> bufs c !! i = Some b -> buf_ok (ac_disk a) b.
Proof.
  intros R Hi Hb. apply (cr_ok _ _ (br_crep _ _ R) i (core b)). by rewrite lookup_view, Hb.
Qed.

Lemma bio_locked c a i b :
  bio_rep c a -> (i < HEAD)%nat -> bufs c !! i = Some b -> b_dev b = 1 -> busy b = true ->
  locked c a (b_sector b) i b.
Proof.
  intros R Hi Hb Hd Hu.
  destruct (cr_has _ _ (br_crep _ _ R) _ _ _ (bio_has _ _ _ _ R Hi Hb Hd)) as (B1 & B2 & B3).
  destruct (bio_ok _ _ _ _ R Hi Hb) as [(F & _ & V & D & _)|[E _]]; [|by unfold busy in Hu; rewrite E in Hu].
  split; try done. by apply B1.
Qed.

Lemma held_run c a s :
  bio_rep c a -> s ∈ ac_busy a ->
  exists i b, locked c a s i b /\ forall A (f : nat -> M bcache A), held s f c = f i c.
Proof.
  intros R Hs. destruct (find_buf (take HEAD (bufs c)) s 0) as [i|] eqn:E.
  - pose proof (find_buf_Some _ _ _ _ E) as (k & b & -> & Hk & Hu & Hd & <-).
    rewrite lookup_take_Some in Hk. destruct Hk as [Hb Hi].
    exists (0 + k)%nat, b. split; [by eapply bio_locked|].
    intros A f. unfold held. erewrite bind_run; [|done]. by rewrite E.
  - exfalso. destruct (has_dec (view (bufs c)) s) as [(i & x & Hh)|Hno].
    + destruct (cr_has _ _ (br_crep _ _ R) _ _ _ Hh) as (B1 & _). apply B1 in Hs.
      destruct Hh as ([Hi [b [Hb ->]]]%lookup_view_Some & Hd & Hsec).
      change (busy b = true) in Hs.
      rewrite (find_buf_None _ _ _ E i b) in Hs by (done || by rewrite lookup_take_lt). done.
    + by destruct (cr_rest _ _ (br_crep _ _ R) s Hno) as (? & _).
Qed.

Lemma locked_free c a s i b :
  bio_rep c a -> locked c a s i b -> free_block_number c + 1 <= NBUF.
Proof.
  intros R L. rewrite (br_free _ _ R).
  assert (view (bufs c) !! i = Some (core b)) as Hv
    by (rewrite lookup_view, (lk_b _ _ _ _ _ L); [done|apply L]).
  pose proof (free_count_set _ i _ (set_flags 0 (core b)) Hv) as E.
  pose proof (free_count_range (<[i := set_flags 0 (core b)]> (view (bufs c)))) as Hr.
  rewrite length_insert, (cr_len _ _ (br_crep _ _ R)) in Hr. specialize (Hr eq_refl).
  rewrite E in Hr. change (busy (core b)) with (busy b) in Hr. rewrite (lk_busy _ _ _ _ _ L) in Hr.
  change (busy (set_flags 0 (core b))) with false in Hr. lia.
Qed.

(** ** The operations *)

#[local] Arguments iderw : simpl never.
#[local] Arguments set_data : simpl never.
#[local] Arguments set_flags : simpl never.

(** A locked buffer changes its flags or its data. *)
Lemma bio_locked_set c a c' a' s i b f :
  bio_rep c a -> locked c a s i b ->
  (forall b, b_next (f b) = b_next b) -> (forall b, b_prev (f b) = b_prev b) ->
  b_dev (f b) = 1 -> b_sector (f b) = s ->
  bufs c' = alter f i (bufs c) -> memdisk c' = ac_disk a' -> disk_writes c' = ac_writes a' ->
  free_block_number c' = free_block_number c + (if busy (f b) then 0 else 1) ->
  0 <= b_flags (f b) < 8 -> valid (f b) = true -> is_Some (ac_disk a' !! s) ->
  (busy (f b) = false -> dirty (f b) = false -> ac_disk a' !! s = Some (b_data (f b))) ->
  (forall s', s' <> s -> agree a a' s') ->
  (s ∈ ac_busy a' <-> busy (f b) = true) -> (s ∈ ac_dirty a' <-> dirty (f b) = true) ->
  ac_mem a' !! s = Some (b_data (f b)) ->
  bio_rep c' a'.
Proof.
  intros R L Hfn Hfp Hd Hs Eb Em Ew Ef F V D Hc Hag H1 H2 H3. subst s.
  eapply (bio_set c a c' a' i b f); eauto; try apply L.
  - rewrite Ef, (br_free _ _ R), (lk_busy _ _ _ _ _ L). lia.
  - by left.
  - left. split; apply L.
Qed.

Lemma bset_rep sector d : msim bio_rep (bset (C:=bcache) sector d) (a_bset sector d).
Proof.
  intros c a R. unfold a_bset. case_decide as Hs; [|done].
  destruct (held_run c a sector R Hs) as (i & b & L & E).
  simpl. rewrite E. split; [done|].
  assert (busy (set_data d b) = true) as Hbusy by apply L.
  eapply (bio_locked_set c a _ _ sector i b (set_data d));
    try done; try apply L; try apply R; simpl.
  - rewrite Hbusy. lia.
  - by rewrite Hbusy.
  - intros s' Hne. split; [done|split; [done|]]. simpl. by rewrite lookup_insert_ne.
  - by rewrite lookup_insert_eq.
Qed.

(** The flags of a locked buffer after an operation. *)
Lemma locked_or_dirty c a s i b (L : locked c a s i b) :
  let b' := set_flags (b_flags b .| B_DIRTY) b in
  0 <= b_flags b' < 8 /\ busy b' = true /\ valid b' = true /\ dirty b' = true.
Proof. destruct L. flag_cases b. Qed.

Lemma bdirty_rep sector : msim bio_rep (bdirty (C:=bcache) sector) (a_bdirty sector).
Proof.
  intros c a R. unfold a_bdirty. case_decide as Hs; [|done].
  destruct (held_run c a sector R Hs) as (i & b & L & E).
  simpl. rewrite E. clear E. split; [done|].
  destruct (locked_or_dirty _ _ _ _ _ L) as (F & B & V & D).
  eapply (bio_locked_set c a _ _ sector i b (fun b => set_flags (b_flags b .| B_DIRTY) b));
    try done; try apply L; try apply R; simpl.
  - rewrite B. lia.
  - by rewrite B.
  - intros s' Hne. repeat split; simpl; set_solver.
  - rewrite D. set_solver.
Qed.

(** [bwrite]: the three flag changes, and the sector on the disk. *)
Definition written (b : buf) : buf :=
  let b := set_flags (b_flags b .| B_DIRTY) b in
  let b := set_flags (b_flags b .& Z.lnot B_DIRTY) b in
  set_flags (b_flags b .| B_VALID) b.

Lemma locked_written c a s i b (L : locked c a s i b) :
  0 <= b_flags (written b) < 8 /\ busy (written b) = true /\ valid (written b) = true /\
  dirty (written b) = false.
Proof. destruct L. unfold written. flag_cases b. Qed.

Lemma bwrite_run c a s i b :
  bio_rep c a -> locked c a s i b ->
  bwrite_buf i c = Ok tt (BCache (alter written i (bufs c)) (free_block_number c)
    (number_of_hits c) (number_of_block_acsses c) (<[s := b_data b]> (memdisk c))
    (disk_writes c ++ [(s, b_data b)]) (wakeups c)).
Proof.
  intros R L. destruct (locked_or_dirty _ _ _ _ _ L) as (F & B & V & D).
  pose proof (lk_b _ _ _ _ _ L) as Hb. pose proof (lk_busy _ _ _ _ _ L) as Hu.
  assert (getb (bufs c) i = b) as Eg by (unfold getb; by rewrite Hb).
  unfold bwrite_buf. erewrite bind_run; [|done]. rewrite Eg.
  unfold busy, ctrue in Hu. apply negb_true_iff in Hu. rewrite Hu.
  erewrite bind_run; [|done]. unfold iderw. erewrite bind_run; [|done]. simpl.
  set (b' := set_flags (b_flags b .| B_DIRTY) b) in *.
  assert (getb (alter (fun b => set_flags (b_flags b .| B_DIRTY) b) i (bufs c)) i = b') as ->.
  { unfold getb. by rewrite list_lookup_alter_eq, Hb. }
  rewrite B. simpl.
  destruct (_ =? B_VALID) eqn:Ev.
  { exfalso. unfold b' in Ev. clear -L Ev. destruct L. flag_cases b. }
  rewrite (lk_dev _ _ _ _ _ L). simpl. rewrite (lk_sector _ _ _ _ _ L).
  destruct (memdisk c !! s) as [p|] eqn:Ep.
  - rewrite D. unfold mbind, M_bind, modify. simpl. unfold upd. simpl.
    by rewrite !alter_alter.
  - rewrite (br_disk _ _ R) in Ep. destruct (lk_disk _ _ _ _ _ L). congruence.
Qed.

Lemma bwrite_rep sector : msim bio_rep (bwrite (C:=bcache) sector) (a_bwrite sector).
Proof.
  intros c a R. unfold a_bwrite. case_decide as Hs; [|done].
  destruct (held_run c a sector R Hs) as (i & b & L & E).
  rewrite (lk_mem _ _ _ _ _ L). simpl. rewrite E, (bwrite_run c a sector i b) by done.
  clear E. split; [done|].
  destruct (locked_written _ _ _ _ _ L) as (F & B & V & D).
  eapply (bio_locked_set c a _ _ sector i b written); try done; try apply L; simpl.
  - by rewrite (br_disk _ _ R).
  - by rewrite (br_writes _ _ R).
  - rewrite B. lia.
  - rewrite lookup_insert_eq. eauto.
  - by rewrite B.
  - intros s' Hne. repeat split; simpl; try set_solver. by rewrite lookup_insert_ne.
  - rewrite D. set_solver.
Qed.

(** Moving a buffer in the list changes no contents. *)
Lemma bio_relink c a i : bio_rep c a -> (i < HEAD)%nat -> bio_rep (upd (relink i) c) a.
Proof.
  intros [[ord R] C D W F] Hi. split; simpl; rewrite ?view_relink; try done.
  apply (ring_elem _ _ _ R) in Hi as Hin. apply list_elem_of_split in Hin as (l1 & l2 & ->).
  eexists. by apply ring_relink.
Qed.

Lemma locked_relink c a s i b :
  bio_rep c a -> locked c a s i b ->
  exists b', core b' = core b /\ locked (upd (relink i) c) a s i b'.
Proof.
  intros R L. pose proof (lk_i _ _ _ _ _ L) as Hi.
  assert (view (relink i (bufs c)) !! i = Some (core b)) as Hv.
  { rewrite view_relink, lookup_view, (lk_b _ _ _ _ _ L) by done. done. }
  apply lookup_view_Some in Hv as (_ & b' & Hb & Ec).
  exists b'. split; [done|]. pose proof L as L'. destruct L'.
  injection Ec as Ef Ed Es Edt. unfold busy, valid, dirty in *.
  split; unfold busy, valid, dirty; rewrite <- ?Ef, <- ?Ed, <- ?Es, <- ?Edt; done.
Qed.

Lemma locked_and_busy c a s i b (L : locked c a s i b) :
  let b' := set_flags (b_flags b .& Z.lnot B_BUSY) b in
  0 <= b_flags b' < 8 /\ busy b' = false /\ valid b' = true /\ dirty b' = dirty b.
Proof. destruct L. flag_cases b. Qed.

Lemma brelse_rep sector : msim bio_rep (brelse (C:=bcache) sector) (a_brelse sector).
Proof.
  intros c a R. unfold a_brelse. case_decide as Hs; [|done]. case_decide as Hd; [|done].
  destruct (held_run c a sector R Hs) as (i & b & L & E).
  simpl. rewrite E. clear E. unfold brelse_buf. erewrite bind_run; [|done].
  replace (getb (bufs c) i) with b by (unfold getb; by rewrite (lk_b _ _ _ _ _ L)).
  pose proof (lk_busy _ _ _ _ _ L) as Hu. unfold busy, ctrue in Hu.
  apply negb_true_iff in Hu. rewrite Hu.
  unfold mbind, M_bind, modify. cbn [rsim]. split; [done|].
  pose proof (bio_relink c a i R (lk_i _ _ _ _ _ L)) as R1.
  destruct (locked_relink _ _ _ _ _ R L) as (b1 & _ & L1).
  destruct (locked_and_busy _ _ _ _ _ L1) as (F & B & V & D).
  pose proof (locked_free _ _ _ _ _ R L) as Hfree.
  eapply (bio_locked_set _ a _ _ sector i b1
    (fun b => set_flags (b_flags b .& Z.lnot B_BUSY) b) R1 L1);
    try done; try apply L1; try apply R; simpl.
  - rewrite B. apply s32_small. rewrite (br_free _ _ R) in *.
    pose proof (free_count_range _ (cr_len _ _ (br_crep _ _ R))).
    unfold NBUF, MAXOPBLOCKS in *. lia.
  - intros _ Hnd. rewrite D in Hnd. destruct Hd as [Hd|Hd].
    + apply (lk_dirty _ _ _ _ _ L1) in Hd. congruence.
    + rewrite <- Hd. apply (lk_mem _ _ _ _ _ L1).
  - intros s' Hne. repeat split; simpl; set_solver.
  - rewrite B. set_solver.
  - rewrite D. apply L1.
Qed.

(** What a search over all the buffers returns. *)
Definition found (l : list buf) (p : buf -> bool) (r : option nat) : Prop :=
  match r with
  | Some i => exists b, (i < HEAD)%nat /\ l !! i = Some b /\ p b = true
  | None => forall i b, (i < HEAD)%nat -> l !! i = Some b -> p b = false
  end.

Lemma find_found l p ord :
  length l = S HEAD -> (forall i, i ∈ ord <-> (i < HEAD)%nat) ->
  found l p (List.find (fun i => p (getb l i)) ord).
Proof.
  intros Hl Hord. destruct (List.find _ ord) as [i|] eqn:E; simpl.
  - apply find_some in E as [Hi Hp]. apply list_elem_of_In, Hord in Hi.
    destruct (lookup_lt_is_Some_2 l i) as [b Hb]; [lia|].
    exists b. unfold getb in Hp. by rewrite Hb in Hp.
  - intros i b Hi Hb. apply Hord, list_elem_of_In in Hi.
    pose proof (find_none _ _ E i Hi) as Hp. unfold getb in Hp. by rewrite Hb in Hp.
Qed.

Lemma ring_found l ord p :
  ring l ord ->
  found l p (List.find (fun i => p (getb l i)) ord) /\
  found l p (List.find (fun i => p (getb l i)) (reverse ord)).
Proof.
  intros R. split; apply find_found; try apply R; intros i.
  - by apply (ring_elem l).
  - rewrite elem_of_reverse. by apply (ring_elem l).
Qed.

Lemma bio_counters c a x : bio_rep c a -> bio_rep (counters 0 0 x c) a.
Proof.
  intros [R C D W F]. split; try done. simpl. rewrite Z.add_0_r, F.
  apply s32_small. pose proof (free_count_range _ (cr_len _ _ C)). unfold NBUF, MAXOPBLOCKS in *. lia.
Qed.

Lemma free_pred c a :
  bio_rep c a -> s32 (free_block_number c + -1) = free_count (view (bufs c)) - 1.
Proof.
  intros R. rewrite (br_free _ _ R). apply s32_small.
  pose proof (free_count_range _ (cr_len _ _ (br_crep _ _ R))). unfold NBUF, MAXOPBLOCKS in *. lia.
Qed.

Lemma iderw_other c i b :
  bufs c !! i = Some b -> busy b = true -> b_flags b .& (B_VALID .| B_DIRTY) <> B_VALID ->
  b_dev b <> 1 -> iderw i c = Panic "iderw: request not for disk 1".
Proof.
  intros Hb Hu Hf Hd. unfold iderw. erewrite bind_run; [|done].
  unfold getb. rewrite Hb. simpl. rewrite Hu. simpl.
  rewrite (proj2 (Z.eqb_neq _ _) Hf). by rewrite (proj2 (Z.eqb_neq _ _) Hd).
Qed.

(** Filling a buffer just taken for sector [b_sector b] of disk 1. *)
Lemma iderw_fill c i b :
  bufs c !! i = Some b -> b_flags b = B_BUSY -> b_dev b = 1 ->
  iderw i c =
    match memdisk c !! b_sector b with
    | None => Panic "iderw: sector out of range"
    | Some p => Ok tt (upd (alter (fun b => set_flags (b_flags b .| B_VALID) (set_data p b)) i) c)
    end.
Proof.
  intros Hb Hf Hd. unfold iderw. erewrite bind_run; [|done].
  unfold getb. rewrite Hb. simpl. unfold busy, dirty, ctrue. rewrite Hf, Hd.
  change (B_BUSY .& B_BUSY =? 0) with false. change (B_BUSY .& B_DIRTY =? 0) with true.
  change (B_BUSY .& (B_VALID .| B_DIRTY) =? B_VALID) with false. simpl.
  destruct (memdisk c !! b_sector b); [|done].
  unfold mbind, M_bind, modify, upd. simpl. by rewrite alter_alter.
Qed.

Definition matches (dev sector : Z) (b : buf) : bool :=
  ((b_dev b =? dev) && (b_sector b =? sector))%bool.
Definition recyclable (b : buf) : bool :=
  ((b_flags b .& B_BUSY =? 0) && (b_flags b .& B_DIRTY =? 0))%bool.

Definition hit (i : nat) (c : bcache) : bcache :=
  counters (-1) 1 0 (upd (alter (fun b => set_flags (b_flags b .| B_BUSY) b) i) c).
Definition recycled (dev sector : Z) (i : nat) (c : bcache) : bcache :=
  counters (-1) 0 0
    (upd (alter (fun b => set_flags B_BUSY (set_sector sector (set_dev dev b))) i) c).

(** [bget] prefers a buffer that holds the sector, and otherwise takes the
    least recently released one that is neither locked nor pinned. *)
Lemma bget_loop_run dev sector c ord :
  ring (bufs c) ord ->
  bget_loop dev sector c =
    match List.find (fun i => matches dev sector (getb (bufs c) i)) ord with
    | Some i => if busy (getb (bufs c) i) then Sleep (ChBuf (Z.of_nat i)) c else Ok i (hit i c)
    | None =>
        match List.find (fun i => recyclable (getb (bufs c) i)) (reverse ord) with
        | Some i => Ok i (recycled dev sector i c)
        | None => Panic "bget: no buffers"
        end
    end.
Proof.
  intros R. unfold bget_loop. erewrite bind_run; [|done].
  rewrite (walk_next _ ord), (walk_prev _ ord) by done.
  erewrite bind_run; [|done]. unfold matches, recyclable.
  destruct (List.find _ ord) as [i|]; [by destruct (busy _)|].
  erewrite bind_run; [|done]. by destruct (List.find _ (reverse ord)).
Qed.

Lemma recyclable_used b : recyclable b = negb (used b).
Proof.
  unfold recyclable, used, busy, dirty, ctrue.
  by destruct (_ .& B_BUSY =? 0), (_ .& B_DIRTY =? 0).
Qed.

Lemma bio_full c a :
  bio_rep c a ->
  a_full a = true <-> forall i b, (i < HEAD)%nat -> bufs c !! i = Some b -> recyclable b = false.
Proof.
  intros R. rewrite (crep_full _ _ (br_crep _ _ R)). split.
  - intros H i b Hi Hb. rewrite recyclable_used.
    change (used b) with (used (core b)). rewrite (H i); [done|]. by rewrite lookup_view, Hb.
  - intros H i x Hx. apply lookup_view_Some in Hx as (Hi & b & Hb & ->).
    specialize (H i b Hi Hb). rewrite recyclable_used in H. by apply negb_false_iff.
Qed.

Lemma bio_not_full c a i b :
  bio_rep c a -> (i < HEAD)%nat -> bufs c !! i = Some b -> recyclable b = true ->
  a_full a = false.
Proof.
  intros R Hi Hb Hr. apply not_true_iff_false. rewrite (bio_full c a R).
  intros H. rewrite (H i b) in Hr; done.
Qed.

(** [bread] after the lookup of [bget]. *)
Lemma bread_buf_run dev sector c :
  bread_buf dev sector c =
    ((i ← bget_loop dev sector;
      c ← get; when (negb (valid (getb (bufs c) i))) (iderw i);; mret i) : M bcache nat)
      (counters 0 0 1 c).
Proof. done. Qed.

(** A buffer marked busy but not valid, for another device. *)
Lemma fill_other c i b :
  bufs c !! i = Some b -> b_flags b = B_BUSY -> b_dev b <> 1 ->
  ((c ← get; when (negb (valid (getb (bufs c) i))) (iderw i);; mret i) : M bcache nat) c =
    Panic "iderw: request not for disk 1".
Proof.
  intros Hb Hf Hd. erewrite bind_run; [|done]. unfold getb. rewrite Hb. simpl.
  unfold valid. rewrite Hf. simpl. apply bind_Panic. apply (iderw_other _ _ b); [done|..|done].
  - unfold busy. by rewrite Hf.
  - by rewrite Hf.
Qed.

(** [bread] of another device panics in the driver. *)
Lemma bread_other dev sector c a :
  bio_rep c a -> dev <> 1 ->
  bread_buf dev sector c =
    Panic (if a_full a then "bget: no buffers" else "iderw: request not for disk 1").
Proof.
  intros R%(bio_counters _ _ 1) Hdev. rewrite bread_buf_run.
  revert R. generalize (counters 0 0 1 c). clear c. intros c R.
  destruct (br_ring _ _ R) as [ord Rg].
  destruct (ring_found (bufs c) ord (matches dev sector) Rg) as [F _].
  destruct (ring_found (bufs c) ord recyclable Rg) as [_ G].
  pose proof (bget_loop_run dev sector c ord Rg) as E.
  destruct (List.find _ ord) as [i|]; simpl in F;
    [|destruct (List.find _ (reverse ord)) as [i|]; simpl in G].
  - destruct F as (b & Hi & Hb & [Hd Hs]%andb_true_iff). apply Z.eqb_eq in Hd, Hs.
    destruct (bio_ok _ _ _ _ R Hi Hb) as [(_ & ? & _)|[Ef _]]; [congruence|].
    assert (getb (bufs c) i = b) as Eg by (unfold getb; by rewrite Hb).
    assert (busy b = false) as Hbz by (unfold busy; by rewrite Ef).
    assert (recyclable b = true) as Hr by (unfold recyclable; by rewrite Ef).
    rewrite Eg, Hbz in E. rewrite (bio_not_full c a i b) by done.
    rewrite (bind_run _ _ _ _ _ E).
    apply (fill_other _ _ (set_flags (b_flags b .| B_BUSY) b)); simpl; [|by rewrite Ef|congruence].
    by rewrite list_lookup_alter_eq, Hb.
  - destruct G as (b & Hi & Hb & Hr). rewrite (bio_not_full c a i b) by done.
    rewrite (bind_run _ _ _ _ _ E).
    apply (fill_other _ _ (set_flags B_BUSY (set_sector sector (set_dev dev b)))); simpl; [|done..].
    by rewrite list_lookup_alter_eq, Hb.
  - rewrite (proj2 (bio_full c a R)) by done. by apply bind_Panic.
Qed.

Definition acquired (a : acache) (sector : Z) : acache :=
  ACache (ac_mem a) (ac_disk a) ({[sector]} ∪ ac_busy a) (ac_dirty a) (ac_writes a).

Lemma agree_acquired a s s' : s' <> s -> agree a (acquired a s) s'.
Proof. intros. repeat split; simpl; set_solver. Qed.

(** A hit: the buffer is locked, nothing is read. *)
Lemma hit_rep c a i b :
  bio_rep c a -> (i < HEAD)%nat -> bufs c !! i = Some b -> b_dev b = 1 -> busy b = false ->
  bio_rep (hit i c) (acquired a (b_sector b)) /\ ac_mem a !! b_sector b = Some (b_data b) /\
  valid (set_flags (b_flags b .| B_BUSY) b) = true.
Proof.
  intros R Hi Hb Hd Hu.
  destruct (bio_ok _ _ _ _ R Hi Hb) as [(F & _ & V & D & Hc)|[_ E]]; [|by rewrite Hd in E].
  destruct (cr_has _ _ (br_crep _ _ R) _ _ _ (bio_has _ _ _ _ R Hi Hb Hd)) as (B1 & B2 & B3).
  set (f := fun b => set_flags (b_flags b .| B_BUSY) b).
  assert (0 <= b_flags (f b) < 8 /\ busy (f b) = true /\ valid (f b) = true /\ dirty (f b) = dirty b)
    as (F' & Bb & V' & D') by (unfold f; clear -F V; flag_cases b).
  split; [|done].
  eapply (bio_set c a _ _ i b f); try done; try apply R.
  - rewrite Bb, Hu. simpl. rewrite (free_pred c a R). lia.
  - left. repeat (split; [done|]). by rewrite Bb.
  - by left.
  - intros s' Hs. by apply agree_acquired.
  - rewrite Bb. simpl. set_solver.
  - rewrite D'. apply B2.
Qed.

(** A miss: the buffer taken is filled from the disk. *)
Lemma miss_rep c a i b sector p :
  bio_rep c a -> (i < HEAD)%nat -> bufs c !! i = Some b -> recyclable b = true ->
  (forall j x, ~ has (view (bufs c)) sector j x) -> memdisk c !! sector = Some p ->
  bio_rep
    (upd (alter (fun b => set_flags (b_flags b .| B_VALID) (set_data p b)) i)
      (recycled 1 sector i c)) (acquired a sector).
Proof.
  intros R Hi Hb Hr Hno Hp.
  rewrite recyclable_used, negb_true_iff in Hr. apply orb_false_iff in Hr as [Hu Hdi].
  destruct (cr_rest _ _ (br_crep _ _ R) sector Hno) as (N1 & N2 & N3).
  rewrite (br_disk _ _ R) in Hp.
  eapply (bio_set c a _ _ i b (fun b => set_flags (B_BUSY .| B_VALID)
    (set_data p (set_sector sector (set_dev 1 b))))); try done; try apply R.
  - simpl. by rewrite alter_alter.
  - rewrite Hu. simpl. rewrite (free_pred c a R). unfold busy. simpl. lia.
  - left. simpl. split_and!; eauto; by vm_compute.
  - by right.
  - intros s' Hs. by apply agree_acquired.
  - simpl. unfold busy. simpl. set_solver.
  - simpl. by rewrite N3.
Qed.

Lemma not_matched l s :
  (forall i b, (i < HEAD)%nat -> l !! i = Some b -> matches 1 s b = false) ->
  forall j x, ~ has (view l) s j x.
Proof.
  intros H j x ((Hj & b & Hb & ->)%lookup_view_Some & Hd & Hs).
  specialize (H j b Hj Hb). unfold matches in H. simpl in *.
  by rewrite Hd, Hs, !Z.eqb_refl in H.
Qed.

(** The rest of [bread] once [bget] has returned. *)
Lemma fill_valid c i b :
  bufs c !! i = Some b -> valid b = true ->
  ((c ← get; when (negb (valid (getb (bufs c) i))) (iderw i);; mret i) : M bcache nat) c = Ok i c.
Proof. intros Hb V. erewrite bind_run; [|done]. unfold getb. rewrite Hb. simpl. by rewrite V. Qed.

Lemma fill_invalid c i b :
  bufs c !! i = Some b -> b_flags b = B_BUSY -> b_dev b = 1 ->
  ((c ← get; when (negb (valid (getb (bufs c) i))) (iderw i);; mret i) : M bcache nat) c =
    match memdisk c !! b_sector b with
    | None => Panic "iderw: sector out of range"
    | Some p => Ok i (upd (alter (fun b => set_flags (b_flags b .| B_VALID) (set_data p b)) i) c)
    end.
Proof.
  intros Hb Hf Hd. erewrite bind_run; [|done]. unfold getb. rewrite Hb. simpl.
  unfold valid. rewrite Hf. simpl. unfold mbind, M_bind. rewrite (iderw_fill c i b) by done.
  by destruct (memdisk c !! b_sector b).
Qed.

Lemma bread_disk sector c a :
  bio_rep c a -> rsim bio_rep (bread (C:=bcache) 1 sector c) (a_bread 1 sector a).
Proof.
  intros R%(bio_counters _ _ 1). simpl. unfold mbind at 1, M_bind at 1. rewrite bread_buf_run.
  revert R. generalize (counters 0 0 1 c). clear c. intros c R.
  destruct (br_ring _ _ R) as [ord Rg].
  destruct (ring_found (bufs c) ord (matches 1 sector) Rg) as [F _].
  destruct (ring_found (bufs c) ord recyclable Rg) as [_ G].
  pose proof (bget_loop_run 1 sector c ord Rg) as E. unfold a_bread. simpl.
  destruct (List.find _ ord) as [i|]; simpl in F;
    [|destruct (List.find _ (reverse ord)) as [i|]; simpl in G].
  - destruct F as (b & Hi & Hb & [Hd Hs]%andb_true_iff). apply Z.eqb_eq in Hd, Hs. subst sector.
    assert (getb (bufs c) i = b) as Eg by (unfold getb; by rewrite Hb). rewrite Eg in E.
    destruct (cr_has _ _ (br_crep _ _ R) _ _ _ (bio_has _ _ _ _ R Hi Hb Hd)) as (B1 & B2 & B3).
    change (busy (core b)) with (busy b) in B1. change (dirty (core b)) with (dirty b) in B2.
    destruct (busy b) eqn:Hu.
    { rewrite decide_True by (by apply B1). by rewrite (bind_Sleep _ _ _ _ _ E). }
    rewrite decide_False by (by rewrite B1). rewrite B3.
    assert ((bool_decide (b_sector b ∉ ac_dirty a) && a_full a)%bool = false) as ->.
    { destruct (dirty b) eqn:Hdi; [by rewrite bool_decide_false by (rewrite B2; auto)|].
      rewrite (bio_not_full c a i b), andb_false_r; try done.
      rewrite recyclable_used. unfold used. by rewrite Hu, Hdi. }
    destruct (hit_rep c a i b) as (R' & Hm & V); try done.
    rewrite (bind_run _ _ _ _ _ E), (fill_valid _ _ (set_flags (b_flags b .| B_BUSY) b)); simpl;
      [|by rewrite list_lookup_alter_eq, Hb|done].
    unfold getb. by rewrite list_lookup_alter_eq, Hb.
  - destruct G as (b & Hi & Hb & Hr).
    assert (forall j x, ~ has (view (bufs c)) sector j x) as Hno by (by apply not_matched).
    destruct (cr_rest _ _ (br_crep _ _ R) sector Hno) as (N1 & N2 & N3).
    rewrite decide_False, (bio_not_full c a i b), andb_false_r by done.
    rewrite N3, (bind_run _ _ _ _ _ E).
    set (b' := set_flags B_BUSY (set_sector sector (set_dev 1 b))).
    assert (bufs (recycled 1 sector i c) !! i = Some b') as Hb'
      by (simpl; by rewrite list_lookup_alter_eq, Hb).
    rewrite (fill_invalid _ _ b') by done. simpl. rewrite (br_disk _ _ R).
    destruct (ac_disk a !! sector) as [p|] eqn:Ep; [|done]. split.
    + unfold getb. simpl. by rewrite alter_alter, list_lookup_alter_eq, Hb.
    + apply (miss_rep c a i b); try done. by rewrite (br_disk _ _ R).
  - assert (forall j x, ~ has (view (bufs c)) sector j x) as Hno by (by apply not_matched).
    destruct (cr_rest _ _ (br_crep _ _ R) sector Hno) as (N1 & N2 & N3).
    rewrite decide_False, bool_decide_true, (proj2 (bio_full c a R)) by done. simpl.
    by rewrite (bind_Panic _ _ _ _ E).
Qed.

Lemma bread_rep dev sector : msim bio_rep (bread (C:=bcache) dev sector) (a_bread dev sector).
Proof.
  intros c a R. destruct (decide (dev = 1)) as [->|Hd]; [by apply bread_disk|].
  unfold a_bread. rewrite (proj2 (Z.eqb_neq _ _) Hd). simpl.
  unfold mbind, M_bind. rewrite (bread_other dev sector c a) by done. by destruct (a_full a).
Qed.

(** bio.c over memide.c keeps the promise of the buffer cache. *)
#[export] Instance bcache_spec : BlockCacheSpec bcache := {|
  bc_rep := bio_rep;
  bread_sim := bread_rep;
  bset_sim := bset_rep;
  bdirty_sim := bdirty_rep;
  bwrite_sim := bwrite_rep;
  brelse_sim := brelse_rep
|}.

(** ** Boot *)

Lemma binit_view d :
  view (bufs (binit d)) = replicate HEAD (Buf 0 (u32 (-1)) 0 0 0 (replicate 512 0)).
Proof. vm_compute. reflexivity. Qed.

Lemma binit_ring d : ring (bufs (binit d)) (reverse (seq 0 HEAD)).
Proof.
  split; [vm_compute; reflexivity|apply reverse_Permutation|..]; vm_compute; repeat split.
Qed.

Lemma binit_free d : free_block_number (binit d) = free_count (view (bufs (binit d))).
Proof. rewrite binit_view. by vm_compute. Qed.

Lemma binit_crep d : crep (view (bufs (binit d))) (boot d).
Proof.
  rewrite binit_view. set (b0 := Buf 0 _ _ _ _ _).
  assert (forall s i b, ~ has (replicate HEAD b0) s i b) as Hno.
  { intros s i b (Hi & Hd & _). apply lookup_replicate in Hi as [-> _]. by vm_compute in Hd. }
  split.
  - by rewrite length_replicate.
  - intros i b Hi. apply lookup_replicate in Hi as [-> _]. by right.
  - intros s i j b b' H. by apply Hno in H.
  - intros s i b H. by apply Hno in H.
  - intros s _. simpl. set_solver.
Qed.

Lemma binit_rep d : bio_rep (binit d) (boot d).
Proof.
  split; [|apply binit_crep|reflexivity|reflexivity|apply binit_free].
  eexists. apply binit_ring.
Qed.

Lemma length_idx P v :
  length v = HEAD -> length (idx_of P v) = length (filter (fun b => P b = true) v).
Proof.
  intros Hl. assert (v = getb v <$> seq 0 HEAD) as Ev.
  { apply list_eq. intros i. rewrite list_lookup_fmap. destruct (decide (i < HEAD)%nat) as [Hi|Hi].
    - rewrite lookup_seq_lt by done. destruct (lookup_lt_is_Some_2 v i) as [b Hb]; [lia|].
      simpl. unfold getb. by rewrite Hb.
    - rewrite (lookup_ge_None_2 (seq 0 HEAD)) by (rewrite length_seq; lia).
      simpl. apply lookup_ge_None_2. lia. }
  rewrite Ev at 2. unfold idx_of. generalize (seq 0 HEAD). intros l.
  induction l as [|i l IH]; [done|]. rewrite fmap_cons, !filter_cons.
  by destruct (decide _); simpl; rewrite IH.
Qed.

Lemma length_filter_neg {A} (P : A -> bool) l :
  (length (filter (fun x => P x = true) l) + length (filter (fun x => P x = false) l))%nat = length l.
Proof.
  induction l as [|x l IH]; [done|]. rewrite !filter_cons.
  destruct (P x); simpl; rewrite <- IH; lia.
Qed.

(** The free counter of bio.c counts the buffers not locked. *)
Lemma bio_free c a :
  bio_rep c a -> get_free_block_number c = get_total_block_number c - Z.of_nat (size (ac_busy a)).
Proof.
  intros R. pose proof (br_crep _ _ R) as C. unfold get_free_block_number. rewrite (br_free _ _ R).
  rewrite (counts_size (view (bufs c)) a busy); [|done|].
  - rewrite length_idx by apply C. unfold free_count.
    pose proof (length_filter_neg busy (view (bufs c))) as E. rewrite (cr_len _ _ C) in E.
    change (get_total_block_number c) with (Z.of_nat HEAD). lia.
  - split.
    + intros i b Hi Hu. eapply buf_ok_used; [by eapply (cr_ok _ _ C)|]. unfold used. by rewrite Hu.
    + intros s i b Hh. by destruct (cr_has _ _ C _ _ _ Hh).
    + intros s Hno. by destruct (cr_rest _ _ C s Hno).
Qed.
