(* ===== verification/BioOps.v ===== *)
(** Clients of the buffer cache: any sequence of operations, and the log.

    The log of log.c is proved correct against the interface; run on the cache
    of bio.c it does the same, so the crash-safety of a commit holds of the
    sectors of memide.c. *)

From stdpp Require Import prelude strings gmap list.
From S2P Require Import Prelude Bytes Param BlockCache Log LogCrash LogOps LogExamples Bio BioSpec.

(** ** Sequences of operations *)

Inductive bop :=
| OpRead (dev sector : Z)
| OpSet (sector : Z) (d : block)
| OpDirty (sector : Z)
| OpWrite (sector : Z)
| OpRelse (sector : Z).

Definition run_bop {C} `{BlockCache C} (o : bop) : M C (list block) :=
  match o with
  | OpRead dev sector => d ← bread dev sector; mret [d]
  | OpSet sector d => bset sector d;; mret []
  | OpDirty sector => bdirty sector;; mret []
  | OpWrite sector => bwrite sector;; mret []
  | OpRelse sector => brelse sector;; mret []
  end.

(** The data read, in order. *)
Fixpoint run_bops {C} `{BlockCache C} (os : list bop) : M C (list block) :=
  match os with
  | [] => mret []
  | o :: os => ds ← run_bop o; ds' ← run_bops os; mret (ds ++ ds')
  end.

#[export] Hint Resolve bread_sim bset_sim bdirty_sim bwrite_sim brelse_sim : msim.

Section clients.
Context {C : Type} `{BlockCacheSpec C}.

Lemma run_bop_sim o : msim bc_rep (run_bop (C:=C) o) (run_bop (C:=acache) o).
Proof. destruct o; simpl; auto 6 with msim. Qed.

Lemma run_bops_sim os : msim bc_rep (run_bops (C:=C) os) (run_bops (C:=acache) os).
Proof.
  induction os as [|o os IH]; simpl; [auto with msim|].
  apply msim_bind; [apply run_bop_sim|auto with msim].
Qed.

(** ** The log *)

Definition log_rep (s : lstate C) (t : alog) : Prop :=
  ls_log s = ls_log t /\ ls_wakeups s = ls_wakeups t /\ bc_rep (ls_cache s) (ls_cache t).

Lemma io_sim {A} (m : M C A) (m' : M acache A) : msim bc_rep m m' -> msim log_rep (io m) (io m').
Proof.
  intros Hm s t (El & Ew & Hr). specialize (Hm _ _ Hr). unfold io, lift.
  destruct (m' (ls_cache t)), (m (ls_cache s)); simpl in *; unfold log_rep; simpl; try done; try tauto.
Qed.

Lemma set_log_sim f : msim log_rep (set_log f) (set_log f).
Proof. intros s t (El & Ew & Hr). unfold log_rep. simpl. by rewrite El. Qed.

Lemma wakeup_sim c : msim log_rep (wakeup c) (wakeup c).
Proof. intros s t (El & Ew & Hr). unfold log_rep. simpl. by rewrite Ew. Qed.

Lemma gets_log_sim {A} (f : log -> M (lstate C) A) f' :
  (forall l, msim log_rep (f l) (f' l)) ->
  msim log_rep (gets ls_log ≫= f) (gets ls_log ≫= f').
Proof.
  intros Hf s t Hst. erewrite !bind_run by done. destruct Hst as (El & Ew & Hr).
  rewrite El. by apply Hf.
Qed.

Lemma sleep_sim {A} ch : msim (A:=A) log_rep (sleep_on ch) (sleep_on ch).
Proof. by intros s t. Qed.

Lemma when_sim b (m : M (lstate C) unit) m' :
  msim log_rep m m' -> msim log_rep (when b m) (when b m').
Proof. intros Hm. destruct b; [done|apply msim_ret]. Qed.

Lemma if_sim {A} (b : bool) (m1 m2 : M (lstate C) A) m1' m2' :
  msim log_rep m1 m1' -> msim log_rep m2 m2' ->
  msim log_rep (if b then m1 else m2) (if b then m1' else m2').
Proof. by destruct b. Qed.
End clients.

#[export] Hint Resolve io_sim set_log_sim wakeup_sim gets_log_sim sleep_sim when_sim if_sim : msim.

Ltac log_sim := repeat (intros; first
  [ apply gets_log_sim | apply msim_bind | apply msim_for_each | apply if_sim | apply when_sim
  | solve [auto with msim] ]).

Section log_refinement.
Context {C : Type} `{BlockCacheSpec C}.

Lemma write_head_sim : msim log_rep (write_head (C:=C)) (write_head (C:=acache)).
Proof. unfold write_head. log_sim. Qed.

Lemma install_trans_sim : msim log_rep (install_trans (C:=C)) (install_trans (C:=acache)).
Proof. unfold install_trans. log_sim. Qed.

Lemma write_log_sim : msim log_rep (write_log (C:=C)) (write_log (C:=acache)).
Proof. unfold write_log. log_sim. Qed.

Lemma read_head_sim : msim log_rep (read_head (C:=C)) (read_head (C:=acache)).
Proof. unfold read_head. log_sim. Qed.
End log_refinement.

#[export] Hint Resolve write_head_sim install_trans_sim write_log_sim read_head_sim : msim.

Section log_refinement_ops.
Context {C : Type} `{BlockCacheSpec C}.

Lemma commit_sim : msim log_rep (commit (C:=C)) (commit (C:=acache)).
Proof. unfold commit. log_sim. Qed.

Lemma initlog_sim : msim log_rep (initlog (C:=C)) (initlog (C:=acache)).
Proof. unfold initlog, readsb, recover_from_log. log_sim. Qed.

Lemma begin_op_sim : msim log_rep (begin_op (C:=C)) (begin_op (C:=acache)).
Proof. unfold begin_op. log_sim. Qed.

Lemma log_write_sim sector :
  msim log_rep (log_write (C:=C) sector) (log_write (C:=acache) sector).
Proof. unfold log_write. log_sim. Qed.
End log_refinement_ops.

#[export] Hint Resolve commit_sim : msim.

Lemma end_op_sim {C} `{BlockCacheSpec C} : msim log_rep (end_op (C:=C)) (end_op (C:=acache)).
Proof. unfold end_op. log_sim. Qed.

(** ** Theorems *)

#[local] Opaque binit.

(** C9: the buffer cache of bio.c is a cache.  Booted on any disk, a client
    that runs any sequence of [bread], stores, [B_DIRTY], [bwrite] and [brelse]
    reads the data, panics and sleeps exactly as on the abstract machine whose
    contents are a map from sectors to blocks; the disk and the history of its
    writes are those of the abstract machine, and [free_block_number] is the
    number of buffers that are not locked. *)
Theorem cache_refines d os :
  rsim (fun c a => memdisk c = ac_disk a /\ disk_writes c = ac_writes a /\
          get_free_block_number c = get_total_block_number c - Z.of_nat (size (ac_busy a)))
    (run_bops os (binit d)) (run_bops os (boot d)).
Proof.
  eapply rsim_weaken; [|apply run_bops_sim, binit_rep].
  intros c a R. split; [apply R|]. split; [apply R|]. by apply bio_free.
Qed.

(** C10: crash safety of the log on the real cache.  When [commit] runs on the
    cache of bio.c over memide.c, it returns; and whatever prefix of its sector
    writes survives, after any number of interrupted recoveries the kernel that
    boots on that disk ([binit] then [initlog]) finds every home sector either
    as before or as after the transaction. *)
Theorem bcache_crash_safe (s : lstate bcache) (a : alog) :
  log_rep s a -> log_inv a -> 0 < lh_n (ls_log s) ->
  exists s', commit s = Ok tt s' /\
    forall k d,
      crashes (apply_writes (take k (drop (length (disk_writes (ls_cache s)))
        (disk_writes (ls_cache s')))) (memdisk (ls_cache s))) d ->
      exists r : lstate bcache, initlog (LState log0 (binit d) []) = Ok tt r /\
        lh_n (ls_log r) = 0 /\
        forall b, home (ls_log s) b ->
          memdisk (ls_cache r) !! b =
            (if decide (k <= Z.to_nat (lh_n (ls_log s)))%nat
             then ac_disk (ls_cache a) else ac_mem (ls_cache a)) !! b.
Proof.
  intros Hr I Hn. pose proof Hr as (El & Ew & Hc).
  destruct (commit_crash_spec a I) as (a' & Ha & Hcr); [by rewrite <- El|].
  destruct (msim_Ok _ _ _ _ _ _ _ commit_sim Hr Ha) as (s' & Hs & El' & Ew' & Hc').
  exists s'. split; [done|]. intros k d Hd.
  destruct (Hcr k d) as (r & Er & Ir & Hn0 & Hh).
  { unfold crash_disk. rewrite <- (br_disk _ _ Hc), <- (br_writes _ _ Hc), <- (br_writes _ _ Hc').
    exact Hd. }
  assert (log_rep (LState log0 (binit d) []) (LState log0 (boot d) [])) as Hb0
    by (split; [reflexivity|split; [reflexivity|apply binit_rep]]).
  destruct (msim_Ok _ _ _ _ _ _ _ initlog_sim Hb0 Er) as (r' & Er' & El2 & _ & Hc2).
  exists r'. split; [done|]. split; [by rewrite El2|].
  intros b Hb. rewrite (br_disk _ _ Hc2), El. apply Hh. by rewrite <- El.
Qed.

(** C34: the replacement policy.  With [ord] the buffers from the most to the
    least recently released, [bget] returns the buffer of the sector if there
    is one (sleeping while it is locked), otherwise the last buffer of [ord]
    that is neither locked nor pinned, and panics only if there is none; and
    [brelse] moves the buffer to the front of [ord]. *)
Theorem cache_policy c ord :
  ring (bufs c) ord ->
  (forall dev sector,
    bget_loop dev sector c =
      match List.find (fun i => matches dev sector (getb (bufs c) i)) ord with
      | Some i => if busy (getb (bufs c) i) then Sleep (ChBuf (Z.of_nat i)) c else Ok i (hit i c)
      | None =>
          match List.find (fun i => recyclable (getb (bufs c) i)) (reverse ord) with
          | Some i => Ok i (recycled dev sector i c)
          | None => Panic "bget: no buffers"
          end
      end) /\
  (forall l1 i l2 c', ord = l1 ++ i :: l2 -> brelse_buf i c = Ok tt c' ->
    ring (bufs c') (i :: l1 ++ l2)).
Proof.
  intros R. split; [intros; by apply bget_loop_run|].
  intros l1 i l2 c' -> H. unfold brelse_buf in H.
  apply bind_Ok in H as (c0 & s0 & [= <- <-] & H).
  destruct (_ =? 0); [done|]. injection H as <-. simpl.
  apply ring_alter; [done..|]. by apply ring_relink.
Qed.

(** ** Examples *)

(** The example of LogExamples.v on the cache of bio.c. *)
Definition one_logged_bio : lstate bcache :=
  match log_update ROOTDEV 2 sevens
    (LState (example_log 3 2 1) (binit (example_disk 3 2)) []) with
  | Ok _ s => s
  | _ => LState log0 (binit ∅) []
  end.

Lemma one_logged_rep : log_rep one_logged_bio one_logged.
Proof.
  assert (exists s, log_update ROOTDEV 2 sevens (example_state 3 2 1) = Ok tt s /\ one_logged = s)
    as (a & Ha & ->).
  { destruct (log_update_spec (example_state 3 2 1) 2 sevens) as (s' & Hr & _);
      [by apply example_inv|cbn; lia|by apply example_lookup|by apply example_lookup
      |done|cbn; lia|cbn; unfold NBUF, MAXOPBLOCKS; lia|cbn; lia|].
    exists s'. split; [done|]. unfold one_logged. by rewrite Hr. }
  assert (log_rep (LState (example_log 3 2 1) (binit (example_disk 3 2)) []) (example_state 3 2 1))
    as Hb by (split; [reflexivity|split; [reflexivity|apply binit_rep]]).
  assert (msim log_rep (log_update (C:=bcache) ROOTDEV 2 sevens)
    (log_update (C:=acache) ROOTDEV 2 sevens)) as Hm
    by (unfold log_update; repeat (apply msim_bind; [auto using log_write_sim with msim|intros]);
        auto with msim).
  destruct (msim_Ok _ _ _ _ _ _ _ Hm Hb Ha) as (s & Hs & Hr).
  unfold one_logged_bio. by rewrite Hs.
Qed.

Lemma bcache_crash_safe_witness :
  exists s', commit one_logged_bio = Ok tt s' /\
    forall k d,
      crashes (apply_writes (take k (drop (length (disk_writes (ls_cache one_logged_bio)))
        (disk_writes (ls_cache s')))) (memdisk (ls_cache one_logged_bio))) d ->
      exists r : lstate bcache, initlog (LState log0 (binit d) []) = Ok tt r.
Proof.
  destruct (bcache_crash_safe one_logged_bio one_logged one_logged_rep one_logged_inv)
    as (s' & Hs & H).
  - destruct one_logged_rep as (-> & _). rewrite one_logged_n. lia.
  - exists s'. split; [exact Hs|]. intros k d Hd. destruct (H k d Hd) as (r & Hr & _).
    exists r. exact Hr.
Defined.

Lemma cache_policy_witness :
  bget_loop 1 5 (binit ∅) = Ok 0%nat (recycled 1 5 0 (binit ∅)).
Proof.
  destruct (cache_policy (binit ∅) _ (binit_ring ∅)) as [H _].
  rewrite H. reflexivity.
Defined.
