(* ===== verification/CString.v ===== *)
(** string.c: the kernel's memory and string functions.

    Memory is a map from addresses to bytes, so overlapping areas and pointers
    into the middle of an array behave as in C.  A loop that stops only at a
    NUL byte takes fuel; the theorems show that the length of the string is
    enough. *)

From stdpp Require Import prelude strings functions gmap list.
From S2P Require Import Prelude Param.

Abbreviation mem := (Z -> Z).

(** ** Definitions *)

(** x86.h: [rep stosb] and [rep stosl]. *)
Fixpoint stosb (addr data : Z) (cnt : nat) (m : mem) : mem :=
  match cnt with
  | O => m
  | S cnt => stosb (addr + 1) data cnt (<[addr := u8 data]> m)
  end.

Definition store_long (addr w : Z) (m : mem) : mem :=
  <[addr + 3 := u8 (w >> 24)]> (<[addr + 2 := u8 (w >> 16)]>
    (<[addr + 1 := u8 (w >> 8)]> (<[addr := u8 w]> m))).

Fixpoint stosl (addr data : Z) (cnt : nat) (m : mem) : mem :=
  match cnt with
  | O => m
  | S cnt => stosl (addr + 4) data cnt (store_long addr data m)
  end.

Definition memset (dst c n : Z) (m : mem) : mem :=
  if ((Z.rem dst 4 =? 0) && (n mod 4 =? 0))%bool then
    let c := c .& 255 in
    stosl dst ((c << 24) .| (c << 16) .| (c << 8) .| c) (Z.to_nat (n / 4)) m
  else stosb dst c (Z.to_nat n) m.

Fixpoint memcmp (s1 s2 : Z) (n : nat) (m : mem) : Z :=
  match n with
  | O => 0
  | S n => if negb (m s1 =? m s2) then m s1 - m s2 else memcmp (s1 + 1) (s2 + 1) n m
  end.

Fixpoint copy_back (d s : Z) (n : nat) (m : mem) : mem :=
  match n with
  | O => m
  | S n => let d := d - 1 in let s := s - 1 in copy_back d s n (<[d := m s]> m)
  end.

Fixpoint copy (d s : Z) (n : nat) (m : mem) : mem :=
  match n with
  | O => m
  | S n => copy (d + 1) (s + 1) n (<[d := m s]> m)
  end.

Definition memmove (dst src n : Z) (m : mem) : mem :=
  if ((src <? dst) && (dst <? src + n))%bool
  then copy_back (dst + n) (src + n) (Z.to_nat n) m
  else copy dst src (Z.to_nat n) m.

Definition memcpy (dst src n : Z) (m : mem) : mem := memmove dst src n m.

Fixpoint strncmp (p q : Z) (n : nat) (m : mem) : Z :=
  match n with
  | O => 0
  | S n' =>
      if (ctrue (m p) && (m p =? m q))%bool then strncmp (p + 1) (q + 1) n' m
      else m p - m q
  end.

(** [while(n-- > 0) *s++ = 0] *)
Fixpoint fill0 (s : Z) (n : nat) (m : mem) : mem :=
  match n with
  | O => m
  | S n => fill0 (s + 1) n (<[s := 0]> m)
  end.

Fixpoint strncpy_loop (s t : Z) (n : nat) (m : mem) : mem :=
  match n with
  | O => m
  | S n =>
      let c := m t in
      let m := <[s := c]> m in
      if ctrue c then strncpy_loop (s + 1) (t + 1) n m else fill0 (s + 1) n m
  end.

Definition strncpy (s t n : Z) (m : mem) : mem := strncpy_loop s t (Z.to_nat n) m.

(** [while(--n > 0 && ...)] then [*s = 0]; [n] is the value after the decrement. *)
Fixpoint safestrcpy_loop (s t : Z) (n : nat) (m : mem) : mem :=
  match n with
  | O => <[s := 0]> m
  | S n =>
      let c := m t in
      let m := <[s := c]> m in
      if ctrue c then safestrcpy_loop (s + 1) (t + 1) n m else <[s + 1 := 0]> m
  end.

Definition safestrcpy (s t n : Z) (m : mem) : mem :=
  if n <=? 0 then m else safestrcpy_loop s t (Z.to_nat (n - 1)) m.

Fixpoint strlen_from (fuel : nat) (s n : Z) (m : mem) : option Z :=
  match fuel with
  | O => None
  | S fuel => if ctrue (m (s + n)) then strlen_from fuel s (n + 1) m else Some n
  end.

Definition strlen (fuel : nat) (s : Z) (m : mem) : option Z := strlen_from fuel s 0 m.

Definition digits : list Z := [48; 49; 50; 51; 52; 53; 54; 55; 56; 57].

(** [x % 10] is negative for a negative [x]: the index leaves the array. *)
Definition digit (x : Z) : option Z :=
  let r := Z.rem x 10 in if r <? 0 then None else Some digits.[r].

(** An [int] has at most ten digits. *)
Definition INT_DIGITS : nat := 10.

Fixpoint itoa_digits (fuel : nat) (x buf i : Z) (m : mem) : option (Z * mem) :=
  match fuel with
  | O => None
  | S fuel =>
      c ← digit x;
      let m := <[buf + i := c]> m in
      if Z.quot x 10 =? 0 then Some (i + 1, m)
      else itoa_digits fuel (Z.quot x 10) buf (i + 1) m
  end.

Fixpoint itoa_reverse (fuel : nat) (buf i : Z) (m : mem) : option mem :=
  n ← strlen (S INT_DIGITS) buf m;
  if i <? Z.quot n 2 then
    match fuel with
    | O => None
    | S fuel =>
        let tmp := m (buf + i) in
        let m := <[buf + i := m (buf + (n - i - 1))]> m in
        n ← strlen (S INT_DIGITS) buf m;
        itoa_reverse fuel buf (i + 1) (<[buf + (n - i - 1) := tmp]> m)
    end
  else Some m.

Definition itoa (x buf : Z) (m : mem) : option mem :=
  '(i, m) ← itoa_digits INT_DIGITS x buf 0 m;
  itoa_reverse INT_DIGITS buf 0 (<[buf + i := 0]> m).

(** ** Memory blocks *)

Lemma ins_eq (m : mem) a v : <[a := v]> m a = v.
Proof. apply fn_lookup_insert. Qed.

Lemma ins_ne (m : mem) a b v : a <> b -> <[a := v]> m b = m b.
Proof. apply fn_lookup_insert_ne. Qed.

(** Resolve the updates in a goal about addresses. *)
Ltac mem_solve :=
  repeat first
    [ rewrite ins_eq | rewrite ins_ne by lia
    | match goal with |- context [decide ?P] => destruct (decide P); try lia end
    | match goal with |- context [(<[?a := _]> _) ?b] =>
        destruct (Z.eq_dec a b); [subst; rewrite ?ins_eq|rewrite (ins_ne _ a b) by done] end ];
  try done; try (f_equal; lia); try lia.

Lemma stosb_spec addr c n m x :
  stosb addr c n m x = if decide (addr <= x < addr + Z.of_nat n) then u8 c else m x.
Proof.
  revert addr m. induction n as [|n IH]; intros addr m; cbn [stosb]; [mem_solve|].
  rewrite IH. mem_solve.
Qed.

Definition long_byte (w k : Z) : Z := u8 (w >> (8 * k)).

Lemma stosl_spec addr w n m x :
  stosl addr w n m x =
    if decide (addr <= x < addr + 4 * Z.of_nat n) then long_byte w ((x - addr) mod 4) else m x.
Proof.
  revert addr m. induction n as [|n IH]; intros addr m; cbn [stosl]; [mem_solve|].
  rewrite IH. unfold store_long, long_byte.
  destruct (decide (addr + 4 <= x < addr + 4 + 4 * Z.of_nat n)).
  - rewrite decide_True by lia. do 3 f_equal.
    replace (x - addr) with (x - (addr + 4) + 1 * 4) by lia. by rewrite Z.mod_add.
  - destruct (decide (addr <= x < addr + 4)) as [Hx|Hx].
    + rewrite decide_True by lia. rewrite Z.mod_small by lia.
      assert (x = addr \/ x = addr + 1 \/ x = addr + 2 \/ x = addr + 3) as [-> |[-> |[-> | ->]]] by lia;
        rewrite ?ins_eq, ?ins_ne, ?ins_eq, ?ins_ne, ?ins_eq, ?ins_ne, ?ins_eq by lia;
        f_equal; f_equal; try lia.
      replace (8 * (addr - addr)) with 0 by lia. by rewrite Z.shiftr_0_r.
    + rewrite decide_False by lia. by rewrite !ins_ne by lia.
Qed.

Lemma long_byte_repeat c k :
  is_u8 c -> 0 <= k < 4 -> long_byte ((c << 24) .| (c << 16) .| (c << 8) .| c) k = c.
Proof.
  intros Hc Hk. unfold long_byte, u8. change 256 with (2 ^ 8).
  apply Z.bits_inj'. intros i Hi.
  destruct (Z.ltb_spec i 8).
  - rewrite Z.mod_pow2_bits_low by lia. rewrite Z.shiftr_spec by lia.
    rewrite !Z.lor_spec, !Z.shiftl_spec by lia.
    assert (forall j, 8 <= j -> Z.testbit c j = false) as Hhi.
    { intros j Hj. rewrite <- (Z.mod_small c (2 ^ 8)) by lia. by apply Z.mod_pow2_bits_high. }
    assert (forall j, j < 0 -> Z.testbit c j = false) as Hlo by (intros; by apply Z.testbit_neg_r).
    assert (k = 0 \/ k = 1 \/ k = 2 \/ k = 3) as [-> |[-> |[-> | ->]]] by lia.
    + rewrite (Hlo (_ - 24)), (Hlo (_ - 16)), (Hlo (_ - 8)) by lia. simpl. f_equal. lia.
    + rewrite (Hlo (_ - 24)), (Hlo (_ - 16)), (Hhi (i + 8 * 1)) by lia.
      rewrite orb_false_r. simpl. f_equal. lia.
    + rewrite (Hlo (_ - 24)), (Hhi (_ - 8)), (Hhi (i + 8 * 2)) by lia.
      rewrite !orb_false_r. simpl. f_equal. lia.
    + rewrite (Hhi (_ - 16)), (Hhi (_ - 8)), (Hhi (i + 8 * 3)) by lia.
      rewrite !orb_false_r. f_equal. lia.
  - rewrite Z.mod_pow2_bits_high by lia. symmetry.
    rewrite <- (Z.mod_small c (2 ^ 8)) by lia. apply Z.mod_pow2_bits_high. lia.
Qed.

Lemma copy_spec d s n m x :
  d <= s \/ s + Z.of_nat n <= d ->
  copy d s n m x = if decide (d <= x < d + Z.of_nat n) then m (s + (x - d)) else m x.
Proof.
  revert d s m. induction n as [|n IH]; intros d s m H; cbn [copy]; [mem_solve|].
  rewrite IH by lia. destruct (decide (d + 1 <= x < d + 1 + Z.of_nat n)).
  - rewrite decide_True, ins_ne by lia. f_equal. lia.
  - destruct (decide (x = d)) as [->|].
    + rewrite decide_True, ins_eq by lia. f_equal. lia.
    + rewrite decide_False, ins_ne by lia. done.
Qed.

Lemma copy_back_spec d s n m x :
  s < d \/ d + Z.of_nat n <= s ->
  copy_back (d + Z.of_nat n) (s + Z.of_nat n) n m x =
    if decide (d <= x < d + Z.of_nat n) then m (s + (x - d)) else m x.
Proof.
  intros H. revert m. induction n as [|n IH]; intros m; cbn [copy_back]; [mem_solve|].
  replace (d + Z.of_nat (S n) - 1) with (d + Z.of_nat n) by lia.
  replace (s + Z.of_nat (S n) - 1) with (s + Z.of_nat n) by lia.
  rewrite IH by lia. destruct (decide (d <= x < d + Z.of_nat n)).
  - rewrite decide_True, ins_ne by lia. done.
  - destruct (decide (x = d + Z.of_nat n)) as [->|].
    + rewrite decide_True, ins_eq by lia. f_equal. lia.
    + rewrite decide_False, ins_ne by lia. done.
Qed.

Lemma memset_spec dst c n m x :
  0 <= n -> memset dst c n m x = if decide (dst <= x < dst + n) then u8 c else m x.
Proof.
  intros Hn. unfold memset. destruct (_ && _)%bool eqn:E.
  - apply andb_true_iff in E as [_ E]. apply Z.eqb_eq in E.
    rewrite stosl_spec, Z2Nat.id by (apply Z.div_pos; lia).
    replace (4 * (n / 4)) with n by (pose proof (Z.div_mod n 4); lia).
    case_decide; [|done]. change 255 with (Z.ones 8). rewrite Z.land_ones by lia.
    change (2 ^ 8) with 256. fold (u8 c).
    apply long_byte_repeat; [apply u8_range|]. apply Z.mod_pos_bound. lia.
  - by rewrite stosb_spec, Z2Nat.id.
Qed.

Lemma memmove_spec dst src n m x :
  0 <= n -> memmove dst src n m x = if decide (dst <= x < dst + n) then m (src + (x - dst)) else m x.
Proof.
  intros Hn. unfold memmove. destruct (_ && _)%bool eqn:E.
  - apply andb_true_iff in E as [E1%Z.ltb_lt E2%Z.ltb_lt].
    pose proof (copy_back_spec dst src (Z.to_nat n) m x) as H. rewrite Z2Nat.id in H by done.
    apply H. lia.
  - apply andb_false_iff in E. rewrite !Z.ltb_ge in E.
    rewrite copy_spec, Z2Nat.id by lia. done.
Qed.

Lemma memcmp_spec s1 s2 n m :
  (memcmp s1 s2 n m = 0 <-> forall i, 0 <= i < Z.of_nat n -> m (s1 + i) = m (s2 + i)).
Proof.
  revert s1 s2. induction n as [|n IH]; intros s1 s2; cbn [memcmp].
  - split; [intros _ i Hi; lia|done].
  - destruct (Z.eqb_spec (m s1) (m s2)) as [E|E]; simpl.
    + rewrite IH. split; intros H i Hi.
      * destruct (decide (i = 0)) as [->|]; [by rewrite !Z.add_0_r|].
        specialize (H (i - 1)). replace (s1 + i) with (s1 + 1 + (i - 1)) by lia.
        replace (s2 + i) with (s2 + 1 + (i - 1)) by lia. apply H. lia.
      * specialize (H (i + 1)). replace (s1 + 1 + i) with (s1 + (i + 1)) by lia.
        replace (s2 + 1 + i) with (s2 + (i + 1)) by lia. apply H. lia.
    + split; [lia|]. intros H. specialize (H 0). rewrite !Z.add_0_r in H. lia.
Qed.

(** ** Strings *)

(** The bytes of [l] at [s]. *)
Fixpoint bytes_at (m : mem) (s : Z) (l : list Z) : Prop :=
  match l with
  | [] => True
  | c :: l => m s = c /\ bytes_at m (s + 1) l
  end.

Definition no_nul (l : list Z) : Prop := Forall (fun c => c <> 0) l.

(** A NUL-terminated string. *)
Definition cstr (m : mem) (s : Z) (l : list Z) : Prop := bytes_at m s (l ++ [0]) /\ no_nul l.

Lemma bytes_at_app m s l1 l2 :
  bytes_at m s (l1 ++ l2) <-> bytes_at m s l1 /\ bytes_at m (s + Z.of_nat (length l1)) l2.
Proof.
  revert s. induction l1 as [|c l1 IH]; intros s; simpl length.
  - simpl. rewrite Z.add_0_r. tauto.
  - cbn [app bytes_at]. rewrite IH. replace (s + Z.of_nat (S (length l1)))
      with (s + 1 + Z.of_nat (length l1)) by lia. tauto.
Qed.

Lemma bytes_at_lookup m s l :
  bytes_at m s l <-> forall i c, l !! i = Some c -> m (s + Z.of_nat i) = c.
Proof.
  revert s. induction l as [|c l IH]; intros s; simpl; [done|]. rewrite IH. split.
  - intros [H1 H2] [|i] c' Hi; simpl in Hi; [injection Hi as <-; by rewrite Z.add_0_r|].
    rewrite <- (H2 i c' Hi). f_equal. lia.
  - intros H. split; [rewrite <- (H 0%nat c eq_refl); f_equal; lia|].
    intros i c' Hi. rewrite <- (H (S i) c' Hi). f_equal. lia.
Qed.

Lemma bytes_at_ext m m' s l :
  (forall x, s <= x < s + Z.of_nat (length l) -> m x = m' x) -> bytes_at m s l -> bytes_at m' s l.
Proof.
  intros H. rewrite !bytes_at_lookup. intros Hm i c Hi. rewrite <- H; [by apply Hm|].
  apply lookup_lt_Some in Hi. lia.
Qed.

Lemma strlen_from_spec fuel s n l m :
  cstr m (s + n) l -> (length l < fuel)%nat -> strlen_from fuel s n m = Some (n + Z.of_nat (length l)).
Proof.
  revert n fuel. induction l as [|c l IH]; intros n fuel [Hb Hn] Hf;
    (destruct fuel as [|fuel]; [simpl in Hf; lia|]); cbn [strlen_from] in *; simpl in Hb.
  - destruct Hb as [-> _]. simpl. f_equal. lia.
  - destruct Hb as [-> Hb]. inversion Hn as [|? ? Hc Hn']; subst.
    unfold ctrue. rewrite (proj2 (Z.eqb_neq c 0) Hc). simpl.
    rewrite IH; [f_equal; simpl; lia| |simpl in Hf; lia].
    split; [|done]. by replace (s + (n + 1)) with (s + n + 1) by lia.
Qed.

Lemma strlen_spec fuel s l m :
  cstr m s l -> (length l < fuel)%nat -> strlen fuel s m = Some (Z.of_nat (length l)).
Proof.
  intros Hc Hf. unfold strlen. erewrite strlen_from_spec; [|rewrite Z.add_0_r; done|done].
  done.
Qed.

Lemma fill0_spec s n m x :
  fill0 s n m x = if decide (s <= x < s + Z.of_nat n) then 0 else m x.
Proof.
  revert s m. induction n as [|n IH]; intros s m; cbn [fill0]; [mem_solve|]. rewrite IH. mem_solve.
Qed.

(** The source and the destination do not overlap. *)
Definition apart (a : Z) (n : nat) (b : Z) (k : nat) : Prop :=
  a + Z.of_nat n <= b \/ b + Z.of_nat k <= a.

Lemma cstr_cons m s c l : cstr m s (c :: l) <-> m s = c /\ c <> 0 /\ cstr m (s + 1) l.
Proof. unfold cstr, no_nul. simpl. rewrite Forall_cons. tauto. Qed.

Lemma cstr_nil m s : cstr m s [] <-> m s = 0.
Proof. unfold cstr, no_nul. simpl. split; [tauto|]. intros ->. split; [done|constructor]. Qed.

Lemma cstr_ext m m' s l :
  (forall x, s <= x < s + Z.of_nat (S (length l)) -> m x = m' x) -> cstr m s l -> cstr m' s l.
Proof.
  intros H [Hb Hn]. split; [|done]. eapply bytes_at_ext; [|exact Hb].
  intros x Hx. apply H. rewrite length_app in Hx. simpl in Hx. lia.
Qed.

(** [strncpy] from a string: the bytes of the string, then NULs up to [n]. *)
Lemma strncpy_loop_spec s t n l m x :
  cstr m t l -> apart s n t (S (length l)) ->
  strncpy_loop s t n m x = if decide (s <= x < s + Z.of_nat n) then l.[x - s] else m x.
Proof.
  revert s t l m. induction n as [|n IH]; intros s t l m Hc Ha; cbn [strncpy_loop]; [mem_solve|].
  unfold apart in Ha. destruct l as [|c l].
  - apply cstr_nil in Hc. rewrite Hc. change (ctrue 0) with false. cbv iota. rewrite fill0_spec.
    destruct (decide (s <= x < s + Z.of_nat (S n))).
    + assert (forall k, nth k (@nil Z) 0 = 0) as -> by (by intros []). mem_solve.
    + rewrite decide_False by lia. mem_solve.
  - apply cstr_cons in Hc as (Hm & Hc0 & Hc). rewrite Hm.
    unfold ctrue. rewrite (proj2 (Z.eqb_neq c 0) Hc0). simpl.
    rewrite (IH _ _ l).
    + destruct (decide (s + 1 <= x < s + 1 + Z.of_nat n)).
      * rewrite decide_True by lia. replace (Z.to_nat (x - s)) with (S (Z.to_nat (x - (s + 1)))) by lia.
        done.
      * destruct (decide (x = s)) as [->|].
        -- rewrite decide_True by lia. rewrite ins_eq. by rewrite Z.sub_diag.
        -- rewrite decide_False, ins_ne by lia. done.
    + eapply cstr_ext; [|exact Hc]. intros y Hy. simpl in Ha. symmetry. apply ins_ne. lia.
    + unfold apart. simpl in Ha. lia.
Qed.

Lemma safestrcpy_loop_spec s t n l m :
  cstr m t l -> apart s (S n) t (S (length l)) ->
  cstr (safestrcpy_loop s t n m) s (take n l) /\
  forall x, ~ s <= x < s + Z.of_nat (S n) -> safestrcpy_loop s t n m x = m x.
Proof.
  revert s t l m. induction n as [|n IH]; intros s t l m Hc Ha; cbn [safestrcpy_loop take].
  - split; [rewrite cstr_nil; apply ins_eq|]. intros x Hx. apply ins_ne. lia.
  - unfold apart in Ha. destruct l as [|c l].
    + apply cstr_nil in Hc. rewrite Hc. simpl. split.
      * rewrite cstr_nil. mem_solve.
      * intros x Hx. by rewrite !ins_ne by lia.
    + apply cstr_cons in Hc as (Hm & Hc0 & Hc). rewrite Hm. simpl in Ha.
      unfold ctrue. rewrite (proj2 (Z.eqb_neq c 0) Hc0). simpl.
      destruct (IH (s + 1) (t + 1) l (<[s := c]> m)) as [IH1 IH2].
      * eapply cstr_ext; [|exact Hc]. intros y Hy. symmetry. apply ins_ne. lia.
      * unfold apart. lia.
      * split.
        -- apply cstr_cons. split; [|done]. rewrite IH2 by lia. apply ins_eq.
        -- intros x Hx. rewrite IH2 by lia. apply ins_ne. lia.
Qed.

(** The string at [p] cut at [n] bytes: what [strncmp] and [namecmp] compare. *)
Fixpoint cname (m : mem) (p : Z) (n : nat) : list Z :=
  match n with
  | O => []
  | S n => if ctrue (m p) then m p :: cname m (p + 1) n else []
  end.

Lemma strncmp_spec p q n m : strncmp p q n m = 0 <-> cname m p n = cname m q n.
Proof.
  revert p q. induction n as [|n IH]; intros p q; cbn [strncmp cname]; [done|].
  unfold ctrue. destruct (Z.eqb_spec (m p) 0), (Z.eqb_spec (m q) 0), (Z.eqb_spec (m p) (m q));
    simpl; try lia; try (split; intros; first [done|lia|congruence]).
  rewrite IH. split; congruence.
Qed.

(** ** Decimal numbers *)

Fixpoint dec_rev (fuel : nat) (x : Z) : list Z :=
  match fuel with
  | O => []
  | S fuel => (48 + x mod 10) :: (if x / 10 =? 0 then [] else dec_rev fuel (x / 10))
  end.

(** The decimal representation of a non-negative [int]. *)
Definition decimal (x : Z) : list Z := reverse (dec_rev INT_DIGITS x).

Definition dec_value (l : list Z) : Z := foldl (fun n c => n * 10 + (c - 48)) 0 l.

Lemma digit_spec x : 0 <= x -> digit x = Some (48 + x mod 10).
Proof.
  intros Hx. unfold digit. rewrite Z.rem_mod_nonneg by lia.
  pose proof (Z.mod_pos_bound x 10). destruct (Z.ltb_spec (x mod 10) 0); [lia|].
  f_equal. assert (x mod 10 = 0 \/ x mod 10 = 1 \/ x mod 10 = 2 \/ x mod 10 = 3 \/ x mod 10 = 4 \/
    x mod 10 = 5 \/ x mod 10 = 6 \/ x mod 10 = 7 \/ x mod 10 = 8 \/ x mod 10 = 9) as Hd by lia.
  repeat destruct Hd as [Hd|Hd]; rewrite Hd; done.
Qed.

Lemma length_dec_rev fuel x : (length (dec_rev fuel x) <= fuel)%nat.
Proof.
  revert x. induction fuel as [|fuel IH]; intros x; simpl; [done|].
  destruct (x / 10 =? 0); simpl; [lia|]. specialize (IH (x / 10)). lia.
Qed.

Lemma dec_rev_value fuel x :
  0 <= x < 10 ^ Z.of_nat fuel ->
  dec_value (reverse (dec_rev fuel x)) = x /\ Forall (fun c => 48 <= c <= 57) (dec_rev fuel x).
Proof.
  revert x. induction fuel as [|fuel IH]; intros x Hx; simpl.
  - simpl in Hx. split; [cbn; lia|done].
  - pose proof (Z.mod_pos_bound x 10) as Hr. pose proof (Z.div_mod x 10) as Hd.
    rewrite reverse_cons. unfold dec_value. rewrite foldl_app. simpl.
    destruct (Z.eqb_spec (x / 10) 0) as [E|E].
    + simpl. split; [lia|]. apply Forall_singleton. lia.
    + destruct (IH (x / 10)) as [IH1 IH2].
      { split; [apply Z.div_pos; lia|]. apply Z.div_lt_upper_bound; [lia|].
        rewrite Nat2Z.inj_succ, Z.pow_succ_r in Hx by lia. lia. }
      unfold dec_value in IH1. rewrite IH1. split; [lia|].
      apply Forall_cons. split; [lia|done].
Qed.

Lemma itoa_digits_spec fuel x buf i m :
  0 <= x < 10 ^ Z.of_nat fuel -> (0 < fuel)%nat ->
  exists m', itoa_digits fuel x buf i m = Some (i + Z.of_nat (length (dec_rev fuel x)), m') /\
    forall y, m' y = if decide (buf + i <= y < buf + i + Z.of_nat (length (dec_rev fuel x)))
                     then (dec_rev fuel x).[y - (buf + i)] else m y.
Proof.
  revert x i m. induction fuel as [|fuel IH]; intros x i m Hx Hf; [lia|].
  cbn [itoa_digits dec_rev]. rewrite digit_spec by lia. simpl mbind.
  rewrite Z.quot_div_nonneg by lia.
  pose proof (Z.mod_pos_bound x 10) as Hr. pose proof (Z.div_mod x 10) as Hd.
  destruct (Z.eqb_spec (x / 10) 0) as [E|E].
  - eexists. split; [reflexivity|]. intros y. cbn [length].
    destruct (decide (y = buf + i)) as [->|].
    + rewrite ins_eq, decide_True by lia. rewrite Z.sub_diag. done.
    + rewrite ins_ne, decide_False by lia. done.
  - destruct (IH (x / 10) (i + 1) (<[buf + i := 48 + x mod 10]> m)) as (m' & Em & Hm).
    { split; [apply Z.div_pos; lia|]. apply Z.div_lt_upper_bound; [lia|].
      rewrite Nat2Z.inj_succ, Z.pow_succ_r in Hx by lia. lia. }
    { destruct fuel; [|lia]. simpl in Hx. rewrite Z.div_small in E; lia. }
    exists m'. split; [rewrite Em; do 2 f_equal; cbn [length]; lia|].
    intros y. rewrite Hm. cbn [length]. destruct (decide (y = buf + i)) as [->|].
    + rewrite decide_False, ins_eq, decide_True by lia. by rewrite Z.sub_diag.
    + case_decide.
      * rewrite decide_True by lia.
        replace (Z.to_nat (y - (buf + i))) with (S (Z.to_nat (y - (buf + (i + 1))))) by lia. done.
      * rewrite decide_False, ins_ne by lia. done.
Qed.

Lemma strlen_fn fuel s n m :
  0 <= n < Z.of_nat fuel -> (forall j, 0 <= j < n -> m (s + j) <> 0) -> m (s + n) = 0 ->
  strlen fuel s m = Some n.
Proof.
  intros Hn Hj H0.
  assert (forall k j, (Z.to_nat (n - j) < k)%nat -> 0 <= j <= n -> strlen_from k s j m = Some n) as H.
  { induction k as [|k IH]; intros j Hk Hjn; [lia|]. cbn [strlen_from]. unfold ctrue.
    destruct (decide (j = n)) as [->|]; [by rewrite H0|].
    rewrite (proj2 (Z.eqb_neq _ _) (Hj j ltac:(lia))). simpl. apply IH; lia. }
  apply H; lia.
Qed.

(** The first and last [k] bytes of the [n] bytes at [buf] exchanged. *)
Definition swapped (m : mem) (buf n k y : Z) : Z :=
  let j := y - buf in
  if decide (0 <= j < k \/ n - k <= j < n) then m (buf + (n - 1 - j)) else m y.

Lemma itoa_reverse_spec fuel buf n m0 m i :
  0 <= n <= Z.of_nat INT_DIGITS -> 0 <= i <= n / 2 -> (Z.to_nat (n / 2 - i) <= fuel)%nat ->
  (forall j, 0 <= j < n -> m0 (buf + j) <> 0) -> m0 (buf + n) = 0 ->
  (forall y, m y = swapped m0 buf n i y) ->
  exists m', itoa_reverse fuel buf i m = Some m' /\ forall y, m' y = swapped m0 buf n (n / 2) y.
Proof.
  intros Hn Hi Hf Hnz H0. revert m i Hi Hf.
  assert (forall m, (forall j, 0 <= j < n -> exists k, 0 <= k < n /\ m (buf + j) = m0 (buf + k)) ->
    m (buf + n) = 0 -> strlen (S INT_DIGITS) buf m = Some n) as Hlen.
  { intros m Hm Hm0. apply strlen_fn; [lia| |done].
    intros j Hj. destruct (Hm j Hj) as (k & Hk & ->). by apply Hnz. }
  assert (n / 2 * 2 <= n) as Hhalf by (pose proof (Z.div_mod n 2); pose proof (Z.mod_pos_bound n 2); lia).
  induction fuel as [|fuel IH]; intros m i Hi Hf Hm;
    (assert (strlen (S INT_DIGITS) buf m = Some n) as El;
     [apply Hlen; [|rewrite Hm; unfold swapped; rewrite decide_False by lia; done];
      intros j Hj; rewrite Hm; unfold swapped; case_decide;
      [exists (n - 1 - j)|exists j]; (split; [lia|f_equal; lia])|]);
    cbn [itoa_reverse]; rewrite El; cbn [mbind option_bind]; rewrite Z.quot_div_nonneg by lia.
  - destruct (Z.ltb_spec i (n / 2)); [lia|]. exists m. split; [done|].
    replace (n / 2) with i by lia. done.
  - destruct (Z.ltb_spec i (n / 2)) as [Hlt|Hge].
    + set (m1 := <[buf + i := _]> m).
      assert (m1 (buf + i) = m0 (buf + (n - 1 - i))) as E1.
      { unfold m1. rewrite ins_eq, Hm. unfold swapped. rewrite decide_False by lia. f_equal. lia. }
      assert (forall y, y <> buf + i -> m1 y = m y) as E2 by (intros; unfold m1; by rewrite ins_ne).
      rewrite (Hlen m1).
      * cbn [mbind option_bind]. apply IH; [lia|lia|]. intros y.
        unfold swapped. destruct (decide (y = buf + (n - i - 1))) as [->|Hy].
        -- rewrite ins_eq, Hm, decide_True by lia. unfold swapped. rewrite decide_False by lia.
           f_equal. lia.
        -- rewrite ins_ne by done. destruct (decide (y = buf + i)) as [->|Hy2].
           ++ rewrite E1, decide_True by lia. f_equal. lia.
           ++ rewrite E2, Hm by done. unfold swapped. repeat case_decide; try lia; done.
      * intros j Hj. destruct (decide (j = i)) as [->|]; [exists (n - 1 - i); split; [lia|done]|].
        rewrite E2, Hm by lia. unfold swapped. case_decide;
          [exists (n - 1 - j)|exists j]; (split; [lia|f_equal; lia]).
      * rewrite E2, Hm by lia. unfold swapped. by rewrite decide_False by lia.
    + exists m. split; [done|]. replace (n / 2) with i by lia. done.
Qed.

Lemma swapped_all m buf n y :
  0 <= n -> 0 <= y - buf < n -> swapped m buf n (n / 2) y = m (buf + (n - 1 - (y - buf))).
Proof.
  intros Hn Hy. pose proof (Z.div_mod n 2). pose proof (Z.mod_pos_bound n 2).
  unfold swapped. case_decide; [done|]. f_equal. lia.
Qed.

Lemma nth_reverse (l : list Z) j :
  0 <= j < Z.of_nat (length l) -> (reverse l).[j] = l.[Z.of_nat (length l) - 1 - j].
Proof.
  intros Hj. rewrite !nth_lookup, reverse_lookup by lia. do 2 f_equal. lia.
Qed.

Lemma length_decimal x : (length (decimal x) <= INT_DIGITS)%nat.
Proof. unfold decimal. rewrite length_reverse. apply length_dec_rev. Qed.

Lemma itoa_spec x buf m :
  0 <= x < 2 ^ 31 ->
  exists m', itoa x buf m = Some m' /\ cstr m' buf (decimal x) /\
    forall y, ~ buf <= y <= buf + Z.of_nat (length (decimal x)) -> m' y = m y.
Proof.
  intros Hx. assert (0 <= x < 10 ^ Z.of_nat INT_DIGITS) as Hx10 
    by (change (10 ^ Z.of_nat INT_DIGITS) with 10000000000; lia).
  destruct (dec_rev_value _ _ Hx10) as [_ Hdig].
  destruct (itoa_digits_spec INT_DIGITS x buf 0 m Hx10) as (m1 & E1 & H1); [unfold INT_DIGITS; lia|].
  unfold itoa. rewrite E1. cbn [mbind option_bind]. rewrite Z.add_0_l, Z.add_0_r in *.
  unfold decimal. rewrite length_reverse.
  pose proof (length_dec_rev INT_DIGITS x) as Hlen.
  revert E1 H1 Hdig Hlen. generalize (dec_rev INT_DIGITS x) as L. intros L E1 H1 Hdig Hlen.
  set (n := Z.of_nat (length L)) in *. assert (0 <= n) as Hn0 by (unfold n; lia).
  assert (0 <= n / 2 /\ n / 2 * 2 <= n) as Hhalf
    by (pose proof (Z.div_mod n 2); pose proof (Z.mod_pos_bound n 2); lia).
  assert (forall j, 0 <= j < n -> m1 (buf + j) = L.[j]) as HL.
  { intros j Hj. rewrite H1, decide_True by lia. f_equal. lia. }
  assert (forall j, 0 <= j < n -> 48 <= L.[j] <= 57) as Hd.
  { intros j Hj. rewrite Forall_forall in Hdig. apply Hdig, list_elem_of_In, nth_In. lia. }
  destruct (itoa_reverse_spec INT_DIGITS buf n (<[buf + n := 0]> m1) (<[buf + n := 0]> m1) 0)
    as (m' & E2 & H2); unfold INT_DIGITS in *; try lia.
  { intros j Hj. rewrite ins_ne, HL by lia. specialize (Hd j Hj). lia. }
  { apply ins_eq. }
  { intros y. unfold swapped. rewrite decide_False by lia. done. }
  exists m'. split; [exact E2|].
  assert (forall j, 0 <= j < n -> m' (buf + j) = (reverse L).[j]) as HR.
  { intros j Hj. rewrite H2, swapped_all, ins_ne, HL, nth_reverse by lia. f_equal. lia. }
  split; [|intros y Hy; rewrite H2; unfold swapped; rewrite decide_False by lia;
    rewrite ins_ne, H1, decide_False by lia; done].
  split.
  - apply bytes_at_app. split.
    + apply bytes_at_lookup. intros i c Hi. pose proof (lookup_lt_Some _ _ _ Hi) as Hl.
      rewrite length_reverse in Hl. rewrite HR by lia. rewrite nth_lookup, Nat2Z.id, Hi. done.
    + simpl. split; [|done]. rewrite length_reverse, H2. unfold swapped.
      rewrite decide_False by lia. apply ins_eq.
  - apply Forall_reverse. eapply Forall_impl; [exact Hdig|]. simpl. lia.
Qed.

(** ** Theorems *)

(** C36: [memmove] copies [n] bytes as if through a buffer, also when the source
    and the destination overlap in either direction, and changes nothing else. *)
Theorem memmove_ok dst src n m x :
  0 <= n ->
  memmove dst src n m x = if decide (dst <= x < dst + n) then m (src + (x - dst)) else m x.
Proof. apply memmove_spec. Qed.

Lemma memmove_ok_witness : memmove 2 0 4 (fun a => a) 5 = 3.
Proof. rewrite memmove_ok by lia. reflexivity. Defined.

(** [memset] stores the low byte of [c] into exactly the [n] bytes, on the
    word-at-a-time path for aligned areas as on the byte path. *)
Theorem memset_ok dst c n m x :
  0 <= n -> memset dst c n m x = if decide (dst <= x < dst + n) then u8 c else m x.
Proof. apply memset_spec. Qed.

Lemma memset_ok_witness : memset 4 (-1) 8 (fun _ => 0) 11 = 255.
Proof. rewrite memset_ok by lia. reflexivity. Defined.

(** The bounded string copies.  From a string [l] not overlapping the
    destination, [strncpy] stores [l] cut at [n] bytes and pads with NULs;
    [safestrcpy] stores the first [n-1] bytes and always a NUL; neither touches
    a byte beyond [n]. *)
Theorem bounded_copies s t n l m :
  0 < n -> cstr m t l -> apart s (Z.to_nat n) t (S (length l)) ->
  (forall x, strncpy s t n m x = if decide (s <= x < s + n) then l.[x - s] else m x) /\
  cstr (safestrcpy s t n m) s (take (Z.to_nat (n - 1)) l) /\
  (forall x, ~ s <= x < s + n -> safestrcpy s t n m x = m x).
Proof.
  intros Hn Hc Ha. split.
  - intros x. unfold strncpy. rewrite (strncpy_loop_spec _ _ _ l) by done. by rewrite Z2Nat.id by lia.
  - unfold safestrcpy. destruct (Z.leb_spec n 0); [lia|].
    replace (Z.to_nat n) with (S (Z.to_nat (n - 1))) in Ha by lia.
    destruct (safestrcpy_loop_spec s t (Z.to_nat (n - 1)) l m Hc Ha) as [H1 H2].
    split; [done|]. intros x Hx. apply H2. lia.
Qed.

Lemma bounded_copies_witness :
  let m := <[100 := 65]> (<[101 := 66]> (fun _ => 0)) in
  strncpy 0 100 4 m 1 = 66 /\ cstr (safestrcpy 0 100 2 m) 0 [65].
Proof.
  intros m. assert (cstr m 100 [65; 66]) as Hc.
  { split; [repeat split|repeat constructor; lia]. }
  split.
  - destruct (bounded_copies 0 100 4 [65; 66] m) as (H & _); [lia|done|left; simpl; lia|].
    rewrite H. reflexivity.
  - destruct (bounded_copies 0 100 2 [65; 66] m) as (_ & H & _); [lia|done|left; simpl; lia|].
    exact H.
Defined.
