(* ===== verification/Ulib.v ===== *)
(** ulib.c and printf.c: the C library of user programs.

    Memory is the address map of CString.v.  [gets] reads the standard input,
    a list of the bytes the [read] calls return one at a time; [printf] appends
    to the bytes written to its descriptor. *)

From stdpp Require Import prelude strings functions gmap list.
From S2P Require Import Prelude Param CString.

Module Ulib.

Fixpoint strcpy (fuel : nat) (s t : Z) (m : mem) : option mem :=
  match fuel with
  | O => None
  | S fuel =>
      let c := m t in
      let m := <[s := c]> m in
      if ctrue c then strcpy fuel (s + 1) (t + 1) m else Some m
  end.

Fixpoint strcmp (fuel : nat) (p q : Z) (m : mem) : option Z :=
  match fuel with
  | O => None
  | S fuel =>
      if (ctrue (m p) && (m p =? m q))%bool then strcmp fuel (p + 1) (q + 1) m
      else Some (m p - m q)
  end.

Definition memset (dst c n : Z) (m : mem) : mem := stosb dst c (Z.to_nat n) m.

(** The address of the character, or a null pointer. *)
Fixpoint strchr (fuel : nat) (s c : Z) (m : mem) : option Z :=
  match fuel with
  | O => None
  | S fuel =>
      if ctrue (m s) then if m s =? u8 c then Some s else strchr fuel (s + 1) c m
      else Some 0
  end.

(** The remaining input, [i] and the memory; [room] is [max - 1 - i]. *)
Fixpoint gets_loop (buf i : Z) (room : nat) (input : list Z) (m : mem) : Z * list Z * mem :=
  match room, input with
  | O, _ | _, [] => (i, input, m)
  | S room, c :: input =>
      let m := <[buf + i := c]> m in
      if ((c =? 10) || (c =? 13))%bool then (i + 1, input, m)
      else gets_loop buf (i + 1) room input m
  end.

Definition gets (buf max : Z) (input : list Z) (m : mem) : list Z * mem :=
  let '(i, input, m) := gets_loop buf 0 (Z.to_nat (max - 1)) input m in
  (input, <[buf + i := 0]> m).

Fixpoint atoi_loop (fuel : nat) (s n : Z) (m : mem) : option Z :=
  match fuel with
  | O => None
  | S fuel =>
      if ((48 <=? s8 (m s)) && (s8 (m s) <=? 57))%bool
      then atoi_loop fuel (s + 1) (s32 (n * 10 + m s - 48)) m
      else Some n
  end.

Definition atoi (fuel : nat) (s : Z) (m : mem) : option Z := atoi_loop fuel s 0 m.

(** Copies upwards whatever the overlap. *)
Definition memmove (dst src n : Z) (m : mem) : mem := copy dst src (Z.to_nat n) m.

(** ** printf.c *)

Definition hexdigits : list Z :=
  [48; 49; 50; 51; 52; 53; 54; 55; 56; 57; 65; 66; 67; 68; 69; 70].

(** The digits of [x] in the order they are stored into [buf]. *)
Fixpoint printint_digits (fuel : nat) (x base : Z) : list Z :=
  match fuel with
  | O => []
  | S fuel =>
      hexdigits.[x mod base] ::
        (if x / base =? 0 then [] else printint_digits fuel (x / base) base)
  end.

(** The bytes written: [buf[i-1] .. buf[0]].  [x] is an [uint]; 32 digits are
    enough for any base from 2 on. *)
Definition printint (xx base : Z) (sgn : bool) : list Z :=
  let neg := (sgn && (xx <? 0))%bool in
  let x := if neg then u32 (- xx) else u32 xx in
  let buf := printint_digits 32 x base in
  reverse (if neg then buf ++ [45] else buf).

(** [%s]: the bytes up to the NUL. *)
Fixpoint puts (fuel : nat) (s : Z) (m : mem) : option (list Z) :=
  match fuel with
  | O => None
  | S fuel => if ctrue (m s) then (fun l => m s :: l) <$> puts fuel (s + 1) m else Some []
  end.

(** "(null)" *)
Definition null_str : list Z := [40; 110; 117; 108; 108; 41].

(** [fmt] without its NUL; [state] is whether a percent sign was read; a
    missing argument reads beyond the frame: [None]. *)
Fixpoint printf_loop (fuel : nat) (fmt args : list Z) (state : bool) (m : mem) : option (list Z) :=
  match fmt with
  | [] => Some []
  | c :: fmt =>
      if negb state then
        if c =? 37 then printf_loop fuel fmt args true m
        else (fun l => c :: l) <$> printf_loop fuel fmt args false m
      else if c =? 100 then
        match args with
        | [] => None
        | a :: args => app (printint (s32 a) 10 true) <$> printf_loop fuel fmt args false m
        end
      else if ((c =? 120) || (c =? 112))%bool then
        match args with
        | [] => None
        | a :: args => app (printint (s32 a) 16 false) <$> printf_loop fuel fmt args false m
        end
      else if c =? 115 then
        match args with
        | [] => None
        | a :: args =>
            s ← (if a =? 0 then Some null_str else puts fuel a m);
            app s <$> printf_loop fuel fmt args false m
        end
      else if c =? 99 then
        match args with
        | [] => None
        | a :: args => (fun l => u8 a :: l) <$> printf_loop fuel fmt args false m
        end
      else if c =? 37 then (fun l => c :: l) <$> printf_loop fuel fmt args false m
      else (fun l => 37 :: c :: l) <$> printf_loop fuel fmt args false m
  end.

Definition printf (fuel : nat) (fmt args : list Z) (m : mem) : option (list Z) :=
  printf_loop fuel fmt args false m.

End Ulib.
Import Ulib.

(** ** Numbers *)

Lemma s8_ascii c : 0 <= c < 128 -> s8 c = c.
Proof. intros. unfold s8. rewrite Z.mod_small; lia. Qed.

Lemma foldl_dec_mono l n :
  0 <= n -> Forall (fun c => 48 <= c <= 57) l -> n <= foldl (fun n c => n * 10 + (c - 48)) n l.
Proof.
  revert n. induction l as [|c l IH]; intros n Hn Hl; simpl; [lia|].
  apply Forall_cons in Hl as [Hc Hl]. etrans; [|apply IH; [lia|done]]. lia.
Qed.

Lemma atoi_loop_spec fuel s n l m :
  0 <= n -> Forall (fun c => 48 <= c <= 57) l -> bytes_at m s (l ++ [0]) ->
  foldl (fun n c => n * 10 + (c - 48)) n l < 2 ^ 31 -> (length l < fuel)%nat ->
  atoi_loop fuel s n m = Some (foldl (fun n c => n * 10 + (c - 48)) n l).
Proof.
  revert fuel s n. induction l as [|c l IH]; intros fuel s n Hn Hl Hb Hlt Hf;
    (destruct fuel as [|fuel]; [simpl in Hf; lia|]); cbn [atoi_loop app bytes_at] in *.
  - destruct Hb as [-> _]. done.
  - destruct Hb as [-> Hb]. apply Forall_cons in Hl as [Hc Hl]. rewrite s8_ascii by lia.
    rewrite (proj2 (Z.leb_le 48 c)), (proj2 (Z.leb_le c 57)) by lia. simpl in *.
    pose proof (foldl_dec_mono l (n * 10 + (c - 48))) as Hm.
    rewrite s32_small by (specialize (Hm ltac:(lia) Hl); lia).
    rewrite IH; [|lia|done|done| |lia]; replace (n * 10 + c - 48) with (n * 10 + (c - 48)) by lia; done.
Qed.

Lemma decimal_digits x :
  0 <= x < 2 ^ 31 -> Forall (fun c => 48 <= c <= 57) (decimal x) /\ dec_value (decimal x) = x.
Proof.
  intros Hx. destruct (dec_rev_value INT_DIGITS x) as [H1 H2].
  { change (10 ^ Z.of_nat INT_DIGITS) with 10000000000. lia. }
  split; [by apply Forall_reverse|done].
Qed.

(** Numbers in text.  The kernel's [itoa] of a non-negative [int] writes its
    decimal representation and a NUL, touches only those bytes, and the
    [atoi] of user programs reads the number back. *)
Theorem itoa_atoi x buf m :
  0 <= x < 2 ^ 31 ->
  exists m', itoa x buf m = Some m' /\ cstr m' buf (decimal x) /\
    (forall y, ~ buf <= y <= buf + Z.of_nat (length (decimal x)) -> m' y = m y) /\
    (length (decimal x) <= 10)%nat /\ atoi (S INT_DIGITS) buf m' = Some x.
Proof.
  intros Hx. destruct (itoa_spec x buf m Hx) as (m' & E & Hc & Hf).
  destruct (decimal_digits x Hx) as [Hd Hv].
  exists m'. split_and!; [done|done|done|apply length_decimal|].
  unfold atoi. destruct Hc as [Hb _]. rewrite <- Hv at 1.
  apply atoi_loop_spec; [lia|done|done|fold (dec_value (decimal x)); lia|].
  pose proof (length_decimal x). lia.
Qed.

Lemma itoa_atoi_witness : exists m', itoa 1075 0 (fun _ => 0) = Some m' /\ atoi 11 0 m' = Some 1075.
Proof.
  destruct (itoa_atoi 1075 0 (fun _ => 0)) as (m' & E & _ & _ & _ & H); [lia|].
  exists m'. split; [exact E|exact H].
Defined.

(** A negative [int] indexes before the array of digits. *)
Lemma itoa_negative x buf m : x < 0 -> Z.rem x 10 <> 0 -> itoa x buf m = None.
Proof.
  intros Hx Hr. unfold itoa, INT_DIGITS. cbn [itoa_digits]. unfold digit.
  assert (Z.rem x 10 < 0) by (pose proof (Z.rem_nonpos x 10); lia).
  destruct (Z.ltb_spec (Z.rem x 10) 0); [done|lia].
Qed.

Lemma printint_digits_dec fuel x :
  0 <= x -> (0 < fuel)%nat -> printint_digits fuel x 10 = dec_rev fuel x.
Proof.
  revert x. induction fuel as [|fuel IH]; intros x Hx Hf; [lia|].
  cbn [printint_digits dec_rev].
  pose proof (Z.mod_pos_bound x 10) as Hr.
  assert (hexdigits.[x mod 10] = 48 + x mod 10) as ->.
  { assert (x mod 10 = 0 \/ x mod 10 = 1 \/ x mod 10 = 2 \/ x mod 10 = 3 \/ x mod 10 = 4 \/
      x mod 10 = 5 \/ x mod 10 = 6 \/ x mod 10 = 7 \/ x mod 10 = 8 \/ x mod 10 = 9) as Hd by lia.
    repeat destruct Hd as [Hd|Hd]; rewrite Hd; done. }
  f_equal. destruct (Z.eqb_spec (x / 10) 0); [done|].
  destruct fuel; [done|]. apply IH; [apply Z.div_pos; lia|lia].
Qed.

Lemma dec_rev_fuel fuel fuel' x :
  0 <= x < 10 ^ Z.of_nat fuel -> (0 < fuel <= fuel')%nat -> dec_rev fuel' x = dec_rev fuel x.
Proof.
  revert fuel' x. induction fuel as [|fuel IH]; intros fuel' x Hx Hf; [lia|].
  destruct fuel' as [|fuel']; [lia|]. cbn [dec_rev]. f_equal.
  destruct (Z.eqb_spec (x / 10) 0) as [|E]; [done|].
  assert (0 <= x / 10 < 10 ^ Z.of_nat fuel).
  { split; [apply Z.div_pos; lia|]. apply Z.div_lt_upper_bound; [lia|].
    rewrite Nat2Z.inj_succ, Z.pow_succ_r in Hx by lia. lia. }
  apply IH; [done|]. destruct fuel; [|lia]. simpl in *. lia.
Qed.

(** [printint] of user programs prints any [int] in decimal, the sign
    first, and fits its buffer of 16 characters. *)
Theorem printint_decimal xx :
  is_s32 xx ->
  printint xx 10 true = (if decide (xx < 0) then 45 :: decimal (- xx) else decimal xx) /\
  dec_value (decimal (Z.abs xx)) = Z.abs xx /\ (length (printint xx 10 true) <= 16)%nat.
Proof.
  intros Hx.
  assert (forall x, 0 <= x < 10 ^ Z.of_nat INT_DIGITS ->
    reverse (printint_digits 32 x 10) = decimal x) as Hd.
  { intros x H. rewrite printint_digits_dec by lia. unfold decimal.
    f_equal. apply dec_rev_fuel; [done|unfold INT_DIGITS; lia]. }
  change (10 ^ Z.of_nat INT_DIGITS) with 10000000000 in Hd.
  assert (printint xx 10 true =
    (if decide (xx < 0) then 45 :: decimal (- xx) else decimal xx)) as E.
  { unfold printint. cbn [andb]. destruct (Z.ltb_spec xx 0) as [Hn|Hn]; case_decide; try lia.
    - rewrite reverse_app, u32_small by lia. change (reverse [45]) with [45]. cbn [app].
      by rewrite Hd by lia.
    - rewrite u32_small by lia. apply Hd. lia. }
  split; [done|]. split.
  - apply dec_rev_value. change (10 ^ Z.of_nat INT_DIGITS) with 10000000000. lia.
  - rewrite E. pose proof (length_decimal (- xx)). pose proof (length_decimal xx).
    unfold INT_DIGITS in *. case_decide; simpl; lia.
Qed.

Lemma printint_decimal_witness : printint (-2147483648) 10 true = 45 :: decimal 2147483648.
Proof. destruct (printint_decimal (-2147483648)) as [H _]; [lia|]. exact H. Defined.
