(* ===== verification/Pipe.v ===== *)
(** pipe.c: the ring buffer of a pipe and its refinement to a bounded queue.

    [nread] and [nwrite] are [uint] counters that wrap around; the buffer index
    is the counter modulo PIPESIZE.  A call that sleeps gives up the lock with
    part of its work done: the outcome says what is left, and the call resumes
    from there when woken. *)

From stdpp Require Import prelude strings gmap list.
From S2P Require Import Prelude Param.

(** ** Definitions *)

Definition PIPESIZE : Z := 512.

Record pipe := Pipe {
  p_data : list Z;
  p_nread : Z;
  p_nwrite : Z;
  p_readopen : Z;
  p_writeopen : Z;
  p_wakeups : list chan
}.

(** A pipe whose page holds the bytes [page]; see [pipealloc]. *)
Definition pipe_init (page : list Z) : pipe := Pipe page 0 0 1 1 [].

Definition p_wakeup (c : chan) (p : pipe) : pipe :=
  Pipe (p_data p) (p_nread p) (p_nwrite p) (p_readopen p) (p_writeopen p) (p_wakeups p ++ [c]).

(** A call returned, or sleeps on a channel with these bytes still to write. *)
Inductive pipe_out :=
| PRet (v : Z)
| PSleep (ch : chan) (rest : list Z).

Section ops.
Context (id : Z).   (* the pipe's address *)

(** The state and whether the page of the pipe is freed. *)
Definition pipeclose (writable : Z) (p : pipe) : pipe * bool :=
  let p :=
    if ctrue writable then
      p_wakeup (ChPipeRead id)
        (Pipe (p_data p) (p_nread p) (p_nwrite p) (p_readopen p) 0 (p_wakeups p))
    else
      p_wakeup (ChPipeWrite id)
        (Pipe (p_data p) (p_nread p) (p_nwrite p) 0 (p_writeopen p) (p_wakeups p)) in
  (p, (p_readopen p =? 0) && (p_writeopen p =? 0))%bool.

Definition full (p : pipe) : bool := p_nwrite p =? u32 (p_nread p + PIPESIZE).

Definition put (c : Z) (p : pipe) : pipe :=
  Pipe (<[Z.to_nat (p_nwrite p mod PIPESIZE) := c]> (p_data p)) (p_nread p) (u32 (p_nwrite p + 1))
    (p_readopen p) (p_writeopen p) (p_wakeups p).

(** The loop of [pipewrite] over the bytes not yet stored; [n] is the total. *)
Fixpoint pipewrite_loop (n : Z) (killed : bool) (rest : list Z) (p : pipe) : pipe_out * pipe :=
  match rest with
  | [] => (PRet n, p_wakeup (ChPipeRead id) p)
  | c :: rest' =>
      if full p then
        if ((p_readopen p =? 0) || killed)%bool then (PRet (-1), p)
        else (PSleep (ChPipeWrite id) rest, p_wakeup (ChPipeRead id) p)
      else pipewrite_loop n killed rest' (put c p)
  end.

Definition pipewrite (killed : bool) (addr : list Z) (p : pipe) : pipe_out * pipe :=
  pipewrite_loop (Z.of_nat (length addr)) killed addr p.

(** The copying loop of [piperead]: at most [n] bytes. *)
Fixpoint piperead_loop (n : nat) (p : pipe) : list Z * pipe :=
  match n with
  | O => ([], p)
  | S n =>
      if p_nread p =? p_nwrite p then ([], p)
      else
        let c := (p_data p).[p_nread p mod PIPESIZE] in
        let '(l, p') := piperead_loop n
          (Pipe (p_data p) (u32 (p_nread p + 1)) (p_nwrite p) (p_readopen p) (p_writeopen p)
             (p_wakeups p)) in
        (c :: l, p')
  end.

(** The outcome, the bytes stored at [addr], and the state. *)
Definition piperead (killed : bool) (n : Z) (p : pipe) : pipe_out * list Z * pipe :=
  if ((p_nread p =? p_nwrite p) && ctrue (p_writeopen p))%bool then
    if killed then (PRet (-1), [], p)
    else (PSleep (ChPipeRead id) [], [], p)
  else
    let '(l, p) := piperead_loop (Z.to_nat n) p in
    (PRet (Z.of_nat (length l)), l, p_wakeup (ChPipeWrite id) p).

End ops.

(** ** The bounded queue *)

Definition used (p : pipe) : Z := u32 (p_nwrite p - p_nread p).

(** The bytes written and not yet read, oldest first. *)
Definition contents (p : pipe) : list Z :=
  (fun j => (p_data p).[u32 (p_nread p + j) mod PIPESIZE]) <$> upto (used p).

Record pipe_inv (p : pipe) : Prop := {
  pi_len : length (p_data p) = Z.to_nat PIPESIZE;
  pi_nread : is_u32 (p_nread p);
  pi_nwrite : is_u32 (p_nwrite p);
  pi_used : used p <= PIPESIZE
}.

Lemma used_range p : 0 <= used p.
Proof. unfold used. pose proof (u32_range (p_nwrite p - p_nread p)). lia. Qed.

Lemma length_contents p : Z.of_nat (length (contents p)) = used p.
Proof.
  unfold contents. rewrite length_fmap, length_upto. pose proof (used_range p). lia.
Qed.

(** The ring is full when it holds PIPESIZE bytes, empty when it holds none. *)
Lemma full_spec p : pipe_inv p -> full p = (used p =? PIPESIZE).
Proof.
  intros I. unfold full. apply eq_true_iff_eq. rewrite !Z.eqb_eq. unfold used. split.
  - intros ->. unfold u32. rewrite Zminus_mod_idemp_l.
    replace (p_nread p + PIPESIZE - p_nread p) with PIPESIZE by lia. done.
  - intros H. apply u32_eq; [apply I|apply u32_range|].
    rewrite u32_sub_r. replace (p_nwrite p - (p_nread p + PIPESIZE))
      with (p_nwrite p - p_nread p - PIPESIZE) by lia.
    unfold u32 in *. rewrite <- Zminus_mod_idemp_l, H. done.
Qed.

Lemma empty_spec p : pipe_inv p -> (p_nread p =? p_nwrite p) = (used p =? 0).
Proof.
  intros I. apply eq_true_iff_eq. rewrite !Z.eqb_eq. unfold used. split.
  - intros ->. by rewrite Z.sub_diag.
  - intros H. symmetry. apply u32_eq; [apply I..|done].
Qed.

Lemma u32_mod_pipe a : u32 a mod PIPESIZE = a mod PIPESIZE.
Proof.
  apply Z.mod_mod_divide. by exists 8388608.
Qed.

Lemma mod_pipe_range a : 0 <= a mod PIPESIZE < PIPESIZE.
Proof. by apply Z.mod_pos_bound. Qed.

Lemma mod_pipe_ne a i j : 0 <= i < j -> j - i < PIPESIZE -> (a + i) mod PIPESIZE <> (a + j) mod PIPESIZE.
Proof.
  intros Hij Hd H.
  assert ((a + j - (a + i)) mod PIPESIZE = 0) as E by (by rewrite Zminus_mod, H, Z.sub_diag).
  replace (a + j - (a + i)) with (j - i) in E by lia. rewrite Z.mod_small in E; lia.
Qed.

Lemma nwrite_used p : pipe_inv p -> p_nwrite p = u32 (p_nread p + used p).
Proof.
  intros I. unfold used. rewrite Z.add_comm, u32_add_l.
  replace (p_nwrite p - p_nread p + p_nread p) with (p_nwrite p) by lia.
  by rewrite u32_small by apply I.
Qed.

Lemma put_used c p : pipe_inv p -> used p < PIPESIZE -> used (put c p) = used p + 1.
Proof.
  intros I Hu. pose proof (used_range p). unfold used in *. simpl.
  unfold u32 in *. rewrite Zminus_mod_idemp_l.
  replace (p_nwrite p + 1 - p_nread p) with (p_nwrite p - p_nread p + 1) by lia.
  rewrite <- Zplus_mod_idemp_l. unfold PIPESIZE in *. rewrite Z.mod_small; lia.
Qed.

Lemma put_inv c p : pipe_inv p -> used p < PIPESIZE -> pipe_inv (put c p).
Proof.
  intros I Hu. split; simpl.
  - rewrite length_insert. apply I.
  - apply I.
  - apply u32_range.
  - rewrite put_used by done. lia.
Qed.

(** Storing a byte appends it to the queue. *)
Lemma put_contents c p :
  pipe_inv p -> used p < PIPESIZE -> contents (put c p) = contents p ++ [c].
Proof.
  intros I Hu. pose proof (used_range p) as H0. unfold contents. rewrite put_used by done.
  replace (used p + 1) with (Z.of_nat (S (Z.to_nat (used p)))) by lia.
  rewrite upto_S, fmap_app. rewrite !Z2Nat.id by done. simpl.
  pose proof (mod_pipe_range (p_nwrite p)) as Hr. pose proof (pi_len _ I) as Hl.
  f_equal.
  - apply list_fmap_ext. intros i j Hj. apply lookup_upto in Hj as [-> Hj].
    rewrite !nth_lookup, list_lookup_insert_ne; [done|].
    pose proof (mod_pipe_range (u32 (p_nread p + Z.of_nat i))) as Hr2.
    intros E. apply Z2Nat.inj in E; [|lia..].
    rewrite (nwrite_used p I), !u32_mod_pipe in E. symmetry in E.
    revert E. apply mod_pipe_ne; lia.
  - f_equal. rewrite nth_lookup, <- (nwrite_used p I), list_lookup_insert_eq; [done|].
    rewrite Hl. lia.
Qed.

Definition take1 (p : pipe) : pipe :=
  Pipe (p_data p) (u32 (p_nread p + 1)) (p_nwrite p) (p_readopen p) (p_writeopen p) (p_wakeups p).

Lemma take1_used p : pipe_inv p -> 0 < used p -> used (take1 p) = used p - 1.
Proof.
  intros I Hu. pose proof (pi_used p I). unfold used in *. simpl. rewrite u32_sub_r.
  replace (p_nwrite p - (p_nread p + 1)) with (p_nwrite p - p_nread p - 1) by lia.
  unfold u32 in *. rewrite <- Zminus_mod_idemp_l. unfold PIPESIZE in *. rewrite Z.mod_small; lia.
Qed.

Lemma take1_inv p : pipe_inv p -> 0 < used p -> pipe_inv (take1 p).
Proof.
  intros I Hu. pose proof (pi_used p I). split; try apply I; [apply u32_range|].
  rewrite take1_used by done. lia.
Qed.

(** Fetching a byte removes the oldest. *)
Lemma take1_contents p :
  pipe_inv p -> 0 < used p ->
  contents p = (p_data p).[p_nread p mod PIPESIZE] :: contents (take1 p).
Proof.
  intros I Hu. unfold contents. rewrite take1_used by done.
  unfold upto. replace (Z.to_nat (used p)) with (S (Z.to_nat (used p - 1))) by lia.
  rewrite <- cons_seq, fmap_cons. cbn [fmap list_fmap]. f_equal.
  - rewrite Z.add_0_r, u32_small by apply I. done.
  - rewrite <- fmap_S_seq, <- !list_fmap_compose. apply list_fmap_ext. intros i j _. simpl.
    rewrite u32_add_l. do 4 f_equal. lia.
Qed.

(** ** The operations on the queue *)

Definition room (p : pipe) : nat := Z.to_nat (PIPESIZE - used p).

(** Appending several bytes. *)
Definition puts (l : list Z) (p : pipe) : pipe := foldl (fun p c => put c p) p l.

Lemma puts_spec l p :
  pipe_inv p -> (length l <= room p)%nat ->
  pipe_inv (puts l p) /\ contents (puts l p) = contents p ++ l /\
  p_readopen (puts l p) = p_readopen p /\ p_writeopen (puts l p) = p_writeopen p /\
  p_wakeups (puts l p) = p_wakeups p /\ room (puts l p) = (room p - length l)%nat.
Proof.
  revert p. induction l as [|c l IH]; intros p I Hl; simpl in *.
  - rewrite app_nil_r. split_and!; try done. lia.
  - unfold room in *. pose proof (used_range p).
    destruct (IH (put c p)) as (I' & C & R & W & K & Ro).
    + apply put_inv; [done|lia].
    + rewrite put_used by (done || lia). lia.
    + rewrite put_contents in C by (done || lia). rewrite <- app_assoc in C.
      split_and!; try done. rewrite Ro, put_used by (done || lia). lia.
Qed.

Lemma pipewrite_loop_spec id n killed l p :
  pipe_inv p ->
  let k := Nat.min (length l) (room p) in
  let p' := puts (take k l) p in
  pipewrite_loop id n killed l p =
    if decide (length l <= room p)%nat then (PRet n, p_wakeup (ChPipeRead id) p')
    else if ((p_readopen p =? 0) || killed)%bool then (PRet (-1), p')
    else (PSleep (ChPipeWrite id) (drop k l), p_wakeup (ChPipeRead id) p').
Proof.
  revert p. induction l as [|c l IH]; intros p I; cbn [pipewrite_loop length].
  - rewrite decide_True by lia. done.
  - rewrite full_spec by done. unfold room in *. pose proof (used_range p). pose proof (pi_used p I).
    destruct (Z.eqb_spec (used p) PIPESIZE) as [E|E].
    + replace (Z.to_nat (PIPESIZE - used p)) with 0%nat by lia.
      rewrite decide_False by lia. simpl. done.
    + rewrite IH by (apply put_inv; (done || lia)). rewrite put_used by (done || lia).
      replace (Z.to_nat (PIPESIZE - used p)) with (S (Z.to_nat (PIPESIZE - (used p + 1)))) by lia.
      simpl. repeat case_decide; try lia; done.
Qed.

Lemma piperead_loop_spec n p :
  pipe_inv p ->
  let '(l, p') := piperead_loop n p in
  l = take n (contents p) /\ contents p' = drop n (contents p) /\ pipe_inv p' /\
  p_readopen p' = p_readopen p /\ p_writeopen p' = p_writeopen p /\ p_wakeups p' = p_wakeups p.
Proof.
  revert p. induction n as [|n IH]; intros p I; cbn [piperead_loop]; [done|].
  rewrite empty_spec by done. destruct (Z.eqb_spec (used p) 0) as [E|E].
  - assert (contents p = []) as ->.
    { apply length_zero_iff_nil. pose proof (length_contents p). lia. }
    done.
  - pose proof (used_range p). fold (take1 p).
    specialize (IH (take1 p)). destruct (piperead_loop n (take1 p)) as [l p'].
    rewrite (take1_contents p) by (done || lia). simpl.
    destruct IH as (-> & C & I' & R & W & K); [apply take1_inv; (done || lia)|]. done.
Qed.

Lemma puts_nwrite l p :
  is_u32 (p_nwrite p) -> p_nwrite (puts l p) = u32 (p_nwrite p + Z.of_nat (length l)).
Proof.
  revert p. induction l as [|c l IH]; intros p Hp; cbn [puts foldl].
  - rewrite Z.add_0_r. by rewrite u32_small.
  - change (foldl _ _ l) with (puts l (put c p)). rewrite IH by apply u32_range. simpl.
    rewrite u32_add_l. f_equal. lia.
Qed.

(** ** Processes sharing a pipe *)

(** The pipe, and the bytes written to it and read from it so far. *)
Record pipe_sys := PSys { sys_pipe : pipe; sys_in : list Z; sys_out : list Z }.

(** How many of the bytes a call stored. *)
Definition stored (p p' : pipe) : nat := Z.to_nat (u32 (p_nwrite p' - p_nwrite p)).

(** Any process enters or resumes a call, or closes an end; the pipe's lock
    makes each of these one step. *)
Inductive pipe_step (id : Z) : pipe_sys -> pipe_sys -> Prop :=
| step_write n killed rest out p p' i o :
    pipewrite_loop id n killed rest p = (out, p') ->
    pipe_step id (PSys p i o) (PSys p' (i ++ take (stored p p') rest) o)
| step_read killed n out l p p' i o :
    piperead id killed n p = (out, l, p') ->
    pipe_step id (PSys p i o) (PSys p' i (o ++ l))
| step_close w p p' freed i o :
    pipeclose id w p = (p', freed) ->
    pipe_step id (PSys p i o) (PSys p' i o).

Definition sys_inv (s : pipe_sys) : Prop :=
  pipe_inv (sys_pipe s) /\ sys_in s = sys_out s ++ contents (sys_pipe s).

Lemma wakeup_inv c p : pipe_inv p -> pipe_inv (p_wakeup c p).
Proof. intros I. split; apply I. Qed.

Lemma pipewrite_effect id n killed rest p out p' :
  pipe_inv p -> pipewrite_loop id n killed rest p = (out, p') ->
  pipe_inv p' /\ contents p' = contents p ++ take (stored p p') rest.
Proof.
  intros I E. rewrite pipewrite_loop_spec in E by done. cbv zeta in E.
  set (l := take _ rest) in E.
  assert (length l = Nat.min (length rest) (room p)) as Hl
    by (unfold l; rewrite length_take; lia).
  destruct (puts_spec l p I) as (I' & C & _); [lia|].
  assert (p_nwrite p' = p_nwrite (puts l p) /\ contents p' = contents (puts l p) /\ pipe_inv p')
    as (En & Ec & Ip).
  { repeat case_match; injection E as <- <-; auto using wakeup_inv. }
  split; [done|]. rewrite Ec, C. f_equal. unfold stored. rewrite En, puts_nwrite by apply I.
  unfold u32. rewrite Zminus_mod_idemp_l.
  replace (p_nwrite p + Z.of_nat (length l) - p_nwrite p) with (Z.of_nat (length l)) by lia.
  rewrite Z.mod_small, Nat2Z.id.
  - rewrite Hl. unfold l. done.
  - unfold room in Hl. pose proof (used_range p). unfold PIPESIZE in *. lia.
Qed.

Lemma piperead_effect id killed n p out l p' :
  pipe_inv p -> piperead id killed n p = (out, l, p') -> pipe_inv p' /\ contents p = l ++ contents p'.
Proof.
  intros I E. unfold piperead in E. destruct (_ && _)%bool.
  - destruct killed; injection E as <- <- <-; done.
  - pose proof (piperead_loop_spec (Z.to_nat n) p I) as H.
    destruct (piperead_loop _ p) as [l0 p0]. injection E as <- <- <-.
    destruct H as (-> & C & I' & _). split; [by apply wakeup_inv|].
    change (contents (p_wakeup _ p0)) with (contents p0). rewrite C. by rewrite take_drop.
Qed.

Lemma pipe_step_inv id s s' : pipe_step id s s' -> sys_inv s -> sys_inv s'.
Proof.
  intros H [I E]. destruct H as [n killed rest out p p' i o H|killed n out l p p' i o H|w p p' freed i o H];
    simpl in *; unfold sys_inv; simpl.
  - destruct (pipewrite_effect id n killed rest p out p' I H) as [I' ->].
    split; [done|]. rewrite E. by rewrite app_assoc.
  - destruct (piperead_effect id killed n p out l p' I H) as [I' C].
    split; [done|]. rewrite E, C. by rewrite app_assoc.
  - unfold pipeclose in H. destruct (ctrue w); injection H as <- <-; (split; [split; apply I|done]).
Qed.

Lemma pipe_init_inv page : length page = 512%nat -> sys_inv (PSys (pipe_init page) [] []).
Proof. intros Hl. split; [split; done|done]. Qed.

(** ** Theorems *)

(** C23: a pipe is a bounded queue.  [pipewrite] appends as many bytes as fit in
    PIPESIZE and returns, fails (reader gone or process killed) or sleeps with
    the rest; [piperead] of an empty pipe with a writer sleeps or fails, and
    otherwise removes the oldest bytes.  The wrap-around of the counters at
    2^32 and of the index at PIPESIZE is invisible. *)
Theorem pipe_queue id p :
  pipe_inv p ->
  (forall killed addr,
    let k := Nat.min (length addr) (Z.to_nat PIPESIZE - length (contents p)) in
    exists out p', pipewrite id killed addr p = (out, p') /\ pipe_inv p' /\
      contents p' = contents p ++ take k addr /\
      out = (if decide (length addr <= k)%nat then PRet (Z.of_nat (length addr))
             else if ((p_readopen p =? 0) || killed)%bool then PRet (-1)
             else PSleep (ChPipeWrite id) (drop k addr))) /\
  (forall killed n, exists out l p', piperead id killed n p = (out, l, p') /\ pipe_inv p' /\
    if (bool_decide (contents p = []) && ctrue (p_writeopen p))%bool
    then l = [] /\ p' = p /\ out = (if killed then PRet (-1) else PSleep (ChPipeRead id) [])
    else l = take (Z.to_nat n) (contents p) /\ contents p' = drop (Z.to_nat n) (contents p) /\
         out = PRet (Z.of_nat (length l))).
Proof.
  intros I. pose proof (length_contents p) as Hc. pose proof (used_range p). split.
  - intros killed addr k. unfold pipewrite. rewrite pipewrite_loop_spec by done. cbv zeta.
    assert (room p = Z.to_nat PIPESIZE - length (contents p))%nat as Hr by (unfold room; lia).
    rewrite Hr. fold k.
    destruct (puts_spec (take k addr) p I) as (I' & C & _); [rewrite length_take; lia|].
    repeat case_decide; try lia; [|destruct (_ || _)%bool];
      eexists _, _; (split; [reflexivity|]); auto using wakeup_inv.
  - intros killed n. unfold piperead. rewrite empty_spec by done.
    assert ((used p =? 0) = bool_decide (contents p = [])) as ->.
    { apply eq_true_iff_eq. rewrite Z.eqb_eq, bool_decide_eq_true, <- length_zero_iff_nil. lia. }
    destruct (_ && _)%bool.
    + destruct killed; eexists _, _, _; (split; [reflexivity|]); auto.
    + pose proof (piperead_loop_spec (Z.to_nat n) p I) as H'.
      destruct (piperead_loop _ p) as [l p']. destruct H' as (-> & C & I' & _).
      eexists _, _, _. split; [reflexivity|]. auto using wakeup_inv.
Qed.

Definition example_pipe : pipe := Pipe (replicate 512 7) 4294967295 1 1 1 [].

Lemma pipe_queue_witness :
  pipe_inv example_pipe /\ contents example_pipe = [7; 7] /\
  exists out p', pipewrite 0 false [8] example_pipe = (out, p') /\ contents p' = [7; 7; 8].
Proof.
  assert (pipe_inv example_pipe) as I by (split; done || (simpl; lia)).
  split; [exact I|]. split; [reflexivity|].
  destruct (pipe_queue 0 example_pipe I) as [Hw _].
  destruct (Hw false [8]) as (out & p' & E & _ & C & _).
  exists out, p'. split; [exact E|]. rewrite C. reflexivity.
Defined.

(** C24: no byte is lost, duplicated or reordered.  However any number of
    processes interleave their writes, reads, resumptions after sleeping and
    closes, the bytes read followed by those still in the pipe are exactly the
    bytes written, in order. *)
Theorem pipe_fifo id page s :
  length page = 512%nat -> rtc (pipe_step id) (PSys (pipe_init page) [] []) s ->
  sys_in s = sys_out s ++ contents (sys_pipe s).
Proof.
  intros Hl Hs. apply pipe_init_inv in Hl. revert Hl.
  induction Hs as [s|s1 s2 s3 H _ IH]; intros I; [apply I|].
  apply IH. by eapply pipe_step_inv.
Qed.

Lemma pipe_fifo_witness :
  let p := snd (pipewrite_loop 0 3 false [1; 2; 3] (pipe_init (replicate 512 0))) in
  [1; 2; 3] = [] ++ contents p.
Proof.
  intros p. apply (pipe_fifo 0 (replicate 512 0) (PSys p [1; 2; 3] [])); [reflexivity|].
  apply rtc_once. apply (step_write 0 3 false [1; 2; 3] (PRet 3) (pipe_init (replicate 512 0)) p [] []).
  reflexivity.
Defined.

(** A killed writer can leave readers asleep.  A process that is killed
    while its write fills the pipe stores bytes and returns -1 without waking
    the readers, although the pipe they wait on is no longer empty. *)
Theorem pipewrite_killed_silent id p addr :
  pipe_inv p -> contents p = [] -> (Z.to_nat PIPESIZE < length addr)%nat ->
  exists p', pipewrite id true addr p = (PRet (-1), p') /\
    contents p' = take (Z.to_nat PIPESIZE) addr /\ p_wakeups p' = p_wakeups p.
Proof.
  intros I Hc Hl. pose proof (length_contents p) as Hlc. rewrite Hc in Hlc. simpl in Hlc.
  unfold pipewrite. rewrite pipewrite_loop_spec by done. cbv zeta.
  assert (room p = Z.to_nat PIPESIZE) as -> by (unfold room; lia).
  rewrite decide_False, orb_true_r, Nat.min_r by lia.
  destruct (puts_spec (take (Z.to_nat PIPESIZE) addr) p I) as (_ & C & _ & _ & W & _).
  { rewrite length_take. unfold room. lia. }
  eexists. split; [reflexivity|]. rewrite C, W, Hc. done.
Qed.

Lemma pipewrite_killed_silent_witness :
  exists p', pipewrite 0 true (replicate 513 1) (pipe_init (replicate 512 0)) = (PRet (-1), p') /\
    contents p' = replicate 512 1 /\ p_wakeups p' = [].
Proof.
  destruct (pipewrite_killed_silent 0 (pipe_init (replicate 512 0)) (replicate 513 1))
    as (p' & E & C & W); [|reflexivity|rewrite length_replicate; unfold PIPESIZE; lia|].
  - split; done || (simpl; lia).
  - exists p'. split; [exact E|]. split; [rewrite C; reflexivity|exact W].
Defined.
