(* ===== verification/Kalloc.v ===== *)
(** kalloc.c: the allocator of physical pages.

    The free list runs through the first word of every free page, in the memory
    the pages themselves occupy.  The spin lock makes each call one step. *)

From stdpp Require Import prelude strings functions gmap list.
From S2P Require Import Prelude Param CString.

(** ** Definitions *)

(** mmu.h, memlayout.h *)
Definition PGSIZE : Z := 4096.
Definition KERNBASE : Z := 2147483648.
Definition PHYSTOP : Z := 234881024.
Definition PGROUNDUP (sz : Z) : Z := u32 (sz + PGSIZE - 1) .& Z.lnot (PGSIZE - 1).
Definition PGROUNDDOWN (a : Z) : Z := a .& Z.lnot (PGSIZE - 1).
Definition v2p (v : Z) : Z := u32 (v - KERNBASE).
Definition p2v (p : Z) : Z := u32 (p + KERNBASE).

Definition load_long (addr : Z) (m : mem) : Z :=
  m addr + m (addr + 1) * 256 + m (addr + 2) * 65536 + m (addr + 3) * 16777216.

Record kmem := KMem {
  use_lock : Z;
  freelist : Z;
  pages : mem
}.

Section ops.
Context (end_ : Z).   (* first address after the kernel, set by the linker *)

Definition kfree (v : Z) : M kmem unit :=
  if (ctrue (v mod PGSIZE) || (v <? end_) || (PHYSTOP <=? v2p v))%bool then panic "kfree"
  else
    modify (fun k => KMem (use_lock k) (freelist k) (memset v 1 PGSIZE (pages k)));;
    modify (fun k => KMem (use_lock k) (freelist k) (store_long v (freelist k) (pages k)));;
    modify (fun k => KMem (use_lock k) v (pages k)).

Definition kalloc : M kmem Z :=
  r ← gets freelist;
  when (ctrue r) (modify (fun k => KMem (use_lock k) (load_long r (pages k)) (pages k)));;
  mret r.

(** [for(; p + PGSIZE <= vend; p += PGSIZE) kfree(p)] *)
Fixpoint freerange_loop (fuel : nat) (p vend : Z) : M kmem unit :=
  if p + PGSIZE <=? vend then
    match fuel with
    | O => fault "freerange"
    | S fuel => kfree p;; freerange_loop fuel (p + PGSIZE) vend
    end
  else mret tt.

Definition freerange (vstart vend : Z) : M kmem unit :=
  let p := PGROUNDUP vstart in
  freerange_loop (Z.to_nat ((vend - p) / PGSIZE)) p vend.

Definition kinit1 (vstart vend : Z) : M kmem unit :=
  modify (fun k => KMem 0 (freelist k) (pages k));;
  freerange vstart vend.

Definition kinit2 (vstart vend : Z) : M kmem unit :=
  freerange vstart vend;;
  modify (fun k => KMem 1 (freelist k) (pages k)).

End ops.

(** ** The free list *)

(** A page [kfree] accepts. *)
Record page_ok (end_ v : Z) : Prop := {
  pg_aligned : v mod PGSIZE = 0;
  pg_end : end_ <= v;
  pg_top : KERNBASE <= v < KERNBASE + PHYSTOP
}.

(** Following the first words from [p] visits the pages [l]. *)
Fixpoint free_list (m : mem) (p : Z) (l : list Z) : Prop :=
  match l with
  | [] => p = 0
  | v :: l => p = v /\ free_list m (load_long v m) l
  end.

(** The allocator holds exactly the pages [l], each once. *)
Record kmem_rep (end_ : Z) (k : kmem) (l : list Z) : Prop := {
  km_list : free_list (pages k) (freelist k) l;
  km_pages : Forall (page_ok end_) l;
  km_nodup : NoDup l
}.

Lemma page_round_down a : a .& Z.lnot (PGSIZE - 1) = a / PGSIZE * PGSIZE.
Proof.
  change (PGSIZE - 1) with (Z.ones 12). change PGSIZE with (2 ^ 12).
  rewrite <- Z.ldiff_land, Z.ldiff_ones_r, Z.shiftl_mul_pow2, Z.shiftr_div_pow2 by lia. done.
Qed.

Lemma PGROUNDUP_spec sz :
  0 <= sz -> sz + PGSIZE - 1 < 2 ^ 32 ->
  PGROUNDUP sz = (sz + PGSIZE - 1) / PGSIZE * PGSIZE.
Proof. intros. unfold PGROUNDUP. by rewrite page_round_down, u32_small by (unfold PGSIZE in *; lia). Qed.

Lemma store_long_ne a w m x : ~ a <= x < a + 4 -> store_long a w m x = m x.
Proof. intros Hx. unfold store_long. by rewrite !ins_ne by lia. Qed.

Lemma load_store_long a w m : is_u32 w -> load_long a (store_long a w m) = w.
Proof.
  intros Hw. unfold load_long, store_long. mem_solve.
  unfold u8. rewrite !Z.shiftr_div_pow2 by lia.
  change (2 ^ 24) with 16777216. change (2 ^ 16) with 65536. change (2 ^ 8) with 256.
  pose proof (Z.div_mod w 256) as H1. pose proof (Z.div_mod (w / 256) 256) as H2.
  pose proof (Z.div_mod (w / 256 / 256) 256) as H3.
  rewrite !Z.div_div in * by lia. change (256 * 256) with 65536 in *.
  change (65536 * 256) with 16777216 in *. change (256 * 65536) with 16777216 in *.
  rewrite (Z.mod_small (w / 16777216) 256); [lia|].
  split; [apply Z.div_pos; lia|]. apply Z.div_lt_upper_bound; lia.
Qed.

Lemma load_long_ext a m m' : (forall x, a <= x < a + 4 -> m x = m' x) -> load_long a m = load_long a m'.
Proof. intros H. unfold load_long. by rewrite !H by lia. Qed.

Lemma free_list_ext m m' p l :
  (forall v x, v ∈ l -> v <= x < v + 4 -> m x = m' x) -> free_list m p l -> free_list m' p l.
Proof.
  revert p. induction l as [|v l IH]; intros p H; simpl; [done|]. intros [-> Hl].
  split; [done|]. rewrite <- (load_long_ext v m m') by (intros; apply (H v); [left|done]).
  apply IH; [|done]. intros w x Hw. apply H. by right.
Qed.

Lemma pages_apart end_ v w :
  page_ok end_ v -> page_ok end_ w -> v <> w -> v + PGSIZE <= w \/ w + PGSIZE <= v.
Proof.
  intros [Av _ _] [Aw _ _] Hne. apply Z.mod_divide in Av, Aw; try done.
  destruct Av as [i ->], Aw as [j ->]. unfold PGSIZE in *. lia.
Qed.

Section allocator.
Context (end_ : Z).

Lemma page_ok_range v : page_ok end_ v -> is_u32 v /\ v2p v < PHYSTOP /\ v <> 0.
Proof.
  intros [_ _ Ht]. unfold v2p, KERNBASE, PHYSTOP in *. rewrite u32_small by lia. lia.
Qed.

Lemma freelist_range k l : kmem_rep end_ k l -> is_u32 (freelist k).
Proof.
  intros [Hl Hp _]. destruct l as [|v l]; simpl in Hl; [lia|].
  destruct Hl as [-> _]. apply Forall_cons in Hp as [Hp _]. by apply page_ok_range.
Qed.

Lemma kfree_spec v k l :
  kmem_rep end_ k l -> page_ok end_ v -> v ∉ l ->
  exists k', kfree end_ v k = Ok tt k' /\ kmem_rep end_ k' (v :: l) /\ use_lock k' = use_lock k /\
    (forall x, ~ v <= x < v + PGSIZE -> pages k' x = pages k x) /\
    (forall x, v + 4 <= x < v + PGSIZE -> pages k' x = 1).
Proof.
  intros R Hp Hv. destruct (page_ok_range v Hp) as (Hv32 & Hv2p & _).
  pose proof (freelist_range k l R) as Hf. destruct R as [Hl Hps Hnd].
  unfold kfree. pose proof (pg_aligned _ _ Hp) as ->. pose proof (pg_end _ _ Hp).
  rewrite (proj2 (Z.ltb_ge v end_)), (proj2 (Z.leb_gt PHYSTOP (v2p v))) by lia.
  set (m' := store_long v (freelist k) (memset v 1 PGSIZE (pages k))).
  assert (forall x, ~ v <= x < v + PGSIZE -> m' x = pages k x) as Hout.
  { intros x Hx. unfold m'. rewrite store_long_ne by (unfold PGSIZE in *; lia).
    rewrite memset_spec by done. by rewrite decide_False. }
  exists (KMem (use_lock k) v m'). split; [reflexivity|]. split_and!; simpl; [|done|done|].
  - split; simpl; [|by apply Forall_cons|by apply NoDup_cons]. split; [done|].
    unfold m'. rewrite load_store_long by done. fold m'.
    eapply free_list_ext; [|exact Hl]. intros w x Hw Hx. symmetry. apply Hout.
    rewrite Forall_forall in Hps.
    destruct (pages_apart end_ v w) as [|]; [done|auto|congruence|..]; unfold PGSIZE in *; lia.
  - intros x Hx. unfold m'. rewrite store_long_ne by lia.
    rewrite memset_spec by done. by rewrite decide_True by lia.
Qed.

Lemma kalloc_spec k l :
  kmem_rep end_ k l ->
  kalloc k = match l with
             | [] => Ok 0 k
             | v :: l => Ok v (KMem (use_lock k) (load_long v (pages k)) (pages k))
             end /\
  match l with
  | [] => True
  | v :: l => v <> 0 /\ (v ∉ l) /\
      kmem_rep end_ (KMem (use_lock k) (load_long v (pages k)) (pages k)) l
  end.
Proof.
  intros R. pose proof R as [Hl Hps Hnd]. unfold kalloc. destruct l as [|v l].
  - simpl in Hl. unfold gets, mbind, M_bind. rewrite Hl. done.
  - simpl in Hl. destruct Hl as [E Hl]. apply Forall_cons in Hps as [Hv Hps].
    apply NoDup_cons in Hnd as [Hn Hnd]. destruct (page_ok_range v Hv) as (_ & _ & H0).
    split; [|split_and!; done].
    unfold gets, mbind, M_bind. rewrite E. unfold ctrue.
    by rewrite (proj2 (Z.eqb_neq v 0) H0).
Qed.

Definition page_seq (p : Z) (n : nat) : list Z := (fun i => p + Z.of_nat i * PGSIZE) <$> seq 0 n.

Lemma page_seq_S p n : page_seq p (S n) = p :: page_seq (p + PGSIZE) n.
Proof.
  unfold page_seq. rewrite <- cons_seq, fmap_cons. f_equal; [lia|].
  rewrite <- fmap_S_seq, <- list_fmap_compose. apply list_fmap_ext. intros i j _. simpl. lia.
Qed.

Lemma freerange_loop_spec n p vend k l :
  kmem_rep end_ k l -> p + Z.of_nat n * PGSIZE <= vend < p + Z.of_nat n * PGSIZE + PGSIZE ->
  Forall (page_ok end_) (page_seq p n) -> (forall v, v ∈ page_seq p n -> v ∉ l) ->
  exists k', freerange_loop end_ n p vend k = Ok tt k' /\
    kmem_rep end_ k' (reverse (page_seq p n) ++ l) /\ use_lock k' = use_lock k.
Proof.
  revert p k l. induction n as [|n IH]; intros p k l R Hv Hps Hd; cbn [freerange_loop].
  - destruct (Z.leb_spec (p + PGSIZE) vend); [lia|]. exists k. done.
  - destruct (Z.leb_spec (p + PGSIZE) vend); [|unfold PGSIZE in *; lia].
    rewrite page_seq_S in *. apply Forall_cons in Hps as [Hp Hps].
    destruct (kfree_spec p k l R Hp) as (k1 & E1 & R1 & U1 & _); [apply Hd; left|].
    rewrite (bind_run _ _ _ _ _ E1).
    destruct (IH (p + PGSIZE) k1 (p :: l) R1) as (k2 & E2 & R2 & U2); [lia|done| |].
    + intros v Hv'. apply not_elem_of_cons. split.
      * intros ->. unfold page_seq in Hv'. apply list_elem_of_fmap in Hv' as (i & Hi & _).
        unfold PGSIZE in *. lia.
      * apply Hd. by right.
    + exists k2. rewrite reverse_cons, <- app_assoc. split_and!; [done|done|congruence].
Qed.

End allocator.

(** ** Owners of pages *)

(** The allocator, and the pages handed out and not yet freed. *)
Abbreviation owners := (kmem * list Z)%type.

(** A client allocates, frees a page it holds, or stores into one. *)
Inductive own_step (end_ : Z) : owners -> owners -> Prop :=
| own_alloc k k' v A : kalloc k = Ok v k' -> v <> 0 -> own_step end_ (k, A) (k', v :: A)
| own_free k k' v A1 A2 :
    kfree end_ v k = Ok tt k' -> own_step end_ (k, A1 ++ v :: A2) (k', A1 ++ A2)
| own_store k v x c A :
    v ∈ A -> v <= x < v + PGSIZE ->
    own_step end_ (k, A) (KMem (use_lock k) (freelist k) (<[x := c]> (pages k)), A).

Definition own_inv (end_ : Z) (l0 : list Z) (s : owners) : Prop :=
  exists l, kmem_rep end_ s.1 l /\ s.2 ++ l ≡ₚ l0 /\ NoDup l0 /\ Forall (page_ok end_) l0.

Lemma own_step_inv end_ l0 s s' : own_step end_ s s' -> own_inv end_ l0 s -> own_inv end_ l0 s'.
Proof.
  intros H (l & R & Hp & Hnd & Hok). destruct H as [k k' v A E H0|k k' v A1 A2 E|k v x c A Hv Hx];
    simpl in *.
  - destruct (kalloc_spec end_ k l R) as [E' Hl]. rewrite E' in E.
    destruct l as [|w l]; injection E as <- <-; [done|]. destruct Hl as (_ & _ & R').
    exists l. split; [done|]. split; [|done]. rewrite <- Hp. simpl. by rewrite Permutation_middle.
  - assert (page_ok end_ v) as Hv.
    { rewrite Forall_forall in Hok. apply Hok. rewrite <- Hp. set_solver. }
    assert (v ∉ l) as Hn.
    { rewrite <- Hp in Hnd. rewrite <- app_assoc in Hnd. apply NoDup_app in Hnd as (_ & _ & Hnd).
      apply NoDup_cons in Hnd as [Hnd _]. set_solver. }
    destruct (kfree_spec end_ v k l R Hv Hn) as (k1 & E1 & R1 & _).
    rewrite E1 in E. injection E as <-. exists (v :: l). split; [done|]. split; [|done].
    rewrite <- Hp. simpl. rewrite <- !app_assoc. apply Permutation_app_head. symmetry.
    apply Permutation_middle.
  - exists l. split; [|done]. destruct R as [Hl Hps Hn]. split; [|done|done]. simpl.
    eapply free_list_ext; [|exact Hl]. intros w y Hw Hy. symmetry. apply ins_ne. intros ->.
    rewrite <- Hp in Hnd, Hok. apply NoDup_app in Hnd as (_ & Hd & _).
    rewrite Forall_forall in Hok.
    destruct (pages_apart end_ v w) as [|]; [apply Hok; set_solver..| | |];
      [intros ->; by apply (Hd w)|..]; unfold PGSIZE in *; lia.
Qed.

(** C16: pages have one owner.  Starting from a free list of the pages [l0],
    whatever clients allocate, free of their own pages and store into them,
    [kalloc] returns a page of [l0] nobody holds, or 0 only when all are held;
    and freeing a held page never panics. *)
Theorem kalloc_exclusive end_ k0 l0 k A :
  kmem_rep end_ k0 l0 -> rtc (own_step end_) (k0, []) (k, A) ->
  (exists v k', kalloc k = Ok v k' /\
    ((v ∈ l0 /\ v ∉ A) \/ (v = 0 /\ forall w, w ∈ l0 -> w ∈ A))) /\
  (forall v, v ∈ A -> exists k', kfree end_ v k = Ok tt k').
Proof.
  intros R Hs.
  assert (own_inv end_ l0 (k, A)) as (l & Rk & Hp & Hnd & Hok).
  { assert (own_inv end_ l0 (k0, [])) as I by (exists l0; split_and!; try apply R; done).
    revert I. induction Hs as [|x y z Hxy _ IH]; [done|]. intros I. apply IH.
    by eapply own_step_inv. }
  simpl in *. split.
  - destruct (kalloc_spec end_ k l Rk) as [E Hl]. destruct l as [|v l]; eexists _, _; (split; [exact E|]).
    + right. split; [done|]. intros w Hw. rewrite <- Hp, app_nil_r in Hw. done.
    + left. rewrite <- Hp in Hnd. apply NoDup_app in Hnd as (_ & Hd & _).
      split; [rewrite <- Hp; set_solver|]. intros Hv. apply (Hd v Hv). left.
  - intros v Hv. destruct (kfree_spec end_ v k l Rk) as (k' & E & _); [|..|eauto].
    + rewrite Forall_forall in Hok. apply Hok. rewrite <- Hp. set_solver.
    + rewrite <- Hp in Hnd. apply NoDup_app in Hnd as (_ & Hd & _). by apply Hd.
Qed.

Lemma elem_of_page_seq p n v :
  v ∈ page_seq p n <-> exists i, 0 <= i < Z.of_nat n /\ v = p + i * PGSIZE.
Proof.
  unfold page_seq. rewrite list_elem_of_fmap. split.
  - intros (i & -> & Hi%elem_of_seq). exists (Z.of_nat i). lia.
  - intros (i & Hi & ->). exists (Z.to_nat i). rewrite elem_of_seq, Z2Nat.id by lia. lia.
Qed.

(** [freerange] (hence [kinit1] and [kinit2]) puts on an empty free list
    exactly the whole pages of the range, each once. *)
Theorem freerange_pages end_ vstart vend k :
  freelist k = 0 -> end_ <= vstart -> KERNBASE <= vstart -> PGROUNDUP vstart <= vend ->
  vstart <= vend <= KERNBASE + PHYSTOP ->
  exists k' l, freerange end_ vstart vend k = Ok tt k' /\ kmem_rep end_ k' l /\
    forall v, v ∈ l <-> (v mod PGSIZE = 0 /\ vstart <= v /\ v + PGSIZE <= vend).
Proof.
  intros Hk He Hb Hv Ht.
  assert (PGROUNDUP vstart = (vstart + PGSIZE - 1) / PGSIZE * PGSIZE) as Ep
    by (apply PGROUNDUP_spec; unfold KERNBASE, PGSIZE, PHYSTOP in *; lia).
  unfold freerange. rewrite Ep in *. set (q := (vstart + PGSIZE - 1) / PGSIZE) in *.
  set (n := (vend - q * PGSIZE) / PGSIZE).
  pose proof (Z.div_mod (vstart + PGSIZE - 1) PGSIZE ltac:(done)) as Hq. fold q in Hq.
  pose proof (Z.mod_pos_bound (vstart + PGSIZE - 1) PGSIZE ltac:(done)) as Hqr.
  pose proof (Z.div_mod (vend - q * PGSIZE) PGSIZE ltac:(done)) as Hn. fold n in Hn.
  pose proof (Z.mod_pos_bound (vend - q * PGSIZE) PGSIZE ltac:(done)) as Hnr.
  set (r1 := (vstart + PGSIZE - 1) mod PGSIZE) in *.
  set (r2 := (vend - q * PGSIZE) mod PGSIZE) in *.
  assert (0 <= n) as Hn0 by (unfold PGSIZE in *; lia).
  assert (forall v, v ∈ page_seq (q * PGSIZE) (Z.to_nat n) <->
    (v mod PGSIZE = 0 /\ vstart <= v /\ v + PGSIZE <= vend)) as Hin.
  { intros v. rewrite elem_of_page_seq, Z2Nat.id by done. split.
    - intros (i & Hi & ->). rewrite <- Z.mul_add_distr_r, Z_mod_mult. unfold PGSIZE in *. lia.
    - intros (Hm & H1 & H2). apply Z.mod_divide in Hm; [|done]. destruct Hm as [j ->].
      exists (j - q). unfold PGSIZE in *. lia. }
  destruct (freerange_loop_spec end_ (Z.to_nat n) (q * PGSIZE) vend k [])
    as (k' & E & R & _).
  - split; [done|constructor..].
  - rewrite Z2Nat.id by done. unfold PGSIZE in *. lia.
  - apply Forall_forall. intros v Hv'. apply Hin in Hv' as (H1 & H2 & H3).
    split; [done|lia|]. unfold PGSIZE in *. lia.
  - intros v _. apply not_elem_of_nil.
  - rewrite app_nil_r in R. exists k', (reverse (page_seq (q * PGSIZE) (Z.to_nat n))).
    split; [done|]. split; [done|]. intros v. by rewrite elem_of_reverse.
Qed.

(** ** Examples *)

Definition example_kmem : kmem := KMem 0 0 (fun _ => 0).

Lemma freerange_pages_witness :
  exists k' l, freerange 2148532224 2148532225 2148548608 example_kmem = Ok tt k' /\
    kmem_rep 2148532224 k' l /\ 2148540416 ∈ l.
Proof.
  destruct (freerange_pages 2148532224 2148532225 2148548608 example_kmem) as (k' & l & E & R & H);
    [reflexivity|lia|unfold KERNBASE; lia|vm_compute; done|unfold KERNBASE, PHYSTOP; lia|].
  exists k', l. split; [exact E|]. split; [exact R|]. apply H.
  split; [reflexivity|unfold PGSIZE; lia].
Defined.

(** One free page; it is allocated, and can be freed. *)
Lemma kalloc_exclusive_witness :
  kalloc (KMem 0 2148540416 (fun _ => 0)) = Ok 2148540416 example_kmem /\
  exists k', kfree 0 2148540416 example_kmem = Ok tt k'.
Proof.
  split; [reflexivity|].
  destruct (kalloc_exclusive 0 (KMem 0 2148540416 (fun _ => 0)) [2148540416]
    example_kmem [2148540416]) as [_ H].
  - split; [by split| |apply NoDup_singleton].
    apply Forall_singleton. split; unfold KERNBASE, PHYSTOP; [reflexivity|lia..].
  - apply rtc_once. apply own_alloc; [reflexivity|lia].
  - apply H. left.
Defined.
