(* ===== verification/Vm.v ===== *)
(** vm.c: page tables and user memory; the descriptors of mmu.h.

    Page directories, page tables and user pages are pages of the allocator of
    kalloc.c, in the memory [pages], addressed as the kernel does: at
    [p2v] of their physical address.  A [pde_t *] or a [pte_t *] is an address
    of that memory.  [loaduvm] reads a file and is in Exec.v. *)

From stdpp Require Import prelude strings functions gmap list.
From S2P Require Import Prelude Param CString Kalloc.

(** ** mmu.h and memlayout.h *)

Definition EXTMEM : Z := 1048576.
Definition DEVSPACE : Z := 4261412864.
Definition KERNLINK : Z := KERNBASE + EXTMEM.
Definition NPDENTRIES : Z := 1024.
Definition NPTENTRIES : Z := 1024.
Definition PTXSHIFT : Z := 12.
Definition PDXSHIFT : Z := 22.
Definition PTE_P : Z := 1.
Definition PTE_W : Z := 2.
Definition PTE_U : Z := 4.

Definition PDX (va : Z) : Z := (va >> PDXSHIFT) .& 1023.
Definition PTX (va : Z) : Z := (va >> PTXSHIFT) .& 1023.
Definition PGADDR (d t o : Z) : Z := u32 ((d << PDXSHIFT) .| (t << PTXSHIFT) .| o).
Definition PTE_ADDR (pte : Z) : Z := pte .& Z.lnot 4095.
Definition PTE_FLAGS (pte : Z) : Z := pte .& 4095.

(** Segment and gate descriptors. *)
Record segdesc := SegDesc {
  lim_15_0 : Z; base_15_0 : Z; base_23_16 : Z; sd_type : Z; sd_s : Z; sd_dpl : Z; sd_p : Z;
  lim_19_16 : Z; avl : Z; sd_rsv1 : Z; db : Z; sd_g : Z; base_31_24 : Z
}.

Definition SEG (type base lim dpl : Z) : segdesc :=
  SegDesc ((lim >> 12) .& 65535) (base .& 65535) ((base >> 16) .& 255) type 1 dpl 1
    (lim >> 28) 0 0 1 1 (base >> 24).
Definition SEG16 (type base lim dpl : Z) : segdesc :=
  SegDesc (lim .& 65535) (base .& 65535) ((base >> 16) .& 255) type 1 dpl 1
    ((lim >> 16) .& 15) 0 0 1 0 (base >> 24).

Record gatedesc := GateDesc {
  off_15_0 : Z; gd_cs : Z; gd_args : Z; gd_rsv1 : Z; gd_type : Z; gd_s : Z; gd_dpl : Z; gd_p : Z;
  off_31_16 : Z
}.

Definition STS_IG32 : Z := 14.
Definition STS_TG32 : Z := 15.
Definition SETGATE (istrap sel off d : Z) : gatedesc :=
  GateDesc (off .& 65535) sel 0 0 (if ctrue istrap then STS_TG32 else STS_IG32) 0 d 1 (off >> 16).

(** What the processor makes of a descriptor. *)
Definition seg_base (d : segdesc) : Z := base_15_0 d + (base_23_16 d << 16) + (base_31_24 d << 24).
Definition seg_limit (d : segdesc) : Z :=
  let l := lim_15_0 d + (lim_19_16 d << 16) in if ctrue (sd_g d) then (l << 12) + 4095 else l.
Definition gate_offset (d : gatedesc) : Z := off_15_0 d + (off_31_16 d << 16).

Definition SEG_KCODE : Z := 1.
Definition SEG_KDATA : Z := 2.
Definition SEG_KCPU : Z := 3.
Definition SEG_UCODE : Z := 4.
Definition SEG_UDATA : Z := 5.
Definition SEG_TSS : Z := 6.
Definition NSEGS : Z := 7.
Definition DPL_USER : Z := 3.
Definition STA_X : Z := 8.
Definition STA_W : Z := 2.
Definition STA_R : Z := 2.

Definition seg0 : segdesc := SegDesc 0 0 0 0 0 0 0 0 0 0 0 0 0.

(** The descriptor table of a processor after [seginit]; [c] is the address of
    its [cpu] field. *)
Definition seginit (c : Z) (gdt : list segdesc) : list segdesc :=
  let gdt := <[Z.to_nat SEG_KCODE := SEG (STA_X .| STA_R) 0 4294967295 0]> gdt in
  let gdt := <[Z.to_nat SEG_KDATA := SEG STA_W 0 4294967295 0]> gdt in
  let gdt := <[Z.to_nat SEG_UCODE := SEG (STA_X .| STA_R) 0 4294967295 DPL_USER]> gdt in
  let gdt := <[Z.to_nat SEG_UDATA := SEG STA_W 0 4294967295 DPL_USER]> gdt in
  <[Z.to_nat SEG_KCPU := SEG STA_W c 8 0]> gdt.

(** What [switchuvm] stores for the processor before it loads the page
    directory: [ts] is the address of its [struct taskstate], of 104 bytes, with
    [esp0] at 4 and [ss0] at 8; [kstack] is the stack of the running process. *)
Definition STS_T32A : Z := 9.
Definition sizeof_taskstate : Z := 104.
Definition set_sd_s (x : Z) (d : segdesc) : segdesc :=
  SegDesc (lim_15_0 d) (base_15_0 d) (base_23_16 d) (sd_type d) x (sd_dpl d) (sd_p d) (lim_19_16 d) (avl d)
    (sd_rsv1 d) (db d) (sd_g d) (base_31_24 d).

Definition load_tss (ts kstack : Z) (gdt : list segdesc) (m : mem) : list segdesc * mem :=
  let gdt := <[Z.to_nat SEG_TSS := set_sd_s 0 (SEG16 STS_T32A ts (sizeof_taskstate - 1) 0)]> gdt in
  let ss0 := SEG_KDATA << 3 in
  let m := <[ts + 9 := ss0 >> 8]> (<[ts + 8 := ss0 .& 255]> m) in
  (gdt, store_long (ts + 4) (u32 (kstack + KSTACKSIZE)) m).

(** ** Page tables *)

Definition lw (a : Z) : M kmem Z := gets (fun k => load_long a (pages k)).
Definition set_pages (f : mem -> mem) : M kmem unit :=
  modify (fun k => KMem (use_lock k) (freelist k) (f (pages k))).
Definition sw (a w : Z) : M kmem unit := set_pages (store_long a w).

(** Stores the bytes [l] at [a]. *)
Fixpoint put_bytes (a : Z) (l : list Z) (m : mem) : mem :=
  match l with
  | [] => m
  | b :: l => put_bytes (a + 1) l (<[a := b]> m)
  end.

(** The address of a page-table entry, or the null pointer. *)
Definition walkpgdir (pgdir va : Z) (alloc : bool) : M kmem (option Z) :=
  let pde := pgdir + 4 * PDX va in
  w ← lw pde;
  if ctrue (w .& PTE_P) then mret (Some (p2v (PTE_ADDR w) + 4 * PTX va))
  else if negb alloc then mret None
  else
    pgtab ← kalloc;
    if pgtab =? 0 then mret None
    else
      set_pages (memset pgtab 0 PGSIZE);;
      sw pde (v2p pgtab .| PTE_P .| PTE_W .| PTE_U);;
      mret (Some (pgtab + 4 * PTX va)).

(** The loop of [mappages]: [n] more pages. *)
Fixpoint mappages_loop (n : nat) (pgdir a pa perm : Z) : M kmem Z :=
  match n with
  | O => mret 0
  | S n =>
      p ← walkpgdir pgdir a true;
      match p with
      | None => mret (-1)
      | Some pte =>
          w ← lw pte;
          if ctrue (w .& PTE_P) then panic "remap"
          else
            sw pte (pa .| perm .| PTE_P);;
            mappages_loop n pgdir (u32 (a + PGSIZE)) (u32 (pa + PGSIZE)) perm
      end
  end.

(** The loop ends at [last], so after [(last - a) / PGSIZE + 1] pages. *)
Definition mappages (pgdir va size pa perm : Z) : M kmem Z :=
  let a := PGROUNDDOWN va in
  let last := PGROUNDDOWN (u32 (va + size - 1)) in
  mappages_loop (Z.to_nat (u32 (last - a) / PGSIZE + 1)) pgdir a pa perm.

Section ops.
Context (end_ data_ : Z).   (* symbols of the linker *)

(** virt, phys_start, phys_end, perm *)
Definition kmap : list (Z * Z * Z * Z) :=
  [(KERNBASE, 0, EXTMEM, PTE_W);
   (KERNLINK, v2p KERNLINK, v2p data_, 0);
   (data_, v2p data_, PHYSTOP, PTE_W);
   (DEVSPACE, DEVSPACE, 0, PTE_W)].

Fixpoint setupkvm_loop (pgdir : Z) (ks : list (Z * Z * Z * Z)) : M kmem Z :=
  match ks with
  | [] => mret pgdir
  | (virt, ps, pe, perm) :: ks =>
      r ← mappages pgdir virt (u32 (pe - ps)) ps perm;
      if r <? 0 then mret 0 else setupkvm_loop pgdir ks
  end.

Definition setupkvm : M kmem Z :=
  pgdir ← kalloc;
  if pgdir =? 0 then mret 0
  else
    set_pages (memset pgdir 0 PGSIZE);;
    if DEVSPACE <? p2v PHYSTOP then panic "PHYSTOP too high"
    else setupkvm_loop pgdir kmap.

Definition inituvm (pgdir : Z) (init : list Z) : M kmem unit :=
  if PGSIZE <=? Z.of_nat (length init) then panic "inituvm: more than a page"
  else
    mem ← kalloc;
    if mem =? 0 then fault "inituvm: null page"
    else
      set_pages (memset mem 0 PGSIZE);;
      mappages pgdir 0 PGSIZE (v2p mem) (PTE_W .| PTE_U);;
      set_pages (put_bytes mem init).

(** [for(; a < oldsz; a += PGSIZE)]; [a] can skip a whole table. *)
Fixpoint deallocuvm_loop (fuel : nat) (pgdir a oldsz : Z) : M kmem unit :=
  match fuel with
  | O => fault "fuel"
  | S fuel =>
      if a <? oldsz then
        p ← walkpgdir pgdir a false;
        match p with
        | None => deallocuvm_loop fuel pgdir (u32 (u32 (a + (NPTENTRIES - 1) * PGSIZE) + PGSIZE)) oldsz
        | Some pte =>
            w ← lw pte;
            (if ctrue (w .& PTE_P) then
               let pa := PTE_ADDR w in
               if pa =? 0 then panic "kfree"
               else
                 kfree end_ (p2v pa);;
                 sw pte 0
             else mret tt);;
            deallocuvm_loop fuel pgdir (u32 (a + PGSIZE)) oldsz
        end
      else mret tt
  end.

Definition deallocuvm (pgdir oldsz newsz : Z) : M kmem Z :=
  if oldsz <=? newsz then mret oldsz
  else
    let a := PGROUNDUP newsz in
    deallocuvm_loop (Z.to_nat ((oldsz - a) / PGSIZE + 2)) pgdir a oldsz;;
    mret newsz.

Fixpoint allocuvm_loop (fuel : nat) (pgdir a oldsz newsz : Z) : M kmem Z :=
  match fuel with
  | O => fault "fuel"
  | S fuel =>
      if a <? newsz then
        mem ← kalloc;
        if mem =? 0 then
          deallocuvm pgdir newsz oldsz;;
          mret 0
        else
          set_pages (memset mem 0 PGSIZE);;
          mappages pgdir a PGSIZE (v2p mem) (PTE_W .| PTE_U);;
          allocuvm_loop fuel pgdir (u32 (a + PGSIZE)) oldsz newsz
      else mret newsz
  end.

Definition allocuvm (pgdir oldsz newsz : Z) : M kmem Z :=
  if KERNBASE <=? newsz then mret 0
  else if newsz <? oldsz then mret oldsz
  else
    let a := PGROUNDUP oldsz in
    allocuvm_loop (Z.to_nat ((newsz - a) / PGSIZE + 2)) pgdir a oldsz newsz.

Definition freevm (pgdir : Z) : M kmem unit :=
  if pgdir =? 0 then panic "freevm: no pgdir"
  else
    deallocuvm pgdir KERNBASE 0;;
    for_each (fun i =>
      w ← lw (pgdir + 4 * i);
      when (ctrue (w .& PTE_P)) (kfree end_ (p2v (PTE_ADDR w)))) (upto NPDENTRIES);;
    kfree end_ pgdir.

Definition clearpteu (pgdir uva : Z) : M kmem unit :=
  p ← walkpgdir pgdir uva false;
  match p with
  | None => panic "clearpteu"
  | Some pte =>
      w ← lw pte;
      sw pte (w .& Z.lnot PTE_U)
  end.

(** [for(i = 0; i < sz; i += PGSIZE)]; false is [goto bad]. *)
Fixpoint copyuvm_loop (fuel : nat) (pgdir d i sz : Z) : M kmem bool :=
  match fuel with
  | O => fault "fuel"
  | S fuel =>
      if i <? sz then
        p ← walkpgdir pgdir i false;
        match p with
        | None => panic "copyuvm: pte should exist"
        | Some pte =>
            w ← lw pte;
            if negb (ctrue (w .& PTE_P)) then panic "copyuvm: page not present"
            else
              mem ← kalloc;
              if mem =? 0 then mret false
              else
                set_pages (memmove mem (p2v (PTE_ADDR w)) PGSIZE);;
                r ← mappages d i PGSIZE (v2p mem) (PTE_FLAGS w);
                if r <? 0 then mret false
                else copyuvm_loop fuel pgdir d (u32 (i + PGSIZE)) sz
        end
      else mret true
  end.

Definition copyuvm (pgdir sz : Z) : M kmem Z :=
  d ← setupkvm;
  if d =? 0 then mret 0
  else
    ok ← copyuvm_loop (Z.to_nat (sz / PGSIZE + 2)) pgdir d 0 sz;
    if ok : bool then mret d
    else
      freevm d;;
      mret 0.

End ops.

(** The result 0 is the null pointer; [walkpgdir]'s null is dereferenced. *)
Definition uva2ka (pgdir uva : Z) : M kmem Z :=
  p ← walkpgdir pgdir uva false;
  match p with
  | None => fault "uva2ka: null page-table entry"
  | Some pte =>
      w ← lw pte;
      if negb (ctrue (w .& PTE_P)) then mret 0
      else if negb (ctrue (w .& PTE_U)) then mret 0
      else mret (p2v (PTE_ADDR w))
  end.

Fixpoint copyout_loop (fuel : nat) (pgdir va : Z) (buf : list Z) : M kmem Z :=
  match fuel with
  | O => fault "fuel"
  | S fuel =>
      match buf with
      | [] => mret 0
      | _ =>
          let va0 := PGROUNDDOWN va in
          pa0 ← uva2ka pgdir va0;
          if pa0 =? 0 then mret (-1)
          else
            let n := Z.min (PGSIZE - (va - va0)) (Z.of_nat (length buf)) in
            set_pages (put_bytes (pa0 + (va - va0)) (take (Z.to_nat n) buf));;
            copyout_loop fuel pgdir (u32 (va0 + PGSIZE)) (drop (Z.to_nat n) buf)
      end
  end.

(** [p] and [len] are the bytes copied. *)
Definition copyout (pgdir va : Z) (p : list Z) : M kmem Z :=
  copyout_loop (S (S (length p))) pgdir va p.

(** ** The processor's view of user memory *)

(** The physical page and the entry a virtual address is mapped to by the
    two-level walk of the processor from the page directory [pgdir]. *)
Definition hw_walk (m : mem) (pgdir va : Z) : option Z :=
  let pde := load_long (pgdir + 4 * PDX va) m in
  if ctrue (pde .& PTE_P) then
    let pte := load_long (p2v (PTE_ADDR pde) + 4 * PTX va) m in
    if ctrue (pte .& PTE_P) then Some pte else None
  else None.

(** The kernel address of the byte at [va]. *)
Definition hw_addr (m : mem) (pgdir va : Z) : option Z :=
  match hw_walk m pgdir va with
  | Some pte => Some (p2v (PTE_ADDR pte) + va mod PGSIZE)
  | None => None
  end.

(** A load or a store of a byte by the kernel at a user address; without a
    mapping the access traps. *)
Definition uload (pgdir va : Z) : M kmem Z := fun k =>
  match hw_addr (pages k) pgdir va with
  | Some a => Ok (pages k a) k
  | None => Panic "trap"
  end.
Definition ustore (pgdir va b : Z) : M kmem unit := fun k =>
  match hw_addr (pages k) pgdir va with
  | Some a => Ok tt (KMem (use_lock k) (freelist k) (<[a := b]> (pages k)))
  | None => Panic "trap"
  end.
