(* ===== verification/Spinlock.v ===== *)
(** spinlock.c: spin locks, and the nesting of interrupt disabling.

    [pushcli] and [popcli] act on one CPU.  [acquire] and [release] are broken
    into their atomic steps: between any two of them every other CPU may run.
    Mutual exclusion is shown for every interleaving; the other components
    treat a critical section as one step on the strength of it. *)

From stdpp Require Import prelude strings gmap list.
From S2P Require Import Prelude Param CString Kalloc.

(** ** One CPU *)

(** The fields of [struct cpu] used here, and the FL_IF bit of its EFLAGS. *)
Record cli := Cli {
  ncli : Z;
  intena : bool;
  fl_if : bool
}.

Definition pushcli (c : cli) : cli :=
  let eflags := fl_if c in
  let intena' := if ncli c =? 0 then eflags else intena c in
  Cli (ncli c + 1) intena' false.

Definition popcli (c : cli) : option cli :=
  if fl_if c then None                     (* panic "popcli - interruptible" *)
  else if ncli c - 1 <? 0 then None        (* panic "popcli" *)
  else
    let c := Cli (ncli c - 1) (intena c) (fl_if c) in
    Some (if ((ncli c =? 0) && intena c)%bool then Cli (ncli c) (intena c) true else c).

(** Follow the saved frame pointers; [ebp] is a word address. *)
Fixpoint getcallerpcs_loop (n : nat) (ebp : Z) (m : mem) : list Z :=
  match n with
  | O => []
  | S n =>
      if ((ebp =? 0) || (ebp <? KERNBASE) || (ebp =? 4294967295))%bool
      then replicate (S n) 0
      else load_long (ebp + 4) m :: getcallerpcs_loop n (load_long ebp m) m
  end.

Definition getcallerpcs (v : Z) (m : mem) : list Z := getcallerpcs_loop 10 (u32 (v - 8)) m.

(** ** A lock shared by CPUs *)

Record spinlock := Spinlock {
  locked : Z;
  lk_cpu : option nat
}.

Definition initlock : spinlock := Spinlock 0 None.

Definition holding (c : nat) (lk : spinlock) : bool :=
  (ctrue (locked lk) && bool_decide (lk_cpu lk = Some c))%bool.

(** The exchange: the old value and the lock with the new one. *)
Definition xchg (v : Z) (lk : spinlock) : Z * spinlock := (locked lk, Spinlock v (lk_cpu lk)).

(** Where a CPU is in [acquire] and [release]. *)
Inductive pc :=
| Outside      (* not using the lock *)
| AcqCheck     (* pushcli done, about to test holding(lk) *)
| AcqSpin      (* in the xchg loop *)
| AcqRecord    (* xchg returned 0, lk->cpu not yet set *)
| Critical     (* acquire returned *)
| RelClear     (* holding(lk) tested, about to clear lk->cpu *)
| RelXchg      (* lk->cpu cleared, about to store 0 *)
| RelPop.      (* lock free, about to popcli *)

Record cpu_state := CpuState { c_pc : pc; c_cli : cli }.

Record lock_sys := LockSys {
  the_lock : spinlock;
  the_cpus : list cpu_state
}.

(** One step of CPU [c]; [None] when it panics or its index is wrong.  [enter]
    and [leave] are the calls of [acquire] and [release]. *)
Inductive act := Enter | Leave | Advance.

Definition cpu_step (c : nat) (a : act) (s : lock_sys) : option lock_sys :=
  x ← the_cpus s !! c;
  let goto p k := LockSys (the_lock s) (<[c := CpuState p k]> (the_cpus s)) in
  let k := c_cli x in
  match c_pc x, a with
  | Outside, Enter => Some (goto AcqCheck (pushcli k))
  | Critical, Enter => Some (goto AcqCheck (pushcli k))
  | AcqCheck, Advance => if holding c (the_lock s) then None else Some (goto AcqSpin k)
  | AcqSpin, Advance =>
      let '(old, lk) := xchg 1 (the_lock s) in
      Some (LockSys lk (<[c := CpuState (if ctrue old then AcqSpin else AcqRecord) k]> (the_cpus s)))
  | AcqRecord, Advance =>
      Some (LockSys (Spinlock (locked (the_lock s)) (Some c))
              (<[c := CpuState Critical k]> (the_cpus s)))
  | Outside, Leave | Critical, Leave =>
      if holding c (the_lock s) then Some (goto RelClear k) else None
  | RelClear, Advance =>
      Some (LockSys (Spinlock (locked (the_lock s)) None)
              (<[c := CpuState RelXchg k]> (the_cpus s)))
  | RelXchg, Advance =>
      let '(_, lk) := xchg 0 (the_lock s) in
      Some (LockSys lk (<[c := CpuState RelPop k]> (the_cpus s)))
  | RelPop, Advance => k' ← popcli k; Some (goto Outside k')
  | _, _ => Some s
  end.

(** A disciplined CPU enters only from outside and leaves only from inside. *)
Definition allowed (p : pc) (a : act) : Prop :=
  match a, p with
  | Enter, Outside => True
  | Leave, Critical => True
  | Advance, _ => True
  | _, _ => False
  end.

(** The CPU has the lock. *)
Definition owns (p : pc) : bool :=
  match p with AcqRecord | Critical | RelClear | RelXchg => true | _ => false end.

(** Its number is in [lk->cpu]. *)
Definition recorded (p : pc) : bool :=
  match p with Critical | RelClear => true | _ => false end.

Inductive lock_step : lock_sys -> lock_sys -> Prop :=
| LockStep c x a s s' :
    the_cpus s !! c = Some x -> allowed (c_pc x) a -> cpu_step c a s = Some s' -> lock_step s s'.

Definition lock_boot (n : nat) : lock_sys :=
  LockSys initlock (replicate n (CpuState Outside (Cli 0 false true))).

(** ** Invariant *)

(** Interrupts are off from [pushcli] to [popcli]. *)
Definition cli_ok (x : cpu_state) : Prop :=
  match c_pc x with
  | Outside => ncli (c_cli x) = 0 /\ fl_if (c_cli x) = true
  | _ => c_cli x = Cli 1 true false
  end.

Record lock_inv (s : lock_sys) : Prop := {
  li_one c c' x x' : the_cpus s !! c = Some x -> the_cpus s !! c' = Some x' ->
    owns (c_pc x) = true -> owns (c_pc x') = true -> c = c';
  li_free : locked (the_lock s) = 0 -> forall c x, the_cpus s !! c = Some x -> owns (c_pc x) = false;
  li_held : locked (the_lock s) <> 0 -> locked (the_lock s) = 1;
  li_own c x : the_cpus s !! c = Some x -> owns (c_pc x) = true -> locked (the_lock s) = 1;
  li_rec c : lk_cpu (the_lock s) = Some c <->
    exists x, the_cpus s !! c = Some x /\ recorded (c_pc x) = true;
  li_cli c x : the_cpus s !! c = Some x -> cli_ok x
}.

Lemma recorded_owns p : recorded p = true -> owns p = true.
Proof. by destruct p. Qed.

(** CPU [c] moves from [x] to [x'], and the lock from that of [s] to [lk]. *)
Lemma lock_inv_upd s c x x' lk :
  lock_inv s -> the_cpus s !! c = Some x -> cli_ok x' ->
  (if owns (c_pc x')
   then locked lk = 1 /\ (owns (c_pc x) = true \/ locked (the_lock s) = 0)
   else if owns (c_pc x) then locked lk = 0 else locked lk = locked (the_lock s)) ->
  (if recorded (c_pc x') then lk_cpu lk = Some c /\ owns (c_pc x) = true
   else if recorded (c_pc x) then lk_cpu lk = None else lk_cpu lk = lk_cpu (the_lock s)) ->
  lock_inv (LockSys lk (<[c := x']> (the_cpus s))).
Proof.
  intros I Hc Hcli Ho Hr. pose proof (lookup_lt_Some _ _ _ Hc) as Hlt.
  assert (forall d y, <[c := x']> (the_cpus s) !! d = Some y ->
    (d = c /\ y = x') \/ (d <> c /\ the_cpus s !! d = Some y)) as Hlk.
  { intros d y Hd. apply list_lookup_insert_Some in Hd as [(<- & <- & _)|[? ?]]; auto. }
  assert (owns (c_pc x') = true -> forall d y, d <> c -> the_cpus s !! d = Some y ->
    owns (c_pc y) = false) as Hothers.
  { intros E d y Hne Hd. rewrite E in Ho. destruct Ho as [_ [Hx|H0]].
    - destruct (owns (c_pc y)) eqn:Ey; [|done]. by destruct (li_one _ I d c y x Hd Hc Ey Hx).
    - by apply (li_free _ I H0 d). }
  split; simpl.
  - intros d d' y y' [[-> ->]|[Hd Hy]]%Hlk [[-> ->]|[Hd' Hy']]%Hlk E E'; try done.
    + by rewrite (Hothers E d' y') in E'.
    + by rewrite (Hothers E' d y) in E.
    + by eapply (li_one _ I).
  - intros H0 d y [[-> ->]|[Hd Hy]]%Hlk.
    + destruct (owns (c_pc x')) eqn:E; [|done]. lia.
    + destruct (owns (c_pc x')) eqn:E; [lia|]. destruct (owns (c_pc x)) eqn:Ex.
      * destruct (owns (c_pc y)) eqn:Ey; [|done]. by destruct (li_one _ I d c y x Hy Hc Ey Ex).
      * apply (li_free _ I) with d; [congruence|done].
  - intros H0. destruct (owns (c_pc x')); [lia|]. destruct (owns (c_pc x)); [lia|].
    rewrite Ho in *. by apply (li_held _ I).
  - intros d y [[-> ->]|[Hd Hy]]%Hlk E; [rewrite E in Ho; lia|].
    destruct (owns (c_pc x')) eqn:E'; [lia|]. destruct (owns (c_pc x)) eqn:Ex.
    + by destruct (li_one _ I d c y x Hy Hc E Ex).
    + rewrite Ho. by eapply (li_own _ I).
  - intros d. destruct (decide (d = c)) as [->|Hne].
    + rewrite list_lookup_insert_eq by done. destruct (recorded (c_pc x')) eqn:E.
      * destruct Hr as [-> _]. split; [eauto|done].
      * split; [|intros (y & [= <-] & ?); congruence]. intros Hl. exfalso.
        destruct (recorded (c_pc x)) eqn:Ex; [congruence|].
        rewrite Hr in Hl. apply (li_rec _ I) in Hl as (y & Hy & Ey). congruence.
    + rewrite list_lookup_insert_ne by done. destruct (recorded (c_pc x')) eqn:E.
      * destruct Hr as [-> Hx]. split; [congruence|]. intros (y & Hy & Ey%recorded_owns).
        by destruct (li_one _ I d c y x Hy Hc Ey Hx).
      * destruct (recorded (c_pc x)) eqn:Ex; [|rewrite Hr; apply (li_rec _ I)].
        rewrite Hr. split; [done|]. intros (y & Hy & Ey%recorded_owns).
        apply recorded_owns in Ex. by destruct (li_one _ I d c y x Hy Hc Ey Ex).
  - intros d y [[-> ->]|[_ Hy]]%Hlk; [done|]. by apply (li_cli _ I d).
Qed.

(** Whether a CPU holds the lock is what [holding] says. *)
Lemma holding_spec s c x :
  lock_inv s -> the_cpus s !! c = Some x -> holding c (the_lock s) = recorded (c_pc x).
Proof.
  intros I Hc. unfold holding. apply eq_true_iff_eq. rewrite andb_true_iff, bool_decide_eq_true.
  rewrite (li_rec _ I c). split.
  - intros [_ (y & Hy & Ey)]. congruence.
  - intros E. split; [|eauto]. rewrite (li_own _ I c x Hc); [done|]. by apply recorded_owns.
Qed.

(** A disciplined step does not panic and preserves the invariant. *)
Lemma cpu_step_inv s c x a :
  lock_inv s -> the_cpus s !! c = Some x -> allowed (c_pc x) a ->
  exists s', cpu_step c a s = Some s' /\ lock_inv s'.
Proof.
  intros I Hc Ha. pose proof (li_cli _ I c x Hc) as Hk. unfold cli_ok in Hk.
  pose proof (holding_spec s c x I Hc) as Hh. unfold cpu_step. rewrite Hc. simpl.
  destruct x as [p k]. simpl in *.
  destruct p, a; simpl in Ha; try done; rewrite ?Hh; simpl;
    try (eexists; split; [reflexivity|done]).
  - destruct Hk as [Hn Hf]. eexists. split; [reflexivity|].
    eapply (lock_inv_upd s c _ _ (the_lock s)); eauto; simpl; [|done|done].
    unfold cli_ok, pushcli. simpl. by rewrite Hn, Hf.
  - eexists. split; [reflexivity|]. by eapply (lock_inv_upd s c _ _ (the_lock s)); eauto.
  - eexists. split; [reflexivity|]. eapply lock_inv_upd; eauto; simpl; unfold ctrue;
      destruct (Z.eqb_spec (locked (the_lock s)) 0) as [E|E]; simpl; auto.
    by rewrite (li_held _ I E).
  - eexists. split; [reflexivity|]. eapply lock_inv_upd; eauto; simpl; [|done].
    split; [|by left]. by eapply (li_own _ I).
  - eexists. split; [reflexivity|]. eapply (lock_inv_upd s c _ _ (the_lock s)); eauto; simpl.
    + split; [|by left]. by eapply (li_own _ I).
    + split; [|done]. apply (li_rec _ I). eexists. by split.
  - eexists. split; [reflexivity|]. eapply lock_inv_upd; eauto; simpl; [|done].
    split; [|by left]. by eapply (li_own _ I).
  - eexists. split; [reflexivity|]. by eapply lock_inv_upd; eauto.
  - rewrite Hk. simpl. eexists. split; [reflexivity|].
    by eapply (lock_inv_upd s c _ _ (the_lock s)); eauto.
Qed.

Lemma lock_boot_inv n : lock_inv (lock_boot n).
Proof.
  split; simpl.
  - intros c c' x x' Hx _ E _. apply lookup_replicate in Hx as [-> _]. done.
  - intros _ c x Hx. by apply lookup_replicate in Hx as [-> _].
  - done.
  - intros c x Hx E. by apply lookup_replicate in Hx as [-> _].
  - intros c. split; [done|]. intros (x & Hx & E). by apply lookup_replicate in Hx as [-> _].
  - intros c x Hx. by apply lookup_replicate in Hx as [-> _].
Qed.

(** ** Theorems *)

(** C17: mutual exclusion.  On any number of CPUs, in every interleaving of the
    steps of [acquire] and [release], at most one CPU is between the exchange
    that took the lock and the one that frees it, interrupts are off on it,
    [holding] answers truly, and no disciplined call panics. *)
Theorem spinlock_mutex n s :
  rtc lock_step (lock_boot n) s ->
  (forall c c' x x', the_cpus s !! c = Some x -> the_cpus s !! c' = Some x' ->
    owns (c_pc x) = true -> owns (c_pc x') = true -> c = c') /\
  (forall c x, the_cpus s !! c = Some x -> owns (c_pc x) = true -> fl_if (c_cli x) = false) /\
  (forall c x, the_cpus s !! c = Some x -> holding c (the_lock s) = recorded (c_pc x)) /\
  (forall c x a, the_cpus s !! c = Some x -> allowed (c_pc x) a -> is_Some (cpu_step c a s)).
Proof.
  intros Hs. assert (lock_inv s) as I.
  { pose proof (lock_boot_inv n) as I. revert I.
    induction Hs as [|s1 s2 s3 H _ IH]; [done|]. intros I. apply IH.
    destruct H as [c x a s s' Hc Ha E].
    destruct (cpu_step_inv s c x a I Hc Ha) as (s2 & E2 & I2). congruence. }
  split_and!.
  - apply I.
  - intros c x Hc E. pose proof (li_cli _ I c x Hc) as Hk. unfold cli_ok in Hk.
    destruct (c_pc x); simpl in E; try done; by rewrite Hk.
  - intros c x. by apply holding_spec.
  - intros c x a Hc Ha. destruct (cpu_step_inv s c x a I Hc Ha) as (s' & -> & _). eauto.
Qed.

(** CPU 1 is critical while CPU 0 spins. *)
Lemma spinlock_mutex_witness :
  exists s, rtc lock_step (lock_boot 2) s /\ holding 1 (the_lock s) = true /\
    holding 0 (the_lock s) = false.
Proof.
  eexists. assert (rtc lock_step (lock_boot 2) (LockSys (Spinlock 1 (Some 1%nat))
    [CpuState Outside (Cli 0 false true); CpuState Critical (Cli 1 true false)])) as Hr.
  { eapply rtc_l; [by eapply (LockStep 1 _ Enter)|].
    eapply rtc_l; [by eapply (LockStep 1 _ Advance)|].
    eapply rtc_l; [by eapply (LockStep 1 _ Advance)|].
    eapply rtc_l; [by eapply (LockStep 1 _ Advance)|]. apply rtc_refl. }
  split; [exact Hr|]. destruct (spinlock_mutex 2 _ Hr) as (_ & _ & H & _).
  split; [exact (H 1%nat _ eq_refl)|exact (H 0%nat _ eq_refl)].
Defined.

Fixpoint popclis (n : nat) (c : cli) : option cli :=
  match n with O => Some c | S n => c ← popcli c; popclis n c end.

Lemma popclis_spec n k i :
  popclis n (Cli (Z.of_nat (n + S k)) i false) = Some (Cli (Z.of_nat (S k)) i false).
Proof.
  revert k. induction n as [|n IH]; intros k; [done|]. cbn [popclis]. unfold popcli. cbn [fl_if ncli].
  destruct (Z.ltb_spec (Z.of_nat (S n + S k) - 1) 0); [lia|].
  destruct (Z.eqb_spec (Z.of_nat (S n + S k) - 1) 0); [lia|]. simpl.
  rewrite <- IH. do 2 f_equal. lia.
Qed.

(** [pushcli] and [popcli] nest.  After [n + 1] calls of [pushcli]
    interrupts are off; they stay off through [n] calls of [popcli]; the last
    one restores exactly the interrupt flag of before the first [pushcli]. *)
Theorem cli_nesting n c :
  ncli c = 0 ->
  let c1 := Nat.iter (S n) pushcli c in
  fl_if c1 = false /\
  (exists c2, popclis n c1 = Some c2 /\ fl_if c2 = false /\ ncli c2 = 1) /\
  (exists c3, popclis (S n) c1 = Some c3 /\ fl_if c3 = fl_if c /\ ncli c3 = 0).
Proof.
  intros Hc. cbv zeta.
  assert (Nat.iter (S n) pushcli c = Cli (Z.of_nat (n + 1)) (fl_if c) false) as ->.
  { induction n as [|n IH]; simpl in *; [unfold pushcli; by rewrite Hc|].
    rewrite IH. unfold pushcli. simpl. destruct (Z.eqb_spec (Z.of_nat (n + 1)) 0); [lia|].
    f_equal. lia. }
  split; [done|]. split; [eexists; split; [apply popclis_spec|done]|].
  assert (forall n c, popclis (S n) c = (popclis n c ≫= popcli)) as Hsnoc.
  { clear. induction n as [|n IH]; intros c; [simpl; by destruct (popcli c)|].
    cbn [popclis] in *. destruct (popcli c) as [c'|]; [|done]. simpl. apply IH. }
  rewrite Hsnoc, popclis_spec. unfold popcli. simpl.
  destruct (fl_if c); eexists; split; reflexivity || done.
Qed.

Lemma cli_nesting_witness : fl_if (Nat.iter 3 pushcli (Cli 0 false true)) = false.
Proof. apply (cli_nesting 2 (Cli 0 false true)). reflexivity. Defined.
