(* ===== verification/Proc.v ===== *)
(** proc.c: the process table.

    A process is an index into the table.  The code between [acquire] and
    [release] of [ptable.lock] is one definition (see Spinlock.v), and so is
    each statement that [fork] and [exit] run without the lock: ProcInv.v
    interleaves them.  What [fork], [exit] and [wait] call in other components
    is the interface [ProcEnv], on a state [K] of its own.  Pointers to files and inodes are numbers, 0 being
    the null pointer.  The context switch itself is assembly: [sched] is where
    a process stops and [scheduler] where one is picked. *)

From stdpp Require Import prelude strings gmap list.
From S2P Require Import Prelude Param Kalloc.

(** ** Data *)

Inductive procstate := UNUSED | EMBRYO | SLEEPING | RUNNABLE | RUNNING | ZOMBIE.

#[export] Instance procstate_eq_dec : EqDecision procstate.
Proof. solve_decision. Defined.

(** x86.h: the fields of [struct trapframe] the kernel sets, and the others. *)
Record trapframe := Trapframe {
  tf_eax : Z;
  tf_eip : Z;
  tf_esp : Z;
  tf_eflags : Z;
  tf_cs : Z;
  tf_ds : Z;
  tf_es : Z;
  tf_ss : Z;
  tf_rest : list Z   (* edi .. ecx, gs, fs, trapno, err *)
}.

Definition set_eax (x : Z) (t : trapframe) : trapframe :=
  Trapframe x (tf_eip t) (tf_esp t) (tf_eflags t) (tf_cs t) (tf_ds t) (tf_es t) (tf_ss t)
    (tf_rest t).

Definition tf0 : trapframe := Trapframe 0 0 0 0 0 0 0 0 [].

Record proc := Proc {
  p_sz : Z;
  p_pgdir : Z;
  p_kstack : Z;
  p_state : procstate;
  p_pid : Z;
  p_parent : option nat;
  p_tf : trapframe;
  p_chan : option chan;
  p_killed : Z;
  p_ofile : list Z;
  p_cwd : Z;
  p_name : list Z
}.

(** An entry of the zero-initialised table. *)
Definition proc0 : proc :=
  Proc 0 0 0 UNUSED 0 None tf0 None 0 (replicate (Z.to_nat NOFILE) 0) 0 (replicate 16 0).

#[export] Instance proc_inhabited : Inhabited proc := populate proc0.

Definition set_state (x : procstate) (p : proc) : proc :=
  Proc (p_sz p) (p_pgdir p) (p_kstack p) x (p_pid p) (p_parent p) (p_tf p) (p_chan p)
    (p_killed p) (p_ofile p) (p_cwd p) (p_name p).
Definition set_pid (x : Z) (p : proc) : proc :=
  Proc (p_sz p) (p_pgdir p) (p_kstack p) (p_state p) x (p_parent p) (p_tf p) (p_chan p)
    (p_killed p) (p_ofile p) (p_cwd p) (p_name p).
Definition set_kstack (x : Z) (p : proc) : proc :=
  Proc (p_sz p) (p_pgdir p) x (p_state p) (p_pid p) (p_parent p) (p_tf p) (p_chan p)
    (p_killed p) (p_ofile p) (p_cwd p) (p_name p).
Definition set_vm (sz pgdir : Z) (p : proc) : proc :=
  Proc sz pgdir (p_kstack p) (p_state p) (p_pid p) (p_parent p) (p_tf p) (p_chan p)
    (p_killed p) (p_ofile p) (p_cwd p) (p_name p).
Definition set_parent (x : option nat) (p : proc) : proc :=
  Proc (p_sz p) (p_pgdir p) (p_kstack p) (p_state p) (p_pid p) x (p_tf p) (p_chan p)
    (p_killed p) (p_ofile p) (p_cwd p) (p_name p).
Definition set_tf (x : trapframe) (p : proc) : proc :=
  Proc (p_sz p) (p_pgdir p) (p_kstack p) (p_state p) (p_pid p) (p_parent p) x (p_chan p)
    (p_killed p) (p_ofile p) (p_cwd p) (p_name p).
Definition set_chan (x : option chan) (p : proc) : proc :=
  Proc (p_sz p) (p_pgdir p) (p_kstack p) (p_state p) (p_pid p) (p_parent p) (p_tf p) x
    (p_killed p) (p_ofile p) (p_cwd p) (p_name p).
Definition set_killed (x : Z) (p : proc) : proc :=
  Proc (p_sz p) (p_pgdir p) (p_kstack p) (p_state p) (p_pid p) (p_parent p) (p_tf p) (p_chan p)
    x (p_ofile p) (p_cwd p) (p_name p).
Definition set_ofile (x : list Z) (p : proc) : proc :=
  Proc (p_sz p) (p_pgdir p) (p_kstack p) (p_state p) (p_pid p) (p_parent p) (p_tf p) (p_chan p)
    (p_killed p) x (p_cwd p) (p_name p).
Definition set_cwd (x : Z) (p : proc) : proc :=
  Proc (p_sz p) (p_pgdir p) (p_kstack p) (p_state p) (p_pid p) (p_parent p) (p_tf p) (p_chan p)
    (p_killed p) (p_ofile p) x (p_name p).
Definition set_name (x : list Z) (p : proc) : proc :=
  Proc (p_sz p) (p_pgdir p) (p_kstack p) (p_state p) (p_pid p) (p_parent p) (p_tf p) (p_chan p)
    (p_killed p) (p_ofile p) (p_cwd p) x.

Record pstate (K : Type) := PState {
  procs : list proc;
  nextpid : Z;
  initproc : option nat;
  penv : K
}.
Arguments PState {K}.
Arguments procs {K}.
Arguments nextpid {K}.
Arguments initproc {K}.
Arguments penv {K}.

(** What proc.c calls: kalloc.c, vm.c, file.c, fs.c and log.c.  [pe_copyuvm],
    [pe_setupkvm], [pe_kalloc], [pe_allocuvm] and [pe_deallocuvm] return 0 on
    failure. *)
Class ProcEnv (K : Type) := {
  pe_kalloc : M K Z;
  pe_kfree : Z -> M K unit;
  pe_setupkvm : M K Z;
  pe_inituvm : Z -> M K unit;
  pe_copyuvm : Z -> Z -> M K Z;
  pe_allocuvm : Z -> Z -> Z -> M K Z;
  pe_deallocuvm : Z -> Z -> Z -> M K Z;
  pe_freevm : Z -> M K unit;
  pe_switchuvm : Z -> M K unit;
  pe_filedup : Z -> M K Z;
  pe_fileclose : Z -> M K unit;
  pe_idup : Z -> M K Z;
  pe_iput : Z -> M K unit;
  pe_namei_root : M K Z;
  pe_begin_op : M K unit;
  pe_end_op : M K unit
}.

(** ** The table *)

(** [for(p = ptable.proc; p < &ptable.proc[NPROC]; p++) if(f(p)) ...] *)
Fixpoint find_proc (f : proc -> bool) (l : list proc) (i : nat) : option nat :=
  match l with
  | [] => None
  | p :: l => if f p then Some i else find_proc f l (S i)
  end.

Definition is_state (x : procstate) (p : proc) : bool := bool_decide (p_state p = x).

Definition wakeup1 (ch : chan) (l : list proc) : list proc :=
  (fun p => if (is_state SLEEPING p && bool_decide (p_chan p = Some ch))%bool
            then set_state RUNNABLE p else p) <$> l.

Definition chan_of (i : nat) : chan := ChProc (Z.of_nat i).

(** The body of the loop of [exit] that passes children to init. *)
Definition reparent (cur init i : nat) (l : list proc) : list proc :=
  match l !! i with
  | None => l
  | Some p =>
      if bool_decide (p_parent p = Some cur) then
        let l := <[i := set_parent (Some init) p]> l in
        if is_state ZOMBIE p then wakeup1 (chan_of init) l else l
      else l
  end.

(** The part of [exit] under [ptable.lock]. *)
Definition exit_table (cur init : nat) (l : list proc) : list proc :=
  let parent := l !! cur ≫= p_parent in
  let l := match parent with Some q => wakeup1 (chan_of q) l | None => l end in
  let l := foldl (fun l i => reparent cur init i l) l (seq 0 (length l)) in
  alter (set_state ZOMBIE) cur l.

(** [kill] under the lock: the table and the value returned. *)
Definition kill (pid : Z) (l : list proc) : Z * list proc :=
  match find_proc (fun p => p_pid p =? pid) l 0 with
  | Some i =>
      (0, alter (fun p => let p := set_killed 1 p in
                          if is_state SLEEPING p then set_state RUNNABLE p else p) i l)
  | None => (-1, l)
  end.

(** The statements of [fork] that fill the entry of the child, and those of
    [exit] that give the files and the directory back.  They run without
    [ptable.lock]: another CPU may act between any two of them. *)
Inductive fillstmt :=
| FillSz | FillParent | FillTf | FillEax | FillFile (fd : Z) | FillCwd | FillName.

Definition fill_order : list fillstmt :=
  [FillSz; FillParent; FillTf; FillEax] ++ (FillFile <$> upto NOFILE) ++ [FillCwd; FillName].

Inductive relstmt := RelFile (fd : Z) | RelBegin | RelPut | RelEnd | RelCwd.

Definition rel_order : list relstmt :=
  (RelFile <$> upto NOFILE) ++ [RelBegin; RelPut; RelEnd; RelCwd].

(** ** Operations of the running process [cur] *)

Section ops.
Context {K : Type} `{ProcEnv K}.

Definition env {A} : M K A -> M (pstate K) A :=
  lift penv (fun k s => PState (procs s) (nextpid s) (initproc s) k).
Definition set_procs (f : list proc -> list proc) : M (pstate K) unit :=
  modify (fun s => PState (f (procs s)) (nextpid s) (initproc s) (penv s)).
Definition upd_proc (i : nat) (f : proc -> proc) : M (pstate K) unit := set_procs (alter f i).
Definition get_proc (i : nat) : M (pstate K) proc :=
  s ← get; of_option "process table index" (procs s !! i).

(** The part of [allocproc] under [ptable.lock]: the first free entry is taken
    and gets a pid. *)
Definition allocproc_take : M (pstate K) (option nat) :=
  s ← get;
  match find_proc (is_state UNUSED) (procs s) 0 with
  | None => mret None
  | Some i =>
      upd_proc i (fun p => set_pid (nextpid s) (set_state EMBRYO p));;
      modify (fun s => PState (procs s) (s32 (nextpid s + 1)) (initproc s) (penv s));;
      mret (Some i)
  end.

(** The rest of it, without the lock; the result says whether there was a page
    for the kernel stack, which starts the process at [forkret], whose return
    address is [trapret].  The trap frame is not initialised: [userinit] and
    [fork] overwrite it. *)
Definition allocproc_stack (i : nat) : M (pstate K) bool :=
  kstack ← env pe_kalloc;
  upd_proc i (set_kstack kstack);;
  if kstack =? 0 then
    upd_proc i (set_state UNUSED);;
    mret false
  else
    upd_proc i (set_tf tf0);;
    mret true.

Definition allocproc : M (pstate K) (option nat) :=
  np ← allocproc_take;
  match np with
  | None => mret None
  | Some i =>
      ok ← allocproc_stack i;
      mret (if ok : bool then Some i else None)
  end.

(** Segment selectors of mmu.h: (SEG_UCODE << 3) | DPL_USER and the like. *)
Definition USER_CS : Z := (4 << 3) .| 3.
Definition USER_DS : Z := (5 << 3) .| 3.
Definition FL_IF : Z := 512.

(** "initcode" *)
Definition initcode_name : list Z := [105; 110; 105; 116; 99; 111; 100; 101] ++ replicate 8 0.

Definition userinit : M (pstate K) unit :=
  np ← allocproc;
  match np with
  | None => fault "userinit: null process"
  | Some p =>
      modify (fun s => PState (procs s) (nextpid s) (Some p) (penv s));;
      pgdir ← env pe_setupkvm;
      if pgdir =? 0 then panic "userinit: out of memory?"
      else
        env (pe_inituvm pgdir);;
        upd_proc p (set_vm PGSIZE pgdir);;
        upd_proc p (set_tf (Trapframe 0 0 PGSIZE FL_IF USER_CS USER_DS USER_DS USER_DS []));;
        upd_proc p (set_name initcode_name);;
        cwd ← env pe_namei_root;
        upd_proc p (set_cwd cwd);;
        upd_proc p (set_state RUNNABLE)
  end.

Definition growproc (cur : nat) (n : Z) : M (pstate K) Z :=
  p ← get_proc cur;
  sz ← (if 0 <? n then env (pe_allocuvm (p_pgdir p) (p_sz p) (u32 (p_sz p + n)))
        else if n <? 0 then env (pe_deallocuvm (p_pgdir p) (p_sz p) (u32 (p_sz p + n)))
        else mret (p_sz p));
  if (negb (n =? 0) && (sz =? 0))%bool then mret (-1)
  else
    upd_proc cur (set_vm sz (p_pgdir p));;
    env (pe_switchuvm (p_pgdir p));;
    mret 0.

(** The address space of the child; the result says whether there was memory
    for it. *)
Definition fork_copy (cur i : nat) : M (pstate K) bool :=
  p ← get_proc cur;
  pgdir ← env (pe_copyuvm (p_pgdir p) (p_sz p));
  upd_proc i (fun q => set_vm (p_sz q) pgdir q);;
  mret (ctrue pgdir).

(** The error path: the entry taken is given back. *)
Definition fork_undo (i : nat) : M (pstate K) unit :=
  q ← get_proc i;
  env (pe_kfree (p_kstack q));;
  upd_proc i (set_kstack 0);;
  upd_proc i (set_state UNUSED).

(** One statement of [fork] between the copy of the address space and the last
    critical section; each reads [proc] afresh. *)
Definition fork_fill (cur i : nat) (st : fillstmt) : M (pstate K) unit :=
  p ← get_proc cur;
  match st with
  | FillSz => upd_proc i (fun q => set_vm (p_sz p) (p_pgdir q) q)
  | FillParent => upd_proc i (set_parent (Some cur))
  | FillTf => upd_proc i (set_tf (p_tf p))
  | FillEax => upd_proc i (fun q => set_tf (set_eax 0 (p_tf q)) q)
  | FillFile fd =>
      let f := (p_ofile p).[fd] in
      if ctrue f then
        f' ← env (pe_filedup f);
        upd_proc i (fun q => set_ofile (<[Z.to_nat fd := f']> (p_ofile q)) q)
      else mret tt
  | FillCwd => cwd ← env (pe_idup (p_cwd p)); upd_proc i (set_cwd cwd)
  | FillName => upd_proc i (set_name (p_name p))
  end.

(** The last critical section. *)
Definition fork_publish (i : nat) : M (pstate K) Z :=
  q ← get_proc i;
  upd_proc i (set_state RUNNABLE);;
  mret (p_pid q).

Definition fork (cur : nat) : M (pstate K) Z :=
  np ← allocproc;
  match np with
  | None => mret (-1)
  | Some i =>
      ok ← fork_copy cur i;
      if ok : bool then
        for_each (fork_fill cur i) fill_order;;
        fork_publish i
      else
        fork_undo i;;
        mret (-1)
  end.

(** One statement of [exit] before its critical section. *)
Definition exit_release (cur : nat) (st : relstmt) : M (pstate K) unit :=
  p ← get_proc cur;
  match st with
  | RelFile fd =>
      let f := (p_ofile p).[fd] in
      if ctrue f then
        env (pe_fileclose f);;
        upd_proc cur (fun q => set_ofile (<[Z.to_nat fd := 0]> (p_ofile q)) q)
      else mret tt
  | RelBegin => env pe_begin_op
  | RelPut => env (pe_iput (p_cwd p))
  | RelEnd => env pe_end_op
  | RelCwd => upd_proc cur (set_cwd 0)
  end.

(** The critical section of [exit], which ends in [sched] and does not return. *)
Definition exit_end (cur : nat) : M (pstate K) unit :=
  s ← get;
  init ← of_option "initproc" (initproc s);
  set_procs (exit_table cur init).

Definition exit (cur : nat) : M (pstate K) unit :=
  s ← get;
  if bool_decide (initproc s = Some cur) then panic "init exiting"
  else
    for_each (exit_release cur) rel_order;;
    exit_end cur.

Definition is_child (cur : nat) (p : proc) : bool := bool_decide (p_parent p = Some cur).

(** One scan of the loop of [wait]; a [Sleep] scans again when woken.  The
    child freed is the first zombie child of the table. *)
Definition wait (cur : nat) : M (pstate K) Z :=
  s ← get;
  match find_proc (fun p => is_child cur p && is_state ZOMBIE p)%bool (procs s) 0 with
  | Some i =>
      p ← get_proc i;
      env (pe_kfree (p_kstack p));;
      upd_proc i (set_kstack 0);;
      env (pe_freevm (p_pgdir p));;
      upd_proc i (fun p => set_killed 0 (set_name (<[0%nat := 0]> (p_name p))
        (set_parent None (set_pid 0 (set_state UNUSED p)))));;
      mret (p_pid p)
  | None =>
      me ← get_proc cur;
      if (negb (bool_decide (is_Some (find_proc (is_child cur) (procs s) 0)))
          || ctrue (p_killed me))%bool
      then mret (-1)
      else sleep_on (chan_of cur)
  end.

(** [sched] checks that the caller changed its state; the locks are checked in
    Spinlock.v. *)
Definition sched (cur : nat) : M (pstate K) unit :=
  p ← get_proc cur;
  if is_state RUNNING p then panic "sched running" else mret tt.

Definition yield (cur : nat) : M (pstate K) unit :=
  upd_proc cur (set_state RUNNABLE);;
  sched cur.

(** [sleep]: up to [sched], and from its return. *)
Definition sleep (cur : nat) (ch : chan) : M (pstate K) unit :=
  upd_proc cur (set_chan (Some ch));;
  upd_proc cur (set_state SLEEPING);;
  sched cur.

Definition sleep_tidy (cur : nat) : M (pstate K) unit := upd_proc cur (set_chan None).

Definition wakeup (ch : chan) : M (pstate K) unit := set_procs (wakeup1 ch).

(** One choice of [scheduler]: the entry is made RUNNING if it is RUNNABLE. *)
Definition scheduler_pick (i : nat) : M (pstate K) bool :=
  p ← get_proc i;
  if is_state RUNNABLE p then
    env (pe_switchuvm (p_pgdir p));;
    upd_proc i (set_state RUNNING);;
    mret true
  else mret false.

(** assignment 4: lookups for procfs *)

Definition getProc (i : Z) : M (pstate K) nat :=
  s ← get;
  if ((0 <=? i) && (i <? Z.of_nat (length (procs s))))%bool then mret (Z.to_nat i)
  else fault "getProc: outside the table".

(** [myproc] is not initialised when no process has the pid. *)
Definition getProcByPID (pid : Z) : M (pstate K) nat :=
  s ← get;
  of_option "getProcByPID: uninitialised pointer" (find_proc (fun p => p_pid p =? pid) (procs s) 0).

End ops.

Definition getProcState (p : proc) : string :=
  match p_state p with
  | UNUSED => "UNUSED"
  | EMBRYO => "EMBRYO"
  | SLEEPING => "SLEEPING"
  | RUNNABLE => "RUNNABLE"
  | RUNNING => "RUNNING"
  | ZOMBIE => "ZOMBIE"
  end.

(** The lines [procdump] prints, without the call stacks of sleepers. *)
Definition procdump (l : list proc) : list (Z * string * list Z) :=
  (fun p => (p_pid p,
    match p_state p with
    | UNUSED => "unused" | EMBRYO => "embryo" | SLEEPING => "sleep "
    | RUNNABLE => "runble" | RUNNING => "run   " | ZOMBIE => "zombie"
    end, p_name p)) <$> filter (fun p => p_state p <> UNUSED) l.
