(* ===== verification/ProcInv.v ===== *)
(** The invariant of the process table, for any number of CPUs and any
    interleaving of system calls, interrupts and scheduling. *)

From stdpp Require Import prelude strings gmap list functions.
From S2P Require Import Prelude Param Kalloc Proc.

(** ** Steps of the machine *)

(** Where a process is in [fork] or [exit], between two steps of its own: about
    to allocate the kernel stack of entry [j], to copy the address space, to
    give the entry back, or with these statements left to run. *)
Inductive forkpos := AtStack | AtCopy | AtUndo | AtFill (todo : list fillstmt).
Inductive kpos := Idle | Forking (j : nat) (at_ : forkpos) | Exiting (todo : list relstmt).

(** The entry a process is filling in. *)
Definition builds (x : kpos) : option nat :=
  match x with Forking j _ => Some j | _ => None end.

(** The kernel state, the process each CPU runs and where each process is. *)
Record machine (K : Type) := Mach {
  m_s : pstate K;
  m_cpus : list (option nat);
  m_pos : nat -> kpos
}.
Arguments Mach {K}.
Arguments m_s {K}.
Arguments m_cpus {K}.
Arguments m_pos {K}.

Section steps.
Context {K : Type} `{ProcEnv K}.

Definition on (cpus : list (option nat)) (c i : nat) : Prop := cpus !! c = Some (Some i).

(** A step is one critical section of [ptable.lock] or one statement that
    [fork] or [exit] runs without it.  Between any two steps of a process, any
    other may be scheduled and act; the other components may change their
    state, and a running process the fields of its entry that proc.c does not
    share ([k_env], [k_own]).  A process may be preempted, and may sleep,
    wherever it is.  [allocproc] stops at the last pid an [int] can hold. *)
Inductive kstep : machine K -> machine K -> Prop :=
| k_pick c i s s' cpus pos :
    cpus !! c = Some None -> scheduler_pick i s = Ok true s' ->
    kstep (Mach s cpus pos) (Mach s' (<[c := Some i]> cpus) pos)
| k_yield c i s s' cpus pos :
    on cpus c i -> yield i s = Ok tt s' ->
    kstep (Mach s cpus pos) (Mach s' (<[c := None]> cpus) pos)
| k_sleep c i ch s s' cpus pos :
    on cpus c i -> sleep i ch s = Ok tt s' ->
    kstep (Mach s cpus pos) (Mach s' (<[c := None]> cpus) pos)
| k_tidy c i s s' cpus pos :
    on cpus c i -> sleep_tidy i s = Ok tt s' -> kstep (Mach s cpus pos) (Mach s' cpus pos)
| k_wakeup ch s s' cpus pos :
    wakeup ch s = Ok tt s' -> kstep (Mach s cpus pos) (Mach s' cpus pos)
| k_kill c i pid s cpus pos :
    on cpus c i ->
    kstep (Mach s cpus pos)
      (Mach (PState (kill pid (procs s)).2 (nextpid s) (initproc s) (penv s)) cpus pos)
| k_take c i r s s' cpus pos :
    on cpus c i -> pos i = Idle -> nextpid s < 2147483647 -> allocproc_take s = Ok r s' ->
    kstep (Mach s cpus pos)
      (Mach s' cpus (<[i := match r with Some j => Forking j AtStack | None => Idle end]> pos))
| k_stack c i j ok s s' cpus pos :
    on cpus c i -> pos i = Forking j AtStack -> allocproc_stack j s = Ok ok s' ->
    kstep (Mach s cpus pos)
      (Mach s' cpus (<[i := if ok : bool then Forking j AtCopy else Idle]> pos))
| k_copy c i j ok s s' cpus pos :
    on cpus c i -> pos i = Forking j AtCopy -> fork_copy i j s = Ok ok s' ->
    kstep (Mach s cpus pos)
      (Mach s' cpus (<[i := Forking j (if ok : bool then AtFill fill_order else AtUndo)]> pos))
| k_undo c i j s s' cpus pos :
    on cpus c i -> pos i = Forking j AtUndo -> fork_undo j s = Ok tt s' ->
    kstep (Mach s cpus pos) (Mach s' cpus (<[i := Idle]> pos))
| k_fill c i j st todo s s' cpus pos :
    on cpus c i -> pos i = Forking j (AtFill (st :: todo)) -> fork_fill i j st s = Ok tt s' ->
    kstep (Mach s cpus pos) (Mach s' cpus (<[i := Forking j (AtFill todo)]> pos))
| k_publish c i j r s s' cpus pos :
    on cpus c i -> pos i = Forking j (AtFill []) -> fork_publish j s = Ok r s' ->
    kstep (Mach s cpus pos) (Mach s' cpus (<[i := Idle]> pos))
| k_exit c i s cpus pos :
    on cpus c i -> pos i = Idle -> initproc s <> Some i ->
    kstep (Mach s cpus pos) (Mach s cpus (<[i := Exiting rel_order]> pos))
| k_release c i st todo s s' cpus pos :
    on cpus c i -> pos i = Exiting (st :: todo) -> exit_release i st s = Ok tt s' ->
    kstep (Mach s cpus pos) (Mach s' cpus (<[i := Exiting todo]> pos))
| k_exited c i s s' cpus pos :
    on cpus c i -> pos i = Exiting [] -> exit_end i s = Ok tt s' ->
    kstep (Mach s cpus pos) (Mach s' (<[c := None]> cpus) (<[i := Idle]> pos))
| k_wait c i r s s' cpus pos :
    on cpus c i -> pos i = Idle -> wait i s = Ok r s' ->
    kstep (Mach s cpus pos) (Mach s' cpus pos)
| k_wait_sleep c i ch s s' cpus pos :
    on cpus c i -> pos i = Idle -> wait i s = Sleep ch s -> sleep i ch s = Ok tt s' ->
    kstep (Mach s cpus pos) (Mach s' (<[c := None]> cpus) pos)
| k_env k s cpus pos :
    kstep (Mach s cpus pos) (Mach (PState (procs s) (nextpid s) (initproc s) k) cpus pos)
| k_own c i f s s' cpus pos :
    on cpus c i ->
    (forall p, p_state (f p) = p_state p /\ p_pid (f p) = p_pid p /\ p_parent (f p) = p_parent p /\
      p_chan (f p) = p_chan p) ->
    upd_proc i f s = Ok tt s' -> kstep (Mach s cpus pos) (Mach s' cpus pos).

End steps.

(** ** The invariant *)

Definition live (p : proc) : Prop := p_state p <> UNUSED.
Definition alive (p : proc) : Prop :=
  p_state p <> UNUSED /\ p_state p <> EMBRYO /\ p_state p <> ZOMBIE.

Record ptab_inv (l : list proc) (np : Z) (init : option nat) (cpus : list (option nat)) : Prop := {
  pv_next : 0 < np;
  pv_pid i p : l !! i = Some p -> live p -> 0 < p_pid p < np;
  pv_uniq i j p q : l !! i = Some p -> l !! j = Some q -> live p -> live q ->
    p_pid p = p_pid q -> i = j;
  pv_parent i p q : l !! i = Some p -> p_parent p = Some q ->
    exists pq, l !! q = Some pq /\ alive pq;
  pv_unused i p : l !! i = Some p -> p_state p = UNUSED -> p_parent p = None;
  pv_sleep i p : l !! i = Some p -> p_state p = SLEEPING -> is_Some (p_chan p);
  pv_run i p : l !! i = Some p -> p_state p = RUNNING -> exists c, on cpus c i;
  pv_cpu c i : on cpus c i -> exists p, l !! i = Some p /\ p_state p = RUNNING;
  pv_cpu1 c c' i : on cpus c i -> on cpus c' i -> c = c';
  pv_init : exists i p, init = Some i /\ l !! i = Some p /\ alive p
}.

(** The entries being filled in: each is EMBRYO and belongs to one process that
    is in [fork], which has become its parent or has left it without one.  A
    process inside [fork] or [exit] has not ended, and init does not exit. *)
Record pos_inv (l : list proc) (init : option nat) (pos : nat -> kpos) : Prop := {
  po_embryo j p : l !! j = Some p -> p_state p = EMBRYO -> exists i, builds (pos i) = Some j;
  po_build i j : builds (pos i) = Some j ->
    exists p, l !! j = Some p /\ p_state p = EMBRYO /\
      ((forall todo, pos i <> Forking j (AtFill todo)) -> p_parent p = None);
  po_build1 i i' j : builds (pos i) = Some j -> builds (pos i') = Some j -> i = i';
  po_busy i : pos i <> Idle -> exists p, l !! i = Some p /\ alive p;
  po_exit i todo : pos i = Exiting todo -> init <> Some i
}.

(** What the invariant looks at. *)
Definition core (p : proc) : procstate * Z * option nat * option chan :=
  (p_state p, p_pid p, p_parent p, p_chan p).

Lemma core_lookup (l l' : list proc) i p :
  core <$> l = core <$> l' -> l !! i = Some p ->
  exists p', l' !! i = Some p' /\ p_state p' = p_state p /\ p_pid p' = p_pid p /\
    p_parent p' = p_parent p /\ p_chan p' = p_chan p.
Proof.
  intros E Hi. assert ((core <$> l) !! i = Some (core p)) as Hc by (by rewrite list_lookup_fmap, Hi).
  rewrite E, list_lookup_fmap, fmap_Some in Hc. destruct Hc as (p' & Hp' & Ec).
  injection Ec as ? ? ? ?. exists p'. split_and!; congruence.
Qed.

Lemma ptab_inv_core (l l' : list proc) np init cpus :
  core <$> l = core <$> l' -> ptab_inv l np init cpus -> ptab_inv l' np init cpus.
Proof.
  intros E I. symmetry in E. pose proof (core_lookup l' l) as Hb.
  pose proof (core_lookup l l') as Hf.
  split; try apply I.
  - intros i p (p' & Hp & Es & Ep & _)%Hb; [|done]. unfold live. rewrite <- Es, <- Ep.
    by apply (pv_pid _ _ _ _ I i).
  - intros i j p q (p' & Hp & Es & Ep & _)%Hb (q' & Hq & Es' & Ep' & _)%Hb; [|done..].
    unfold live. rewrite <- Es, <- Ep, <- Es', <- Ep'. by apply (pv_uniq _ _ _ _ I).
  - intros i p q (p' & Hp & _ & _ & Er & _)%Hb; [|done]. rewrite <- Er. intros Hq.
    destruct (pv_parent _ _ _ _ I i p' q Hp Hq) as (pq & Hpq & Ha).
    destruct (Hf q pq) as (pq' & Hpq' & Es & _); [done|done|].
    exists pq'. split; [done|]. unfold alive. by rewrite Es.
  - intros i p (p' & Hp & Es & _ & Er & _)%Hb; [|done]. rewrite <- Es, <- Er.
    by apply (pv_unused _ _ _ _ I i).
  - intros i p (p' & Hp & Es & _ & _ & Ec)%Hb; [|done]. rewrite <- Es, <- Ec.
    by apply (pv_sleep _ _ _ _ I i).
  - intros i p (p' & Hp & Es & _)%Hb; [|done]. rewrite <- Es. by apply (pv_run _ _ _ _ I i).
  - intros c i Hc. destruct (pv_cpu _ _ _ _ I c i Hc) as (p & Hp & Hr).
    destruct (Hf i p) as (p' & Hp' & Es & _); [done|done|]. exists p'. by rewrite Es.
  - destruct (pv_init _ _ _ _ I) as (i & p & Hi & Hp & Ha).
    destruct (Hf i p) as (p' & Hp' & Es & _); [done|done|].
    exists i, p'. split_and!; try done; unfold alive in *; by rewrite Es.
Qed.

(** ** Computations that leave the invariant's view alone *)

Abbreviation pcore := (procstate * Z * option nat * option chan)%type.

Definition vstate (x : procstate) (v : pcore) : pcore := let '(_, pid, par, ch) := v in (x, pid, par, ch).
Definition vpid (x : Z) (v : pcore) : pcore := let '(st, _, par, ch) := v in (st, x, par, ch).
Definition vparent (x : option nat) (v : pcore) : pcore := let '(st, pid, _, ch) := v in (st, pid, x, ch).

Section views.
Context {K : Type} `{ProcEnv K}.

Definition view (s : pstate K) : list pcore * Z * option nat :=
  (core <$> procs s, nextpid s, initproc s).

Definition keeps {A} (m : M (pstate K) A) : Prop :=
  forall s a s', m s = Ok a s' -> view s' = view s.

Lemma keeps_ret {A} (a : A) : keeps (mret a).
Proof. by intros s b s' [= -> ->]. Qed.

Lemma keeps_get : keeps get.
Proof. by intros s b s' [= -> ->]. Qed.

Lemma keeps_panic {A} e : keeps (A:=A) (panic e).
Proof. done. Qed.

Lemma keeps_of_option {A} e (o : option A) : keeps (of_option e o).
Proof. destruct o; [apply keeps_ret|done]. Qed.

Lemma vkeeps_bind {A B} (m : M (pstate K) A) (f : A -> M (pstate K) B) :
  keeps m -> (forall a, keeps (f a)) -> keeps (m ≫= f).
Proof.
  intros Hm Hf s b s' (a & s1 & E1 & E2)%bind_Ok.
  etrans; [by eapply Hf|by eapply Hm].
Qed.

Lemma vkeeps_for_each {A} (f : A -> M (pstate K) unit) l :
  (forall a, keeps (f a)) -> keeps (for_each f l).
Proof.
  intros Hf. induction l as [|a l IH]; [apply keeps_ret|]. apply vkeeps_bind; [done|]. by intros [].
Qed.

Lemma keeps_env {A} (m : M K A) : keeps (env m).
Proof. intros s a s' E. unfold env, lift in E. destruct (m (penv s)); by simplify_eq. Qed.

Lemma view_upd s i f :
  view (PState (alter f i (procs s)) (nextpid s) (initproc s) (penv s)) =
    (core <$> alter f i (procs s), nextpid s, initproc s).
Proof. done. Qed.

Lemma core_alter (f : proc -> proc) (g : pcore -> pcore) i (l : list proc) :
  (forall p, core (f p) = g (core p)) -> core <$> alter f i l = alter g i (core <$> l).
Proof.
  intros Hf. apply list_eq. intros j. rewrite list_lookup_fmap, !list_lookup_alter.
  case_decide; rewrite list_lookup_fmap; [|done]. destruct (l !! i); simpl; by rewrite ?Hf.
Qed.

Lemma keeps_upd i f : (forall p, core (f p) = core p) -> keeps (upd_proc i f).
Proof.
  intros Hf s a s' [= _ <-]. unfold view. simpl. do 2 f_equal.
  rewrite (core_alter f id) by done. apply list_eq. intros j.
  rewrite list_lookup_alter. case_decide as E; [|done]. subst. by destruct (_ !! j).
Qed.

Lemma keeps_get_proc i : keeps (get_proc i).
Proof. apply vkeeps_bind; [apply keeps_get|]. intros s. apply keeps_of_option. Qed.

End views.

Create HintDb keeps.
#[export] Hint Resolve keeps_ret keeps_get keeps_panic keeps_of_option keeps_env keeps_get_proc : keeps.

Ltac keeps_tac :=
  repeat first
    [ apply vkeeps_bind; [|intros ?] | apply vkeeps_for_each; intros ?
    | apply keeps_upd; done | solve [auto with keeps]
    | match goal with |- keeps (if ?b then _ else _) => destruct b end
    | progress cbv beta zeta ].

(** A step that keeps the view of the table. *)
Tactic Notation "keeps_step" hyp(E) "as" ident(x) ident(s) ident(V) :=
  apply bind_Ok in E as (x & s & V & E);
  first [apply keeps_env in V | apply keeps_get_proc in V | apply keeps_upd in V; [|done]].

Section effects.
Context {K : Type} `{ProcEnv K}.
Implicit Types s : pstate K.

Lemma upd_effect i f (g : pcore -> pcore) s s' :
  (forall p, core (f p) = g (core p)) -> upd_proc i f s = Ok tt s' ->
  view s' = (alter g i (core <$> procs s), nextpid s, initproc s).
Proof. intros Hf [= <-]. unfold view. simpl. by rewrite (core_alter f g). Qed.

Lemma find_proc_Some f l n i :
  find_proc f l n = Some i -> exists k p, i = (n + k)%nat /\ l !! k = Some p /\ f p = true.
Proof.
  revert n. induction l as [|p l IH]; intros n E; simpl in E; [done|].
  destruct (f p) eqn:Ef.
  - injection E as <-. exists 0%nat, p. split; [lia|done].
  - destruct (IH _ E) as (k & q & -> & Hk). exists (S k), q. split; [lia|done].
Qed.

Lemma find_proc_None f l n : find_proc f l n = None -> Forall (fun p => f p = false) l.
Proof.
  revert n. induction l as [|p l IH]; intros n E; simpl in E; [constructor|].
  destruct (f p) eqn:Ef; [done|]. constructor; [done|]. by eapply IH.
Qed.

(** An update of an entry, after statements that keep the view. *)
Lemma upd_view i f (g : pcore -> pcore) s s1 s' :
  (forall p, core (f p) = g (core p)) -> view s1 = view s -> upd_proc i f s1 = Ok tt s' ->
  view s' = (core <$> alter f i (procs s), nextpid s, initproc s).
Proof.
  intros Hf V E. rewrite (upd_effect i f g _ _ Hf E), (core_alter f g) by done.
  unfold view in V. by injection V as -> -> ->.
Qed.

(** The entry that [allocproc] takes, and how it looks. *)
Definition taken (pid : Z) (p : proc) : proc := set_pid pid (set_state EMBRYO p).

Lemma allocproc_take_effect s r s' :
  allocproc_take s = Ok r s' ->
  match r with
  | Some i => exists p, procs s !! i = Some p /\ p_state p = UNUSED /\
      view s' = (core <$> alter (taken (nextpid s)) i (procs s), s32 (nextpid s + 1), initproc s)
  | None => s' = s
  end.
Proof.
  unfold allocproc_take. intros E. apply bind_Ok in E as (s0 & s1 & [= <- <-] & E).
  destruct (find_proc _ _ 0) as [i|] eqn:Ef; [|by injection E as <- <-].
  apply find_proc_Some in Ef as (k & p & -> & Hk & Hu). rewrite Nat.add_0_l in E.
  unfold is_state in Hu. apply bool_decide_eq_true in Hu.
  apply bind_Ok in E as ([] & s1 & [= <-] & E). apply bind_Ok in E as ([] & s2 & [= <-] & E).
  injection E as <- <-. by exists p.
Qed.

Lemma allocproc_stack_effect i s ok s' :
  allocproc_stack i s = Ok ok s' ->
  if ok : bool then view s' = view s
  else view s' = (core <$> alter (set_state UNUSED) i (procs s), nextpid s, initproc s).
Proof.
  unfold allocproc_stack. intros E. keeps_step E as ks s1 V1. keeps_step E as u s2 V2.
  destruct (ks =? 0); apply bind_Ok in E as ([] & s3 & E3 & [= <- <-]).
  - eapply (upd_view _ _ (vstate UNUSED)); [done| |exact E3]. congruence.
  - apply keeps_upd in E3; [congruence|done].
Qed.

Lemma fork_copy_keeps cur i : keeps (fork_copy cur i).
Proof. unfold fork_copy. keeps_tac. Qed.

Lemma fork_undo_effect i s s' :
  fork_undo i s = Ok tt s' ->
  view s' = (core <$> alter (set_state UNUSED) i (procs s), nextpid s, initproc s).
Proof.
  unfold fork_undo. intros E. keeps_step E as q s1 V1. keeps_step E as u s2 V2.
  keeps_step E as u1 s3 V3. eapply (upd_view _ _ (vstate UNUSED)); [done| |exact E]. congruence.
Qed.

(** The only statement of [fork] that other processes see. *)
Lemma fork_fill_effect cur i st s s' :
  fork_fill cur i st s = Ok tt s' ->
  view s' = (core <$> alter (match st with FillParent => set_parent (Some cur) | _ => id end) i
    (procs s), nextpid s, initproc s).
Proof.
  intros E. unfold fork_fill in E. keeps_step E as p s1 V1.
  assert (forall m : M (pstate K) unit, keeps m -> m s1 = Ok tt s' -> view s' =
    (core <$> alter id i (procs s), nextpid s, initproc s)) as Hk.
  { intros m Hm E2. apply Hm in E2. rewrite E2, V1. unfold view. do 3 f_equal.
    apply list_eq. intros j. rewrite list_lookup_alter. case_decide; [|done]. subst.
    by destruct (_ !! j). }
  destruct st; try (eapply Hk; [|exact E]; keeps_tac).
  by eapply (upd_view _ _ (vparent (Some cur))).
Qed.

Lemma fork_publish_effect i s r s' :
  fork_publish i s = Ok r s' ->
  view s' = (core <$> alter (set_state RUNNABLE) i (procs s), nextpid s, initproc s).
Proof.
  unfold fork_publish. intros E. keeps_step E as q s1 V1.
  apply bind_Ok in E as ([] & s2 & E2 & [= <- <-]). by eapply (upd_view _ _ (vstate RUNNABLE)).
Qed.

Lemma exit_release_keeps cur st : keeps (exit_release cur st).
Proof. unfold exit_release. keeps_tac. destruct st; keeps_tac. Qed.

Lemma alter2 {A} (f g : A -> A) i (l : list A) : alter g i (alter f i l) = alter (g ∘ f) i l.
Proof.
  apply list_eq. intros j. rewrite !list_lookup_alter. repeat case_decide; try done.
  by destruct (l !! i).
Qed.

Lemma alter_ext (f g : pcore -> pcore) i (p : proc) (l : list proc) :
  l !! i = Some p -> f (core p) = g (core p) ->
  alter f i (core <$> l) = alter g i (core <$> l).
Proof.
  intros Hi E. apply list_eq. intros j. rewrite !list_lookup_alter. case_decide; [|done]. subst.
  rewrite list_lookup_fmap, Hi. simpl. by rewrite E.
Qed.

End effects.

(** ** The table after [wakeup1] and [exit] *)

(** [p'] is [p], possibly woken. *)
Definition woken (p p' : proc) : Prop :=
  p_pid p' = p_pid p /\ p_chan p' = p_chan p /\
  (p_state p' = p_state p \/ (p_state p = SLEEPING /\ p_state p' = RUNNABLE)).

Lemma woken_refl p : woken p p.
Proof. repeat split; auto. Qed.

Lemma woken_trans p q r : woken p q -> woken q r -> woken p r.
Proof. intros (? & ? & ?) (? & ? & ?). split_and!; [congruence..|]. intuition congruence. Qed.

Lemma wakeup1_lookup ch l i :
  wakeup1 ch l !! i =
    (fun p => if (is_state SLEEPING p && bool_decide (p_chan p = Some ch))%bool
              then set_state RUNNABLE p else p) <$> l !! i.
Proof. unfold wakeup1. apply list_lookup_fmap. Qed.

Lemma length_wakeup1 ch l : length (wakeup1 ch l) = length l.
Proof. apply length_fmap. Qed.

Lemma wakeup1_woken ch l i p :
  l !! i = Some p ->
  exists p', wakeup1 ch l !! i = Some p' /\ woken p p' /\ p_parent p' = p_parent p.
Proof.
  intros Hi. rewrite wakeup1_lookup, Hi. simpl. eexists. split; [reflexivity|].
  destruct (is_state SLEEPING p) eqn:Es; simpl; [|by auto using woken_refl].
  unfold is_state in Es. apply bool_decide_eq_true in Es.
  destruct (bool_decide _); [|by auto using woken_refl]. repeat split; auto.
Qed.

(** The entry [i] of the table once the children among the first [k] are
    handed to init. *)
Definition handed (cur init k i : nat) (p p' : proc) : Prop :=
  woken p p' /\
  p_parent p' = if decide (p_parent p = Some cur /\ (i < k)%nat) then Some init else p_parent p.

Lemma reparent_handed cur init k l l1 :
  (forall i p, l !! i = Some p -> exists p', l1 !! i = Some p' /\ handed cur init k i p p') ->
  length l1 = length l ->
  (forall i p, l !! i = Some p ->
    exists p', reparent cur init k l1 !! i = Some p' /\ handed cur init (S k) i p p') /\
  length (reparent cur init k l1) = length l.
Proof.
  intros H Hl. unfold reparent. destruct (l1 !! k) as [q|] eqn:Ek.
  2:{ split; [|done]. intros i p Hi. destruct (H i p Hi) as (p' & Hp' & W & E).
      exists p'. split; [done|]. split; [done|]. rewrite E.
      assert (i <> k) by congruence. repeat case_decide; try done; naive_solver lia. }
  destruct (lookup_lt_is_Some_2 l k) as [pk Hpk].
  { rewrite <- Hl. by eapply lookup_lt_Some. }
  destruct (H k pk Hpk) as (q' & Hq' & Wk & Ek'). assert (q' = q) as -> by congruence.
  rewrite decide_False in Ek' by lia.
  assert (forall i p (l2 : list proc),
    (forall p', l1 !! i = Some p' -> l2 !! i = Some (if decide (i = k /\ p_parent q = Some cur)
                                                    then set_parent (Some init) p' else p')) ->
    l !! i = Some p ->
    exists p', l2 !! i = Some p' /\ handed cur init (S k) i p p') as Hstep.
  { intros i p l2 Hl2 Hi. destruct (H i p Hi) as (p' & Hp' & W & E). rewrite (Hl2 p' Hp').
    eexists. split; [reflexivity|]. destruct (decide (i = k)) as [->|Hne].
    - assert (p' = q /\ p = pk) as [-> ->] by (split; congruence).
      clear E Hl2 Hp'. destruct (decide (k = k /\ p_parent q = Some cur)) as [[_ Hc]|Hc];
        (split; [exact Wk|]); simpl.
      + rewrite decide_True by (split; [congruence|lia]). done.
      + rewrite decide_False by (intros [? _]; apply Hc; split; congruence). done.
    - rewrite decide_False by naive_solver. split; [done|]. rewrite E.
      repeat case_decide; try done; naive_solver lia. }
  case_bool_decide as Ep.
  - assert (forall i p', l1 !! i = Some p' -> <[k := set_parent (Some init) q]> l1 !! i =
      Some (if decide (i = k /\ p_parent q = Some cur) then set_parent (Some init) p' else p')) as Hins.
    { intros i p' Hp'. destruct (decide (i = k)) as [->|Hne].
      - rewrite list_lookup_insert_eq by (by eapply lookup_lt_Some).
        rewrite decide_True by done. congruence.
      - rewrite list_lookup_insert_ne by done. rewrite decide_False by naive_solver. done. }
    destruct (is_state ZOMBIE q).
    + split; [|by rewrite length_wakeup1, length_insert].
      intros i p Hi. destruct (Hstep i p _ (Hins i) Hi) as (p1 & Hp1 & W1 & E1).
      destruct (wakeup1_woken (chan_of init) _ i p1 Hp1) as (p2 & Hp2 & W2 & E2).
      exists p2. split; [done|]. split; [by eapply woken_trans|congruence].
    + split; [|by rewrite length_insert]. intros i p Hi. apply Hstep; [apply Hins|done].
  - split; [|done]. intros i p Hi. apply Hstep; [|done]. intros p' Hp'.
    rewrite decide_False by naive_solver. done.
Qed.

Lemma reparent_all cur init l n :
  (forall i p, l !! i = Some p ->
    exists p', foldl (fun l i => reparent cur init i l) l (seq 0 n) !! i = Some p' /\
      handed cur init n i p p') /\
  length (foldl (fun l i => reparent cur init i l) l (seq 0 n)) = length l.
Proof.
  induction n as [|n [IH1 IH2]].
  - split; [|done]. intros i p Hi. exists p. split; [done|]. split; [apply woken_refl|].
    rewrite decide_False by lia. done.
  - rewrite seq_S, foldl_app. simpl. by apply reparent_handed.
Qed.

(** What [exit] does to entry [i]. *)
Definition exited (cur init i : nat) (p p' : proc) : Prop :=
  p_pid p' = p_pid p /\ p_chan p' = p_chan p /\
  p_parent p' = (if decide (p_parent p = Some cur) then Some init else p_parent p) /\
  (if decide (i = cur) then p_state p' = ZOMBIE
   else p_state p' = p_state p \/ (p_state p = SLEEPING /\ p_state p' = RUNNABLE)).

Lemma exit_table_spec cur init l i p :
  l !! i = Some p -> exists p', exit_table cur init l !! i = Some p' /\ exited cur init i p p'.
Proof.
  intros Hi. unfold exit_table. set (l1 := match _ with Some q => _ | None => l end).
  assert (exists p1, l1 !! i = Some p1 /\ woken p p1 /\ p_parent p1 = p_parent p) as (p1 & H1 & W1 & E1).
  { unfold l1. case_match; [by apply wakeup1_woken|]. exists p. split_and!; [done|apply woken_refl|done]. }
  destruct (reparent_all cur init l1 (length l1)) as [Hr _].
  destruct (Hr i p1 H1) as (p2 & H2 & W2 & E2).
  pose proof (woken_trans _ _ _ W1 W2) as (Wp & Wc & Ws).
  rewrite list_lookup_alter. pose proof (lookup_lt_Some _ _ _ H1) as Hlt.
  assert (p_parent p2 = if decide (p_parent p = Some cur) then Some init else p_parent p) as E3.
  { rewrite E2, E1. repeat case_decide; try done; naive_solver. }
  destruct (decide (cur = i)) as [Ec|Ec].
  - subst. rewrite H2. simpl. eexists. split; [reflexivity|]. unfold exited.
    split_and!; try done. by rewrite decide_True.
  - exists p2. split; [done|]. unfold exited. split_and!; try done. by rewrite decide_False by congruence.
Qed.

Lemma length_exit_table cur init l : length (exit_table cur init l) = length l.
Proof.
  unfold exit_table. rewrite length_alter. etrans; [apply reparent_all|].
  case_match; [apply length_wakeup1|done].
Qed.

(** ** Preservation *)

(** Two tables related entry by entry. *)
Definition entries (R : nat -> proc -> proc -> Prop) (l l' : list proc) : Prop :=
  length l' = length l /\
  forall i p, l !! i = Some p -> exists p', l' !! i = Some p' /\ R i p p'.

Lemma entries_rev R l l' i p' :
  entries R l l' -> l' !! i = Some p' -> exists p, l !! i = Some p /\ R i p p'.
Proof.
  intros [Hl H] Hi. destruct (lookup_lt_is_Some_2 l i) as [p Hp].
  { rewrite <- Hl. by eapply lookup_lt_Some. }
  destruct (H i p Hp) as (q & Hq & HR). exists p. split; [done|]. congruence.
Qed.

Lemma entries_alter R f i l :
  (forall p, l !! i = Some p -> R i p (f p)) -> (forall j p, R j p p) -> entries R l (alter f i l).
Proof.
  intros Hf Hr. split; [apply length_alter|]. intros j p Hj.
  rewrite list_lookup_alter. case_decide as E; [|eauto]. subst. rewrite Hj. simpl. eauto.
Qed.

(** Every entry keeps its pid; parents and liveness change as [R] allows. *)
Lemma woken_states p p' :
  woken p p' ->
  (live p' <-> live p) /\ (alive p' <-> alive p) /\ (p_state p' = RUNNING <-> p_state p = RUNNING) /\
  (p_state p' = UNUSED <-> p_state p = UNUSED) /\ (p_state p' = EMBRYO <-> p_state p = EMBRYO) /\
  (p_state p' = SLEEPING -> p_state p = SLEEPING).
Proof.
  intros (_ & _ & [E|[E E']]); unfold live, alive; [rewrite E|rewrite E, E']; intuition congruence.
Qed.

Lemma ptab_woken l l' np init cpus :
  entries (fun _ p p' => woken p p' /\ p_parent p' = p_parent p) l l' ->
  ptab_inv l np init cpus -> ptab_inv l' np init cpus.
Proof.
  intros En I. pose proof (fun i p' => entries_rev _ l l' i p' En) as Hrev.
  split; try apply I.
  - intros i p' Hi. destruct (Hrev i p' Hi) as (p & Hp & W & _).
    destruct (woken_states _ _ W) as (-> & _). destruct W as (-> & _). by apply (pv_pid _ _ _ _ I i).
  - intros i j p' q' Hi Hj. destruct (Hrev i p' Hi) as (p & Hp & W & _).
    destruct (Hrev j q' Hj) as (q & Hq & W' & _).
    destruct (woken_states _ _ W) as (-> & _), (woken_states _ _ W') as (-> & _).
    destruct W as (-> & _), W' as (-> & _). by apply (pv_uniq _ _ _ _ I).
  - intros i p' q Hi Hq. destruct (Hrev i p' Hi) as (p & Hp & _ & E). rewrite E in Hq.
    destruct (pv_parent _ _ _ _ I i p q Hp Hq) as (pq & Hpq & Ha).
    destruct (proj2 En q pq Hpq) as (pq' & Hpq' & W & _). exists pq'. split; [done|].
    by apply (woken_states _ _ W).
  - intros i p' Hi Hs. destruct (Hrev i p' Hi) as (p & Hp & W & ->).
    apply (woken_states _ _ W) in Hs. by apply (pv_unused _ _ _ _ I i).
  - intros i p' Hi Hs. destruct (Hrev i p' Hi) as (p & Hp & W & _).
    apply (woken_states _ _ W) in Hs. destruct W as (_ & -> & _). by apply (pv_sleep _ _ _ _ I i p).
  - intros i p' Hi Hs. destruct (Hrev i p' Hi) as (p & Hp & W & _).
    apply (woken_states _ _ W) in Hs. by apply (pv_run _ _ _ _ I i p).
  - intros c i Hc. destruct (pv_cpu _ _ _ _ I c i Hc) as (p & Hp & Hr).
    destruct (proj2 En i p Hp) as (p' & Hp' & W & _). exists p'. split; [done|].
    by apply (woken_states _ _ W).
  - destruct (pv_init _ _ _ _ I) as (i & p & Hi & Hp & Ha).
    destruct (proj2 En i p Hp) as (p' & Hp' & W & _). exists i, p'. split_and!; [done|done|..];
      by apply (woken_states _ _ W).
Qed.

Lemma on_None c d i cpus : on (<[c := None]> cpus) d i <-> on cpus d i /\ d <> c.
Proof.
  unfold on. destruct (decide (d = c)) as [->|Hne].
  - destruct (decide (c < length cpus)%nat).
    + rewrite list_lookup_insert_eq by done. naive_solver.
    + rewrite lookup_ge_None_2 by (rewrite length_insert; lia). naive_solver.
  - rewrite list_lookup_insert_ne by done. naive_solver.
Qed.

Lemma on_Some c d i j cpus :
  cpus !! c = Some None ->
  on (<[c := Some i]> cpus) d j <-> (d = c /\ j = i) \/ on cpus d j.
Proof.
  intros Hc. unfold on. destruct (decide (d = c)) as [->|Hne].
  - rewrite list_lookup_insert_eq by (by eapply lookup_lt_Some). naive_solver.
  - rewrite list_lookup_insert_ne by done. naive_solver.
Qed.

(** A live process changes its state or its channel, and moves on or off a CPU. *)
Lemma ptab_upd l np init cpus cpus' i p f :
  ptab_inv l np init cpus -> l !! i = Some p -> alive p -> alive (f p) ->
  p_pid (f p) = p_pid p -> p_parent (f p) = p_parent p ->
  (p_state (f p) = SLEEPING -> is_Some (p_chan (f p))) ->
  (forall d j, j <> i -> on cpus' d j <-> on cpus d j) ->
  (p_state (f p) = RUNNING <-> exists d, on cpus' d i) ->
  (forall d d', on cpus' d i -> on cpus' d' i -> d = d') ->
  ptab_inv (alter f i l) np init cpus'.
Proof.
  intros I Hi Ha0 Ha Epid Epar Hsl Hcpu Hrun Huniq.
  assert (live (f p) /\ live p) as [Hl Hl0] by (unfold alive, live in *; tauto).
  assert (forall j q, alter f i l !! j = Some q ->
    (j = i /\ q = f p) \/ (j <> i /\ l !! j = Some q)) as Hlk.
  { intros j q. rewrite list_lookup_alter. case_decide; [subst; rewrite Hi; naive_solver|naive_solver]. }
  assert (forall j q, l !! j = Some q -> alive q -> exists q', alter f i l !! j = Some q' /\ alive q')
    as Hal.
  { intros j q Hj Hq. rewrite list_lookup_alter. case_decide; [subst; rewrite Hi; simpl; eauto|eauto]. }
  split; try apply I.
  - intros j q [[-> ->]|[_ Hj]]%Hlk; [rewrite Epid; intros _; by apply (pv_pid _ _ _ _ I i)|].
    by apply (pv_pid _ _ _ _ I j).
  - intros j k q r [[-> ->]|[? Hj]]%Hlk [[-> ->]|[? Hk]]%Hlk Lq Lr; rewrite ?Epid; intros E;
      try done; by eapply (pv_uniq _ _ _ _ I).
  - intros j q r [[-> ->]|[_ Hj]]%Hlk E; rewrite ?Epar in E;
      [destruct (pv_parent _ _ _ _ I i p r Hi E) as (pq & ? & ?)
      |destruct (pv_parent _ _ _ _ I j q r Hj E) as (pq & ? & ?)]; eauto.
  - intros j q [[-> ->]|[_ Hj]]%Hlk E; [done|by apply (pv_unused _ _ _ _ I j)].
  - intros j q [[-> ->]|[_ Hj]]%Hlk E; [by apply Hsl|by apply (pv_sleep _ _ _ _ I j)].
  - intros j q [[-> ->]|[Hne Hj]]%Hlk E; [by apply Hrun|].
    destruct (pv_run _ _ _ _ I j q Hj E) as [d Hd]. exists d. by apply Hcpu.
  - intros d j Hd. rewrite list_lookup_alter. case_decide as Ej.
    + subst. rewrite Hi. exists (f p). split; [done|]. apply Hrun. eauto.
    + apply (pv_cpu _ _ _ _ I d). by apply Hcpu.
  - intros d d' j Hd Hd'. destruct (decide (j = i)) as [->|Hne]; [by apply Huniq|].
    apply Hcpu in Hd, Hd'; [|done..]. by eapply (pv_cpu1 _ _ _ _ I).
  - destruct (pv_init _ _ _ _ I) as (j & q & Ej & Hj & Hq).
    destruct (Hal j q Hj Hq) as (q' & ? & ?). eauto 10.
Qed.

Lemma on_alive l np init cpus c i :
  ptab_inv l np init cpus -> on cpus c i ->
  exists p, l !! i = Some p /\ p_state p = RUNNING /\ alive p.
Proof.
  intros I Hc. destruct (pv_cpu _ _ _ _ I c i Hc) as (p & Hp & Hr).
  exists p. unfold alive. by rewrite Hr.
Qed.

(** The process on CPU [c] gives it up. *)
Lemma ptab_leave l np init cpus c i f :
  ptab_inv l np init cpus -> on cpus c i ->
  (forall p, l !! i = Some p -> p_pid (f p) = p_pid p /\ p_parent (f p) = p_parent p /\
    (p_state (f p) = RUNNABLE \/ (p_state (f p) = SLEEPING /\ is_Some (p_chan (f p))))) ->
  ptab_inv (alter f i l) np init (<[c := None]> cpus).
Proof.
  intros I Hc Hf. destruct (on_alive _ _ _ _ _ _ I Hc) as (p & Hi & Hr & Ha).
  destruct (Hf p Hi) as (Epid & Epar & Est).
  assert (forall d, on (<[c := None]> cpus) d i -> False) as Hoff.
  { intros d [Hd Hne]%on_None. by destruct (pv_cpu1 _ _ _ _ I d c i Hd Hc). }
  eapply (ptab_upd l np init cpus _ i p f); try done.
  - unfold alive. destruct Est as [->|[-> _]]; done.
  - intros E. destruct Est as [?|[_ ?]]; [congruence|done].
  - intros d j Hne. rewrite on_None. split; [tauto|]. intros Hd. split; [done|].
    intros ->. unfold on in *. congruence.
  - split; [destruct Est as [->|[-> _]]; done|]. intros [d Hd]. by destruct (Hoff d).
  - intros d d' Hd. by destruct (Hoff d).
Qed.

(** An idle CPU takes a runnable process. *)
Lemma ptab_pick l np init cpus c i p :
  ptab_inv l np init cpus -> cpus !! c = Some None -> l !! i = Some p -> p_state p = RUNNABLE ->
  ptab_inv (alter (set_state RUNNING) i l) np init (<[c := Some i]> cpus).
Proof.
  intros I Hc Hi Hr.
  assert (forall d, on cpus d i -> False) as Hoff.
  { intros d Hd. destruct (pv_cpu _ _ _ _ I d i Hd) as (q & Hq & Eq). congruence. }
  eapply (ptab_upd l np init cpus _ i p); try done; unfold alive; rewrite ?Hr; try done.
  - intros d j Hne. rewrite on_Some by done. naive_solver.
  - split; [|done]. intros _. exists c. apply on_Some; auto.
  - intros d d' [[-> _]|Hd]%on_Some [[-> _]|Hd']%on_Some; try done; try (by destruct (Hoff d));
      by destruct (Hoff d').
Qed.

(** The running process clears its channel. *)
Lemma ptab_tidy l np init cpus c i :
  ptab_inv l np init cpus -> on cpus c i -> ptab_inv (alter (set_chan None) i l) np init cpus.
Proof.
  intros I Hc. destruct (on_alive _ _ _ _ _ _ I Hc) as (p & Hi & Hr & Ha).
  eapply (ptab_upd l np init cpus _ i p); try done; simpl; rewrite ?Hr; try done.
  - split; [eauto|done].
  - intros d d'. apply (pv_cpu1 _ _ _ _ I).
Qed.

(** An entry that is not alive is nobody's parent and on no CPU. *)
Lemma dead_entry l np init cpus i p :
  ptab_inv l np init cpus -> l !! i = Some p -> ~ alive p ->
  (forall j q, l !! j = Some q -> p_parent q <> Some i) /\ (forall c, ~ on cpus c i) /\ init <> Some i.
Proof.
  intros I Hi Ha. split_and!.
  - intros j q Hj E. destruct (pv_parent _ _ _ _ I j q i Hj E) as (p' & Hp' & Ha').
    assert (p' = p) by congruence. by subst.
  - intros c Hc. destruct (on_alive _ _ _ _ _ _ I Hc) as (p' & Hp' & _ & Ha').
    assert (p' = p) by congruence. by subst.
  - intros ->. destruct (pv_init _ _ _ _ I) as (j & q & [= <-] & Hj & Hq).
    assert (q = p) by congruence. by subst.
Qed.

(** Such an entry becomes UNUSED, is taken with a fresh pid, or goes on with the
    pid it has. *)
Lemma ptab_slot l np np' init cpus i p f :
  ptab_inv l np init cpus -> l !! i = Some p -> ~ alive p -> np <= np' ->
  (p_state (f p) = UNUSED /\ p_parent (f p) = None \/
   (p_state (f p) = EMBRYO \/ p_state (f p) = RUNNABLE) /\
   (np <= p_pid (f p) < np' \/ live p /\ p_pid (f p) = p_pid p) /\
   forall q, p_parent (f p) = Some q -> exists pq, l !! q = Some pq /\ alive pq) ->
  ptab_inv (alter f i l) np' init cpus.
Proof.
  intros I Hi Ha Hnp Hf. destruct (dead_entry _ _ _ _ _ _ I Hi Ha) as (Hpar & Hcpu & Hin).
  pose proof (pv_next _ _ _ _ I) as Hnp0.
  assert (forall j q, alter f i l !! j = Some q ->
    (j = i /\ q = f p) \/ (j <> i /\ l !! j = Some q)) as Hlk.
  { intros j q. rewrite list_lookup_alter. case_decide; [subst; rewrite Hi; naive_solver|naive_solver]. }
  assert (forall j q, j <> i -> l !! j = Some q -> alter f i l !! j = Some q) as Hsame.
  { intros j q Hne Hj. by rewrite list_lookup_alter_ne. }
  assert (live (f p) -> 0 < p_pid (f p) < np' /\
    forall j q, l !! j = Some q -> live q -> j <> i -> p_pid q <> p_pid (f p)) as Hpid.
  { intros Hl. destruct Hf as [[E _]|(_ & [?|[Lp E]] & _)]; [done| |]; split.
    - lia.
    - intros j q Hj Hq _. pose proof (pv_pid _ _ _ _ I j q Hj Hq). lia.
    - pose proof (pv_pid _ _ _ _ I i p Hi Lp). lia.
    - intros j q Hj Hq Hne E'. apply Hne. eapply (pv_uniq _ _ _ _ I); eauto. congruence. }
  assert (p_state (f p) <> SLEEPING /\ p_state (f p) <> RUNNING) as [Hns Hnr].
  { destruct Hf as [[-> _]|([->| ->] & _)]; done. }
  split.
  - lia.
  - intros j q [[-> ->]|[Hne Hj]]%Hlk Hq; [by apply Hpid|].
    pose proof (pv_pid _ _ _ _ I j q Hj Hq). lia.
  - intros j k q r [[-> ->]|[? Hj]]%Hlk [[-> ->]|[? Hk]]%Hlk Lq Lr E; try done.
    + by destruct (proj2 (Hpid Lq) k r).
    + by destruct (proj2 (Hpid Lr) j q).
    + by eapply (pv_uniq _ _ _ _ I).
  - intros j q r [[-> ->]|[Hne Hj]]%Hlk E.
    + destruct Hf as [[_ E']|(_ & _ & Hq)]; [congruence|]. destruct (Hq r E) as (pq & Hr & Hal).
      exists pq. split; [|done]. apply Hsame; [|done]. intros ->. apply Ha. congruence.
    + destruct (pv_parent _ _ _ _ I j q r Hj E) as (pq & Hq & Hal).
      exists pq. split; [|done]. apply Hsame; [|done]. intros ->. by apply (Hpar j q).
  - intros j q [[-> ->]|[Hne Hj]]%Hlk E; [|by apply (pv_unused _ _ _ _ I j)].
    destruct Hf as [[_ ?]|([?|?] & _)]; [done|congruence..].
  - intros j q [[-> ->]|[Hne Hj]]%Hlk E; [done|by apply (pv_sleep _ _ _ _ I j)].
  - intros j q [[-> ->]|[Hne Hj]]%Hlk E; [done|by apply (pv_run _ _ _ _ I j q)].
  - intros c j Hc. destruct (pv_cpu _ _ _ _ I c j Hc) as (q & Hq & Er).
    exists q. split; [|done]. apply Hsame; [|done]. intros ->. by apply (Hcpu c).
  - apply I.
  - destruct (pv_init _ _ _ _ I) as (j & q & Ej & Hj & Hq). exists j, q.
    split_and!; [done| |done..]. apply Hsame; [|done]. congruence.
Qed.

(** An entry after [exit]: the zombie, or an entry that may have been woken. *)
Lemma exit_entry cur ini l i p' :
  exit_table cur ini l !! i = Some p' ->
  exists p, l !! i = Some p /\ exited cur ini i p p' /\
    (i = cur /\ p_state p' = ZOMBIE \/ i <> cur /\ woken p p').
Proof.
  assert (entries (exited cur ini) l (exit_table cur ini l)) as En.
  { split; [apply length_exit_table|]. intros k p. apply exit_table_spec. }
  intros Hi. destruct (entries_rev _ l _ i p' En Hi) as (p & Hp & X). exists p. split_and!; [done..|].
  destruct X as (E1 & E2 & E3 & E4). case_decide; [left|right]; done.
Qed.

Lemma exit_alive cur ini l i p :
  l !! i = Some p -> i <> cur ->
  exists p', exit_table cur ini l !! i = Some p' /\ woken p p'.
Proof.
  intros Hi Hic. destruct (exit_table_spec cur ini l i p Hi) as (p' & Hp' & E1 & E2 & E3 & E4).
  exists p'. rewrite decide_False in E4 by done. done.
Qed.

(** The process on CPU [c] exits. *)
Lemma ptab_exit l np init cpus c cur ini :
  ptab_inv l np init cpus -> on cpus c cur -> init = Some ini -> ini <> cur ->
  ptab_inv (exit_table cur ini l) np init (<[c := None]> cpus).
Proof.
  intros I Hc Ei Hne. destruct (on_alive _ _ _ _ _ _ I Hc) as (pc & Hpc & Hrun & Hac).
  destruct (pv_init _ _ _ _ I) as (ini' & pin & Ei' & Hini & Hain).
  assert (ini' = ini) as -> by congruence.
  assert (forall i p, l !! i = Some p -> alive p -> i <> cur ->
    exists p', exit_table cur ini l !! i = Some p' /\ alive p') as Hal.
  { intros i p Hi Hp Hic. destruct (exit_alive cur ini l i p Hi Hic) as (p' & Hp' & W). exists p'.
    split; [done|]. by apply (woken_states _ _ W). }
  assert (forall i p', exit_table cur ini l !! i = Some p' -> live p' ->
    exists p, l !! i = Some p /\ live p /\ p_pid p' = p_pid p) as Hlv.
  { intros i p' Hi Hp'. destruct (exit_entry _ _ _ _ _ Hi) as (p & Hp & (E & _) & [[-> _]|[_ W]]); exists p.
    - split_and!; [done| |done]. unfold live. assert (p = pc) as -> by congruence. by rewrite Hrun.
    - destruct (woken_states _ _ W) as (Hl & _). split_and!; [done|by apply Hl|done]. }
  split.
  - apply I.
  - intros i p' Hi Hl. destruct (Hlv i p' Hi Hl) as (p & Hp & Lp & ->). by apply (pv_pid _ _ _ _ I i).
  - intros i j p' q' Hi Hj Lp Lq. destruct (Hlv i p' Hi Lp) as (p & Hp & Lp' & ->).
    destruct (Hlv j q' Hj Lq) as (q & Hq & Lq' & ->). by apply (pv_uniq _ _ _ _ I).
  - intros i p' q Hi E. destruct (exit_entry _ _ _ _ _ Hi) as (p & Hp & (_ & _ & Ep & _) & _). rewrite Ep in E.
    destruct (decide (p_parent p = Some cur)) as [Epc|Epc]; [injection E as <-; by apply (Hal ini pin)|].
    destruct (pv_parent _ _ _ _ I i p q Hp E) as (pq & Hq & Hqa). apply (Hal q pq); [done|done|congruence].
  - intros i p' Hi E. destruct (exit_entry _ _ _ _ _ Hi) as (p & Hp & X & [[-> Ez]|[Hic W]]); [congruence|].
    apply (woken_states _ _ W) in E. pose proof (pv_unused _ _ _ _ I i p Hp E) as Hn.
    destruct X as (_ & _ & -> & _). rewrite Hn. by rewrite decide_False by done.
  - intros i p' Hi E. destruct (exit_entry _ _ _ _ _ Hi) as (p & Hp & X & [[-> Ez]|[Hic W]]); [congruence|].
    apply (woken_states _ _ W) in E. destruct X as (_ & -> & _). by apply (pv_sleep _ _ _ _ I i p).
  - intros i p' Hi E. destruct (exit_entry _ _ _ _ _ Hi) as (p & Hp & _ & [[-> Ez]|[Hic W]]); [congruence|].
    apply (woken_states _ _ W) in E. destruct (pv_run _ _ _ _ I i p Hp E) as [d Hd].
    exists d. apply on_None. split; [done|]. intros ->. unfold on in *. congruence.
  - intros d i [Hd Hdc]%on_None. destruct (pv_cpu _ _ _ _ I d i Hd) as (p & Hp & Er).
    assert (i <> cur) as Hic by (intros ->; by destruct (pv_cpu1 _ _ _ _ I d c cur Hd Hc)).
    destruct (exit_alive cur ini l i p Hp Hic) as (p' & Hp' & W). exists p'. split; [done|].
    by apply (woken_states _ _ W).
  - intros d d' i [Hd _]%on_None [Hd' _]%on_None. by eapply (pv_cpu1 _ _ _ _ I).
  - destruct (Hal ini pin Hini Hain Hne) as (p' & ? & ?). eauto 10.
Qed.

(** ** Entries being filled in *)

(** An entry changes, but not whether it is being filled in. *)
Definition settled (pos : nat -> kpos) (i : nat) (p p' : proc) : Prop :=
  (p_state p' = EMBRYO <-> p_state p = EMBRYO) /\
  (p_state p = EMBRYO -> p_parent p = None -> p_parent p' = None) /\
  (pos i <> Idle -> alive p -> alive p').

(** A process goes on with [exit], or leaves it. *)
Definition goes_on (x x' : kpos) : Prop :=
  x' = x \/ (builds x = None /\ x' = Idle) \/ exists t t', x = Exiting t /\ x' = Exiting t'.

Lemma goes_on_set (pos : nat -> kpos) i x k :
  goes_on (pos i) x -> goes_on (pos k) (<[i := x]> pos k).
Proof.
  intros Hx. destruct (decide (i = k)) as [->|Hne].
  - by rewrite fn_lookup_insert.
  - rewrite fn_lookup_insert_ne by done. by left.
Qed.

Lemma pos_entries l l' init pos pos' :
  entries (settled pos') l l' -> (forall k, goes_on (pos k) (pos' k)) ->
  pos_inv l init pos -> pos_inv l' init pos'.
Proof.
  intros En Hg I. pose proof (fun i p' => entries_rev _ l l' i p' En) as Hrev.
  assert (forall k j, builds (pos' k) = Some j <-> builds (pos k) = Some j) as Hb.
  { intros k j. destruct (Hg k) as [->|[[E ->]|(t & t' & -> & ->)]]; naive_solver. }
  split.
  - intros j p' Hj Hs. destruct (Hrev j p' Hj) as (p & Hp & X & _). apply X in Hs.
    destruct (po_embryo _ _ _ I j p Hp Hs) as [i Hi]. exists i. by apply Hb.
  - intros i j Hi. apply Hb in Hi as Hi0. destruct (po_build _ _ _ I i j Hi0) as (p & Hp & Hs & Hn).
    destruct (proj2 En j p Hp) as (p' & Hp' & X & Y & _). exists p'. split_and!; [done|by apply X|].
    intros Hf. apply Y; [done|]. apply Hn. intros todo E. apply (Hf todo).
    destruct (Hg i) as [->|[[E' _]|(t & t' & E' & _)]]; [done|congruence..].
  - intros i i' j Hi%Hb Hi'%Hb. by eapply (po_build1 _ _ _ I).
  - intros i Hi. destruct (po_busy _ _ _ I i) as (p & Hp & Ha).
    { destruct (Hg i) as [<-|[[_ E]|(t & t' & -> & _)]]; done. }
    destruct (proj2 En i p Hp) as (p' & Hp' & _ & _ & X). exists p'. auto.
  - intros i todo E. destruct (Hg i) as [E'|[[_ E']|(t & t' & E' & _)]]; [|congruence|].
    + apply (po_exit _ _ _ I i todo). congruence.
    + by apply (po_exit _ _ _ I i t).
Qed.

(** Process [i] takes entry [j], changes it, or is done with it. *)
Lemma pos_fork l init pos i j p pi f x :
  pos_inv l init pos -> l !! i = Some pi -> alive pi -> l !! j = Some p -> ~ alive p ->
  builds (pos i) = Some j \/ (pos i = Idle /\ p_state p <> EMBRYO) ->
  match x with
  | Forking j' a => j' = j /\ p_state (f p) = EMBRYO /\
      ((forall todo, a <> AtFill todo) -> p_parent (f p) = None)
  | Idle => p_state (f p) <> EMBRYO
  | Exiting _ => False
  end ->
  pos_inv (alter f j l) init (<[i := x]> pos).
Proof.
  intros I Hi Hai Hj Haj Hpos Hx.
  assert (forall k q, k <> j -> alter f j l !! k = Some q <-> l !! k = Some q) as Hne.
  { intros k q Hk. by rewrite list_lookup_alter_ne. }
  assert (alter f j l !! j = Some (f p)) as Hfj by (by rewrite list_lookup_alter_eq, Hj).
  assert (forall k, k <> i -> <[i := x]> pos k = pos k) as Hpk.
  { intros k Hk. by rewrite fn_lookup_insert_ne. }
  assert (<[i := x]> pos i = x) as Hpi by apply fn_lookup_insert.
  assert (forall k a, builds (pos k) = Some a -> k <> i -> a <> j) as Hother.
  { intros k a Hk Hki ->. destruct Hpos as [Hp|[Hp He]].
    - apply Hki. by eapply (po_build1 _ _ _ I).
    - destruct (po_build _ _ _ I k j Hk) as (q & Hq & Hs & _). congruence. }
  assert (forall a, builds x = Some a -> a = j) as Hxj by (intros a Ha; destruct x; naive_solver).
  split.
  - intros k q Hk Hs. destruct (decide (k = j)) as [->|Hkj].
    + exists i. rewrite Hpi. assert (q = f p) as -> by congruence. destruct x; naive_solver.
    + apply Hne in Hk; [|done]. destruct (po_embryo _ _ _ I k q Hk Hs) as [k0 Hk0].
      exists k0. rewrite Hpk; [done|]. intros ->. destruct Hpos as [Hp|[Hp _]]; [congruence|].
      by rewrite Hp in Hk0.
  - intros k a Hk. destruct (decide (k = i)) as [->|Hki].
    + rewrite Hpi in *. assert (a = j) as -> by auto. exists (f p).
      destruct x as [|j' at_|]; [done| |done]. destruct Hx as (-> & Hs & Hn).
      split_and!; [done..|]. intros Hf. apply Hn. intros todo ->. by apply (Hf todo).
    + rewrite Hpk in * by done. destruct (po_build _ _ _ I k a Hk) as (q & Hq & Hs & Hn).
      exists q. split_and!; [|done..]. apply Hne; eauto.
  - intros k k' a Hk Hk'. destruct (decide (k = i)) as [->|Hki], (decide (k' = i)) as [->|Hki'];
      rewrite ?Hpi, ?Hpk in * by done; try done.
    + apply Hxj in Hk as ->. by destruct (Hother k' j).
    + apply Hxj in Hk' as ->. by destruct (Hother k j).
    + by eapply (po_build1 _ _ _ I).
  - intros k Hk. assert (exists q, l !! k = Some q /\ alive q) as (q & Hq & Haq).
    { destruct (decide (k = i)) as [->|Hki]; [eauto|]. rewrite Hpk in Hk by done.
      by apply (po_busy _ _ _ I). }
    exists q. split; [|done]. apply Hne; [|done]. intros ->. apply Haj. congruence.
  - intros k todo Hk. destruct (decide (k = i)) as [->|Hki].
    + rewrite Hpi in Hk. by subst.
    + rewrite Hpk in Hk by done. by apply (po_exit _ _ _ I k todo).
Qed.

Lemma woken_settled pos i p p' :
  woken p p' -> (p_parent p = None -> p_parent p' = None) -> settled pos i p p'.
Proof.
  intros W Hp. destruct (woken_states _ _ W) as (_ & Ha & _ & _ & He & _).
  unfold settled. split_and!; [apply He|auto|]. intros _. apply Ha.
Qed.

Lemma settled_refl pos i p : settled pos i p p.
Proof. unfold settled. tauto. Qed.

Lemma pos_core l l' init pos : core <$> l = core <$> l' -> pos_inv l init pos -> pos_inv l' init pos.
Proof.
  intros E. apply pos_entries; [|by left]. split.
  - apply (f_equal length) in E. by rewrite !length_fmap in E.
  - intros i p Hi. destruct (core_lookup l l' i p E Hi) as (p' & Hp' & Es & Ep & Er & Ec).
    exists p'. split; [done|]. unfold settled, alive. rewrite Es, Er. tauto.
Qed.

(** A process that has been created changes state and stays alive. *)
Lemma pos_upd l init pos i p f :
  pos_inv l init pos -> l !! i = Some p -> alive p -> alive (f p) -> pos_inv (alter f i l) init pos.
Proof.
  intros I Hi Ha Ha'. eapply pos_entries; [|by left|exact I].
  apply entries_alter; [|intros; apply settled_refl].
  intros q Hq. assert (q = p) as -> by congruence. unfold settled, alive in *. tauto.
Qed.

(** A running process that is not init begins to exit. *)
Lemma pos_exit_begin l np init cpus pos c i :
  ptab_inv l np init cpus -> pos_inv l init pos -> on cpus c i -> pos i = Idle -> init <> Some i ->
  pos_inv l init (<[i := Exiting rel_order]> pos).
Proof.
  intros I J Hc Hi Hne.
  assert (forall k, k <> i -> <[i := Exiting rel_order]> pos k = pos k) as Hk.
  { intros k Hki. by rewrite fn_lookup_insert_ne. }
  assert (<[i := Exiting rel_order]> pos i = Exiting rel_order) as Hpi by apply fn_lookup_insert.
  assert (forall k j, builds (<[i := Exiting rel_order]> pos k) = Some j <->
    builds (pos k) = Some j) as Hb.
  { intros k j. destruct (decide (k = i)) as [->|Hki]; [by rewrite Hpi, Hi|by rewrite Hk]. }
  split.
  - intros j p Hj Hs. destruct (po_embryo _ _ _ J j p Hj Hs) as [k Hkj]. exists k. by apply Hb.
  - intros k j Hkj%Hb. destruct (po_build _ _ _ J k j Hkj) as (p & Hp & Hs & Hn).
    exists p. split_and!; [done..|]. rewrite Hk; [done|]. intros ->. by rewrite Hi in Hkj.
  - intros k k' j Ha%Hb Hb'%Hb. by eapply (po_build1 _ _ _ J).
  - intros k Hki. destruct (decide (k = i)) as [->|Hne'].
    + destruct (on_alive _ _ _ _ _ _ I Hc) as (p & Hp & _ & Ha). eauto.
    + rewrite Hk in Hki by done. by apply (po_busy _ _ _ J).
  - intros k todo E. destruct (decide (k = i)) as [->|Hne']; [done|].
    rewrite Hk in E by done. by apply (po_exit _ _ _ J k todo).
Qed.

Section preservation.
Context {K : Type} `{ProcEnv K}.
Implicit Types (s : pstate K) (cpus : list (option nat)) (pos : nat -> kpos).

Record kinv (x : machine K) : Prop := {
  ki_tab : ptab_inv (procs (m_s x)) (nextpid (m_s x)) (initproc (m_s x)) (m_cpus x);
  ki_pos : pos_inv (procs (m_s x)) (initproc (m_s x)) (m_pos x)
}.

Lemma kinv_view s' l np init cpus pos :
  view s' = (core <$> l, np, init) -> ptab_inv l np init cpus -> pos_inv l init pos ->
  kinv (Mach s' cpus pos).
Proof.
  unfold view. intros [= E En Ei] I J. symmetry in E.
  split; simpl; rewrite ?En, Ei; [by eapply ptab_inv_core|by eapply pos_core].
Qed.

(** Nothing that the invariant looks at has changed. *)
Lemma kinv_same s s' cpus pos pos' :
  view s' = view s -> (forall k, goes_on (pos k) (pos' k)) ->
  kinv (Mach s cpus pos) -> kinv (Mach s' cpus pos').
Proof.
  intros V Hg [I J]. simpl in *. eapply kinv_view; [exact V|done|].
  eapply pos_entries; [|exact Hg|exact J]. split; [done|]. intros i p Hi. exists p.
  split; [done|apply settled_refl].
Qed.

(** The table is the same but for sleepers that have been woken. *)
Lemma kinv_woken s l cpus pos :
  entries (fun _ p p' => woken p p' /\ p_parent p' = p_parent p) (procs s) l ->
  kinv (Mach s cpus pos) -> kinv (Mach (PState l (nextpid s) (initproc s) (penv s)) cpus pos).
Proof.
  intros En [I J]. split; simpl in *; [by eapply ptab_woken|].
  eapply pos_entries; [|by left|exact J]. split; [apply En|]. intros i p Hi.
  destruct (proj2 En i p Hi) as (p' & Hp' & W & Er). exists p'. split; [done|].
  apply woken_settled; [done|congruence].
Qed.

Lemma get_proc_Ok i s p s' : get_proc i s = Ok p s' -> s' = s /\ procs s !! i = Some p.
Proof.
  unfold get_proc. intros (t & t' & [= <- <-] & E)%bind_Ok.
  destruct (procs s !! i); [|done]. by injection E as -> ->.
Qed.

Lemma sched_Ok i s s' : sched i s = Ok tt s' -> s' = s.
Proof.
  unfold sched. intros (p & t & E & E2)%bind_Ok. apply get_proc_Ok in E as [-> _].
  destruct (is_state RUNNING p); [done|]. by injection E2.
Qed.

Lemma upd_Ok i f s s' :
  upd_proc i f s = Ok tt s' -> s' = PState (alter f i (procs s)) (nextpid s) (initproc s) (penv s).
Proof. by intros [= <-]. Qed.

(** The running process gives up its CPU. *)
Lemma leave_inv c i f s cpus pos :
  kinv (Mach s cpus pos) -> on cpus c i ->
  (forall p, p_pid (f p) = p_pid p /\ p_parent (f p) = p_parent p /\
    (p_state (f p) = RUNNABLE \/ (p_state (f p) = SLEEPING /\ is_Some (p_chan (f p))))) ->
  kinv (Mach (PState (alter f i (procs s)) (nextpid s) (initproc s) (penv s))
    (<[c := None]> cpus) pos).
Proof.
  intros [I J] Hc Hf. simpl in *. split; simpl; [by apply ptab_leave|].
  destruct (on_alive _ _ _ _ _ _ I Hc) as (p & Hp & _ & Ha).
  eapply pos_upd; eauto. unfold alive. destruct (Hf p) as (_ & _ & [->|[-> _]]); done.
Qed.

Lemma sleep_inv i c ch s s' cpus pos :
  kinv (Mach s cpus pos) -> on cpus c i -> sleep i ch s = Ok tt s' ->
  kinv (Mach s' (<[c := None]> cpus) pos).
Proof.
  intros I Hc E. unfold sleep in E.
  apply bind_Ok in E as ([] & s1 & ->%upd_Ok & E). apply bind_Ok in E as ([] & s2 & ->%upd_Ok & E).
  apply sched_Ok in E as ->. simpl. rewrite alter2. apply leave_inv; [done|done|].
  intros p. simpl. eauto 10.
Qed.

Lemma pick_inv c i s s' cpus pos :
  kinv (Mach s cpus pos) -> cpus !! c = Some None -> scheduler_pick i s = Ok true s' ->
  kinv (Mach s' (<[c := Some i]> cpus) pos).
Proof.
  intros [I J] Hc E. simpl in *. unfold scheduler_pick in E. apply bind_Ok in E as (p & s1 & E1 & E).
  apply get_proc_Ok in E1 as [-> Hp]. destruct (is_state RUNNABLE p) eqn:Er; [|done].
  unfold is_state in Er. apply bool_decide_eq_true in Er.
  apply bind_Ok in E as ([] & s2 & E2 & E). apply keeps_env in E2.
  apply bind_Ok in E as ([] & s3 & E3 & [= <-]).
  assert (view s3 = (core <$> alter (set_state RUNNING) i (procs s), nextpid s, initproc s)) as V
    by (by eapply (upd_view i _ (vstate RUNNING))).
  eapply kinv_view; [exact V|by eapply ptab_pick|].
  eapply pos_upd; eauto; unfold alive; by rewrite ?Er.
Qed.

Lemma kill_entries pid l :
  entries (fun _ p p' => woken p p' /\ p_parent p' = p_parent p) l (kill pid l).2.
Proof.
  unfold kill. destruct (find_proc _ l 0) as [i|]; simpl.
  - apply entries_alter.
    + intros p _. unfold is_state. simpl. case_bool_decide as E; [|by repeat split; auto].
      repeat split; auto.
    + intros j p. split; [apply woken_refl|done].
  - split; [done|]. intros j p Hj. exists p. split_and!; [done|apply woken_refl|done].
Qed.

(** *** The steps of [fork] *)

Lemma not_alive p : p_state p = UNUSED \/ p_state p = EMBRYO \/ p_state p = ZOMBIE -> ~ alive p.
Proof. unfold alive. tauto. Qed.

Lemma take_inv c i r s s' cpus pos :
  kinv (Mach s cpus pos) -> on cpus c i -> pos i = Idle -> nextpid s < 2147483647 ->
  allocproc_take s = Ok r s' ->
  kinv (Mach s' cpus (<[i := match r with Some j => Forking j AtStack | None => Idle end]> pos)).
Proof.
  intros I Hc Hi Hnp E. apply allocproc_take_effect in E. destruct r as [j|].
  - destruct I as [I J], E as (p & Hp & Hu & V). simpl in *. pose proof (pv_next _ _ _ _ I).
    destruct (on_alive _ _ _ _ _ _ I Hc) as (pi & Hpi & _ & Ha).
    pose proof (not_alive p (or_introl Hu)) as Hna. pose proof (pv_unused _ _ _ _ I j p Hp Hu) as Hpar.
    rewrite s32_small in V by lia. eapply kinv_view; [exact V| |].
    + eapply ptab_slot; eauto; [lia|]. right. simpl. split_and!; [auto|lia|congruence].
    + eapply (pos_fork _ _ _ i j p pi); eauto. right. split; [done|congruence].
  - subst s'. eapply kinv_same; [done| |exact I]. intros k. apply goes_on_set. by left.
Qed.

(** The process on a CPU and the entry it is filling in. *)
Lemma forker c i j at_ s cpus pos :
  kinv (Mach s cpus pos) -> on cpus c i -> pos i = Forking j at_ ->
  exists pi p, procs s !! i = Some pi /\ alive pi /\ procs s !! j = Some p /\ p_state p = EMBRYO /\
    ((forall todo, at_ <> AtFill todo) -> p_parent p = None).
Proof.
  intros [I J] Hc Hi. simpl in *. destruct (on_alive _ _ _ _ _ _ I Hc) as (pi & Hpi & _ & Ha).
  destruct (po_build _ _ _ J i j) as (p & Hp & Hs & Hn); [by rewrite Hi|].
  exists pi, p. split_and!; [done..|]. intros Hf. apply Hn. intros todo. rewrite Hi.
  intros [= ->]. by apply (Hf todo).
Qed.

(** The entry being filled in changes as seen by the other processes. *)
Lemma build_inv c i j at_ f x s s' cpus pos :
  kinv (Mach s cpus pos) -> on cpus c i -> pos i = Forking j at_ ->
  view s' = (core <$> alter f j (procs s), nextpid s, initproc s) ->
  (forall p, procs s !! j = Some p -> p_state p = EMBRYO ->
    ((forall todo, at_ <> AtFill todo) -> p_parent p = None) ->
    match x with
    | Forking j' a => j' = j /\ p_state (f p) = EMBRYO /\ p_pid (f p) = p_pid p /\
        ((forall todo, a <> AtFill todo) -> p_parent (f p) = None)
    | Idle => (p_state (f p) = UNUSED /\ p_parent (f p) = None) \/
        (p_state (f p) = RUNNABLE /\ p_pid (f p) = p_pid p)
    | Exiting _ => False
    end /\ (p_parent (f p) = p_parent p \/ p_parent (f p) = Some i)) ->
  kinv (Mach s' cpus (<[i := x]> pos)).
Proof.
  intros I Hc Hi V Hf. destruct (forker _ _ _ _ _ _ _ I Hc Hi) as (pi & p & Hpi & Ha & Hp & Hs & Hn).
  destruct I as [I J]. simpl in *. destruct (Hf p Hp Hs Hn) as [Hx Hpar].
  pose proof (not_alive p (or_intror (or_introl Hs))) as Hna.
  assert (live p) as Hl by (unfold live; congruence).
  eapply kinv_view; [exact V| |].
  - eapply ptab_slot; eauto; [done|].
    assert (forall q, p_parent (f p) = Some q -> exists pq, procs s !! q = Some pq /\ alive pq) as Hq.
    { intros q Eq. destruct Hpar as [E|E]; [|naive_solver].
      apply (pv_parent _ _ _ _ I j p q Hp). congruence. }
    destruct x as [|j' a|]; [naive_solver| |done]. right. naive_solver.
  - eapply (pos_fork _ _ _ i j p pi); eauto; [rewrite Hi; by left|].
    destruct x as [|j' a|]; [|naive_solver|done]. destruct Hx as [[-> _]|[-> _]]; done.
Qed.

Lemma alter_id_view s j : view s = (core <$> alter id j (procs s), nextpid s, initproc s).
Proof.
  unfold view. do 3 f_equal. apply list_eq. intros k. rewrite list_lookup_alter.
  case_decide; [|done]. subst. by destruct (_ !! k).
Qed.

Lemma stack_inv c i j ok s s' cpus pos :
  kinv (Mach s cpus pos) -> on cpus c i -> pos i = Forking j AtStack ->
  allocproc_stack j s = Ok ok s' ->
  kinv (Mach s' cpus (<[i := if ok : bool then Forking j AtCopy else Idle]> pos)).
Proof.
  intros I Hc Hi E. apply allocproc_stack_effect in E. destruct ok.
  - rewrite (alter_id_view s j) in E. eapply build_inv; eauto. simpl. naive_solver.
  - eapply build_inv; eauto. simpl. naive_solver.
Qed.

Lemma copy_inv c i j ok s s' cpus pos :
  kinv (Mach s cpus pos) -> on cpus c i -> pos i = Forking j AtCopy ->
  fork_copy i j s = Ok ok s' ->
  kinv (Mach s' cpus (<[i := Forking j (if ok : bool then AtFill fill_order else AtUndo)]> pos)).
Proof.
  intros I Hc Hi E. apply fork_copy_keeps in E. rewrite (alter_id_view s j) in E.
  eapply build_inv; eauto. simpl. naive_solver.
Qed.

Lemma fill_inv c i j st todo s s' cpus pos :
  kinv (Mach s cpus pos) -> on cpus c i -> pos i = Forking j (AtFill (st :: todo)) ->
  fork_fill i j st s = Ok tt s' -> kinv (Mach s' cpus (<[i := Forking j (AtFill todo)]> pos)).
Proof.
  intros I Hc Hi E. apply fork_fill_effect in E. eapply build_inv; eauto. intros p Hp Hs _.
  assert (forall P : Prop, (forall todo0, AtFill todo <> AtFill todo0) -> P) as Hno.
  { intros P Hn. by destruct (Hn todo). }
  destruct st; simpl; split_and!; try exact (Hno _); auto.
Qed.

(** *** The steps of [exit] and [wait] *)

Lemma exit_end_Ok cur s s' :
  exit_end cur s = Ok tt s' ->
  exists init, initproc s = Some init /\
    s' = PState (exit_table cur init (procs s)) (nextpid s) (initproc s) (penv s).
Proof.
  unfold exit_end. intros (t & t' & [= <- <-] & E)%bind_Ok.
  destruct (initproc s) as [ini|] eqn:Ei; [|done].
  apply bind_Ok in E as (ini' & t2 & [= <- <-] & E). injection E as <-. rewrite Ei. eauto.
Qed.

Lemma exited_inv c i s s' cpus pos :
  kinv (Mach s cpus pos) -> on cpus c i -> pos i = Exiting [] -> exit_end i s = Ok tt s' ->
  kinv (Mach s' (<[c := None]> cpus) (<[i := Idle]> pos)).
Proof.
  intros [I J] Hc Hi E. apply exit_end_Ok in E as (ini & Ei & ->). simpl in *.
  assert (ini <> i) as Hne.
  { intros ->. by apply (po_exit _ _ _ J i [] Hi). }
  split; simpl; [by apply ptab_exit|]. destruct (on_alive _ _ _ _ _ _ I Hc) as (pi & Hpi & Hr & _).
  eapply pos_entries; [|intros k; apply goes_on_set; right; left; by rewrite Hi|exact J].
  split; [apply length_exit_table|]. intros k p Hk.
  destruct (exit_table_spec i ini _ k p Hk) as (p' & Hp' & E1 & E2 & E3 & E4). exists p'.
  split; [done|]. case_decide as Eki.
  - subst k. assert (p = pi) as -> by congruence. unfold settled.
    rewrite fn_lookup_insert, E4, Hr. done.
  - apply woken_settled; [done|]. intros En. rewrite E3, En. by rewrite decide_False.
Qed.

Lemma wait_inv cur c r s s' cpus pos :
  kinv (Mach s cpus pos) -> on cpus c cur -> wait cur s = Ok r s' -> kinv (Mach s' cpus pos).
Proof.
  intros [I J] Hc E. simpl in *. unfold wait in E. apply bind_Ok in E as (t & t' & [= <- <-] & E).
  destruct (find_proc _ (procs s) 0) as [i|] eqn:Ef.
  - apply find_proc_Some in Ef as (k & p & -> & Hk & Hz). rewrite Nat.add_0_l in E.
    apply andb_true_iff in Hz as [_ Hz]. unfold is_state in Hz. apply bool_decide_eq_true in Hz.
    keeps_step E as q s1 V1. keeps_step E as u s2 V2. keeps_step E as u1 s3 V3.
    keeps_step E as u2 s4 V4. apply bind_Ok in E as ([] & s5 & E5 & [= <- <-]).
    eapply kinv_view.
    + eapply (upd_view k _ (vparent None ∘ vpid 0 ∘ vstate UNUSED) s s4); [|congruence|exact E5]. done.
    + eapply ptab_slot; eauto; [unfold alive; rewrite Hz; tauto|done].
    + eapply pos_entries; [|by left|exact J]. apply entries_alter; [|intros; apply settled_refl].
      intros p' Hp'. assert (p' = p) as -> by congruence. unfold settled, alive. simpl.
      rewrite Hz. naive_solver.
  - apply bind_Ok in E as (me & s1 & E1 & E). apply get_proc_Ok in E1 as [-> _].
    destruct (_ || _)%bool; [|done]. by injection E as <- <-.
Qed.

Lemma kstep_inv x y : kstep x y -> kinv x -> kinv y.
Proof.
  intros St I. destruct St.
  - by eapply pick_inv.
  - unfold yield in *. match goal with E : _ = Ok tt _ |- _ =>
      apply bind_Ok in E as ([] & s1 & ->%upd_Ok & ->%sched_Ok) end.
    apply leave_inv; [done|done|]. intros p. simpl. auto.
  - by eapply sleep_inv.
  - match goal with E : sleep_tidy _ _ = _ |- _ => apply upd_Ok in E as -> end.
    destruct I as [I J]. simpl in *. split; simpl; [by eapply ptab_tidy|].
    destruct (on_alive _ _ _ _ _ _ I ltac:(eassumption)) as (p & Hp & _ & Ha).
    by eapply pos_upd.
  - match goal with E : wakeup _ _ = _ |- _ => injection E as <- end. apply kinv_woken; [|done].
    split; [apply length_wakeup1|]. intros j p. apply wakeup1_woken.
  - apply kinv_woken; [apply kill_entries|done].
  - by eapply take_inv.
  - by eapply stack_inv.
  - by eapply copy_inv.
  - eapply build_inv; eauto; [by apply fork_undo_effect|]. simpl. naive_solver.
  - by eapply fill_inv.
  - eapply build_inv; eauto; [by eapply fork_publish_effect|]. simpl. naive_solver.
  - destruct I as [I J]. simpl in *. split; simpl; [done|].
    by eapply pos_exit_begin.
  - eapply kinv_same; [by eapply exit_release_keeps| |exact I].
    intros k. apply goes_on_set. right. right. eauto.
  - by eapply exited_inv.
  - by eapply wait_inv.
  - by eapply sleep_inv.
  - eapply kinv_same; [|by left|exact I]. done.
  - eapply kinv_same; [|by left|exact I]. eapply keeps_upd; [|eassumption].
    intros p. match goal with Hf : forall _, _ |- _ => destruct (Hf p) as (E1 & E2 & E3 & E4) end.
    unfold core. congruence.
Qed.

Lemma ksteps_inv x y : rtc kstep x y -> kinv x -> kinv y.
Proof. induction 1 as [|x y z Hxy _ IH]; [done|]. intros I. apply IH. by eapply kstep_inv. Qed.

End preservation.

(** ** Runs without interruption *)

(** [fork] and [exit] as Proc.v composes them are sequences of these steps. *)
Section uninterrupted.
Context {K : Type} `{ProcEnv K}.
Implicit Types (s : pstate K) (pos : nat -> kpos).

Definition moved (i : nat) (pos pos' : nat -> kpos) : Prop := forall k, k <> i -> pos' k = pos k.

Lemma moved_set i x pos pos' : moved i (<[i := x]> pos) pos' -> moved i pos pos'.
Proof. intros Hm k Hk. rewrite Hm by done. by rewrite fn_lookup_insert_ne. Qed.

Lemma fill_steps c i j todo s s' cpus pos :
  on cpus c i -> pos i = Forking j (AtFill todo) ->
  for_each (fork_fill i j) todo s = Ok tt s' ->
  exists pos', rtc kstep (Mach s cpus pos) (Mach s' cpus pos') /\
    pos' i = Forking j (AtFill []) /\ moved i pos pos'.
Proof.
  intros Hc. revert s pos. induction todo as [|st todo IH]; intros s pos Hi E.
  { injection E as <-. exists pos. split_and!; [apply rtc_refl|done|by intros k]. }
  apply bind_Ok in E as ([] & s1 & E1 & E).
  destruct (IH s1 (<[i := Forking j (AtFill todo)]> pos)) as (pos' & Hr & Hi' & Hm);
    [apply fn_lookup_insert|done|].
  exists pos'. split_and!; [|done|by eapply moved_set].
  eapply rtc_l; [by eapply k_fill|done].
Qed.

Lemma release_steps c i todo s s' cpus pos :
  on cpus c i -> pos i = Exiting todo -> for_each (exit_release i) todo s = Ok tt s' ->
  exists pos', rtc kstep (Mach s cpus pos) (Mach s' cpus pos') /\
    pos' i = Exiting [] /\ moved i pos pos'.
Proof.
  intros Hc. revert s pos. induction todo as [|st todo IH]; intros s pos Hi E.
  { injection E as <-. exists pos. split_and!; [apply rtc_refl|done|by intros k]. }
  apply bind_Ok in E as ([] & s1 & E1 & E).
  destruct (IH s1 (<[i := Exiting todo]> pos)) as (pos' & Hr & Hi' & Hm);
    [apply fn_lookup_insert|done|].
  exists pos'. split_and!; [|done|by eapply moved_set].
  eapply rtc_l; [by eapply k_release|done].
Qed.

Lemma fork_steps c i r s s' cpus pos :
  on cpus c i -> pos i = Idle -> nextpid s < 2147483647 -> fork i s = Ok r s' ->
  exists pos', rtc kstep (Mach s cpus pos) (Mach s' cpus pos') /\ pos' i = Idle /\ moved i pos pos'.
Proof.
  intros Hc Hi Hnp E. unfold fork, allocproc in E.
  apply bind_Ok in E as (np & s2 & E2 & E). apply bind_Ok in E2 as (o & s1 & E1 & E2).
  pose proof (k_take c i o s s1 cpus pos Hc Hi Hnp E1) as St1. destruct o as [j|]; cycle 1.
  { injection E2 as <- <-. injection E as <- <-. eexists. split_and!; [by apply rtc_once|..].
    - apply fn_lookup_insert.
    - intros k Hk. by rewrite fn_lookup_insert_ne. }
  set (p1 := <[i := Forking j AtStack]> pos) in *.
  apply bind_Ok in E2 as (ok & s3 & E3 & [= <- <-]).
  pose proof (k_stack c i j ok s1 s3 cpus p1 Hc (fn_lookup_insert _ _ _) E3) as St2.
  destruct ok; cycle 1.
  { injection E as <- <-. eexists. split_and!; [by eapply rtc_l, rtc_once|..].
    - apply fn_lookup_insert.
    - intros k Hk. unfold p1. by rewrite !fn_lookup_insert_ne. }
  set (p2 := <[i := Forking j AtCopy]> p1) in *.
  apply bind_Ok in E as (ok & s4 & E4 & E).
  pose proof (k_copy c i j ok s3 s4 cpus p2 Hc (fn_lookup_insert _ _ _) E4) as St3.
  destruct ok.
  - apply bind_Ok in E as ([] & s5 & E5 & E).
    destruct (fill_steps c i j fill_order s4 s5 cpus (<[i := Forking j (AtFill fill_order)]> p2))
      as (p3 & Hr & Hi3 & Hm); [done|apply fn_lookup_insert|done|].
    exists (<[i := Idle]> p3). split_and!; [|apply fn_lookup_insert|].
    + eapply rtc_l; [exact St1|]. eapply rtc_l; [exact St2|]. eapply rtc_l; [exact St3|].
      eapply rtc_r; [exact Hr|]. by eapply k_publish.
    + intros k Hk. rewrite fn_lookup_insert_ne, Hm by done. unfold p2, p1.
      by rewrite !fn_lookup_insert_ne.
  - apply bind_Ok in E as ([] & s5 & E5 & [= <- <-]).
    set (p3 := <[i := Forking j AtUndo]> p2) in *.
    pose proof (k_undo c i j s4 s5 cpus p3 Hc (fn_lookup_insert _ _ _) E5) as St4.
    eexists. split_and!; [by do 3 (eapply rtc_l; [eassumption|]); apply rtc_once|..].
    + apply fn_lookup_insert.
    + intros k Hk. unfold p3, p2, p1. by rewrite !fn_lookup_insert_ne.
Qed.

Lemma exit_steps c i s s' cpus pos :
  on cpus c i -> pos i = Idle -> exit i s = Ok tt s' ->
  exists pos', rtc kstep (Mach s cpus pos) (Mach s' (<[c := None]> cpus) pos') /\
    pos' i = Idle /\ moved i pos pos'.
Proof.
  intros Hc Hi E. unfold exit in E. apply bind_Ok in E as (t & t' & [= <- <-] & E).
  case_bool_decide as Hin; [done|]. apply bind_Ok in E as ([] & s1 & E1 & E).
  pose proof (k_exit c i s cpus pos Hc Hi Hin) as St1.
  destruct (release_steps c i rel_order s s1 cpus (<[i := Exiting rel_order]> pos))
    as (p3 & Hr & Hi3 & Hm); [done|apply fn_lookup_insert|done|].
  exists (<[i := Idle]> p3). split_and!; [|apply fn_lookup_insert|].
  - eapply rtc_l; [exact St1|]. eapply rtc_r; [exact Hr|]. by eapply k_exited.
  - intros k Hk. rewrite fn_lookup_insert_ne by done. by apply (moved_set i _ _ _ Hm).
Qed.

End uninterrupted.
