(* ===== verification/ProcThms.v ===== *)
(** Theorems about processes: the table is consistent in every interleaving,
    what [exit] and [wait] do to it (WaitThms.v has the memory they give back),
    and what [kill] does to a free entry. *)

From stdpp Require Import prelude strings gmap list functions.
From S2P Require Import Prelude Param Kalloc Proc ProcInv.

Definition boot_table : list proc := replicate (Z.to_nat NPROC) proc0.

Section boot.
Context {K : Type} `{ProcEnv K}.

Lemma allocproc_effect (s : pstate K) i s' :
  allocproc s = Ok (Some i) s' ->
  find_proc (is_state UNUSED) (procs s) 0 = Some i /\
  view s' = (core <$> alter (taken (nextpid s)) i (procs s), s32 (nextpid s + 1), initproc s).
Proof.
  unfold allocproc. intros (o & s1 & E1 & E)%bind_Ok. pose proof (allocproc_take_effect _ _ _ E1) as V1.
  destruct o as [j|]; [|done]. apply bind_Ok in E as (ok & s2 & E2 & E).
  destruct ok; [|done]. injection E as -> ->. apply allocproc_stack_effect in E2.
  destruct V1 as (p & _ & _ & V1). split; [|congruence].
  unfold allocproc_take in E1. apply bind_Ok in E1 as (t & t' & [= <- <-] & E1).
  destruct (find_proc _ _ 0) as [k|]; [|done].
  apply bind_Ok in E1 as ([] & ? & _ & E1). apply bind_Ok in E1 as ([] & ? & _ & E1). by injection E1 as ->.
Qed.

Lemma userinit_view (k : K) s :
  userinit (PState boot_table 1 None k) = Ok tt s ->
  view s = (core <$> alter (fun p => set_state RUNNABLE (set_pid 1 p)) 0%nat boot_table, 2, Some 0%nat).
Proof.
  unfold userinit. intros E. apply bind_Ok in E as (np & s1 & E1 & E). destruct np as [i|]; [|done].
  apply allocproc_effect in E1 as [Ei V1]. simpl procs in Ei.
  change (find_proc (is_state UNUSED) boot_table 0) with (Some 0%nat) in Ei. injection Ei as <-.
  apply bind_Ok in E as ([] & s2 & [= <-] & E). keeps_step E as pgdir s3 V3.
  destruct (pgdir =? 0); [done|].
  keeps_step E as u4 s4 V4. keeps_step E as u5 s5 V5. keeps_step E as u6 s6 V6.
  keeps_step E as u7 s7 V7. keeps_step E as cwd s8 V8. keeps_step E as u9 s9 V9.
  apply (upd_effect 0 _ (vstate RUNNABLE)) in E as ->; [|done].
  assert (view s9 = (core <$> alter (taken 1) 0%nat boot_table, 2, Some 0%nat)) as V.
  { rewrite V9, V8, V7, V6, V5, V4, V3. unfold view in *. simpl in *. by injection V1 as -> -> _. }
  unfold view in V. injection V as -> -> ->. f_equal.
Qed.

Lemma boot_kinv n (k : K) s :
  userinit (PState boot_table 1 None k) = Ok tt s -> kinv (Mach s (replicate n None) (fun _ => Idle)).
Proof.
  intros V%userinit_view.
  set (f := fun p => set_state RUNNABLE (set_pid 1 p)) in V. assert (boot_table !! 0%nat = Some proc0) as H0 by done.
  assert (forall j q, alter f 0%nat boot_table !! j = Some q ->
    (j = 0%nat /\ q = f proc0) \/ (j <> 0%nat /\ q = proc0)) as Hlk.
  { intros j q. rewrite list_lookup_alter. case_decide; [subst; rewrite H0; simpl; naive_solver|].
    intros [-> _]%lookup_replicate. by right. }
  assert (forall d j, on (replicate n None) d j -> False) as Hon.
  { intros d j Hd. unfold on in Hd. by apply lookup_replicate in Hd as [? _]. }
  assert (alter f 0%nat boot_table !! 0%nat = Some (f proc0)) as Hf by (by rewrite list_lookup_alter_eq, H0).
  eapply kinv_view; [exact V| |].
  2:{ split; try done. intros j q [[-> ->]|[_ ->]]%Hlk; done. }
  split; try lia.
  - intros j q [[-> ->]|[_ ->]]%Hlk; [simpl; lia|]. by intros [].
  - intros j j' q q' [[-> ->]|[_ ->]]%Hlk [[-> ->]|[_ ->]]%Hlk L L'; try done; by destruct L, L'.
  - intros j q r [[-> ->]|[_ ->]]%Hlk; done.
  - intros j q [[-> ->]|[_ ->]]%Hlk; done.
  - intros j q [[-> ->]|[_ ->]]%Hlk; done.
  - intros j q [[-> ->]|[_ ->]]%Hlk; done.
  - intros d j Hd. by destruct (Hon d j).
  - intros d d' j Hd. by destruct (Hon d j).
  - exists 0%nat, (f proc0). split_and!; [done|done|..]; done.
Qed.
End boot.

(** C11: the process table is consistent.  After boot, in every interleaving of
    the critical sections of scheduling, [yield], [sleep], [wakeup], [kill],
    [fork], [exit] and [wait], and of the statements [fork] and [exit] run
    outside them, on any number of CPUs: pids identify processes, a process
    runs on a CPU exactly when it is RUNNING and never on two, the parent of a
    process is a process that has been created and has not exited, and the
    EMBRYO entries are exactly those that some process inside [fork] is filling
    in, each of them by one process. *)
Theorem ptable_consistent {K} `{ProcEnv K} n (k : K) s0 s cpus pos :
  userinit (PState boot_table 1 None k) = Ok tt s0 ->
  rtc kstep (Mach s0 (replicate n None) (fun _ => Idle)) (Mach s cpus pos) ->
  (forall i j p q, procs s !! i = Some p -> procs s !! j = Some q -> live p -> live q ->
    p_pid p = p_pid q -> i = j) /\
  (forall i p, procs s !! i = Some p -> (p_state p = RUNNING <-> exists c, on cpus c i)) /\
  (forall c c' i, on cpus c i -> on cpus c' i -> c = c') /\
  (forall i p q, procs s !! i = Some p -> p_parent p = Some q ->
    exists pq, procs s !! q = Some pq /\ alive pq) /\
  (forall j p, procs s !! j = Some p ->
    (p_state p = EMBRYO <-> exists i, builds (pos i) = Some j)) /\
  (forall i i' j, builds (pos i) = Some j -> builds (pos i') = Some j -> i = i').
Proof.
  intros Hb Hs. pose proof (ksteps_inv _ _ Hs (boot_kinv n k s0 Hb)) as [I J]. simpl in *.
  split_and!.
  - apply (pv_uniq _ _ _ _ I).
  - intros i p Hi. split; [by apply (pv_run _ _ _ _ I)|]. intros [c Hc].
    destruct (pv_cpu _ _ _ _ I c i Hc) as (p' & Hp' & Hr). congruence.
  - apply (pv_cpu1 _ _ _ _ I).
  - apply (pv_parent _ _ _ _ I).
  - intros j p Hj. split; [by apply (po_embryo _ _ _ J)|]. intros [i Hi].
    destruct (po_build _ _ _ J i j Hi) as (p' & Hp' & Hs' & _). congruence.
  - apply (po_build1 _ _ _ J).
Qed.

(** ** Exit and wait *)

(** The parent sleeping in [wait] is woken by [exit]. *)
Lemma exit_table_wakes cur init l pc q pq :
  l !! cur = Some pc -> p_parent pc = Some q -> q <> cur -> l !! q = Some pq ->
  p_state pq = SLEEPING -> p_chan pq = Some (chan_of q) ->
  exists pq', exit_table cur init l !! q = Some pq' /\ p_state pq' = RUNNABLE.
Proof.
  intros Hc Hpar Hne Hq Hs Hch. unfold exit_table. rewrite Hc. simpl. rewrite Hpar.
  set (l1 := wakeup1 (chan_of q) l).
  assert (l1 !! q = Some (set_state RUNNABLE pq)) as H1.
  { unfold l1. rewrite wakeup1_lookup, Hq. simpl. unfold is_state.
    by rewrite !bool_decide_true. }
  destruct (reparent_all cur init l1 (length l1)) as [Hr _].
  destruct (Hr q _ H1) as (p2 & H2 & (_ & _ & W) & _).
  rewrite list_lookup_alter_ne by congruence. exists p2. split; [done|].
  simpl in W. destruct W as [->|[? _]]; done.
Qed.

Lemma find_proc_is_Some f l n i p :
  l !! i = Some p -> f p = true -> exists j, find_proc f l n = Some (n + j)%nat.
Proof.
  intros Hi Hp. destruct (find_proc f l n) as [j|] eqn:E.
  - apply find_proc_Some in E as (k & q & -> & _). eauto.
  - apply find_proc_None in E. rewrite Forall_lookup in E. specialize (E i p Hi). congruence.
Qed.

Section exit_wait.
Context {K : Type} `{ProcEnv K}.

(** The entry that [wait] frees. *)
Definition reaped (p : proc) : proc :=
  set_killed 0 (set_name (<[0%nat := 0]> (p_name p))
    (set_parent None (set_pid 0 (set_state UNUSED (set_kstack 0 p))))).

(** A scan that finds a zombie child frees the first of them and returns its
    pid. *)
Lemma wait_reaps cur (s : pstate K) i p :
  procs s !! i = Some p -> p_parent p = Some cur -> p_state p = ZOMBIE ->
  exists j q, procs s !! j = Some q /\ p_parent q = Some cur /\ p_state q = ZOMBIE /\
    forall k1 k2, pe_kfree (p_kstack q) (penv s) = Ok tt k1 -> pe_freevm (p_pgdir q) k1 = Ok tt k2 ->
    wait cur s = Ok (p_pid q) (PState (alter reaped j (procs s)) (nextpid s) (initproc s) k2).
Proof.
  intros Hi Hpar Hz.
  destruct (find_proc_is_Some (fun p => is_child cur p && is_state ZOMBIE p)%bool (procs s) 0 i p)
    as (j & Ej); [done|by unfold is_child, is_state; rewrite !bool_decide_true|].
  pose proof (find_proc_Some _ _ _ _ Ej) as (j' & q & Ejj & Hj & Hf).
  assert (j' = j) as -> by lia. rewrite Nat.add_0_l in *.
  apply andb_true_iff in Hf as [Hc Hs]. unfold is_child, is_state in Hc, Hs.
  apply bool_decide_eq_true in Hc, Hs.
  exists j, q. split_and!; [done..|]. intros k1 k2 Ek Ev.
  unfold wait. erewrite bind_run; [|done]. rewrite Ej.
  erewrite bind_run; [|unfold get_proc; erewrite bind_run; [|done]; by rewrite Hj].
  erewrite bind_run; [|unfold env; by apply lift_Ok].
  erewrite bind_run; [|done].
  erewrite bind_run; [|unfold env; by apply lift_Ok].
  erewrite bind_run; [|done]. unfold mret, M_ret. simpl. by rewrite alter2.
Qed.

(** The critical section of [exit] leaves a zombie of the parent, and a parent
    asleep in [wait] runnable. *)
Lemma exit_end_wakes cur q pc (s s' : pstate K) :
  procs s !! cur = Some pc -> p_parent pc = Some q -> q <> cur -> exit_end cur s = Ok tt s' ->
  (exists pc', procs s' !! cur = Some pc' /\ p_state pc' = ZOMBIE /\ p_parent pc' = Some q) /\
  (forall pq, procs s !! q = Some pq -> p_state pq = SLEEPING -> p_chan pq = Some (chan_of q) ->
    exists pq', procs s' !! q = Some pq' /\ p_state pq' = RUNNABLE).
Proof.
  intros Hpc Hpar Hne (init & Hini & ->)%exit_end_Ok. simpl. split.
  - destruct (exit_table_spec cur init _ cur pc Hpc) as (pc' & Hpc' & _ & _ & Epar & Est).
    rewrite decide_True in Est by done. exists pc'. split_and!; [done..|].
    rewrite Epar, Hpar. by rewrite decide_False by congruence.
  - intros pq Hpq Hs Hch. by eapply exit_table_wakes.
Qed.
End exit_wait.

(** ** Killing a free entry *)

Section kill_free.
Context {K : Type} `{ProcEnv K}.

(** [kill] does not look at the state of the entry it finds.  An UNUSED
    entry that was never used, or was freed by [wait], has pid 0: [kill(0)]
    reports success and marks it, and the next process allocated in that entry
    is born killed. *)
Theorem kill_zero_poisons (s s2 : pstate K) l i p :
  find_proc (fun p => p_pid p =? 0) (procs s) 0 = Some i ->
  find_proc (is_state UNUSED) (procs s) 0 = Some i -> procs s !! i = Some p ->
  kill 0 (procs s) = (0, l) ->
  allocproc (PState l (nextpid s) (initproc s) (penv s)) = Ok (Some i) s2 ->
  exists q, procs s2 !! i = Some q /\ p_pid q = nextpid s /\ p_killed q = 1.
Proof.
  intros Hz Hu Hi Hk Ha. unfold kill in Hk. rewrite Hz in Hk. injection Hk as <-.
  assert (is_state UNUSED p = true) as Hup.
  { apply find_proc_Some in Hu as (k & p' & -> & Hp' & Ep). rewrite Nat.add_0_l in *. congruence. }
  unfold is_state in Hup. apply bool_decide_eq_true in Hup.
  unfold allocproc in Ha. apply bind_Ok in Ha as (o & s1 & E1 & Ha).
  unfold allocproc_take in E1. apply bind_Ok in E1 as (t & t' & [= <- <-] & E1). simpl in E1.
  destruct (find_proc (is_state UNUSED) (alter _ i (procs s)) 0) as [j|] eqn:Ej;
    [|injection E1 as <- <-; done].
  apply bind_Ok in E1 as ([] & s3 & ->%upd_Ok & E1). simpl in E1.
  apply bind_Ok in E1 as ([] & s4 & [= <-] & E1). simpl in E1. injection E1 as <- <-.
  apply bind_Ok in Ha as (ok & s5 & E5 & Ha). destruct ok; [|done]. injection Ha as -> <-.
  unfold allocproc_stack in E5. apply bind_Ok in E5 as (ks & s6 & E6 & E5).
  unfold env, lift in E6. simpl in E6. destruct (pe_kalloc (penv s)) as [ks' k'| | |]; try done.
  injection E6 as <- <-. apply bind_Ok in E5 as ([] & s6 & ->%upd_Ok & E5). simpl in E5.
  destruct (ks' =? 0); [by apply bind_Ok in E5 as ([] & ? & _ & [=])|].
  apply bind_Ok in E5 as ([] & s7 & ->%upd_Ok & [= <-]). simpl.
  rewrite !list_lookup_alter_eq, Hi. simpl. unfold is_state. simpl. rewrite Hup. simpl.
  eexists. split; [reflexivity|]. done.
Qed.
End kill_free.

(** ** Examples *)

(** A kernel whose other components always succeed. *)
Definition unit_env : ProcEnv unit := {|
  pe_kalloc := mret 4096; pe_kfree _ := mret tt; pe_setupkvm := mret 8192; pe_inituvm _ := mret tt;
  pe_copyuvm _ _ := mret 12288; pe_allocuvm _ _ n := mret n; pe_deallocuvm _ _ n := mret n;
  pe_freevm _ := mret tt; pe_switchuvm _ := mret tt; pe_filedup f := mret f;
  pe_fileclose _ := mret tt; pe_idup i := mret i; pe_iput _ := mret tt; pe_namei_root := mret 1;
  pe_begin_op := mret tt; pe_end_op := mret tt
|}.
#[local] Existing Instance unit_env.

Definition run_state {A} (m : res (pstate unit) A) : pstate unit :=
  match m with Ok _ s => s | _ => PState [] 0 None tt end.

Definition booted : pstate unit := run_state (userinit (PState boot_table 1 None tt)).
Definition picked : pstate unit := run_state (scheduler_pick 0 booted).
Definition forked : pstate unit := run_state (fork 0 picked).

Lemma booted_run : userinit (PState boot_table 1 None tt) = Ok tt booted.
Proof. vm_compute. reflexivity. Qed.

Lemma picked_run : scheduler_pick 0 booted = Ok true picked.
Proof. vm_compute. reflexivity. Qed.

Lemma forked_run : fork 0 picked = Ok 2 forked.
Proof. vm_compute. reflexivity. Qed.

(** Another CPU takes the child while its parent goes on to fork again. *)
Definition both : pstate unit := run_state (scheduler_pick 1 forked).
Definition taken_again : pstate unit := run_state (allocproc_take both).

Lemma both_run : scheduler_pick 1 forked = Ok true both.
Proof. vm_compute. reflexivity. Qed.

Lemma taken_run : allocproc_take both = Ok (Some 2%nat) taken_again.
Proof. vm_compute. reflexivity. Qed.

Lemma ptable_consistent_witness :
  exists s pos, rtc kstep (Mach booted [None; None] (fun _ => Idle)) (Mach s [Some 0%nat; Some 1%nat] pos) /\
  builds (pos 0%nat) = Some 2%nat /\
  exists p, procs s !! 2%nat = Some p /\ p_state p = EMBRYO.
Proof.
  destruct (fork_steps 0 0 2 picked forked [Some 0%nat; None] (fun _ => Idle) eq_refl eq_refl eq_refl
    forked_run) as (pos & Hf & Hp & _).
  exists taken_again, (<[0%nat := Forking 2 AtStack]> pos).
  assert (rtc kstep (Mach booted [None; None] (fun _ => Idle))
    (Mach taken_again [Some 0%nat; Some 1%nat] (<[0%nat := Forking 2 AtStack]> pos))) as Hs.
  { eapply rtc_l; [exact (k_pick 0 0 booted picked [None; None] _ eq_refl picked_run)|].
    etrans; [exact Hf|].
    eapply rtc_l; [exact (k_pick 1 1 forked both [Some 0%nat; None] pos eq_refl both_run)|].
    apply rtc_once. exact (k_take 0 0 (Some 2%nat) both taken_again [Some 0%nat; Some 1%nat] pos
      eq_refl Hp eq_refl taken_run). }
  split; [exact Hs|]. split; [reflexivity|].
  destruct (ptable_consistent 2 tt booted taken_again [Some 0%nat; Some 1%nat] _ booted_run Hs)
    as (_ & _ & _ & _ & H & _).
  assert (exists p, procs taken_again !! 2%nat = Some p) as [p Hp2] by (vm_compute; eexists; reflexivity).
  exists p. split; [exact Hp2|]. apply (H 2%nat p Hp2). exists 0%nat. reflexivity.
Defined.

Definition killed_table : list proc := (kill 0 (procs booted)).2.
Definition poisoned : pstate unit := run_state (allocproc (PState killed_table 2 (Some 0%nat) tt)).

Lemma kill_zero_poisons_witness :
  exists q, procs poisoned !! 1%nat = Some q /\ p_pid q = 2 /\ p_killed q = 1.
Proof.
  apply (kill_zero_poisons booted poisoned killed_table 1 proc0); vm_compute; reflexivity.
Defined.
