(* ===== verification/TxDisk.v ===== *)
(** The disk as a file-system operation sees it: log.c over bio.c.

    [Disk] is what fs.c, file.c and sysfile.c use of the log and the buffer
    cache.  [tdisk] is the abstract machine it promises: a map from sectors to
    blocks, the buffers held, and the set of sectors logged by the operations
    in progress; a commit happens when the last of them ends.  Where the
    machine faults nothing is promised: a block changed and released without
    [log_write], more blocks than the log or the cache can hold, or an access
    to the log area.  [tx_rep] relates the log of Log.v to it. *)

From stdpp Require Import prelude strings gmap list.
From S2P Require Import Prelude Bytes Param BlockCache Log LogCrash LogOps BioOps.

Class Disk (T : Type) := {
  d_bread : Z -> Z -> M T block;
  d_bset : Z -> block -> M T unit;
  d_log_write : Z -> M T unit;
  d_brelse : Z -> M T unit;
  d_begin_op : M T unit;
  d_end_op : M T unit
}.

#[export] Instance lstate_Disk C `{BlockCache C} : Disk (lstate C) := {|
  d_bread dev sector := io (bread dev sector);
  d_bset sector d := io (bset sector d);
  d_log_write := log_write;
  d_brelse sector := io (brelse sector);
  d_begin_op := begin_op;
  d_end_op := end_op
|}.

(** ** The abstract machine *)

Record tdisk := TDisk {
  td_mem : gmap Z block;
  td_held : gset Z;
  td_unlogged : gset Z;
  td_logged : gset Z;
  td_out : Z;             (* operations in progress *)
  td_start : Z;           (* first sector of the log *)
  td_size : Z             (* its length *)
}.

Definition t_bread (dev s : Z) : M tdisk block := fun t =>
  if (negb (dev =? 1) || (td_start t <=? s))%bool then Fault "outside the file system"
  else if decide (s ∈ td_held t) then Sleep (ChBuf s) t
  else if (bool_decide (s ∉ td_logged t) &&
           (NBUF <=? Z.of_nat (size (td_held t ∪ td_logged t))))%bool then Fault "no buffers"
  else match td_mem t !! s with
       | None => Panic "iderw: sector out of range"
       | Some d => Ok d (TDisk (td_mem t) ({[s]} ∪ td_held t) (td_unlogged t) (td_logged t)
                          (td_out t) (td_start t) (td_size t))
       end.

Definition t_bset (s : Z) (d : block) : M tdisk unit := fun t =>
  if decide (s ∈ td_held t /\ length d = Z.to_nat BSIZE) then
    Ok tt (TDisk (<[s := d]> (td_mem t)) (td_held t) ({[s]} ∪ td_unlogged t) (td_logged t)
             (td_out t) (td_start t) (td_size t))
  else Fault "buffer not held".

Definition t_log_write (s : Z) : M tdisk unit := fun t =>
  if decide (s ∈ td_held t /\ 2 <= s /\ 1 <= td_out t /\
             Z.of_nat (size (td_logged t)) < td_size t - 1 /\
             Z.of_nat (size (td_logged t)) < LOGSIZE - 1) then
    Ok tt (TDisk (td_mem t) (td_held t) (td_unlogged t ∖ {[s]}) ({[s]} ∪ td_logged t)
             (td_out t) (td_start t) (td_size t))
  else Fault "log full".

Definition t_brelse (s : Z) : M tdisk unit := fun t =>
  if decide (s ∈ td_held t /\ s ∉ td_unlogged t) then
    Ok tt (TDisk (td_mem t) (td_held t ∖ {[s]}) (td_unlogged t) (td_logged t)
             (td_out t) (td_start t) (td_size t))
  else Fault "unlogged change released".

Definition t_begin_op : M tdisk unit := fun t =>
  if LOGSIZE <? Z.of_nat (size (td_logged t)) + (td_out t + 1) * MAXOPBLOCKS then Sleep ChLog t
  else Ok tt (TDisk (td_mem t) (td_held t) (td_unlogged t) (td_logged t) (td_out t + 1)
                (td_start t) (td_size t)).

Definition t_end_op : M tdisk unit := fun t =>
  if td_out t - 1 =? 0 then
    if decide (td_held t = ∅) then
      Ok tt (TDisk (td_mem t) ∅ ∅ ∅ 0 (td_start t) (td_size t))
    else Fault "commit with a buffer held"
  else Ok tt (TDisk (td_mem t) (td_held t) (td_unlogged t) (td_logged t) (td_out t - 1)
                (td_start t) (td_size t)).

#[export] Instance tdisk_Disk : Disk tdisk := {|
  d_bread := t_bread; d_bset := t_bset; d_log_write := t_log_write; d_brelse := t_brelse;
  d_begin_op := t_begin_op; d_end_op := t_end_op
|}.

(** ** The log implements it *)

Record tx_rep (s : alog) (t : tdisk) : Prop := {
  tx_geom : log_geom (ls_log s);
  tx_committing : lg_committing (ls_log s) = 0;
  tx_out : lg_outstanding (ls_log s) = td_out t;
  tx_start : lg_start (ls_log s) = td_start t;
  tx_size : lg_size (ls_log s) = td_size t;
  tx_busy : ac_busy (ls_cache s) = td_held t;
  tx_dirty : ac_dirty (ls_cache s) = td_logged t;
  tx_logged : secset (ls_log s) = td_logged t;
  tx_mem b : b < td_start t -> ac_mem (ls_cache s) !! b = td_mem t !! b;
  tx_unlogged : td_unlogged t ⊆ td_held t;
  tx_held b : b ∈ td_held t -> b < td_start t /\ is_Some (ac_mem (ls_cache s) !! b);
  tx_clean b : b ∉ td_logged t -> b ∉ td_unlogged t ->
    ac_mem (ls_cache s) !! b = ac_disk (ls_cache s) !! b;
  tx_dom b : is_Some (ac_mem (ls_cache s) !! b) <-> is_Some (ac_disk (ls_cache s) !! b);
  tx_len b d : ac_mem (ls_cache s) !! b = Some d -> length d = Z.to_nat BSIZE;
  tx_dlen b d : ac_disk (ls_cache s) !! b = Some d -> length d = Z.to_nat BSIZE;
  tx_secs b : b ∈ td_logged t -> is_Some (ac_mem (ls_cache s) !! b);
  tx_region b : td_start t <= b < td_start t + td_size t -> is_Some (ac_mem (ls_cache s) !! b);
  tx_head : get_word (ac_disk (ls_cache s) !!! td_start t) 0 = 0;
  tx_super : exists d, ac_disk (ls_cache s) !! 1 = Some d /\
    sb_size (superblock_of d) - sb_nlog (superblock_of d) = td_start t /\
    sb_nlog (superblock_of d) = td_size t
}.

Lemma tx_size_logged s t : tx_rep s t -> Z.of_nat (size (td_logged t)) = lh_n (ls_log s).
Proof. intros R. rewrite <- (tx_logged _ _ R). apply size_secset, R. Qed.

(** With no buffer held the log is between operations, in the sense of LogCrash.v. *)
Lemma tx_log_inv s t : tx_rep s t -> td_held t = ∅ -> log_inv s.
Proof.
  intros R Hh. destruct R. constructor; rewrite ?tx_start0, ?tx_size0, ?tx_logged0; auto.
  - by rewrite tx_busy0.
  - intros b Hb. apply tx_clean0; [done|]. set_solver.
  - intros j Hj. assert (sec (ls_log s) j ∈ td_logged t) as Hin.
    { rewrite <- tx_logged0. apply elem_of_secset. eauto. }
    apply tx_secs0 in Hin. split; [done|]. by apply tx_dom0.
Qed.

Ltac tx_destruct :=
  intros [l [mem disk busy dirty ws] wk] [tm th tu tl to ts tz] R;
  pose proof (tx_size_logged _ _ R) as Hsl; destruct R as
    [G Hcm Ho Hst Hsz Hbusy Hdirty Hlg Hmem Hun Hheld Hclean Hdom Hlen Hdlen Hsecs Hreg Hhead Hsup];
  cbn [ls_log ls_cache ls_wakeups ac_mem ac_disk ac_busy ac_dirty ac_writes td_mem td_held
       td_unlogged td_logged td_out td_start td_size] in *; subst to ts tz th dirty tl.

Ltac tx_done := constructor; cbn [ls_log ls_cache ls_wakeups ac_mem ac_disk ac_busy ac_dirty
  ac_writes td_mem td_held td_unlogged td_logged td_out td_start td_size]; auto;
  try match goal with Hun : _ ⊆ _ |- _ ⊆ _ => clear -Hun; set_solver end.

Lemma tx_bread dev b : msim tx_rep (d_bread dev b) (t_bread dev b).
Proof.
  tx_destruct. unfold t_bread. cbn [td_start td_held td_logged td_mem td_out td_size td_unlogged].
  destruct (dev =? 1) eqn:Ed; [|done]. cbn [negb orb].
  destruct (Z.leb_spec (lg_start l) b); [done|].
  cbn -[Z.leb NBUF]. unfold io, lift. cbn -[Z.leb NBUF]. unfold a_bread, a_full.
  cbn [ac_busy ac_dirty ac_mem ac_disk ac_writes]. rewrite Ed. cbn [negb].
  destruct (decide (b ∈ busy)) as [Hb|Hb].
  - cbn [rsim]. tx_done.
  - destruct (_ && _)%bool; [done|]. rewrite Hmem by done.
    destruct (tm !! b) as [d|] eqn:Em; [|done]. split; [done|]. tx_done.
    intros x [->%elem_of_singleton|Hx]%elem_of_union; [|auto]. rewrite Hmem by done. eauto.
Qed.

Lemma tx_bset b d : msim tx_rep (d_bset b d) (t_bset b d).
Proof.
  tx_destruct. unfold t_bset. cbn [td_held td_mem td_unlogged td_logged td_out td_start td_size].
  destruct (decide _) as [[Hb Hd]|]; [|done]. destruct (Hheld b Hb) as [Hlt Hsome].
  cbn. unfold io, lift. cbn. unfold a_bset. cbn [ac_busy ac_mem ac_disk ac_dirty ac_writes].
  rewrite decide_True by done. split; [done|].
  assert (forall x, is_Some (<[b:=d]> mem !! x) <-> is_Some (mem !! x)) as Hi.
  { intros x. destruct (decide (b = x)) as [->|]; [rewrite lookup_insert_eq; naive_solver|].
    by rewrite lookup_insert_ne. }
  tx_done; try (by intros x; rewrite ?Hi; auto).
  - intros x Hx. destruct (decide (b = x)) as [->|]; [by rewrite !lookup_insert_eq|].
    rewrite !lookup_insert_ne by done. auto.
  - clear -Hun Hb. set_solver.
  - intros x Hx [Hne Hx2]%not_elem_of_union. rewrite lookup_insert_ne by set_solver. auto.
  - intros x y. destruct (decide (b = x)) as [->|].
    + rewrite lookup_insert_eq. naive_solver.
    + rewrite lookup_insert_ne by done. apply Hlen.
Qed.

Lemma tx_log_write b : msim tx_rep (d_log_write b) (t_log_write b).
Proof.
  tx_destruct. unfold t_log_write.
  cbn [td_held td_mem td_unlogged td_logged td_out td_start td_size].
  destruct (decide _) as [(Hb & H2 & H3 & H4 & H5)|]; [|done]. destruct (Hheld b Hb) as [Hlt Hsome].
  assert (lh_n l < LOGSIZE /\ lh_n l < lg_size l - 1 /\ lh_n l + 1 < NBUF) as Hroom
    by (unfold NBUF, LOGSIZE, MAXOPBLOCKS in *; lia).
  change (d_log_write b) with (log_write (C:=acache) b).
  rewrite log_write_run by (try lia; done). split; [done|].
  assert (lg_start (logged l b) = lg_start l /\ lg_size (logged l b) = lg_size l /\
    lg_outstanding (logged l b) = lg_outstanding l /\ lg_committing (logged l b) = lg_committing l)
    as (Es & Ez & Eo & Ec) by (unfold logged; by destruct (_ =? _)).
  tx_done.
  - by apply geom_logged.
  - by rewrite Ec.
  - by apply secset_logged.
  - intros x Hx Hx2. apply Hclean; [clear -Hx; set_solver|]. rewrite elem_of_difference in Hx2.
    intros Hxu. apply Hx2. split; [done|]. clear -Hx. set_solver.
  - intros x [->%elem_of_singleton|Hx]%elem_of_union; auto.
Qed.

Lemma tx_brelse b : msim tx_rep (d_brelse b) (t_brelse b).
Proof.
  tx_destruct. unfold t_brelse.
  cbn [td_held td_mem td_unlogged td_logged td_out td_start td_size].
  destruct (decide _) as [(Hb & H2)|]; [|done]. destruct (Hheld b Hb) as [Hlt Hsome].
  cbn. rewrite io_brelse; [|done|]. 2:{ destruct (decide (b ∈ secset l)); [by left|right; auto]. }
  split; [done|]. tx_done.
  - clear -Hun H2. set_solver.
  - intros x [Hx _]%elem_of_difference. auto.
Qed.

Lemma tx_begin_op : msim tx_rep d_begin_op t_begin_op.
Proof.
  tx_destruct. unfold t_begin_op. cbn [td_held td_mem td_unlogged td_logged td_out td_start td_size].
  change d_begin_op with (begin_op (C:=acache)). unfold begin_op.
  erewrite bind_run; [|reflexivity]. cbn [ls_log]. rewrite Hcm, Hsl. cbn [ctrue negb].
  destruct (Z.ltb_spec LOGSIZE (lh_n l + (lg_outstanding l + 1) * MAXOPBLOCKS)); cbn [rsim].
  - tx_done.
  - split; [done|]. tx_done. destruct G; by constructor.
Qed.

(** What [commit] and the log agree on after the last operation has ended. *)
Lemma tx_end_op : msim tx_rep d_end_op t_end_op.
Proof.
  intros s t R. unfold t_end_op. change d_end_op with (end_op (C:=acache)).
  pose proof (tx_committing _ _ R) as Hcm. pose proof (tx_out _ _ R) as Ho.
  unfold end_op. erewrite bind_run; [|reflexivity]. erewrite bind_run; [|reflexivity].
  cbn [ls_log lg_committing lg_outstanding set_outstanding]. rewrite Hcm, Ho.
  change (ctrue 0) with false. cbv iota.
  destruct (Z.eqb_spec (td_out t - 1) 0) as [E|E].
  - destruct (decide _) as [Hh|]; [|done].
    erewrite bind_run; [|reflexivity]. cbn [ls_log ls_cache ls_wakeups].
    set (s1 := LState _ _ _). assert (log_inv s1) as I.
    { apply (tx_log_inv s t R) in Hh as [[] ? ? ? ? ? ? ? ? ?]. constructor; try done. }
    destruct (commit_installs_spec s1 I) as (s' & Hc & I' & Hn & Hd & Es & Ez & Eo & Ec & Hb).
    erewrite bind_run; [|exact Hc]. erewrite bind_run; [|reflexivity]. cbn. split; [done|].
    cbn in Es, Ez, Eo, Ec, Hb. rewrite (tx_start _ _ R) in Es. rewrite (tx_size _ _ R) in Ez.
    destruct I' as [G Hbusy Hdirty Hclean Hlen Hdlen Hsecs Hreg Hhead Hsup].
    assert (secset (ls_log s') = ∅) as He by (apply secset_0; lia).
    rewrite He in *. rewrite Es, Ez in *.
    constructor; cbn; auto.
    + destruct G; by constructor.
    + rewrite Eo. lia.
    + intros b Hlt. rewrite (proj2 (Hb b ltac:(unfold home; cbn; rewrite (tx_start _ _ R); lia))).
      by apply (tx_mem _ _ R).
    + intros b ?%elem_of_empty. done.
    + intros b. rewrite Hclean by apply not_elem_of_empty. done.
    + intros b ?%elem_of_empty. done.
  - cbn. split; [done|]. destruct R as [[]]. constructor; cbn; auto. constructor; auto.
Qed.

(** ** What a disk owes the file system *)

(** [A] is the disk [T] implements: [tdisk], or another one that keeps more. *)
Class DiskSpec (T A : Type) `{Disk T} `{Disk A} := {
  disk_rep : T -> A -> Prop;
  d_bread_sim dev b : msim disk_rep (d_bread dev b) (d_bread dev b);
  d_bset_sim b d : msim disk_rep (d_bset b d) (d_bset b d);
  d_log_write_sim b : msim disk_rep (d_log_write b) (d_log_write b);
  d_brelse_sim b : msim disk_rep (d_brelse b) (d_brelse b);
  d_begin_op_sim : msim disk_rep d_begin_op d_begin_op;
  d_end_op_sim : msim disk_rep d_end_op d_end_op
}.

(** The log of log.c over any cache that behaves as bio.c must. *)
#[export] Program Instance lstate_DiskSpec C `{BlockCacheSpec C} : DiskSpec (lstate C) tdisk := {|
  disk_rep := rel_comp log_rep tx_rep
|}.
Next Obligation. intros. eapply msim_comp; [apply io_sim, bread_sim|apply tx_bread]. Qed.
Next Obligation. intros. eapply msim_comp; [apply io_sim, bset_sim|apply tx_bset]. Qed.
Next Obligation. intros. eapply msim_comp; [apply log_write_sim|apply tx_log_write]. Qed.
Next Obligation. intros. eapply msim_comp; [apply io_sim, brelse_sim|apply tx_brelse]. Qed.
Next Obligation. intros. eapply msim_comp; [apply begin_op_sim|apply tx_begin_op]. Qed.
Next Obligation. intros. eapply msim_comp; [apply end_op_sim|apply tx_end_op]. Qed.

#[export] Hint Resolve d_bread_sim d_bset_sim d_log_write_sim d_brelse_sim d_begin_op_sim
  d_end_op_sim : msim.
