(* ===== verification/CrashDisk.v ===== *)
(** The disk of TxDisk.v with a memory of its commits.

    [hdisk] is [tdisk] beside the contents it had at the start and at every
    commit since.  [crash_rep] relates the log of Log.v to it and adds what the
    operations promise of the sector writes they have made: after any prefix of
    them the disk recovers to one of those contents, and after all of them to
    the last.  It is kept by every operation of [Disk], so that whatever the
    file system does between [begin_op] and [end_op] a crash lands on a commit. *)

From stdpp Require Import prelude strings gmap list.
From S2P Require Import Prelude Bytes Param BlockCache Log LogCrash LogOps Bio BioSpec BioOps TxDisk.

(** ** Mounting after a crash *)

(** An empty log is one between transactions. *)
Lemma log_inv_tx (a : alog) mem :
  log_inv a -> lh_n (ls_log a) = 0 -> lg_committing (ls_log a) = 0 ->
  (forall b, b < lg_start (ls_log a) -> ac_mem (ls_cache a) !! b = mem !! b) ->
  tx_rep a (TDisk mem ∅ ∅ ∅ (lg_outstanding (ls_log a)) (lg_start (ls_log a)) (lg_size (ls_log a))).
Proof.
  intros [] Hn Hc Hm. assert (secset (ls_log a) = ∅) as He by by apply secset_0.
  rewrite He in *. constructor; cbn; auto.
  - intros b ?%elem_of_empty. done.
  - intros b. rewrite inv_clean; [done|]. apply not_elem_of_empty.
  - intros b ?%elem_of_empty. done.
Qed.

(** The disk [d] recovers to the contents [mem] below the log. *)
Definition committed (start size : Z) (mem d : gmap Z block) : Prop :=
  exists target, recovers_to start size target d /\ forall b, b < start -> target !! b = mem !! b.

Lemma committed_crashes start size mem d d' :
  crashes d d' -> committed start size mem d -> committed start size mem d'.
Proof. intros Hc (target & Ht & Hm). exists target. eauto using recovers_to_crashes. Qed.

(** The kernel that boots on such a disk has [mem] in its files. *)
Lemma committed_mount start size mem d :
  committed start size mem d ->
  exists r : lstate bcache, initlog (LState log0 (binit d) []) = Ok tt r /\
    disk_rep r (TDisk mem ∅ ∅ ∅ 0 start size).
Proof.
  intros (target & (l & h & <- & <- & LD & Ht) & Hm).
  pose proof (initlog_run l d _ LD) as E. cbv zeta in E. pose proof (recovered_inv l d _ LD) as I.
  assert (log_rep (LState log0 (binit d) []) (LState log0 (boot d) [])) as Hb0
    by (split; [reflexivity|split; [reflexivity|apply binit_rep]]).
  destruct (msim_Ok _ _ _ _ _ _ _ initlog_sim Hb0 E) as (s & Es' & Rs).
  exists s. split; [exact Es'|]. eexists. split; [exact Rs|].
  apply (log_inv_tx _ mem I); [done|done|]. intros b Hb. cbn in Hb. cbn [ls_cache ac_mem].
  rewrite Ht by (unfold home; lia). by apply Hm.
Qed.

(** Between transactions the disk holds what the files hold. *)
Lemma tx_quiet a t :
  tx_rep a t -> td_held t = ∅ -> td_logged t = ∅ ->
  committed (td_start t) (td_size t) (td_mem t) (ac_disk (ls_cache a)) /\
  forall b, b < td_start t -> ac_disk (ls_cache a) !! b = td_mem t !! b.
Proof.
  intros R Hh Hl. assert (forall b, b < td_start t -> ac_disk (ls_cache a) !! b = td_mem t !! b) as Hd.
  { intros b Hb. rewrite <- (tx_mem _ _ R b Hb). symmetry. apply (tx_clean _ _ R); [set_solver|].
    pose proof (tx_unlogged _ _ R). set_solver. }
  split; [|exact Hd]. exists (ac_disk (ls_cache a)). split; [|exact Hd].
  rewrite <- (tx_start _ _ R), <- (tx_size _ _ R).
  exact (commit_prefix_recovers a 0 (tx_log_inv a t R Hh)).
Qed.

(** ** The machine *)

Record hdisk := HDisk {
  hd_t : tdisk;
  hd_commits : list (gmap Z block)   (* the contents at the start and at each commit *)
}.

Definition h_lift {A} : M tdisk A -> M hdisk A :=
  lift hd_t (fun t h => HDisk t (hd_commits h)).

Definition h_end_op : M hdisk unit :=
  h_lift t_end_op;;
  modify (fun h => if td_out (hd_t h) =? 0 then HDisk (hd_t h) (hd_commits h ++ [td_mem (hd_t h)]) else h).

#[export] Instance hdisk_Disk : Disk hdisk := {|
  d_bread dev s := h_lift (t_bread dev s);
  d_bset s d := h_lift (t_bset s d);
  d_log_write s := h_lift (t_log_write s);
  d_brelse s := h_lift (t_brelse s);
  d_begin_op := h_lift t_begin_op;
  d_end_op := h_end_op
|}.

(** ** What the log promises of its writes *)

Section crash.
Context (start size : Z) (w0 : list (Z * block)) (d0 : gmap Z block).

Record crash_rep (a : alog) (h : hdisk) : Prop := {
  cr_tx : tx_rep a (hd_t h);
  cr_start : td_start (hd_t h) = start;
  cr_size : td_size (hd_t h) = size;
  cr_writes : exists ws,
    ac_writes (ls_cache a) = w0 ++ ws /\ ac_disk (ls_cache a) = apply_writes ws d0 /\
    forall k, exists mem, mem ∈ hd_commits h /\ committed start size mem (apply_writes (take k ws) d0);
  cr_last : exists mem, last (hd_commits h) = Some mem /\
    committed start size mem (ac_disk (ls_cache a)) /\
    forall b, b < start -> ac_disk (ls_cache a) !! b = mem !! b
}.

(** An operation that writes no sector and leaves the log where it is. *)
Definition writes_nothing {A} (m : M alog A) : Prop := forall s,
  match m s with
  | Ok _ s' | Sleep _ s' =>
      ac_writes (ls_cache s') = ac_writes (ls_cache s) /\ ac_disk (ls_cache s') = ac_disk (ls_cache s) /\
      lg_start (ls_log s') = lg_start (ls_log s) /\ lg_size (ls_log s') = lg_size (ls_log s)
  | _ => True
  end.

Lemma crash_rep_keep a h a' t' :
  crash_rep a h -> tx_rep a' t' ->
  ac_writes (ls_cache a') = ac_writes (ls_cache a) /\ ac_disk (ls_cache a') = ac_disk (ls_cache a) /\
  lg_start (ls_log a') = lg_start (ls_log a) /\ lg_size (ls_log a') = lg_size (ls_log a) ->
  crash_rep a' (HDisk t' (hd_commits h)).
Proof.
  intros [Ht Hs Hz Hw Hl] Ht' (Ew & Ed & Es & Ez).
  constructor; cbn [hd_t hd_commits]; rewrite ?Ew, ?Ed; try done.
  - by rewrite <- (tx_start _ _ Ht'), Es, (tx_start _ _ Ht).
  - by rewrite <- (tx_size _ _ Ht'), Ez, (tx_size _ _ Ht).
Qed.

Lemma crash_keeps {A} (m : M alog A) (m' : M tdisk A) :
  msim tx_rep m m' -> writes_nothing m -> msim crash_rep m (h_lift m').
Proof.
  intros Hm Hk a h Hr. specialize (Hm a (hd_t h) (cr_tx _ _ Hr)). specialize (Hk a).
  unfold h_lift, lift. destruct (m' (hd_t h)), (m a); cbn [rsim] in *; try done.
  - destruct Hm as [-> Hm]. split; [done|]. by apply (crash_rep_keep _ _ _ _ Hr).
  - by apply (crash_rep_keep _ _ _ _ Hr).
Qed.

Lemma io_writes_nothing {A} (m : M acache A) :
  (forall c, match m c with
             | Ok _ c' | Sleep _ c' => ac_writes c' = ac_writes c /\ ac_disk c' = ac_disk c
             | _ => True
             end) -> writes_nothing (io m).
Proof.
  intros Hm s. specialize (Hm (ls_cache s)). unfold io, lift.
  destruct (m (ls_cache s)); cbn [ls_cache ls_log]; naive_solver.
Qed.

Lemma set_log_writes_nothing f :
  (forall l, lg_start (f l) = lg_start l /\ lg_size (f l) = lg_size l) -> writes_nothing (set_log f).
Proof. intros Hf s. cbn. destruct (Hf (ls_log s)). done. Qed.

Lemma bind_writes_nothing {A B} (m : M alog A) (f : A -> M alog B) :
  writes_nothing m -> (forall x, writes_nothing (f x)) -> writes_nothing (m ≫= f).
Proof.
  intros Hm Hf s. specialize (Hm s). unfold mbind, M_bind. destruct (m s) as [x s1| | |]; try done.
  specialize (Hf x s1). destruct (f x s1); naive_solver congruence.
Qed.

Lemma bread_writes_nothing dev b : writes_nothing (d_bread dev b).
Proof.
  apply io_writes_nothing. intros c. cbn -[NBUF]. unfold a_bread.
  destruct (dev =? 1), (a_full c), (decide (b ∈ ac_busy c)), (bool_decide (b ∉ ac_dirty c)), (ac_mem c !! b); done.
Qed.

Lemma bset_writes_nothing b d : writes_nothing (d_bset b d).
Proof. apply io_writes_nothing. intros c. cbn. unfold a_bset. by destruct (decide (b ∈ ac_busy c)). Qed.

Lemma brelse_writes_nothing b : writes_nothing (d_brelse b).
Proof. apply io_writes_nothing. intros c. cbn. unfold a_brelse.
  destruct (decide (b ∈ ac_busy c)); [|done]. by case_decide. Qed.

Lemma begin_op_writes_nothing : writes_nothing d_begin_op.
Proof.
  apply bind_writes_nothing; [by intros s|]. intros l.
  destruct (ctrue _); [by intros s|]. destruct (_ <? _); [by intros s|]. by apply set_log_writes_nothing.
Qed.

Lemma log_write_writes_nothing b : writes_nothing (d_log_write b).
Proof.
  apply bind_writes_nothing; [by intros s|]. intros l.
  destruct (_ || _)%bool; [by intros s|]. destruct (_ <? _); [by intros s|]. cbv zeta.
  apply bind_writes_nothing; [by apply set_log_writes_nothing|intros _].
  apply bind_writes_nothing; [|intros _].
  - destruct (_ =? _); [by apply set_log_writes_nothing|by intros s].
  - apply io_writes_nothing. intros c. cbn. unfold a_bdirty. by destruct (decide (b ∈ ac_busy c)).
Qed.

(** The sector writes of the [end_op] that commits. *)
Lemma end_op_writes s t :
  tx_rep s t -> td_held t = ∅ -> td_out t = 1 ->
  let s1 := LState (set_committing 1 (set_outstanding 0 (ls_log s))) (ls_cache s) (ls_wakeups s) in
  let W := if 0 <? lh_n (ls_log s) then commit_writes (ls_log s1) (ac_mem (ls_cache s)) else [] in
  log_inv s1 /\
  exists s', end_op s = Ok tt s' /\ ac_writes (ls_cache s') = ac_writes (ls_cache s) ++ W /\
    ac_disk (ls_cache s') = apply_writes W (ac_disk (ls_cache s)).
Proof.
  intros R Hh Ho s1 W. assert (log_inv s1) as I.
  { apply (tx_log_inv s t R) in Hh as [[] ? ? ? ? ? ? ? ? ?]. constructor; try done. }
  split; [done|]. pose proof (tx_committing _ _ R) as Hcm. pose proof (tx_out _ _ R) as Ho'.
  unfold end_op. erewrite bind_run; [|reflexivity]. erewrite bind_run; [|reflexivity].
  cbn [ls_log lg_committing lg_outstanding set_outstanding]. rewrite Hcm, Ho', Ho.
  change (ctrue 0) with false. cbv iota. change (1 - 1 =? 0) with true. cbv iota.
  erewrite bind_run; [|reflexivity]. cbn [ls_log ls_cache ls_wakeups].
  change (1 - 1) with 0. subst W. destruct (Z.ltb_spec 0 (lh_n (ls_log s))) as [Hn|Hn].
  - erewrite bind_run; [|exact (commit_run s1 I Hn)]. by eexists.
  - erewrite bind_run.
    2:{ unfold commit. erewrite bind_run; [|reflexivity]. cbn [ls_log lh_n set_committing set_outstanding].
        destruct (Z.ltb_spec 0 (lh_n (ls_log s))); [lia|reflexivity]. }
    eexists. split; [reflexivity|]. cbn. by rewrite app_nil_r.
Qed.

(** A prefix of the writes of a commit leaves the contents of before or of after it. *)
Lemma commit_prefix_committed s t l m k :
  tx_rep s t -> td_start t = start -> td_size t = size ->
  lg_start l = lg_start (ls_log s) -> lg_size l = lg_size (ls_log s) ->
  log_inv (LState l (ls_cache s) (ls_wakeups s)) ->
  (forall b, b < start -> ac_disk (ls_cache s) !! b = m !! b) ->
  let d := apply_writes (take k (commit_writes l (ac_mem (ls_cache s)))) (ac_disk (ls_cache s)) in
  committed start size m d \/ committed start size (td_mem t) d.
Proof.
  intros R <- <- El Ez I Hm d. pose proof (commit_prefix_recovers _ k I) as Hc.
  cbn [ls_log ls_cache] in Hc. fold d in Hc. rewrite El, Ez, (tx_start _ _ R), (tx_size _ _ R) in Hc.
  destruct (decide _); [left|right]; eexists; (split; [exact Hc|]); [exact Hm|]. apply (tx_mem _ _ R).
Qed.

Lemma crash_commit a h :
  crash_rep a h -> td_held (hd_t h) = ∅ -> td_out (hd_t h) = 1 ->
  exists a', end_op a = Ok tt a' /\
    crash_rep a' (HDisk (TDisk (td_mem (hd_t h)) ∅ ∅ ∅ 0 start size) (hd_commits h ++ [td_mem (hd_t h)])).
Proof.
  intros [Ht Hs Hz (ws & Ew & Ed & Hk) (m & Hm & Hmc & Hmd)] Hh Ho.
  destruct (end_op_writes a (hd_t h) Ht Hh Ho) as (I & a' & Ee & Ew' & Ed').
  set (W := if 0 <? _ then _ else _) in *. exists a'. split; [exact Ee|].
  pose proof (tx_end_op a (hd_t h) Ht) as Ht'. change d_end_op with (end_op (C:=acache)) in Ht'.
  unfold t_end_op in Ht'. rewrite Ee, Ho, decide_True, Hs, Hz in Ht' by done. destruct Ht' as [_ Ht'].
  constructor; cbn [hd_t hd_commits td_start td_size]; [exact Ht'|done|done| |].
  - exists (ws ++ W). split; [by rewrite Ew', Ew, app_assoc|].
    split; [by rewrite Ed', Ed, apply_writes_app|]. intros k.
    destruct (decide (k <= length ws)%nat).
    { rewrite take_app_le by done. destruct (Hk k) as (x & ? & ?). exists x. rewrite elem_of_app. auto. }
    rewrite take_app_ge, apply_writes_app, <- Ed by lia.
    assert (m ∈ hd_commits h) as Hin by (by apply last_Some_elem_of).
    subst W. destruct (0 <? lh_n (ls_log a)).
    + destruct (commit_prefix_committed a (hd_t h) (set_committing 1 (set_outstanding 0 (ls_log a))) m
        (k - length ws) Ht Hs Hz eq_refl eq_refl I Hmd);
        [exists m|exists (td_mem (hd_t h))]; (split; [rewrite elem_of_app, list_elem_of_singleton; auto|done]).
    + rewrite take_nil. exists m. rewrite elem_of_app. auto.
  - exists (td_mem (hd_t h)). rewrite last_snoc. split; [done|].
    exact (tx_quiet a' _ Ht' eq_refl eq_refl).
Qed.

Lemma crash_end_op : msim crash_rep d_end_op h_end_op.
Proof.
  intros a h Hr. change d_end_op with (end_op (C:=acache)). unfold h_end_op.
  destruct (decide (td_out (hd_t h) = 1)) as [Ho|Ho].
  - unfold mbind, M_bind, h_lift, lift, t_end_op. rewrite Ho. cbn [Z.sub Z.eqb Z.add Z.opp Z.pos_sub].
    destruct (decide _) as [Hh|]; [|done].
    destruct (crash_commit a h Hr Hh Ho) as (a' & -> & Hr'). cbn. split; [done|].
    by rewrite (cr_start _ _ Hr), (cr_size _ _ Hr).
  - pose proof (cr_tx _ _ Hr) as Ht. pose proof (tx_end_op a _ Ht) as Hs.
    change d_end_op with (end_op (C:=acache)) in Hs. revert Hs.
    unfold mbind, M_bind, h_lift, lift, t_end_op.
    destruct (Z.eqb_spec (td_out (hd_t h) - 1) 0); [lia|].
    unfold end_op. erewrite !bind_run; [|reflexivity..].
    cbn [ls_log lg_committing lg_outstanding set_outstanding].
    rewrite (tx_committing _ _ Ht), (tx_out _ _ Ht). change (ctrue 0) with false. cbv iota.
    destruct (Z.eqb_spec (td_out (hd_t h) - 1) 0); [lia|]. cbn -[Z.sub Z.eqb].
    destruct (Z.eqb_spec (td_out (hd_t h) - 1) 0); [lia|]. intros [_ Ht']. split; [done|].
    by apply (crash_rep_keep _ _ _ _ Hr).
Qed.

(** The log over a cache that behaves as bio.c must, with its writes. *)
Program Definition crash_DiskSpec C `{BlockCacheSpec C} : DiskSpec (lstate C) hdisk := {|
  disk_rep := rel_comp log_rep crash_rep
|}.
Next Obligation.
  intros. eapply msim_comp; [apply io_sim, bread_sim|]. apply crash_keeps; [apply tx_bread|apply bread_writes_nothing].
Qed.
Next Obligation.
  intros. eapply msim_comp; [apply io_sim, bset_sim|]. apply crash_keeps; [apply tx_bset|apply bset_writes_nothing].
Qed.
Next Obligation.
  intros. eapply msim_comp; [apply log_write_sim|].
  apply crash_keeps; [apply tx_log_write|apply log_write_writes_nothing].
Qed.
Next Obligation.
  intros. eapply msim_comp; [apply io_sim, brelse_sim|].
  apply crash_keeps; [apply tx_brelse|apply brelse_writes_nothing].
Qed.
Next Obligation.
  intros. eapply msim_comp; [apply begin_op_sim|].
  apply crash_keeps; [apply tx_begin_op|apply begin_op_writes_nothing].
Qed.
Next Obligation. intros. eapply msim_comp; [apply end_op_sim|apply crash_end_op]. Qed.

End crash.

(** ** The cache of bio.c *)

(** The relation holds between transactions, before any new write. *)
Lemma crash_rep_start (s : lstate bcache) t :
  rel_comp log_rep tx_rep s t -> td_held t = ∅ -> td_logged t = ∅ ->
  rel_comp log_rep
    (crash_rep (td_start t) (td_size t) (disk_writes (ls_cache s)) (memdisk (ls_cache s)))
    s (HDisk t [td_mem t]).
Proof.
  intros (a & Ha & Ht) Hh Hl. exists a. split; [exact Ha|]. destruct Ha as (_ & _ & Hc).
  destruct (tx_quiet a t Ht Hh Hl) as [Hq Hd].
  constructor; cbn [hd_t hd_commits]; [done..| |].
  - exists []. rewrite app_nil_r, (br_writes _ _ Hc), (br_disk _ _ Hc). split_and!; [done..|].
    intros k. exists (td_mem t). rewrite take_nil, list_elem_of_singleton. split; [done|]. exact Hq.
  - exists (td_mem t). done.
Qed.

(** The disk when the power fails after [k] of the sector writes made since [s]. *)
Definition power_fail (s s' : lstate bcache) (k : nat) : gmap Z block :=
  apply_writes (take k (drop (length (disk_writes (ls_cache s))) (disk_writes (ls_cache s'))))
    (memdisk (ls_cache s)).

(** After a crash, and any number of crashes of the recoveries that follow, the
    kernel mounts contents that were committed; those of the last commit if
    every write had been made. *)
Lemma crash_rep_mount start size (s s' : lstate bcache) h k d :
  rel_comp log_rep (crash_rep start size (disk_writes (ls_cache s)) (memdisk (ls_cache s))) s' h ->
  crashes (power_fail s s' k) d ->
  exists mem (r : lstate bcache), mem ∈ hd_commits h /\
    ((length (disk_writes (ls_cache s')) <= length (disk_writes (ls_cache s)) + k)%nat ->
      last (hd_commits h) = Some mem) /\
    initlog (LState log0 (binit d) []) = Ok tt r /\ disk_rep r (TDisk mem ∅ ∅ ∅ 0 start size).
Proof.
  intros (a & (_ & _ & Hc) & [Ht _ _ (ws & Ew & Ed & Hk) (m & Hm & Hmc & _)]) Hd.
  unfold power_fail in Hd. rewrite (br_writes _ _ Hc), Ew, drop_app_length in Hd.
  rewrite (br_writes _ _ Hc), Ew, length_app.
  destruct (decide (length ws <= k)%nat) as [Hle|Hlt].
  - rewrite take_ge, <- Ed in Hd by done. destruct (committed_mount start size m d) as (r & Er & Rr);
      [by eapply committed_crashes|]. exists m, r. split_and!; [by apply last_Some_elem_of|done..].
  - destruct (Hk k) as (mem & Hin & Hcm).
    destruct (committed_mount start size mem d) as (r & Er & Rr); [by eapply committed_crashes|].
    exists mem, r. split_and!; [done|lia|done..].
Qed.
