(* ===== verification/Dir.v ===== *)
(** fs.c: directories and path names.

    A C string is the list of its bytes without the terminating NUL; a
    [char name[DIRSIZ]] is a list of [DIRSIZ] bytes. *)

From stdpp Require Import prelude strings gmap list.
From S2P Require Import Prelude Bytes Param BlockCache CString Log TxDisk Fs.

(** Two strings in memory, each followed by NUL bytes. *)
Definition two_strings (s t : list Z) : mem := fun a =>
  if a <? 64 then s.[a] else t.[a - 64].

Definition namecmp (s t : list Z) : Z := strncmp 0 64 (Z.to_nat DIRSIZ) (two_strings s t).

Definition dirent_inum (de : list Z) : Z := get_le 2 de 0.
Definition dirent_name (de : list Z) : list Z := slice de 2 (Z.to_nat DIRSIZ).

(** The 14 bytes [strncpy(de.name, name, DIRSIZ)] stores. *)
Definition strncpy_name (name : list Z) : list Z :=
  let m := strncpy 64 0 DIRSIZ (two_strings name []) in
  (fun i => m (64 + i)) <$> upto DIRSIZ.

Definition dirent_bytes (inum : Z) (name : list Z) : list Z :=
  le_split 2 inum ++ strncpy_name name.

(** *** [skipelem] *)

Definition SLASH : Z := 47.

Fixpoint skip_slashes (path : list Z) : list Z :=
  match path with
  | c :: path' => if c =? SLASH then skip_slashes path' else path
  | [] => []
  end.

(** [while( *path != '/' && *path != 0) path++], with the bytes passed. *)
Fixpoint scan_elem (path : list Z) : list Z * list Z :=
  match path with
  | c :: path' =>
      if ((c =? SLASH) || (c =? 0))%bool then ([], path)
      else let '(s, rest) := scan_elem path' in (c :: s, rest)
  | [] => ([], [])
  end.

Definition is_end (path : list Z) : bool :=
  match path with [] => true | c :: _ => c =? 0 end.

(** The rest of the path, and the buffer [name] after the call. *)
Definition skipelem (path name : list Z) : option (list Z * list Z) :=
  let path := skip_slashes path in
  if is_end path then None
  else
    let '(s, path) := scan_elem path in
    let name := if DIRSIZ <=? Z.of_nat (length s) then splice name 0 (take (Z.to_nat DIRSIZ) s)
                else splice name 0 (s ++ [0]) in
    Some (skip_slashes path, name).

Section ops.
Context {T D : Type} `{Disk T}.
Abbreviation F := (fsys T D).
Context (devsw : Z -> devops F).

(** The macro of file.h. *)
Definition IS_DEV_DIR (ip : Z) : M F bool :=
  i ← get_inode ip;
  if i_type i =? T_DEV then
    row ← devsw_row devsw (i_major i);
    match dv_isdir row with
    | None => mret false
    | Some isdir => r ← isdir ip; mret (ctrue r)
    end
  else mret false.

(** [ip->type == T_DIR || IS_DEV_DIR(ip)] *)
Definition is_dir (ip : Z) : M F bool :=
  i ← get_inode ip;
  if i_type i =? T_DIR then mret true else IS_DEV_DIR ip.

(** A device directory ends when its [read] does; no device of the kernel
    makes more than 68 entries. *)
Definition DEV_DIR_FUEL : nat := 128.

Definition dir_fuel (i : inode) : nat :=
  if i_type i =? T_DEV then DEV_DIR_FUEL else Z.to_nat (i_size i / sizeof_dirent + 2).

Fixpoint dirlookup_loop (fuel : nat) (dp off : Z) (name : list Z) : M F (option (Z * Z)) :=
  match fuel with
  | O => fault "fuel"
  | S fuel =>
      d ← get_inode dp;
      if ((off <? i_size d) || (i_type d =? T_DEV))%bool then
        '(r, de) ← readi devsw dp off sizeof_dirent;
        d ← get_inode dp;
        if negb (r =? sizeof_dirent) then
          if i_type d =? T_DEV then mret None else panic "dirlink read"
        else if dirent_inum de =? 0 then dirlookup_loop fuel dp (u32 (off + sizeof_dirent)) name
        else if namecmp name (dirent_name de) =? 0 then
          ip ← iget (i_dev d) (dirent_inum de);
          i ← get_inode ip;
          (if (negb (ctrue (i_flags i .& I_VALID)) && (i_type d =? T_DEV))%bool then
             row ← devsw_row devsw (i_major d);
             match dv_iread row with
             | None => mret tt
             | Some iread => iread dp ip
             end
           else mret tt);;
          mret (Some (ip, off))
        else dirlookup_loop fuel dp (u32 (off + sizeof_dirent)) name
      else mret None
  end.

(** The inode and the offset of its entry ([*poff]). *)
Definition dirlookup (dp : Z) (name : list Z) : M F (option (Z * Z)) :=
  b ← is_dir dp;
  if negb b then panic "dirlookup not DIR"
  else
    d ← get_inode dp;
    dirlookup_loop (dir_fuel d) dp 0 name.

(** The offset of the first free entry, or the end of the directory. *)
Fixpoint dirlink_loop (fuel : nat) (dp off : Z) : M F Z :=
  match fuel with
  | O => fault "fuel"
  | S fuel =>
      d ← get_inode dp;
      if off <? i_size d then
        '(r, de) ← readi devsw dp off sizeof_dirent;
        if negb (r =? sizeof_dirent) then panic "dirlink read"
        else if dirent_inum de =? 0 then mret off
        else dirlink_loop fuel dp (off + sizeof_dirent)
      else mret off
  end.

Definition dirlink (dp : Z) (name : list Z) (inum : Z) : M F Z :=
  r ← dirlookup dp name;
  match r with
  | Some (ip, _) => iput ip;; mret (-1)
  | None =>
      d ← get_inode dp;
      off ← dirlink_loop (Z.to_nat (i_size d / sizeof_dirent + 2)) dp 0;
      w ← writei devsw dp (dirent_bytes inum name) off sizeof_dirent;
      if negb (w =? sizeof_dirent) then panic "dirlink" else mret 0
  end.

(** The loop of [namex]; one iteration per path element. *)
Fixpoint namex_loop (fuel : nat) (ip : Z) (path : list Z) (parent : bool) (name : list Z)
    : M F (option Z * list Z) :=
  match fuel with
  | O => fault "fuel"
  | S fuel =>
      match skipelem path name with
      | None => if parent then iput ip;; mret (None, name) else mret (Some ip, name)
      | Some (path, name) =>
          ilock (Some ip);;
          b ← is_dir ip;
          if negb b then iunlockput (Some ip);; mret (None, name)
          else if (parent && is_end path)%bool then iunlock (Some ip);; mret (Some ip, name)
          else
            next ← dirlookup ip name;
            match next with
            | None => iunlockput (Some ip);; mret (None, name)
            | Some (next, _) =>
                iunlockput (Some ip);;
                namex_loop fuel next path parent name
            end
      end
  end.

(** [cwd] is [proc->cwd]. *)
Definition namex (cwd : Z) (path : list Z) (parent : bool) (name : list Z)
    : M F (option Z * list Z) :=
  ip ← (if match path with c :: _ => c =? SLASH | [] => false end
        then iget ROOTDEV ROOTINO else idup cwd);
  namex_loop (S (length path)) ip path parent name.

Definition name0 : list Z := replicate (Z.to_nat DIRSIZ) 0.

Definition namei (cwd : Z) (path : list Z) : M F (option Z) :=
  '(ip, _) ← namex cwd path false name0;
  mret ip.

Definition nameiparent (cwd : Z) (path name : list Z) : M F (option Z * list Z) :=
  namex cwd path true name.

End ops.
