(* ===== verification/FsSim.v ===== *)
(** The file system over the log and the buffer cache does what it does over
    the abstract disk of TxDisk.v: every operation of fs.c is simulated, so the
    theorems proved of the abstract disk hold of log.c, bio.c and memide.c.  The
    proofs hold for any two disks related by [DiskSpec]. *)

From stdpp Require Import prelude strings gmap list.
From S2P Require Import Prelude Bytes Param BlockCache Log BioSpec Bio BioOps TxDisk Fs Dir.

Section sim.
Context {T A D : Type} `{DiskSpec T A}.

Definition fs_rep (s : fsys T D) (t : fsys A D) : Prop :=
  disk_rep (fs_disk s) (fs_disk t) /\ fs_icache s = fs_icache t /\
  fs_wakeups s = fs_wakeups t /\ fs_rest s = fs_rest t.

(** Device functions that do the same on both. *)
Record dev_sim (d : devops (fsys T D)) (d' : devops (fsys A D)) : Prop := {
  ds_isdir : match dv_isdir d, dv_isdir d' with
             | Some f, Some f' => forall ip, msim fs_rep (f ip) (f' ip)
             | None, None => True
             | _, _ => False
             end;
  ds_iread : match dv_iread d, dv_iread d' with
             | Some f, Some f' => forall dp ip, msim fs_rep (f dp ip) (f' dp ip)
             | None, None => True
             | _, _ => False
             end;
  ds_read : match dv_read d, dv_read d' with
            | Some f, Some f' => forall ip off n, msim fs_rep (f ip off n) (f' ip off n)
            | None, None => True
            | _, _ => False
            end;
  ds_write : match dv_write d, dv_write d' with
             | Some f, Some f' => forall ip src n, msim fs_rep (f ip src n) (f' ip src n)
             | None, None => True
             | _, _ => False
             end
}.

Lemma dio_sim {X} (m : M T X) m' : msim disk_rep m m' -> msim fs_rep (dio m) (dio m').
Proof.
  intros Hm s t (Hd & Hi & Hw & Hr). specialize (Hm _ _ Hd). unfold dio, lift.
  destruct (m' (fs_disk t)), (m (fs_disk s)); simpl in *; unfold fs_rep; simpl; try done; try tauto.
Qed.

Lemma fwakeup_sim c : msim fs_rep (fwakeup c) (fwakeup c).
Proof. intros s t (Hd & Hi & Hw & Hr). unfold fs_rep. simpl. rewrite Hw. tauto. Qed.

Lemma get_inode_sim ip : msim fs_rep (get_inode ip) (get_inode ip).
Proof.
  intros s t Hst. pose proof Hst as (Hd & Hi & Hw & Hr). unfold get_inode.
  destruct (ip <? 0); [done|]. rewrite Hi. by destruct (fs_icache t !! _).
Qed.

Lemma set_inode_sim ip i : msim fs_rep (set_inode ip i) (set_inode ip i).
Proof. intros s t (Hd & Hi & Hw & Hr). unfold fs_rep. simpl. rewrite Hi. tauto. Qed.

Lemma gets_icache_sim {X} (f : list inode -> M (fsys T D) X) f' :
  (forall ic, msim fs_rep (f ic) (f' ic)) ->
  msim fs_rep (gets fs_icache ≫= f) (gets fs_icache ≫= f').
Proof.
  intros Hf s t Hst. erewrite !bind_run by done. pose proof Hst as (Hd & Hi & Hw & Hr).
  rewrite Hi. by apply Hf.
Qed.

Lemma sleep_on_sim {X} ch : msim (A:=X) fs_rep (sleep_on ch) (sleep_on ch).
Proof. by intros s t. Qed.

End sim.

#[export] Hint Resolve dio_sim fwakeup_sim get_inode_sim set_inode_sim sleep_on_sim : msim.

(** One step along the structure of a program that runs on both states. *)
Ltac fs_sim_step := match goal with
  | |- forall _, _ => intro
  | |- msim _ (gets fs_icache ≫= _) _ => apply gets_icache_sim
  | |- msim _ (_ ≫= _) _ => apply msim_bind
  | |- msim _ (for_each _ _) _ => apply msim_for_each
  | |- msim _ (when ?b _) _ => destruct b; cbn [when]
  | |- msim _ (if ?b then _ else _) _ => destruct b
  | |- msim _ (let '(_, _) := ?p in _) _ => destruct p
  | |- msim _ (match ?p with _ => _ end) _ => destruct p
  | |- _ => solve [auto with msim]
  end.
Ltac fs_sim := repeat (cbv zeta; fs_sim_step).

Section ops_sim.
Context {T A D : Type} `{DiskSpec T A}.
Abbreviation R := (fs_rep (T:=T) (A:=A) (D:=D)).
Context (devsw : Z -> devops (fsys T D)) (devsw' : Z -> devops (fsys A D)).
Hypothesis Hdev : forall major, dev_sim (devsw major) (devsw' major).

Lemma fs_readsb_sim dev : msim R (Fs.readsb dev) (Fs.readsb dev).
Proof. unfold Fs.readsb. fs_sim. Qed.
#[local] Hint Resolve fs_readsb_sim : msim.

Lemma bzero_sim dev b : msim R (bzero dev b) (bzero dev b).
Proof. unfold bzero. fs_sim. Qed.
#[local] Hint Resolve bzero_sim : msim.

Lemma balloc_loop_sim dev sb bs : msim R (balloc_loop dev sb bs) (balloc_loop dev sb bs).
Proof. induction bs; cbn [balloc_loop]; fs_sim. Qed.
#[local] Hint Resolve balloc_loop_sim : msim.

Lemma balloc_sim dev : msim R (balloc dev) (balloc dev).
Proof. unfold balloc. fs_sim. Qed.

Lemma bfree_sim dev b : msim R (bfree dev b) (bfree dev b).
Proof. unfold bfree. fs_sim. Qed.

Lemma iget_sim dev inum : msim R (iget dev inum) (iget dev inum).
Proof. unfold iget. fs_sim. Qed.
#[local] Hint Resolve balloc_sim bfree_sim iget_sim : msim.

Lemma ialloc_loop_sim dev type l : msim R (ialloc_loop dev type l) (ialloc_loop dev type l).
Proof. induction l; cbn [ialloc_loop]; fs_sim. Qed.
#[local] Hint Resolve ialloc_loop_sim : msim.

Lemma ialloc_sim dev type : msim R (ialloc dev type) (ialloc dev type).
Proof. unfold ialloc. fs_sim. Qed.

Lemma iupdate_sim ip : msim R (iupdate ip) (iupdate ip).
Proof. unfold iupdate. fs_sim. Qed.

Lemma idup_sim ip : msim R (idup ip) (idup ip).
Proof. unfold idup. fs_sim. Qed.

Lemma ilock_sim p : msim R (ilock p) (ilock p).
Proof. unfold ilock. fs_sim. Qed.

Lemma iunlock_sim p : msim R (iunlock p) (iunlock p).
Proof. unfold iunlock. fs_sim. Qed.

Lemma bmap_sim ip bn : msim R (bmap ip bn) (bmap ip bn).
Proof. unfold bmap. fs_sim. Qed.
#[local] Hint Resolve ialloc_sim iupdate_sim idup_sim ilock_sim iunlock_sim bmap_sim : msim.

Lemma itrunc_sim ip : msim R (itrunc ip) (itrunc ip).
Proof. unfold itrunc. fs_sim. Qed.
#[local] Hint Resolve itrunc_sim : msim.

Lemma iput_sim ip : msim R (iput ip) (iput ip).
Proof. unfold iput. fs_sim. Qed.
#[local] Hint Resolve iput_sim : msim.

Lemma iunlockput_sim p : msim R (iunlockput p) (iunlockput p).
Proof. unfold iunlockput. fs_sim. Qed.

Lemma stati_sim ip : msim R (stati ip) (stati ip).
Proof. unfold stati. fs_sim. Qed.

Lemma readi_loop_sim fuel ip dev off n tot dst :
  msim R (readi_loop fuel ip dev off n tot dst) (readi_loop fuel ip dev off n tot dst).
Proof. revert off tot dst. induction fuel; intros; cbn [readi_loop]; fs_sim. Qed.

Lemma writei_loop_sim fuel ip dev off n tot src :
  msim R (writei_loop fuel ip dev off n tot src) (writei_loop fuel ip dev off n tot src).
Proof. revert off tot. induction fuel; intros; cbn [writei_loop]; fs_sim. Qed.
#[local] Hint Resolve iunlockput_sim stati_sim readi_loop_sim writei_loop_sim : msim.

Lemma readi_sim ip off n : msim R (readi devsw ip off n) (readi devsw' ip off n).
Proof.
  unfold readi. apply msim_bind; [auto with msim|intros i].
  destruct (i_type i =? T_DEV); [|fs_sim].
  destruct ((_ || _)%bool); [fs_sim|]. pose proof (ds_read _ _ (Hdev (i_major i))).
  destruct (dv_read (devsw _)), (dv_read (devsw' _)); try done; fs_sim.
Qed.

Lemma writei_sim ip src off n : msim R (writei devsw ip src off n) (writei devsw' ip src off n).
Proof.
  unfold writei. apply msim_bind; [auto with msim|intros i].
  destruct (i_type i =? T_DEV); [|fs_sim].
  destruct ((_ || _)%bool); [fs_sim|]. pose proof (ds_write _ _ (Hdev (i_major i))).
  destruct (dv_write (devsw _)), (dv_write (devsw' _)); try done; fs_sim.
Qed.
#[local] Hint Resolve readi_sim writei_sim : msim.

Lemma devsw_row_sim {X} (f : devops (fsys T D) -> M (fsys T D) X) f' major :
  (forall d d', dev_sim d d' -> msim R (f d) (f' d')) ->
  msim R (devsw_row devsw major ≫= f) (devsw_row devsw' major ≫= f').
Proof.
  intros Hf. unfold devsw_row. destruct (_ && _)%bool.
  - intros s t Hst. erewrite !bind_run by done. by apply Hf.
  - by intros s t Hst.
Qed.

Lemma is_dir_sim ip : msim R (is_dir devsw ip) (is_dir devsw' ip).
Proof.
  unfold is_dir, IS_DEV_DIR. fs_sim. apply devsw_row_sim. intros d d' Hd.
  pose proof (ds_isdir _ _ Hd). destruct (dv_isdir d), (dv_isdir d'); try done; fs_sim.
Qed.
#[local] Hint Resolve is_dir_sim : msim.

Lemma dirlookup_sim dp name : msim R (dirlookup devsw dp name) (dirlookup devsw' dp name).
Proof.
  unfold dirlookup. fs_sim. generalize (dir_fuel a0) as fuel. intros fuel.
  generalize 0 as off. induction fuel as [|fuel IH]; intros off; cbn [dirlookup_loop]; fs_sim.
  apply devsw_row_sim. intros d d' Hd.
  pose proof (ds_iread _ _ Hd). destruct (dv_iread d), (dv_iread d'); try done; fs_sim.
Qed.

Lemma dirlink_loop_sim fuel dp off :
  msim R (dirlink_loop devsw fuel dp off) (dirlink_loop devsw' fuel dp off).
Proof. revert off. induction fuel; intros; cbn [dirlink_loop]; fs_sim. Qed.
#[local] Hint Resolve dirlookup_sim dirlink_loop_sim : msim.

Lemma dirlink_sim dp name inum : msim R (dirlink devsw dp name inum) (dirlink devsw' dp name inum).
Proof. unfold dirlink. fs_sim. Qed.

Lemma namex_loop_sim fuel ip path parent name :
  msim R (namex_loop devsw fuel ip path parent name) (namex_loop devsw' fuel ip path parent name).
Proof. revert ip path name. induction fuel; intros; cbn [namex_loop]; fs_sim. Qed.
#[local] Hint Resolve dirlink_sim namex_loop_sim : msim.

Lemma namex_sim cwd path parent name :
  msim R (namex devsw cwd path parent name) (namex devsw' cwd path parent name).
Proof. unfold namex. fs_sim. Qed.

End ops_sim.
