(* ===== verification/FsAlloc.v ===== *)
(** The block allocator of fs.c over the abstract disk: running the disk
    operations, the bits of the bitmap, and what [balloc] and [bfree] do. *)

From stdpp Require Import prelude strings gmap list.
From S2P Require Import Prelude Bytes Param BlockCache Log TxDisk Fs.

(** ** The bitmap *)

Lemma bit_clear_testbit d bi : bit_clear d bi = negb (Z.testbit (d.[bi / 8]) (bi mod 8)).
Proof.
  unfold bit_clear, bit_mask. pose proof (Z.mod_pos_bound bi 8 ltac:(lia)) as Hm.
  rewrite Z.shiftl_1_l. destruct (Z.testbit (d.[bi / 8]) (bi mod 8)) eqn:E; simpl.
  - apply Z.eqb_neq. intros H0.
    assert (Z.testbit (Z.land (d.[bi / 8]) (2 ^ (bi mod 8))) (bi mod 8) = false) as Hf
      by (rewrite H0; apply Z.bits_0).
    rewrite Z.land_spec, E, Z.pow2_bits_true in Hf by lia. done.
  - apply Z.eqb_eq. apply Z.bits_inj'. intros n Hn. rewrite Z.land_spec, Z.bits_0.
    destruct (decide (bi mod 8 = n)) as [<-|].
    + by rewrite E.
    + rewrite Z.pow2_bits_false by done. apply andb_false_r.
Qed.

Lemma u8_testbit z n : 0 <= n < 8 -> Z.testbit (u8 z) n = Z.testbit z n.
Proof.
  intros. unfold u8. change 256 with (2 ^ 8). apply Z.mod_pow2_bits_low. lia.
Qed.

Section bits.
Context (d : block) (bi : Z).
Hypothesis Hd : length d = Z.to_nat BSIZE.
Hypothesis Hbi : 0 <= bi < BPB.

Lemma bit_byte : (Z.to_nat (bi / 8) < length d)%nat.
Proof.
  rewrite Hd. unfold BPB, BSIZE in *. pose proof (Z.div_pos bi 8).
  pose proof (Z.div_lt_upper_bound bi 8 512). lia.
Qed.

Lemma same_bit bj : 0 <= bj -> bi / 8 = bj / 8 -> bi mod 8 = bj mod 8 -> bi = bj.
Proof. intros. rewrite (Z.div_mod bi 8), (Z.div_mod bj 8) by lia. congruence. Qed.

Lemma bit_clear_insert v bj :
  0 <= bj ->
  bit_clear (<[Z.to_nat (bi / 8) := u8 v]> d) bj =
  if decide (bi / 8 = bj / 8) then negb (Z.testbit v (bj mod 8)) else bit_clear d bj.
Proof.
  intros Hj. rewrite !bit_clear_testbit, !nth_lookup. pose proof bit_byte.
  pose proof (Z.mod_pos_bound bj 8). destruct (decide (bi / 8 = bj / 8)) as [E|E].
  - rewrite <- E, list_lookup_insert_eq by done. simpl. by rewrite u8_testbit by lia.
  - rewrite list_lookup_insert_ne; [done|]. pose proof (Z.div_pos bi 8). pose proof (Z.div_pos bj 8).
    lia.
Qed.

Lemma bit_clear_set bj :
  0 <= bj -> bit_clear (bit_set d bi) bj = if decide (bi = bj) then false else bit_clear d bj.
Proof.
  intros Hj. unfold bit_set. rewrite bit_clear_insert by done.
  pose proof (Z.mod_pos_bound bi 8). pose proof (Z.mod_pos_bound bj 8).
  unfold bit_mask. rewrite Z.shiftl_1_l, Z.lor_spec.
  destruct (decide (bi / 8 = bj / 8)) as [E|E].
  - rewrite bit_clear_testbit, <- E. destruct (decide (bi = bj)) as [<-|Hne].
    + rewrite Z.pow2_bits_true by lia. by rewrite orb_true_r.
    + rewrite Z.pow2_bits_false, orb_false_r; [done|]. intros Em. by apply Hne, same_bit.
  - rewrite decide_False; [done|]. by intros ->.
Qed.

Lemma bit_clear_reset bj :
  0 <= bj -> bit_clear (bit_reset d bi) bj = if decide (bi = bj) then true else bit_clear d bj.
Proof.
  intros Hj. unfold bit_reset. rewrite bit_clear_insert by done.
  pose proof (Z.mod_pos_bound bi 8). pose proof (Z.mod_pos_bound bj 8).
  unfold bit_mask. rewrite Z.shiftl_1_l, Z.land_spec, Z.lnot_spec by lia.
  destruct (decide (bi / 8 = bj / 8)) as [E|E].
  - rewrite bit_clear_testbit, <- E. destruct (decide (bi = bj)) as [<-|Hne].
    + rewrite Z.pow2_bits_true by lia. by rewrite andb_false_r.
    + rewrite Z.pow2_bits_false; [by rewrite andb_true_r|]. intros Em. by apply Hne, same_bit.
  - rewrite decide_False; [done|]. by intros ->.
Qed.

Lemma length_bit_set : length (bit_set d bi) = length d.
Proof. apply length_insert. Qed.

Lemma length_bit_reset : length (bit_reset d bi) = length d.
Proof. apply length_insert. Qed.

Lemma bytes_ok_bit_set : bytes_ok d -> bytes_ok (bit_set d bi).
Proof. intros. apply Forall_insert; [done|]. apply u8_range. Qed.

Lemma bytes_ok_bit_reset : bytes_ok d -> bytes_ok (bit_reset d bi).
Proof. intros. apply Forall_insert; [done|]. apply u8_range. Qed.
End bits.

Lemma find_free_spec d n bi :
  match find_free d n bi with
  | Some bj => bi <= bj < bi + Z.of_nat n /\ bit_clear d bj = true /\
               forall b, bi <= b < bj -> bit_clear d b = false
  | None => forall b, bi <= b < bi + Z.of_nat n -> bit_clear d b = false
  end.
Proof.
  revert bi. induction n as [|n IH]; intros bi; cbn [find_free]; [lia|].
  destruct (bit_clear d bi) eqn:E.
  - split_and!; [lia|lia|done|lia].
  - specialize (IH (bi + 1)). destruct (find_free d n (bi + 1)) as [bj|].
    + destruct IH as (H1 & H2 & H3). split_and!; [lia|lia|done|]. intros b Hb.
      destruct (decide (b = bi)) as [->|]; [done|]. apply H3. lia.
    + intros b Hb. destruct (decide (b = bi)) as [->|]; [done|]. apply IH. lia.
Qed.

(** ** Running the operations of the disk *)

Section runs.
Context {D : Type} (out start sz : Z) (wk : list chan) (rest : D).
Implicit Types (mem : gmap Z block) (held lg : gset Z) (ic : list inode).

Definition fstate mem held lg ic : fsys tdisk D :=
  FSys (TDisk mem held ∅ lg out start sz) ic wk rest.

Definition loglim : Z := Z.min (sz - 1) (LOGSIZE - 1).

Lemma size_held held lg :
  Z.of_nat (size lg) < loglim -> (size held <= 1)%nat -> Z.of_nat (size (held ∪ lg)) < NBUF.
Proof.
  unfold loglim, LOGSIZE, NBUF, MAXOPBLOCKS. intros H1 H2.
  rewrite size_union_alt.
  pose proof (subseteq_size (lg ∖ held) lg ltac:(set_solver)). lia.
Qed.

Lemma bread_run mem held lg ic b d :
  b < start -> b ∉ held -> Z.of_nat (size lg) < loglim -> (size held <= 1)%nat ->
  mem !! b = Some d ->
  dio (d_bread 1 b) (fstate mem held lg ic) = Ok d (fstate mem ({[b]} ∪ held) lg ic).
Proof.
  intros Hb Hh Hl Hs Hm. unfold dio, lift, fstate. cbn. unfold t_bread. cbn.
  destruct (Z.leb_spec start b); [lia|]. rewrite decide_False by done.
  pose proof (size_held held lg Hl Hs). destruct (Z.leb_spec NBUF (Z.of_nat (size (held ∪ lg)))); [lia|].
  rewrite andb_false_r, Hm. done.
Qed.

Lemma brelse_run mem held lg ic b :
  b ∉ held -> dio (d_brelse b) (fstate mem ({[b]} ∪ held) lg ic) = Ok tt (fstate mem held lg ic).
Proof.
  intros Hb. unfold dio, lift, fstate. cbn. unfold t_brelse. cbn.
  rewrite decide_True by set_solver. cbn. do 3 f_equal. set_solver.
Qed.

(** Storing into a held block, logging it and releasing it. *)
Lemma store_run {A} mem held lg ic b d (k : M (fsys tdisk D) A) :
  b ∉ held -> 2 <= b -> 1 <= out -> Z.of_nat (size lg) < loglim -> length d = Z.to_nat BSIZE ->
  (dio (d_bset b d);; dio (d_log_write b);; dio (d_brelse b);; k) (fstate mem ({[b]} ∪ held) lg ic) =
  k (fstate (<[b := d]> mem) held ({[b]} ∪ lg) ic).
Proof.
  intros Hb H2 Ho Hl Hd. unfold loglim in Hl.
  erewrite bind_run. 2:{ unfold dio, lift, fstate. cbn. unfold t_bset. cbn.
    rewrite decide_True; [reflexivity|]. split; [set_solver|done]. }
  erewrite bind_run. 2:{ unfold dio, lift. cbn. unfold t_log_write. cbn -[LOGSIZE].
    rewrite decide_True; [reflexivity|]. split_and!; [set_solver|lia..]. }
  cbn [fs_disk fs_icache fs_wakeups fs_rest td_mem td_held td_unlogged td_logged td_out].
  replace (({[b]} ∪ (∅ : gset Z)) ∖ {[b]}) with (∅ : gset Z) by set_solver.
  erewrite bind_run; [|apply brelse_run; done]. done.
Qed.

Lemma store_run_end mem held lg ic b d :
  b ∉ held -> 2 <= b -> 1 <= out -> Z.of_nat (size lg) < loglim -> length d = Z.to_nat BSIZE ->
  (dio (d_bset b d);; dio (d_log_write b);; dio (d_brelse b)) (fstate mem ({[b]} ∪ held) lg ic) =
  Ok tt (fstate (<[b := d]> mem) held ({[b]} ∪ lg) ic).
Proof.
  intros. pose proof (store_run mem held lg ic b d (mret tt)) as E.
  cbv [mret M_ret] in E. rewrite <- E by done. clear E.
  unfold mbind, M_bind. repeat case_match; try done.
  by match goal with u : unit |- Ok ?a _ = _ => destruct a end.
Qed.

End runs.

(** ** The layout of a file system *)

Section layout.
Context (sb : superblock) (start : Z).

Definition bitmap_block (b : Z) : Z := BBLOCK b (sb_ninodes sb).

(** The first data block. *)
Definition data_start : Z := bitmap_block (sb_size sb - 1) + 1.

Definition used (mem : gmap Z block) (b : Z) : bool :=
  negb (bit_clear (mem !!! bitmap_block b) (b mod BPB)).

Definition free_blocks (mem : gmap Z block) : gset Z :=
  list_to_set (filter (fun b => used mem b = false) (upto start)).

(** The contents of a formatted disk: every block below the log is there, and
    the blocks before the data are marked in use (those of the log need not be:
    mkfs does not mark them). *)
Record layout (mem : gmap Z block) : Prop := {
  ly_ninodes : 0 <= sb_ninodes sb;
  ly_size : 0 < sb_size sb < 2147483648;
  ly_start : data_start <= start <= sb_size sb;
  ly_sb : exists d, mem !! 1 = Some d /\ superblock_of d = sb;
  ly_dom b : 0 <= b < start -> is_Some (mem !! b);
  ly_len b d : mem !! b = Some d -> length d = Z.to_nat BSIZE;
  ly_bytes b d : mem !! b = Some d -> bytes_ok d;
  ly_free b : 0 <= b < sb_size sb -> used mem b = false -> data_start <= b
}.

Lemma elem_of_free_blocks mem b :
  b ∈ free_blocks mem <-> 0 <= b < start /\ used mem b = false.
Proof.
  unfold free_blocks. rewrite elem_of_list_to_set, list_elem_of_filter, elem_of_upto. tauto.
Qed.

Context (mem : gmap Z block) (L : layout mem).

Lemma bitmap_block_range b : 0 <= b < sb_size sb -> 3 <= bitmap_block b < data_start.
Proof.
  pose proof (ly_ninodes mem L). unfold data_start, bitmap_block, BBLOCK, BPB, IPB, BSIZE, sizeof_dinode.
  intros. change (512 / 64) with 8. change (512 * 8) with 4096.
  pose proof (Z.div_pos b 4096 ltac:(lia) ltac:(lia)).
  pose proof (Z.div_pos (sb_ninodes sb) 8 ltac:(lia) ltac:(lia)).
  pose proof (Z.div_le_mono b (sb_size sb - 1) 4096 ltac:(lia) ltac:(lia)). lia.
Qed.

Lemma layout_block b : 0 <= b < start ->
  exists d, mem !! b = Some d /\ mem !!! b = d /\ length d = Z.to_nat BSIZE /\ bytes_ok d.
Proof.
  intros Hb. destruct (ly_dom mem L b Hb) as [d Hd]. exists d.
  split_and!; [done|by apply lookup_total_correct|by eapply ly_len|by eapply ly_bytes].
Qed.

Lemma bitmap_get b : 0 <= b < sb_size sb ->
  mem !! bitmap_block b = Some (mem !!! bitmap_block b) /\
  length (mem !!! bitmap_block b) = Z.to_nat BSIZE /\ bytes_ok (mem !!! bitmap_block b).
Proof.
  intros Hb. pose proof (bitmap_block_range b Hb). pose proof (ly_start mem L).
  destruct (layout_block (bitmap_block b)) as (d & Hd & -> & Hl & Ho); [lia|]. done.
Qed.

(** Overwriting a data block. *)
Lemma used_insert_data b d x :
  0 <= x < sb_size sb -> data_start <= b -> used (<[b := d]> mem) x = used mem x.
Proof.
  intros Hx Hb. unfold used. rewrite lookup_total_insert_ne; [done|].
  pose proof (bitmap_block_range x Hx). lia.
Qed.

Lemma free_insert_data b d : data_start <= b -> free_blocks (<[b := d]> mem) = free_blocks mem.
Proof.
  intros Hb. pose proof (ly_start mem L). apply set_eq. intros x. rewrite !elem_of_free_blocks.
  split; intros [Hx Hu]; (split; [done|]); revert Hu; rewrite used_insert_data; by (done || lia).
Qed.

Lemma layout_insert_data b d :
  data_start <= b < start -> length d = Z.to_nat BSIZE -> bytes_ok d -> layout (<[b := d]> mem).
Proof.
  intros Hb Hd Ho. pose proof (bitmap_block_range 0 ltac:(pose proof (ly_size mem L); lia)).
  destruct L as [? ? ? (ds & Hsb & Hs) Hdom Hlen Hby Hfr]. constructor; auto.
  - exists ds. rewrite lookup_insert_ne by lia. done.
  - intros x Hx. destruct (decide (b = x)) as [->|]; simplify_map_eq; eauto.
  - intros x y. destruct (decide (b = x)) as [->|]; simplify_map_eq; naive_solver.
  - intros x y. destruct (decide (b = x)) as [->|]; simplify_map_eq; naive_solver.
  - intros x Hx. rewrite used_insert_data by (done || lia). auto.
Qed.

(** Marking a block in the bitmap. *)
Definition mark (b : Z) : gmap Z block :=
  <[bitmap_block b := bit_set (mem !!! bitmap_block b) (b mod BPB)]> mem.
Definition unmark (b : Z) : gmap Z block :=
  <[bitmap_block b := bit_reset (mem !!! bitmap_block b) (b mod BPB)]> mem.

Lemma mod_BPB b : 0 <= b mod BPB < BPB.
Proof. by apply Z.mod_pos_bound. Qed.

Lemma same_bitmap_bit x b :
  bitmap_block x = bitmap_block b -> x mod BPB = b mod BPB -> x = b.
Proof.
  unfold bitmap_block, BBLOCK. intros. rewrite (Z.div_mod x BPB), (Z.div_mod b BPB) by done.
  assert (x / BPB = b / BPB) by lia. congruence.
Qed.

Lemma used_mark b x :
  0 <= b < sb_size sb ->
  used (mark b) x = if decide (x = b) then true else used mem x.
Proof.
  intros Hb. destruct (bitmap_get b Hb) as (Hg & Hl & _). unfold used, mark.
  destruct (decide (bitmap_block b = bitmap_block x)) as [E|E].
  - rewrite <- E, lookup_total_insert_eq, bit_clear_set by (done || apply mod_BPB).
    destruct (decide (b mod BPB = x mod BPB)) as [E2|E2], (decide (x = b)) as [->|Hne]; try done.
    exfalso. by apply Hne, same_bitmap_bit.
  - rewrite lookup_total_insert_ne by done. rewrite decide_False; [done|]. by intros ->.
Qed.

Lemma used_unmark b x :
  0 <= b < sb_size sb ->
  used (unmark b) x = if decide (x = b) then false else used mem x.
Proof.
  intros Hb. destruct (bitmap_get b Hb) as (Hg & Hl & _). unfold used, unmark.
  destruct (decide (bitmap_block b = bitmap_block x)) as [E|E].
  - rewrite <- E, lookup_total_insert_eq, bit_clear_reset by (done || apply mod_BPB).
    destruct (decide (b mod BPB = x mod BPB)) as [E2|E2], (decide (x = b)) as [->|Hne]; try done.
    exfalso. by apply Hne, same_bitmap_bit.
  - rewrite lookup_total_insert_ne by done. rewrite decide_False; [done|]. by intros ->.
Qed.

Lemma layout_bitmap b d' :
  0 <= b < sb_size sb -> length d' = Z.to_nat BSIZE -> bytes_ok d' ->
  (forall x, 0 <= x < sb_size sb -> used (<[bitmap_block b := d']> mem) x = false ->
    data_start <= x) ->
  layout (<[bitmap_block b := d']> mem).
Proof.
  intros Hb Hd Ho Hu. pose proof (bitmap_block_range b Hb).
  destruct L as [? ? ? (ds & Hsb & Hs) Hdom Hlen Hby Hfr]. constructor; auto.
  - exists ds. rewrite lookup_insert_ne by lia. done.
  - intros x Hx. destruct (decide (bitmap_block b = x)) as [->|]; simplify_map_eq; eauto.
  - intros x y. destruct (decide (bitmap_block b = x)) as [->|]; simplify_map_eq; naive_solver.
  - intros x y. destruct (decide (bitmap_block b = x)) as [->|]; simplify_map_eq; naive_solver.
Qed.

Lemma layout_mark b : 0 <= b < sb_size sb -> layout (mark b).
Proof.
  intros Hb. destruct (bitmap_get b Hb) as (Hg & Hl & Ho). apply layout_bitmap; [done| | |].
  - by rewrite length_bit_set.
  - by apply bytes_ok_bit_set.
  - intros x Hx. change (used (mark b) x = false -> data_start <= x).
    rewrite used_mark by done. case_decide; [done|]. by apply (ly_free mem L).
Qed.

Lemma layout_unmark b : data_start <= b < start -> layout (unmark b).
Proof.
  intros Hb. pose proof (bitmap_block_range 0 ltac:(pose proof (ly_size mem L); lia)).
  pose proof (ly_start mem L). assert (0 <= b < sb_size sb) as Hb' by lia.
  destruct (bitmap_get b Hb') as (Hg & Hl & Ho). apply layout_bitmap; [done| | |].
  - by rewrite length_bit_reset.
  - by apply bytes_ok_bit_reset.
  - intros x Hx. change (used (unmark b) x = false -> data_start <= x).
    rewrite used_unmark by done. case_decide; [subst; lia|]. by apply (ly_free mem L).
Qed.

End layout.

Definition zeros : block := replicate (Z.to_nat BSIZE) 0.

(** The bitmap blocks. *)
Definition bitmaps (sb : superblock) : gset Z :=
  list_to_set (bitmap_block sb <$> upto (sb_size sb)).

Lemma elem_of_bitmaps sb b : 0 <= b < sb_size sb -> bitmap_block sb b ∈ bitmaps sb.
Proof.
  intros Hb. unfold bitmaps. rewrite elem_of_list_to_set, list_elem_of_fmap.
  exists b. by rewrite elem_of_upto.
Qed.

Section allocator.
Context {D : Type} (out start sz : Z) (wk : list chan) (rest : D) (sb : superblock).
Implicit Types (mem : gmap Z block) (held lg : gset Z) (ic : list inode).
Abbreviation fstate := (fstate out start sz wk rest).
Abbreviation lim := (loglim sz).
Abbreviation layout := (layout sb start).

(** The blocks an operation holds while it allocates: at most one, a block in use. *)
Definition holds mem held : Prop :=
  (size held <= 1)%nat /\ forall b, b ∈ held -> data_start sb <= b < start /\ used sb mem b = true.

Lemma holds_empty mem : holds mem ∅.
Proof. split; [by rewrite size_empty; lia|]. set_solver. Qed.

Lemma holds_low mem held b : holds mem held -> b < data_start sb -> b ∉ held.
Proof. intros [_ H] Hb Hin. apply H in Hin. lia. Qed.

Lemma size_lt (X lg : gset Z) : Z.of_nat (size (X ∪ lg)) < lim -> Z.of_nat (size lg) < lim.
Proof. pose proof (subseteq_size lg (X ∪ lg) ltac:(set_solver)). lia. Qed.

Lemma size_add_lt b (X lg : gset Z) :
  b ∈ X -> Z.of_nat (size (X ∪ lg)) < lim -> Z.of_nat (size ({[b]} ∪ lg)) < lim.
Proof. intros Hb. pose proof (subseteq_size ({[b]} ∪ lg) (X ∪ lg) ltac:(set_solver)). lia. Qed.

Hypothesis Hout : 1 <= out.

Lemma readsb_run mem held lg ic :
  layout mem -> holds mem held -> Z.of_nat (size lg) < lim ->
  Fs.readsb 1 (fstate mem held lg ic) = Ok sb (fstate mem held lg ic).
Proof.
  intros L Hh Hl. destruct (ly_sb _ _ _ L) as (d & Hd & Hs).
  pose proof (bitmap_block_range _ _ _ L 0 ltac:(pose proof (ly_size _ _ _ L); lia)).
  pose proof (ly_start _ _ _ L). assert (1 ∉ held) by (apply (holds_low mem); [done|lia]).
  unfold Fs.readsb. erewrite bind_run; [|apply bread_run; [lia|done|done|apply Hh|exact Hd]].
  erewrite bind_run; [|by apply brelse_run]. by rewrite Hs.
Qed.

Lemma bzero_run mem held lg ic b :
  layout mem -> (size held <= 1)%nat -> b ∉ held -> data_start sb <= b < start ->
  Z.of_nat (size lg) < lim ->
  bzero 1 b (fstate mem held lg ic) = Ok tt (fstate (<[b := zeros]> mem) held ({[b]} ∪ lg) ic).
Proof.
  intros L Hh Hb Hr Hl. pose proof (bitmap_block_range _ _ _ L 0 ltac:(pose proof (ly_size _ _ _ L); lia)).
  destruct (layout_block _ _ _ L b) as (d & Hd & _ & Hlen & _); [lia|].
  unfold bzero. erewrite bind_run; [|apply bread_run; [lia|done|done|done|exact Hd]].
  assert (splice d 0 (replicate (Z.to_nat BSIZE) 0) = zeros) as ->.
  { unfold splice. rewrite length_replicate, drop_ge, app_nil_r by lia. done. }
  apply store_run_end; [done|lia|done..].
Qed.

(** What [balloc] does with the block [b]. *)
Definition allocated mem b : gmap Z block := <[b := zeros]> (mark sb mem b).

Lemma balloc_take mem held lg ic b :
  layout mem -> holds mem held -> Z.of_nat (size (bitmaps sb ∪ lg)) < lim ->
  0 <= b < start -> used sb mem b = false ->
  (dio (d_bset (bitmap_block sb b) (bit_set (mem !!! bitmap_block sb b) (b mod BPB)));;
   dio (d_log_write (bitmap_block sb b));;
   dio (d_brelse (bitmap_block sb b));;
   bzero 1 b;; mret b) (fstate mem ({[bitmap_block sb b]} ∪ held) lg ic) =
  Ok b (fstate (allocated mem b) held ({[b]} ∪ ({[bitmap_block sb b]} ∪ lg)) ic).
Proof.
  intros L Hh Hl Hb Hu. pose proof (ly_start _ _ _ L). assert (0 <= b < sb_size sb) as Hb' by lia.
  destruct (bitmap_get _ _ _ L b Hb') as (Hg & Hlen & _).
  pose proof (bitmap_block_range _ _ _ L b Hb'). pose proof (ly_free _ _ _ L b Hb' Hu).
  assert (bitmap_block sb b ∉ held) by (apply (holds_low mem); [done|lia]).
  assert (b ∉ held) by (intros Hin; apply Hh in Hin as [_ Hin]; congruence).
  rewrite store_run; [|done|lia|done|by eapply size_lt|by rewrite length_bit_set].
  erewrite bind_run; [reflexivity|]. apply bzero_run; [by apply layout_mark|apply Hh|done|lia|].
  eapply size_add_lt; [by apply elem_of_bitmaps|done].
Qed.

Lemma balloc_loop_run mem held lg ic b0 (m k : nat) :
  layout mem -> holds mem held -> Z.of_nat (size (bitmaps sb ∪ lg)) < lim ->
  Z.of_nat (k + m) = (sb_size sb + BPB - 1) / BPB ->
  0 <= b0 < start -> used sb mem b0 = false -> BPB * Z.of_nat k <= b0 ->
  (forall x, BPB * Z.of_nat k <= x < b0 -> used sb mem x = true) ->
  balloc_loop 1 sb ((fun i => BPB * Z.of_nat i) <$> seq k m) (fstate mem held lg ic) =
  Ok b0 (fstate (allocated mem b0) held ({[b0]} ∪ ({[bitmap_block sb b0]} ∪ lg)) ic).
Proof.
  intros L Hh Hl Hkm Hb0 Hu. pose proof (ly_start _ _ _ L) as Hss. revert k Hkm. induction m as [|m IH]; intros k Hkm Hk Hfirst.
  { exfalso. pose proof (Z.div_mod (sb_size sb + BPB - 1) BPB ltac:(done)).
    pose proof (Z.mod_pos_bound (sb_size sb + BPB - 1) BPB ltac:(done)).
    rewrite <- Hkm in *. unfold BPB, BSIZE in *. lia. }
  pose proof (Z.div_mod b0 BPB ltac:(done)) as Hdm. pose proof (mod_BPB b0) as Hmod.
  assert (BPB * Z.of_nat k < sb_size sb) as Hk2 by (unfold BPB, BSIZE in *; lia).
  assert (forall bi, 0 <= bi < BPB -> bitmap_block sb (BPB * Z.of_nat k + bi) =
    bitmap_block sb (BPB * Z.of_nat k) /\ (BPB * Z.of_nat k + bi) mod BPB = bi) as Hblk.
  { intros bi Hbi. unfold bitmap_block, BBLOCK. rewrite (Z.mul_comm BPB (Z.of_nat k)). split.
    - rewrite Z.div_add_l, Z.div_mul, (Z.div_small bi) by done. lia.
    - by rewrite Z.add_comm, Z.mod_add, Z.mod_small. }
  set (b := BPB * Z.of_nat k) in *. pose proof (bitmap_get _ _ _ L b) as (Hg & Hlen & _);
    [unfold b, BPB, BSIZE in *; lia|].
  pose proof (bitmap_block_range _ _ _ L b ltac:(unfold b, BPB, BSIZE in *; lia)).
  pose proof (ly_start _ _ _ L).
  assert (bitmap_block sb b ∉ held) by (apply (holds_low mem); [done|lia]).
  cbn [seq fmap list_fmap balloc_loop]. fold b. fold (bitmap_block sb b).
  erewrite bind_run; [|apply bread_run; [lia|done|by eapply size_lt|apply Hh|exact Hg]].
  pose proof (find_free_spec (mem !!! bitmap_block sb b) (Z.to_nat (Z.min BPB (sb_size sb - b))) 0) as Hf.
  assert (forall bi, 0 <= bi < BPB -> bit_clear (mem !!! bitmap_block sb b) bi =
    negb (used sb mem (b + bi))) as Hbit.
  { intros bi Hbi. unfold used. destruct (Hblk bi Hbi) as [-> ->]. by rewrite negb_involutive. }
  destruct (find_free _ _ _) as [bi|].
  - destruct Hf as (Hbi & Hc & Hprev). assert (0 <= bi < BPB) as Hbi2 by lia.
    assert (b + bi = b0) as Eb.
    { rewrite Hbit in Hc by done. destruct (decide (b + bi < b0)) as [Hlt|Hge].
      - rewrite Hfirst in Hc by lia. done.
      - destruct (decide (b + bi = b0)) as [|Hne]; [done|].
        pose proof (Hprev (b0 - b) ltac:(lia)) as Hp. rewrite Hbit in Hp by lia.
        replace (b + (b0 - b)) with b0 in Hp by lia. by rewrite Hu in Hp. }
    rewrite Eb. destruct (Hblk bi Hbi2) as [E1 E2]. rewrite Eb in E1, E2. rewrite <- E1, <- E2.
    by apply balloc_take.
  - erewrite bind_run; [|by apply brelse_run].
    assert (b + BPB <= b0) as Hge.
    { apply Z.nlt_ge. intros Hlt. pose proof (Hf (b0 - b) ltac:(lia)) as Hp.
      rewrite Hbit in Hp by lia. replace (b + (b0 - b)) with b0 in Hp by lia. by rewrite Hu in Hp. }
    apply IH; [lia|unfold b in *; lia|]. intros x Hx. apply Hfirst. unfold b in *.
    unfold BPB, BSIZE in *. lia.
Qed.

(** [balloc] takes the first block the bitmap calls free. *)
Lemma balloc_run mem held lg ic b0 :
  layout mem -> holds mem held -> Z.of_nat (size (bitmaps sb ∪ lg)) < lim ->
  0 <= b0 < start -> used sb mem b0 = false ->
  (forall x, 0 <= x < b0 -> used sb mem x = true) ->
  balloc 1 (fstate mem held lg ic) =
  Ok b0 (fstate (allocated mem b0) held ({[b0]} ∪ ({[bitmap_block sb b0]} ∪ lg)) ic).
Proof.
  intros L Hh Hl Hb Hu Hfirst. unfold balloc.
  erewrite bind_run; [|apply readsb_run; [done|done|by eapply size_lt]].
  unfold bitmap_starts, upto. rewrite <- list_fmap_compose.
  pose proof (ly_size _ _ _ L). apply (balloc_loop_run mem held lg ic b0 _ 0); try done.
  - rewrite Nat.add_0_l, Z2Nat.id; [done|]. apply Z.div_pos; [|done]. unfold BPB, BSIZE. lia.
  - lia.
Qed.

Lemma first_free mem :
  free_blocks sb start mem <> ∅ ->
  exists b, 0 <= b < start /\ used sb mem b = false /\
    forall x, 0 <= x < b -> used sb mem x = true.
Proof.
  intros [b0 Hb0]%set_choose_L. apply elem_of_free_blocks in Hb0.
  destruct Hb0 as [[Hb0 Hb1] Hu]. enough (forall n, 0 <= n -> forall y, 0 <= y <= n ->
    y < start -> used sb mem y = false ->
    exists b, 0 <= b < start /\ used sb mem b = false /\
      forall x, 0 <= x < b -> used sb mem x = true) as H by (apply (H b0 Hb0 b0); [lia|done|done]).
  refine (natlike_ind _ _ _).
  - intros y Hy H1 H2. exists y. split_and!; [lia|lia|done|lia].
  - intros x Hx IH y Hy H1 H2.
    destruct (decide (Exists (fun z => used sb mem z = false) (upto y))) as [He|He].
    + apply Exists_exists in He as (z & Hz%elem_of_upto & Hzu). apply (IH z); [lia|lia|done].
    + exists y. split_and!; [lia|lia|done|]. intros z Hz.
      destruct (used sb mem z) eqn:E; [done|]. exfalso. apply He, Exists_exists. exists z.
      by rewrite elem_of_upto.
Qed.

End allocator.

(** ** Freeing and running out *)

Section allocator_more.
Context {D : Type} (out start sz : Z) (wk : list chan) (rest : D) (sb : superblock).
Hypothesis Hout : 1 <= out.
Implicit Types (mem : gmap Z block) (held lg : gset Z) (ic : list inode).
Abbreviation fstate := (fstate out start sz wk rest).
Abbreviation lim := (loglim sz).
Abbreviation layout := (layout sb start).

Lemma bfree_run mem held lg ic b :
  layout mem -> holds start sb mem held -> Z.of_nat (size lg) < lim -> 0 <= b < sb_size sb ->
  bfree 1 b (fstate mem held lg ic) =
  if used sb mem b then Ok tt (fstate (unmark sb mem b) held ({[bitmap_block sb b]} ∪ lg) ic)
  else Panic "freeing free block".
Proof.
  intros L Hh Hl Hb. destruct (bitmap_get _ _ _ L b Hb) as (Hg & Hlen & _).
  pose proof (bitmap_block_range _ _ _ L b Hb). pose proof (ly_start _ _ _ L).
  assert (bitmap_block sb b ∉ held) by (eapply holds_low; [done|lia]).
  unfold bfree. erewrite bind_run; [|by apply readsb_run].
  fold (bitmap_block sb b). erewrite bind_run; [|apply bread_run; [lia|done|done|apply Hh|exact Hg]].
  unfold used. destruct (bit_clear _ _); [done|]. cbn [negb].
  apply store_run_end; [done|lia|done|done|by rewrite length_bit_reset].
Qed.

Lemma balloc_loop_none mem held lg ic (bs : list Z) :
  layout mem -> holds start sb mem held -> Z.of_nat (size lg) < lim ->
  (forall x, 0 <= x < sb_size sb -> used sb mem x = true) ->
  (forall b, b ∈ bs -> 0 <= b < sb_size sb /\ b mod BPB = 0) ->
  balloc_loop 1 sb bs (fstate mem held lg ic) = Panic "balloc: out of blocks".
Proof.
  intros L Hh Hl Hall. induction bs as [|b bs IH]; intros Hbs; [done|].
  destruct (Hbs b) as [Hb Hb0]; [left|].
  destruct (bitmap_get _ _ _ L b Hb) as (Hg & Hlen & _).
  pose proof (bitmap_block_range _ _ _ L b Hb). pose proof (ly_start _ _ _ L).
  assert (bitmap_block sb b ∉ held) by (eapply holds_low; [done|lia]).
  cbn [balloc_loop]. fold (bitmap_block sb b).
  erewrite bind_run; [|apply bread_run; [lia|done|done|apply Hh|exact Hg]].
  pose proof (find_free_spec (mem !!! bitmap_block sb b) (Z.to_nat (Z.min BPB (sb_size sb - b))) 0) as Hf.
  destruct (find_free _ _ _) as [bi|].
  - exfalso. destruct Hf as (Hbi & Hc & _). pose proof (Hall (b + bi) ltac:(lia)) as Hu.
    unfold used, bitmap_block, BBLOCK in Hu. pose proof (Z.div_mod b BPB ltac:(done)) as Hdm.
    rewrite Hb0, Z.add_0_r in Hdm. rewrite Hdm, (Z.mul_comm BPB) in Hu.
    rewrite Z.div_add_l, (Z.div_small bi), Z.add_0_r, (Z.add_comm _ bi), Z.mod_add, Z.mod_small
      in Hu by (done || lia). fold (BBLOCK b (sb_ninodes sb)) in Hu.
    fold (bitmap_block sb b) in Hu. by rewrite Hc in Hu.
  - erewrite bind_run; [|by apply brelse_run]. apply IH. intros x Hx. apply Hbs. by right.
Qed.

Lemma balloc_none mem held lg ic :
  layout mem -> holds start sb mem held -> Z.of_nat (size lg) < lim ->
  (forall x, 0 <= x < sb_size sb -> used sb mem x = true) ->
  balloc 1 (fstate mem held lg ic) = Panic "balloc: out of blocks".
Proof.
  intros L Hh Hl Hall. unfold balloc. erewrite bind_run; [|by apply readsb_run].
  apply balloc_loop_none; [done..|]. intros b. unfold bitmap_starts.
  rewrite list_elem_of_fmap. intros (i & -> & Hi%elem_of_upto).
  pose proof (Z.div_mod (sb_size sb + BPB - 1) BPB ltac:(done)).
  pose proof (Z.mod_pos_bound (sb_size sb + BPB - 1) BPB ltac:(done)).
  split; [unfold BPB, BSIZE in *; lia|]. rewrite Z.mul_comm. by apply Z.mod_mul.
Qed.

End allocator_more.

(** ** The state after an allocation *)

Section allocated.
Context (sb : superblock) (start : Z) (mem : gmap Z block) (L : layout sb start mem) (b : Z).
Abbreviation layout := (layout sb start).
Hypothesis Hb : 0 <= b < start.
Hypothesis Hfree : used sb mem b = false.
Abbreviation mem' := (allocated sb mem b).

Lemma alloc_size : 0 <= b < sb_size sb.
Proof. pose proof (ly_start _ _ _ L). lia. Qed.
#[local] Hint Resolve alloc_size : core.

Lemma alloc_range : data_start sb <= b < start.
Proof. pose proof (ly_start _ _ _ L). split; [|lia]. apply (ly_free _ _ _ L); [lia|done]. Qed.

Lemma layout_allocated : layout mem'.
Proof.
  apply layout_insert_data; [apply layout_mark; auto|apply alloc_range|done|].
  apply bytes_ok_replicate.
Qed.

Lemma used_allocated x :
  0 <= x < sb_size sb -> used sb mem' x = if decide (x = b) then true else used sb mem x.
Proof.
  intros Hx. unfold allocated. erewrite used_insert_data; [|apply layout_mark; eauto|done|apply alloc_range].
  eapply used_mark; eauto.
Qed.

Lemma allocated_get : mem' !! b = Some zeros.
Proof. apply lookup_insert_eq. Qed.

Lemma allocated_other x : x <> b -> x <> bitmap_block sb b -> mem' !! x = mem !! x.
Proof. intros. unfold allocated, mark. by rewrite !lookup_insert_ne. Qed.

Lemma free_allocated : free_blocks sb start mem' = free_blocks sb start mem ∖ {[b]}.
Proof.
  pose proof (ly_start _ _ _ L).
  apply set_eq. intros x. rewrite elem_of_difference, !elem_of_free_blocks, elem_of_singleton.
  split.
  - intros [Hx Hu]. rewrite used_allocated in Hu by lia. destruct (decide (x = b)); naive_solver.
  - intros [[Hx Hu] Hne]. split; [done|]. rewrite used_allocated by lia.
    by rewrite decide_False.
Qed.

Lemma size_free_allocated : size (free_blocks sb start mem) = S (size (free_blocks sb start mem')).
Proof.
  rewrite free_allocated, size_difference.
  - rewrite size_singleton. assert (b ∈ free_blocks sb start mem) as Hin by by apply elem_of_free_blocks.
    pose proof (subseteq_size {[b]} (free_blocks sb start mem) ltac:(set_solver)) as Hs.
    rewrite size_singleton in Hs. lia.
  - apply singleton_subseteq_l. by apply elem_of_free_blocks.
Qed.

End allocated.
