(* ===== verification/FsFile.v ===== *)
(** The contents of a file: the bytes an inode's block list reaches, and what
    [bmap], [writei] and [readi] do with them over the abstract disk. *)

From stdpp Require Import prelude strings gmap list.
From S2P Require Import Prelude Bytes Param BlockCache Log TxDisk Fs FsAlloc.

(** ** The blocks of an inode *)

Lemma MAXFILE_eq : MAXFILE = 140.
Proof. done. Qed.

Definition indirect (i : inode) : Z := (i_addrs i).[NDIRECT].

(** The address of block [k], 0 if there is none; slot [MAXFILE] is the
    indirect block. *)
Definition slot (mem : gmap Z block) (i : inode) (k : Z) : Z :=
  if k <? NDIRECT then (i_addrs i).[k]
  else if k =? MAXFILE then indirect i
  else if indirect i =? 0 then 0
  else get_word (mem !!! indirect i) (k - NDIRECT).

Definition byte (mem : gmap Z block) (i : inode) (p : Z) : Z :=
  let a := slot mem i (p / BSIZE) in
  if a =? 0 then 0 else (mem !!! a).[p mod BSIZE].

Definition contents (mem : gmap Z block) (i : inode) : list Z := byte mem i <$> upto (i_size i).

Section inode_ok.
Context (sb : superblock) (start : Z).

(** A well-formed inode of a regular file or directory: its blocks are data
    blocks in use, no block appears twice, and there are no holes below its
    size. *)
Record inode_ok (mem : gmap Z block) (i : inode) : Prop := {
  io_dev : i_dev i = 1;
  io_inum : 0 <= i_inum i < sb_ninodes sb;
  io_short : is_s16 (i_type i) /\ is_s16 (i_major i) /\ is_s16 (i_minor i) /\ is_s16 (i_nlink i);
  io_addrs : length (i_addrs i) = 13%nat;
  io_slot k : 0 <= k <= MAXFILE -> slot mem i k <> 0 ->
    data_start sb <= slot mem i k < start /\ used sb mem (slot mem i k) = true;
  io_inj j k : 0 <= j <= MAXFILE -> 0 <= k <= MAXFILE -> slot mem i j <> 0 ->
    slot mem i j = slot mem i k -> j = k;
  io_size : 0 <= i_size i <= MAXFILE * BSIZE;
  io_full k : 0 <= k -> k * BSIZE < i_size i -> slot mem i k <> 0
}.

(** The inode on the disk is the one in memory. *)
Definition synced (mem : gmap Z block) (i : inode) : Prop :=
  dinode_at (mem !!! IBLOCK (i_inum i)) (dinode_off (i_inum i)) = dinode_of i.

(** The bytes an operation writes to a file: at some positions, a byte. *)
Definition writes := Z -> option Z.
Definition nowrite : writes := fun _ => None.
Definition over (w1 w2 : writes) : writes := fun p =>
  match w2 p with Some c => Some c | None => w1 p end.

(** An operation on the file [i] that writes [w]: what [(mem, i)] may become. *)
Record file_step (w : writes) (mem : gmap Z block) (i : inode) (mem' : gmap Z block) (i' : inode)
    : Prop := {
  ext_layout : layout sb start mem';
  ext_ok : inode_ok mem' i';
  ext_addrs : i' = set_addrs (i_addrs i') i;
  ext_slot k : 0 <= k <= MAXFILE -> slot mem i k <> 0 -> slot mem' i' k = slot mem i k;
  ext_new k : 0 <= k <= MAXFILE -> slot mem' i' k <> 0 ->
    slot mem i k = slot mem' i' k \/ used sb mem (slot mem' i' k) = false;
  ext_byte p : 0 <= p < MAXFILE * BSIZE -> byte mem' i' p = default (byte mem i p) (w p);
  ext_used x : 0 <= x < sb_size sb -> used sb mem x = true -> used sb mem' x = true;
  ext_meta x : x < data_start sb -> x ∉ bitmaps sb -> mem' !! x = mem !! x;
  ext_data x : data_start sb <= x < start -> used sb mem x = true ->
    (forall k, 0 <= k <= MAXFILE -> slot mem i k <> x) -> mem' !! x = mem !! x
}.

Lemma file_step_refl mem i : layout sb start mem -> inode_ok mem i -> file_step nowrite mem i mem i.
Proof. intros. constructor; auto. by destruct i. Qed.

Lemma file_step_ext w w' mem i mem' i' :
  (forall p, w p = w' p) -> file_step w mem i mem' i' -> file_step w' mem i mem' i'.
Proof. intros E []. constructor; auto. intros p Hp. rewrite <- E. auto. Qed.

Lemma file_step_trans w1 w2 mem i mem1 i1 mem2 i2 :
  file_step w1 mem i mem1 i1 -> file_step w2 mem1 i1 mem2 i2 ->
  file_step (over w1 w2) mem i mem2 i2.
Proof.
  intros [L1 O1 A1 S1 N1 B1 U1 M1 D1] [L2 O2 A2 S2 N2 B2 U2 M2 D2]. constructor; auto.
  - rewrite A2, A1. done.
  - intros k Hk H0. rewrite S2; auto. by rewrite S1.
  - intros k Hk H0. destruct (N2 k Hk H0) as [E|E].
    + rewrite <- E in *. auto.
    + right. destruct (used sb mem (slot mem2 i2 k)) eqn:Eu; [|done].
      destruct (io_slot _ _ O2 k Hk H0) as [Hr _]. pose proof (ly_start _ _ _ L1).
      pose proof (bitmap_block_range _ _ _ L1 0 ltac:(pose proof (ly_size _ _ _ L1); lia)).
      rewrite U1 in E; [done|lia|done].
  - intros p Hp. rewrite B2, B1 by done. unfold over. by destruct (w2 p).
  - intros x Hx Hb. by rewrite M2, M1.
  - intros x Hx Hu Hs. pose proof (ly_start _ _ _ L1).
    pose proof (bitmap_block_range _ _ _ L1 0 ltac:(pose proof (ly_size _ _ _ L1); lia)).
    rewrite D2; [by apply D1|done|apply U1; [lia|done]|].
    intros k Hk E. destruct (N1 k Hk) as [E1|E1]; [lia|by apply (Hs k Hk); rewrite E1|congruence].
Qed.

(** ** Adding a fresh block to an inode *)

Section grow.
Context (mem : gmap Z block) (i : inode) (mem' : gmap Z block) (i' : inode) (k0 b : Z).
Hypothesis L : layout sb start mem.
Hypothesis O : inode_ok mem i.
Hypothesis Hk0 : 0 <= k0 <= MAXFILE.
Hypothesis H0 : slot mem i k0 = 0.
Hypothesis Hb : data_start sb <= b < start.
Hypothesis Hfresh : used sb mem b = false.
Hypothesis L' : layout sb start mem'.
Hypothesis Ha : i' = set_addrs (i_addrs i') i.
Hypothesis Hlen : length (i_addrs i') = 13%nat.
Hypothesis Hslot : forall k, 0 <= k <= MAXFILE ->
  slot mem' i' k = if decide (k = k0) then b else slot mem i k.
Hypothesis Hused : forall x, 0 <= x < sb_size sb ->
  used sb mem' x = if decide (x = b) then true else used sb mem x.
Hypothesis Hmeta : forall x, x < data_start sb -> x ∉ bitmaps sb -> mem' !! x = mem !! x.
Hypothesis Hdata : forall x, data_start sb <= x < start -> used sb mem x = true ->
  x <> indirect i -> mem' !! x = mem !! x.
Hypothesis Hzero : k0 < MAXFILE -> mem' !! b = Some zeros.

Lemma grow_ok : inode_ok mem' i'.
Proof.
  pose proof (ly_start _ _ _ L).
  pose proof (bitmap_block_range _ _ _ L 0 ltac:(pose proof (ly_size _ _ _ L); lia)).
  destruct O as [Hdev Hinum Hsh Hl Hsl Hinj Hsz Hfull]. rewrite Ha. unfold set_addrs.
  assert (forall k, slot mem' (set_addrs (i_addrs i') i) k = slot mem' i' k) as Es
    by (intros; by rewrite <- Ha).
  constructor; cbn [i_dev i_inum i_type i_major i_minor i_nlink i_addrs i_size]; auto;
    fold (set_addrs (i_addrs i') i).
  - intros k Hk. rewrite Es, Hslot by done. destruct (decide (k = k0)).
    + intros _. split; [lia|]. rewrite Hused by lia. by rewrite decide_True.
    + intros Hne. destruct (Hsl k Hk Hne) as [Hr Hu]. split; [done|].
      rewrite Hused by lia. case_decide; done.
  - intros j k Hj Hk. rewrite !Es, !Hslot by done.
    destruct (decide (j = k0)) as [->|], (decide (k = k0)) as [->|]; try done.
    + intros _ E. destruct (Hsl k Hk) as [_ Hu]; [lia|]. congruence.
    + intros Hne E. destruct (Hsl j Hj) as [_ Hu]; [lia|]. congruence.
    + by apply Hinj.
  - intros k Hk Hlt. assert (k <= MAXFILE) by (unfold BSIZE in *; lia). rewrite Es, Hslot by lia.
    destruct (decide (k = k0)); [lia|]. by apply Hfull.
Qed.

Lemma grow_byte p : 0 <= p < MAXFILE * BSIZE -> byte mem' i' p = byte mem i p.
Proof.
  intros Hp. assert (0 <= p / BSIZE < MAXFILE) as Hk.
  { split; [apply Z.div_pos; unfold BSIZE; lia|]. apply Z.div_lt_upper_bound; [done|lia]. }
  unfold byte. rewrite Hslot by lia. destruct (decide (p / BSIZE = k0)) as [E|E].
  - rewrite E, H0, Z.eqb_refl. destruct (Z.eqb_spec b 0); [done|].
    rewrite (lookup_total_correct _ _ _ (Hzero ltac:(lia))). unfold zeros.
    rewrite nth_lookup. destruct (replicate _ _ !! _) eqn:El; [|done].
    apply lookup_replicate in El. naive_solver.
  - destruct (Z.eqb_spec (slot mem i (p / BSIZE)) 0) as [|Hne]; [done|].
    destruct (io_slot _ _ O (p / BSIZE) ltac:(lia) Hne) as [Hr Hu].
    rewrite !lookup_total_alt, Hdata; [done|done|done|]. intros Ei.
    assert (slot mem i (p / BSIZE) = slot mem i MAXFILE) as Ei2 by exact Ei.
    apply (io_inj _ _ O) in Ei2; [lia|lia|by rewrite MAXFILE_eq|done].
Qed.

Lemma file_step_grow : file_step nowrite mem i mem' i'.
Proof.
  constructor; auto.
  - apply grow_ok.
  - intros k Hk Hne. rewrite Hslot by done. destruct (decide (k = k0)) as [->|]; [done|done].
  - intros k Hk. rewrite Hslot by done. destruct (decide (k = k0)) as [->|]; auto.
  - apply grow_byte.
  - intros x Hx Hu. rewrite Hused by done. by case_decide.
  - intros x Hx Hu Hs. apply Hdata; [done|done|]. intros ->.
    by apply (Hs MAXFILE); rewrite ?MAXFILE_eq.
Qed.
End grow.
End inode_ok.

(** ** [bmap] *)

Lemma get_word_zeros k : 0 <= k < NINDIRECT -> get_word zeros k = 0.
Proof.
  intros Hk. change NINDIRECT with 128 in Hk. unfold get_word, get_le, slice, zeros.
  rewrite drop_replicate, take_replicate. change (Z.to_nat BSIZE) with 512%nat.
  replace (4 `min` (512 - Z.to_nat (4 * k)))%nat with 4%nat by lia. done.
Qed.

Section grow_cases.
Context (sb : superblock) (start : Z) (mem : gmap Z block) (i : inode) (b : Z).
Hypothesis L : layout sb start mem.
Hypothesis O : inode_ok sb start mem i.
Hypothesis Hb : 0 <= b < start.
Hypothesis Hfree : used sb mem b = false.
Abbreviation mem1 := (allocated sb mem b).

Lemma layout_data_pos : 4 <= data_start sb /\ start <= sb_size sb.
Proof.
  pose proof (ly_start _ _ _ L). pose proof (bitmap_block_range _ _ _ L 0 ltac:(pose proof (ly_size _ _ _ L); lia)).
  lia.
Qed.

Lemma data_same x :
  data_start sb <= x < start -> used sb mem x = true -> mem1 !! x = mem !! x.
Proof.
  intros Hx Hu. apply allocated_other; [congruence|].
  pose proof (bitmap_block_range _ _ _ L b (alloc_size _ _ _ L b Hb)). lia.
Qed.

Lemma meta_same x : x < data_start sb -> x ∉ bitmaps sb -> mem1 !! x = mem !! x.
Proof.
  intros Hx Hn. pose proof (alloc_range _ _ _ L b Hb Hfree).
  apply allocated_other; [lia|]. intros ->. by eapply Hn, elem_of_bitmaps, alloc_size.
Qed.

Lemma indirect_slot : slot mem i MAXFILE = indirect i.
Proof. done. Qed.

Lemma indirect_same : indirect i <> 0 ->
  data_start sb <= indirect i < start /\ used sb mem (indirect i) = true /\
  mem1 !!! indirect i = mem !!! indirect i.
Proof.
  intros Hne. destruct (io_slot _ _ _ _ O MAXFILE) as [Hr Hu]; [by rewrite MAXFILE_eq|done|].
  rewrite indirect_slot in *. split_and!; [lia..|done|]. by rewrite !lookup_total_alt, data_same.
Qed.

(** A new direct block, or a new indirect block ([j = NDIRECT]). *)
Lemma file_step_addr (j : Z) :
  0 <= j <= NDIRECT -> (i_addrs i).[j] = 0 ->
  file_step sb start nowrite mem i mem1 (set_addrs (<[Z.to_nat j := b]> (i_addrs i)) i).
Proof.
  intros Hj H0. pose proof layout_data_pos. pose proof (io_addrs _ _ _ _ O) as Hlen.
  unfold NDIRECT in *.
  assert (forall k, 0 <= k <= 12 -> (<[Z.to_nat j := b]> (i_addrs i)).[k] =
    if decide (k = j) then b else (i_addrs i).[k]) as Hget.
  { intros k Hk. rewrite !nth_lookup. destruct (decide (k = j)) as [->|].
    - by rewrite list_lookup_insert_eq by lia.
    - by rewrite list_lookup_insert_ne by lia. }
  apply (file_step_grow _ _ _ _ _ _ (if decide (j = 12) then MAXFILE else j) b);
    auto; try (destruct (decide (j = 12)); rewrite MAXFILE_eq; lia).
  - unfold slot. destruct (decide (j = 12)) as [->|]; [exact H0|].
    destruct (Z.ltb_spec j NDIRECT); [done|unfold NDIRECT in *; lia].
  - by apply (alloc_range _ _ _ L).
  - by eapply layout_allocated.
  - cbn [i_addrs set_addrs]. by rewrite length_insert.
  - intros k Hk. unfold slot, indirect. cbn [i_addrs set_addrs]. rewrite MAXFILE_eq in *. unfold NDIRECT.
    destruct (Z.ltb_spec k 12).
    { rewrite Hget by lia. destruct (decide (j = 12)), (decide (k = j)); repeat case_decide; try lia; done. }
    rewrite Hget by lia. destruct (Z.eqb_spec k 140) as [->|Hk2].
    { destruct (decide (j = 12)), (decide (12 = j)); repeat case_decide; try lia; done. }
    destruct (decide (12 = j)) as [<-|].
    + destruct (decide (12 = 12)); [|done]. rewrite decide_False, H0 by lia. cbn.
      destruct (Z.eqb_spec b 0); [done|].
      rewrite (lookup_total_correct _ _ _ (allocated_get _ _ _)).
      apply get_word_zeros. change NINDIRECT with 128. lia.
    + destruct (decide (j = 12)); [lia|]. rewrite decide_False by lia.
      destruct (Z.eqb_spec ((i_addrs i).[12]) 0) as [|Hne]; [done|].
      destruct (indirect_same Hne) as (_ & _ & E). unfold indirect, NDIRECT in E. by rewrite E.
  - intros x Hx. by eapply used_allocated.
  - apply meta_same.
  - intros x Hx Hu _. by apply data_same.
  - intros _. apply allocated_get.
Qed.

(** A new block of the indirect block. *)
Lemma file_step_word (k0 : Z) :
  NDIRECT <= k0 < MAXFILE -> indirect i <> 0 -> slot mem i k0 = 0 ->
  file_step sb start nowrite mem i
    (<[indirect i := set_word (mem !!! indirect i) (k0 - NDIRECT) b]> mem1) i.
Proof.
  intros Hk Hi H0. pose proof layout_data_pos. destruct (indirect_same Hi) as (Hr & Hu & E).
  destruct (layout_block _ _ _ L (indirect i)) as (d & Hd & Ed & Hlen & Hok); [lia|].
  rewrite Ed. pose proof (alloc_range _ _ _ L b Hb Hfree) as Hbr.
  assert (indirect i <> b) as Hne by congruence.
  assert (layout sb start mem1) as L1 by by eapply layout_allocated.
  assert (4 * (k0 - NDIRECT) + 4 <= Z.of_nat (length d)) as Hfit.
  { rewrite Hlen. rewrite MAXFILE_eq in Hk. unfold NDIRECT, BSIZE in *. lia. }
  pose proof (ly_size _ _ _ L).
  apply (file_step_grow _ _ _ _ _ _ k0 b); auto; try lia.
  - apply layout_insert_data; [done|done| |by apply bytes_ok_set_word].
    rewrite length_set_word by lia. done.
  - by destruct i.
  - by apply (io_addrs _ _ _ _ O).
  - intros k Hkr. unfold slot. destruct (Z.ltb_spec k NDIRECT).
    { by rewrite decide_False by lia. }
    destruct (Z.eqb_spec k MAXFILE) as [->|]; [by rewrite decide_False by lia|].
    destruct (Z.eqb_spec (indirect i) 0); [done|]. rewrite lookup_total_insert_eq, Ed.
    destruct (decide (k = k0)) as [->|].
    + apply get_set_word_eq; lia.
    + apply get_set_word_ne; lia.
  - intros x Hx. erewrite used_insert_data; [|done|done|apply Hr]. by eapply used_allocated.
  - intros x Hx Hn. rewrite lookup_insert_ne by lia. by apply meta_same.
  - intros x Hx Hxu Hxi. rewrite lookup_insert_ne by done. by apply data_same.
  - intros _. rewrite lookup_insert_ne by done. apply allocated_get.
Qed.
End grow_cases.

Section bmap.
Context {D : Type} (out start sz : Z) (wk : list chan) (rest : D) (sb : superblock).
Implicit Types (mem : gmap Z block) (held lg : gset Z) (ic : list inode) (i : inode).
Abbreviation fstate := (fstate out start sz wk rest).
Abbreviation lim := (loglim sz).
Abbreviation layout := (layout sb start).
Abbreviation inode_ok := (inode_ok sb start).
Abbreviation file_step := (file_step sb start).

Definition indterm i : Z := if indirect i =? 0 then 1 else 0.

(** The sectors an operation on [i] has logged or logs in any case, and how
    far it is from filling the log. *)
Definition opset i lg : gset Z :=
  bitmaps sb ∪ ({[IBLOCK (i_inum i)]} ∪ ((if indirect i =? 0 then ∅ else {[indirect i]}) ∪ lg)).
Definition pot i lg : Z := Z.of_nat (size (opset i lg)) + indterm i.

(** Free blocks left when the indirect block has been allocated. *)
Definition avail mem i : Z := Z.of_nat (size (free_blocks sb start mem)) - indterm i.

Lemma get_inode_run mem held lg ic (ip : nat) i :
  ic !! ip = Some i ->
  get_inode (Z.of_nat ip) (fstate mem held lg ic) = Ok i (fstate mem held lg ic).
Proof.
  intros Hi. unfold get_inode, fstate. destruct (Z.ltb_spec (Z.of_nat ip) 0); [lia|].
  cbn [fs_icache]. by rewrite Nat2Z.id, Hi.
Qed.

Lemma set_inode_run mem held lg ic (ip : nat) i :
  set_inode (Z.of_nat ip) i (fstate mem held lg ic) = Ok tt (fstate mem held lg (<[ip := i]> ic)).
Proof. unfold set_inode, fstate, modify. cbn. by rewrite Nat2Z.id. Qed.

Lemma size_sub (X Y : gset Z) n : X ⊆ Y -> Z.of_nat (size Y) < n -> Z.of_nat (size X) < n.
Proof. intros H. pose proof (subseteq_size X Y H). lia. Qed.

Lemma pot_lg i lg : pot i lg < lim -> Z.of_nat (size (bitmaps sb ∪ lg)) < lim.
Proof.
  unfold pot, indterm. intros H. eapply (size_sub _ (opset i lg)); [unfold opset; set_solver|].
  destruct (_ =? 0); lia.
Qed.

Lemma avail_alloc mem b i i' :
  layout mem -> 0 <= b < start -> used sb mem b = false -> indterm i' <= indterm i ->
  avail (allocated sb mem b) i' >= avail mem i - 1 + (indterm i - indterm i').
Proof.
  intros L Hb Hu Hi. unfold avail. rewrite (size_free_allocated _ _ _ L b Hb Hu). lia.
Qed.

(** One more sector. *)
Lemma pot_le (X Y : gset Z) (b : Z) : X ⊆ {[b]} ∪ Y -> Z.of_nat (size X) <= Z.of_nat (size Y) + 1.
Proof.
  intros H. pose proof (subseteq_size _ _ H). pose proof (size_union_alt {[b]} Y) as E.
  rewrite size_singleton in E. pose proof (subseteq_size (Y ∖ {[b]}) Y ltac:(set_solver)). lia.
Qed.

(** The block is there: nothing changes. *)
Lemma bmap_present mem lg ic (ip : nat) i bn :
  layout mem -> inode_ok mem i -> ic !! ip = Some i -> 0 <= bn < MAXFILE ->
  Z.of_nat (size lg) < lim -> slot mem i bn <> 0 ->
  bmap (Z.of_nat ip) bn (fstate mem ∅ lg ic) = Ok (slot mem i bn) (fstate mem ∅ lg ic).
Proof.
  intros L O Hi Hbn Hl Hs. unfold bmap. erewrite bind_run; [|by apply get_inode_run].
  rewrite (io_dev _ _ _ _ O). revert Hs. unfold slot. destruct (Z.ltb_spec bn NDIRECT) as [Hd|Hd].
  { intros Hs. destruct (Z.eqb_spec ((i_addrs i).[bn]) 0); done. }
  destruct (Z.eqb_spec bn MAXFILE); [lia|]. fold (indirect i).
  destruct (Z.eqb_spec (indirect i) 0) as [|Hind]; [done|]. intros Hs. rewrite MAXFILE_eq in Hbn.
  destruct (Z.ltb_spec (bn - NDIRECT) NINDIRECT); [|change NINDIRECT with 128 in *; unfold NDIRECT in *; lia].
  destruct (io_slot _ _ _ _ O MAXFILE) as [Hr Hu]; [by rewrite MAXFILE_eq|done|].
  change (slot mem i MAXFILE) with (indirect i) in *. pose proof (layout_data_pos sb start mem L).
  destruct (layout_block _ _ _ L (indirect i)) as (d & Hd1 & Ed & _ & _); [lia|]. rewrite Ed in *.
  erewrite bind_run; [|reflexivity].
  erewrite bind_run; [|apply bread_run; [lia|set_solver|done|rewrite size_empty; lia|exact Hd1]].
  destruct (Z.eqb_spec (get_word d (bn - NDIRECT)) 0); [done|].
  erewrite bind_run; [|reflexivity]. erewrite bind_run; [|by apply brelse_run; set_solver]. done.
Qed.

Hypothesis Hout : 1 <= out.

(** [balloc] finds a block when there is one. *)
Lemma balloc_some mem held lg ic i :
  layout mem -> holds start sb mem held -> pot i lg < lim -> (0 < size (free_blocks sb start mem))%nat ->
  exists b, 0 <= b < start /\ used sb mem b = false /\
    balloc 1 (fstate mem held lg ic) =
    Ok b (fstate (allocated sb mem b) held ({[b]} ∪ ({[bitmap_block sb b]} ∪ lg)) ic).
Proof.
  intros L Hh Hp Hf. destruct (first_free start sb mem) as (b & Hb & Hu & Hfirst).
  { intros E. rewrite E, size_empty in Hf. lia. }
  exists b. split_and!; [lia..|done|]. by apply balloc_run; [done|done|done|eapply pot_lg|..].
Qed.

(** A direct block is missing. *)
Lemma bmap_direct mem lg ic (ip : nat) i bn :
  layout mem -> inode_ok mem i -> ic !! ip = Some i -> 0 <= bn < NDIRECT ->
  pot i lg + 1 < lim -> slot mem i bn = 0 -> 1 <= avail mem i ->
  exists b mem' i' lg', bmap (Z.of_nat ip) bn (fstate mem ∅ lg ic) =
      Ok b (fstate mem' ∅ lg' (<[ip := i']> ic)) /\
    file_step nowrite mem i mem' i' /\ slot mem' i' bn = b /\ b <> 0 /\
    pot i' ({[b]} ∪ lg') <= pot i lg + 1 /\ avail mem i - 1 <= avail mem' i'.
Proof.
  intros L O Hi Hbn Hl Hs Hav. pose proof (layout_data_pos sb start mem L).
  destruct (balloc_some mem ∅ lg ic i L (holds_empty _ _ _)) as (b & Hb & Hu & Eb); [lia| |].
  { unfold avail, indterm in Hav. destruct (_ =? 0); lia. }
  pose proof (alloc_range _ _ _ L b Hb Hu). pose proof (io_addrs _ _ _ _ O).
  unfold slot in Hs. destruct (Z.ltb_spec bn NDIRECT); [|lia].
  set (i' := set_addrs (<[Z.to_nat bn := b]> (i_addrs i)) i).
  exists b, (allocated sb mem b), i', ({[b]} ∪ ({[bitmap_block sb b]} ∪ lg)).
  assert (indirect i' = indirect i) as Ei.
  { unfold indirect, i'. cbn [i_addrs set_addrs]. rewrite !nth_lookup. unfold NDIRECT in *.
    by rewrite list_lookup_insert_ne by lia. }
  split_and!.
  - unfold bmap. erewrite bind_run; [|by apply get_inode_run]. rewrite (io_dev _ _ _ _ O).
    destruct (Z.ltb_spec bn NDIRECT); [|lia]. rewrite Hs, Z.eqb_refl.
    erewrite bind_run; [|exact Eb]. erewrite bind_run; [|apply set_inode_run]. done.
  - apply file_step_addr; [done..|lia|done].
  - unfold slot. destruct (Z.ltb_spec bn NDIRECT); [|lia]. cbn [i' i_addrs set_addrs].
    rewrite nth_lookup. by rewrite list_lookup_insert_eq by (unfold NDIRECT in *; lia).
  - lia.
  - unfold pot, indterm. rewrite Ei. pose proof (elem_of_bitmaps sb b (alloc_size _ _ _ L b Hb)).
    assert (Z.of_nat (size (opset i' ({[b]} ∪ ({[b]} ∪ ({[bitmap_block sb b]} ∪ lg))))) <=
      Z.of_nat (size (opset i lg)) + 1); [|lia].
    apply (pot_le _ _ b). unfold opset. rewrite Ei. cbn [i' i_inum set_addrs]. set_solver.
  - pose proof (avail_alloc mem b i i' L Hb Hu) as Ha. unfold indterm in *. rewrite Ei in *. lia.
Qed.

(** The entry of the indirect block once it is stored. *)
Lemma slot_word mem mem' i bn b d :
  NDIRECT <= bn < MAXFILE -> indirect i <> 0 -> length d = Z.to_nat BSIZE -> is_u32 b ->
  mem' = <[indirect i := set_word d (bn - NDIRECT) b]> mem -> slot mem' i bn = b.
Proof.
  intros Hbn Hi Hlen Hb ->. unfold slot. destruct (Z.ltb_spec bn NDIRECT); [lia|].
  destruct (Z.eqb_spec bn MAXFILE); [lia|]. destruct (Z.eqb_spec (indirect i) 0); [done|].
  rewrite lookup_total_insert_eq. apply get_set_word_eq; [lia| |lia].
  rewrite Hlen. rewrite MAXFILE_eq in *. unfold NDIRECT, BSIZE in *. lia.
Qed.

(** The second half of [bmap]: the entry of the indirect block is missing. *)
Lemma bmap_word mem lg ic i bn :
  layout mem -> inode_ok mem i -> NDIRECT <= bn < MAXFILE -> indirect i <> 0 ->
  pot i lg + 1 < lim -> slot mem i bn = 0 -> 1 <= avail mem i ->
  exists b mem' lg',
    (d ← dio (d_bread 1 (indirect i));
     r ← (if get_word d (bn - NDIRECT) =? 0 then
            a ← balloc 1;
            dio (d_bset (indirect i) (set_word d (bn - NDIRECT) a));;
            dio (d_log_write (indirect i));;
            mret a
          else mret (get_word d (bn - NDIRECT)));
     dio (d_brelse (indirect i));;
     mret r) (fstate mem ∅ lg ic) = Ok b (fstate mem' ∅ lg' ic) /\
    file_step nowrite mem i mem' i /\ slot mem' i bn = b /\ b <> 0 /\
    pot i ({[b]} ∪ lg') <= pot i lg + 1 /\ avail mem i - 1 <= avail mem' i.
Proof.
  intros L O Hbn Hi Hl Hs Hav. pose proof (layout_data_pos sb start mem L) as Hds.
  destruct (io_slot _ _ _ _ O MAXFILE) as [Hr Hu]; [by rewrite MAXFILE_eq|done|].
  change (slot mem i MAXFILE) with (indirect i) in *.
  destruct (layout_block _ _ _ L (indirect i)) as (d & Hd1 & Ed & Hlen & _); [lia|].
  assert (get_word d (bn - NDIRECT) = 0) as Ew.
  { unfold slot in Hs. destruct (Z.ltb_spec bn NDIRECT); [lia|].
    destruct (Z.eqb_spec bn MAXFILE); [lia|]. destruct (Z.eqb_spec (indirect i) 0); [done|].
    by rewrite Ed in Hs. }
  pose proof (pot_lg i lg ltac:(lia)) as Hlg. pose proof (size_lt _ _ _ Hlg) as Hlg0.
  destruct (balloc_some mem {[indirect i]} lg ic i L) as (b & Hb & Hbu & Eb).
  { split; [by rewrite size_singleton|]. by intros x ->%elem_of_singleton. }
  { lia. }
  { unfold avail, indterm in Hav. destruct (_ =? 0); lia. }
  pose proof (alloc_range _ _ _ L b Hb Hbu). pose proof (elem_of_bitmaps sb b (alloc_size _ _ _ L b Hb)) as Hbm.
  set (lg1 := {[b]} ∪ ({[bitmap_block sb b]} ∪ lg)) in *.
  assert (Z.of_nat (size lg1) < lim) as Hlg1.
  { eapply Z.le_lt_trans; [|exact Hl]. unfold pot. assert (Z.of_nat (size lg1) <=
      Z.of_nat (size (opset i lg)) + 1); [|unfold indterm; destruct (_ =? 0); lia].
    apply (pot_le _ _ b). unfold opset, lg1. set_solver. }
  exists b, (<[indirect i := set_word (mem !!! indirect i) (bn - NDIRECT) b]> (allocated sb mem b)),
    ({[indirect i]} ∪ lg1). split_and!.
  - erewrite bind_run; [|apply bread_run; [lia|set_solver|done|rewrite size_empty; lia|exact Hd1]].
    rewrite Ew, Z.eqb_refl. rewrite (right_id_L ∅ (∪)), Ed.
    pose proof (store_run out start sz wk rest (allocated sb mem b) ∅ lg1 ic (indirect i)
      (set_word d (bn - NDIRECT) b) (mret b)) as Hst. rewrite (right_id_L ∅ (∪)) in Hst.
    unfold mbind, M_bind, mret, M_ret in *. rewrite Eb. rewrite <- Hst; [|set_solver|lia|done|done|].
    + repeat case_match; simplify_eq; done.
    + rewrite length_set_word; [done|lia|]. rewrite Hlen, MAXFILE_eq in *. unfold NDIRECT, BSIZE in *. lia.
  - by apply file_step_word.
  - rewrite Ed. pose proof (ly_size _ _ _ L). by apply (slot_word (allocated sb mem b) _ i bn b d Hbn Hi Hlen ltac:(lia)).
  - lia.
  - unfold pot. assert (Z.of_nat (size (opset i ({[b]} ∪ ({[indirect i]} ∪ lg1)))) <=
      Z.of_nat (size (opset i lg)) + 1); [|lia]. apply (pot_le _ _ b).
    unfold opset, lg1. destruct (Z.eqb_spec (indirect i) 0); [done|]. set_solver.
  - pose proof (avail_alloc mem b i i L Hb Hbu ltac:(lia)) as Ha. unfold avail in *.
    assert (free_blocks sb start (<[indirect i := set_word (mem !!! indirect i) (bn - NDIRECT) b]>
      (allocated sb mem b)) = free_blocks sb start (allocated sb mem b)) as ->; [|lia].
    apply free_insert_data; [by eapply layout_allocated|lia].
Qed.

(** The indirect block itself is missing. *)
Lemma bmap_new_indirect mem lg ic i bn :
  layout mem -> inode_ok mem i -> NDIRECT <= bn < MAXFILE -> indirect i = 0 ->
  pot i lg + 1 < lim -> 1 <= avail mem i ->
  exists b lg1, let i1 := set_addrs (<[Z.to_nat NDIRECT := b]> (i_addrs i)) i in
    let mem1 := allocated sb mem b in
    balloc 1 (fstate mem ∅ lg ic) = Ok b (fstate mem1 ∅ lg1 ic) /\
    file_step nowrite mem i mem1 i1 /\ indirect i1 = b /\ b <> 0 /\ slot mem1 i1 bn = 0 /\
    pot i1 lg1 <= pot i lg /\ avail mem i <= avail mem1 i1.
Proof.
  intros L O Hbn Hi Hl Hav. pose proof (layout_data_pos sb start mem L).
  destruct (balloc_some mem ∅ lg ic i L (holds_empty _ _ _)) as (b & Hb & Hbu & Eb); [lia| |].
  { unfold avail, indterm in Hav. destruct (_ =? 0); lia. }
  pose proof (alloc_range _ _ _ L b Hb Hbu). pose proof (elem_of_bitmaps sb b (alloc_size _ _ _ L b Hb)).
  pose proof (io_addrs _ _ _ _ O). exists b, ({[b]} ∪ ({[bitmap_block sb b]} ∪ lg)). cbv zeta.
  set (i1 := set_addrs _ i). assert (indirect i1 = b) as Ei.
  { unfold indirect, i1. cbn [i_addrs set_addrs]. rewrite nth_lookup. unfold NDIRECT in *.
    by rewrite list_lookup_insert_eq by lia. }
  assert (indterm i1 = 0 /\ indterm i = 1) as [E1 E0].
  { unfold indterm. rewrite Ei, Hi. destruct (Z.eqb_spec b 0); [lia|done]. }
  split_and!; [done| |done|lia| | |].
  - apply file_step_addr; [done..|unfold NDIRECT; lia|exact Hi].
  - unfold slot. destruct (Z.ltb_spec bn NDIRECT); [lia|]. destruct (Z.eqb_spec bn MAXFILE); [lia|].
    rewrite Ei. destruct (Z.eqb_spec b 0); [lia|].
    rewrite (lookup_total_correct _ _ _ (allocated_get _ _ _)). apply get_word_zeros.
    rewrite MAXFILE_eq in Hbn. change NINDIRECT with 128. unfold NDIRECT in *. lia.
  - unfold pot. rewrite E1, E0.
    assert (Z.of_nat (size (opset i1 ({[b]} ∪ ({[bitmap_block sb b]} ∪ lg)))) <=
      Z.of_nat (size (opset i lg)) + 1); [|lia]. apply (pot_le _ _ b).
    unfold opset. rewrite Ei, Hi. cbn [i1 i_inum set_addrs]. destruct (Z.eqb_spec b 0); [lia|].
    set_solver.
  - pose proof (avail_alloc mem b i i1 L Hb Hbu ltac:(lia)). lia.
Qed.

Lemma bmap_spec mem lg ic (ip : nat) i bn :
  layout mem -> inode_ok mem i -> ic !! ip = Some i -> 0 <= bn < MAXFILE ->
  pot i lg + 1 < lim -> (slot mem i bn = 0 -> 1 <= avail mem i) ->
  exists b mem' i' lg', bmap (Z.of_nat ip) bn (fstate mem ∅ lg ic) =
      Ok b (fstate mem' ∅ lg' (<[ip := i']> ic)) /\
    file_step nowrite mem i mem' i' /\ slot mem' i' bn = b /\ b <> 0 /\
    pot i' ({[b]} ∪ lg') <= pot i lg + 1 /\ avail mem i - 1 <= avail mem' i' /\
    (slot mem i bn <> 0 -> i' = i /\ mem' = mem).
Proof.
  intros L O Hi Hbn Hl Hav. destruct (decide (slot mem i bn = 0)) as [Hs|Hs].
  2:{ exists (slot mem i bn), mem, i, lg. rewrite list_insert_id by done. split_and!; try done; [| | |lia].
      - apply bmap_present; try done. eapply size_lt, (pot_lg i). lia.
      - by apply file_step_refl.
      - unfold pot. assert (Z.of_nat (size (opset i ({[slot mem i bn]} ∪ lg))) <=
          Z.of_nat (size (opset i lg)) + 1); [|lia]. apply (pot_le _ _ (slot mem i bn)).
        unfold opset. set_solver. }
  specialize (Hav Hs). destruct (decide (bn < NDIRECT)); [|].
  { destruct (bmap_direct mem lg ic ip i bn) as (b & mem' & i' & lg' & ?); [done..|lia|done|done|done|].
    exists b, mem', i', lg'. naive_solver. }
  assert (bn - NDIRECT < NINDIRECT) as Hn.
  { rewrite MAXFILE_eq in Hbn. change NINDIRECT with 128. unfold NDIRECT in *. lia. }
  destruct (decide (indirect i = 0)) as [E0|E0].
  - destruct (bmap_new_indirect mem lg ic i bn) as (b1 & lg1 & Eb & St & Ei & Hb1 & Hs1 & Hp1 & Ha1);
      [done|done|lia|done|done|done|].
    set (i1 := set_addrs _ i) in *. set (mem1 := allocated sb mem b1) in *.
    destruct (bmap_word mem1 lg1 (<[ip := i1]> ic) i1 bn) as (b & mem2 & lg2 & E & St2 & Hsl & Hne & Hp2 & Ha2);
      [by eapply ext_layout|by eapply ext_ok|lia|lia|lia|done|lia|].
    exists b, mem2, i1, lg2. split_and!; [|exact (file_step_trans _ _ _ _ _ _ _ _ _ _ St St2)|done|done|lia|lia|done].
    unfold bmap. erewrite bind_run; [|by apply get_inode_run]. rewrite (io_dev _ _ _ _ O).
    destruct (Z.ltb_spec bn NDIRECT); [lia|]. destruct (Z.ltb_spec (bn - NDIRECT) NINDIRECT); [|lia].
    fold (indirect i). rewrite E0. cbv iota zeta. rewrite Z.eqb_refl.
    erewrite bind_run; [|erewrite bind_run; [|exact Eb]; erewrite bind_run; [|apply set_inode_run]; reflexivity].
    rewrite Ei in E. exact E.
  - destruct (bmap_word mem lg ic i bn) as (b & mem2 & lg2 & E & St2 & Hsl & Hne & Hp2 & Ha2);
      [done|done|lia|done|done|done|done|].
    exists b, mem2, i, lg2. rewrite list_insert_id by done. split_and!; [|done..|lia|done].
    unfold bmap. erewrite bind_run; [|by apply get_inode_run]. rewrite (io_dev _ _ _ _ O).
    destruct (Z.ltb_spec bn NDIRECT); [lia|]. destruct (Z.ltb_spec (bn - NDIRECT) NINDIRECT); [|lia].
    fold (indirect i). destruct (Z.eqb_spec (indirect i) 0); [done|].
    erewrite bind_run; [|reflexivity]. exact E.
Qed.

(** ** Writing into a block of the file *)

(** [bytes] from position [off]. *)
Definition write_at (off : Z) (bytes : list Z) : writes := fun p =>
  if (off <=? p) && (p <? off + Z.of_nat (length bytes)) then bytes !! Z.to_nat (p - off) else None.

Lemma pos_block p k o : p / BSIZE = k -> p mod BSIZE = o -> p = BSIZE * k + o.
Proof. intros <- <-. by apply Z.div_mod. Qed.

(** Writing a data block of a file does not move the others. *)
Lemma slot_write mem i k x j :
  inode_ok mem i -> 0 <= k < MAXFILE -> slot mem i k <> 0 ->
  slot (<[slot mem i k := x]> mem) i j = slot mem i j.
Proof.
  intros O Hk Hs. unfold slot at 1 3. destruct (_ <? _); [done|]. destruct (_ =? MAXFILE); [done|].
  destruct (Z.eqb_spec (indirect i) 0); [done|]. rewrite lookup_total_insert_ne; [done|]. intros E.
  assert (k = MAXFILE); [|lia]. apply (io_inj _ _ _ _ O); [lia|by rewrite MAXFILE_eq|done|].
  rewrite E. unfold slot. by rewrite Z.eqb_refl.
Qed.

Lemma byte_write mem i off bytes p :
  layout mem -> inode_ok mem i -> 0 <= off < MAXFILE * BSIZE ->
  off mod BSIZE + Z.of_nat (length bytes) <= BSIZE -> slot mem i (off / BSIZE) <> 0 ->
  0 <= p < MAXFILE * BSIZE ->
  let a := slot mem i (off / BSIZE) in
  byte (<[a := splice (mem !!! a) (Z.to_nat (off mod BSIZE)) bytes]> mem) i p =
    default (byte mem i p) (write_at off bytes p).
Proof.
  intros L O Hoff Hfit Hs Hp a. set (k := off / BSIZE) in *. set (o := off mod BSIZE) in *.
  pose proof (Z.mod_pos_bound off BSIZE ltac:(done)) as Ho. fold o in Ho.
  pose proof (pos_block off k o eq_refl eq_refl) as Epos.
  assert (0 <= k < MAXFILE) as Hk.
  { split; [apply Z.div_pos; [lia|done]|]. apply Z.div_lt_upper_bound; [done|lia]. }
  destruct (io_slot _ _ _ _ O k) as [Hr Hu]; [lia|done|]. fold a in Hr, Hu.
  pose proof (layout_data_pos sb start mem L).
  destruct (layout_block _ _ _ L a) as (d & Hd & Ed & Hlen & _); [lia|].
  set (mem' := <[a := _]> mem). assert (slot mem' i (p / BSIZE) = slot mem i (p / BSIZE)) as Hsl by (by apply slot_write).
  unfold byte. rewrite Hsl. unfold write_at.
  destruct (decide (p / BSIZE = k)) as [E|E].
  - pose proof (pos_block p k (p mod BSIZE) E eq_refl) as Ep.
    pose proof (Z.mod_pos_bound p BSIZE ltac:(done)). rewrite E. fold a.
    destruct (Z.eqb_spec a 0); [done|]. unfold mem'. rewrite lookup_total_insert_eq, Ed, !nth_lookup.
    destruct (Z.leb_spec off p), (Z.ltb_spec p (off + Z.of_nat (length bytes))); cbn [andb].
    1:{ rewrite lookup_splice_in by (rewrite ?Hlen; unfold BSIZE in *; lia).
        replace (Z.to_nat (p mod BSIZE) - Z.to_nat o)%nat with (Z.to_nat (p - off)) by lia.
        destruct (bytes !! Z.to_nat (p - off)) eqn:El; [done|]. apply lookup_ge_None in El. lia. }
    all: rewrite lookup_splice_out by (rewrite ?Hlen; unfold BSIZE in *; lia); done.
  - assert (~ (off <= p < off + Z.of_nat (length bytes))) as Hout2.
    { intros Hin. apply E. symmetry. apply (Z.div_unique _ _ _ (p - BSIZE * k)); [|lia]. unfold BSIZE in *. lia. }
    assert (0 <= p / BSIZE < MAXFILE) as Hpk
      by (split; [apply Z.div_pos; [lia|done]|apply Z.div_lt_upper_bound; [done|lia]]).
    destruct (Z.leb_spec off p), (Z.ltb_spec p (off + Z.of_nat (length bytes))); try lia; cbn [andb];
      (destruct (Z.eqb_spec (slot mem i (p / BSIZE)) 0); [done|]; unfold mem'; rewrite lookup_total_insert_ne; [done|];
       intros E'; apply E; symmetry; apply (io_inj _ _ _ _ O); [lia|lia|done|exact E']).
Qed.

Lemma file_step_write mem i off bytes :
  layout mem -> inode_ok mem i -> 0 <= off < MAXFILE * BSIZE -> bytes_ok bytes ->
  off mod BSIZE + Z.of_nat (length bytes) <= BSIZE -> slot mem i (off / BSIZE) <> 0 ->
  let a := slot mem i (off / BSIZE) in
  file_step (write_at off bytes) mem i
    (<[a := splice (mem !!! a) (Z.to_nat (off mod BSIZE)) bytes]> mem) i.
Proof.
  intros L O Hoff Hok Hfit Hs a. set (mem' := <[a := _]> mem).
  pose proof (Z.mod_pos_bound off BSIZE ltac:(done)).
  assert (0 <= off / BSIZE < MAXFILE) as Hk.
  { split; [apply Z.div_pos; [lia|done]|]. apply Z.div_lt_upper_bound; [done|lia]. }
  destruct (io_slot _ _ _ _ O (off / BSIZE)) as [Hr Hu]; [lia|done|]. fold a in Hr, Hu.
  pose proof (layout_data_pos sb start mem L).
  destruct (layout_block _ _ _ L a) as (d & Hd & Ed & Hlen & Hdok); [lia|].
  assert (layout mem') as L'.
  { apply layout_insert_data; [done|done| |].
    - rewrite Ed, length_splice; [done|]. rewrite Hlen. unfold BSIZE in *. lia.
    - apply bytes_ok_splice; [by rewrite Ed|done]. }
  assert (forall j, slot mem' i j = slot mem i j) as Hsl by (intros j; by apply slot_write).
  assert (forall x, 0 <= x < sb_size sb -> used sb mem' x = used sb mem x) as Hus.
  { intros x Hx. eapply used_insert_data; [done|done|lia]. }
  constructor; auto.
  - destruct O as [? ? ? ? Hso ? ? ?]. constructor; auto; try (intros; rewrite !Hsl in *; auto).
    destruct (Hso k) as [? ?]; [done|done|]. split; [done|]. rewrite Hus by lia. done.
  - by destruct i.
  - intros p Hp. by apply byte_write.
  - intros x Hx Hux. by rewrite Hus.
  - intros x Hx Hb. unfold mem'. by rewrite lookup_insert_ne by lia.
  - intros x Hx Hux Hns. unfold mem'. rewrite lookup_insert_ne; [done|].
    intros E. apply (Hns (off / BSIZE)); [lia|done].
Qed.

End bmap.
