(* ===== verification/FsWrite.v ===== *)
(** [writei], [readi] and [iupdate] over the abstract disk: a file is the list
    of its bytes. *)

From stdpp Require Import prelude strings gmap list.
From S2P Require Import Prelude Bytes Param BlockCache Log TxDisk Fs FsAlloc FsFile.

(** ** The blocks a transfer touches *)

(** The first block after the [n] bytes at [off]. *)
Definition block_end (off n : Z) : Z := if n <=? 0 then off / BSIZE else (off + n - 1) / BSIZE + 1.

Definition touched (off n : Z) : Z := block_end off n - off / BSIZE.

(** The blocks from [lo] to [hi] the inode has not got. *)
Definition missing (mem : gmap Z block) (i : inode) (lo hi : Z) : Z :=
  Z.of_nat (length (filter (fun k => slot mem i k = 0) (seqZ lo (hi - lo)))).

Lemma missing_nonneg mem i lo hi : 0 <= missing mem i lo hi.
Proof. unfold missing. lia. Qed.

Lemma missing_split mem i lo mid hi :
  lo <= mid <= hi -> missing mem i lo hi = missing mem i lo mid + missing mem i mid hi.
Proof.
  intros H. unfold missing. replace (hi - lo) with ((mid - lo) + (hi - mid)) by lia.
  rewrite seqZ_app, filter_app, length_app by lia. replace (lo + (mid - lo)) with mid by lia. lia.
Qed.

Lemma missing_empty mem i lo hi : hi <= lo -> missing mem i lo hi = 0.
Proof. intros. unfold missing. by rewrite seqZ_nil by lia. Qed.

Lemma missing_one mem i k : missing mem i k (k + 1) = if decide (slot mem i k = 0) then 1 else 0.
Proof.
  unfold missing. replace (k + 1 - k) with 1 by lia. rewrite seqZ_cons by lia.
  rewrite seqZ_nil by lia. case_decide.
  - by rewrite filter_cons_True.
  - by rewrite filter_cons_False.
Qed.

Lemma missing_mono mem i mem' i' lo hi :
  (forall k, lo <= k < hi -> slot mem i k <> 0 -> slot mem' i' k <> 0) ->
  missing mem' i' lo hi <= missing mem i lo hi.
Proof.
  intros Hm. unfold missing. apply inj_le.
  assert (forall k, k ∈ seqZ lo (hi - lo) -> slot mem i k <> 0 -> slot mem' i' k <> 0) as Hm2.
  { intros k Hk%elem_of_seqZ. apply Hm. lia. }
  clear Hm. induction (seqZ lo (hi - lo)) as [|k l IH]; [done|].
  specialize (IH ltac:(intros x Hx; apply Hm2; by right)).
  destruct (decide (slot mem' i' k = 0)).
  - destruct (decide (slot mem i k = 0)) as [|Hne]; [|by destruct (Hm2 k ltac:(set_solver) Hne)].
    rewrite !filter_cons_True by done. simpl. lia.
  - rewrite filter_cons_False by done. destruct (decide (slot mem i k = 0)).
    + rewrite filter_cons_True by done. simpl. lia.
    + by rewrite filter_cons_False.
Qed.

Lemma chunk_bounds n tot off : tot < n -> 1 <= chunk n tot off <= n - tot /\
  off mod BSIZE + chunk n tot off <= BSIZE.
Proof.
  intros. unfold chunk. pose proof (Z.mod_pos_bound off BSIZE ltac:(done)). lia.
Qed.

Lemma block_end_step n tot off :
  0 <= off -> tot < n -> let m := chunk n tot off in
  off / BSIZE + 1 <= block_end off (n - tot) /\
  (tot + m < n -> (off + m) / BSIZE = off / BSIZE + 1 /\
    block_end (off + m) (n - (tot + m)) = block_end off (n - tot)) /\
  (n <= tot + m -> n = tot + m /\ block_end off (n - tot) = off / BSIZE + 1).
Proof.
  intros Ho Ht m. pose proof (chunk_bounds n tot off Ht) as Hm. fold m in Hm.
  pose proof (Z.div_mod off BSIZE ltac:(done)) as Hdm.
  pose proof (Z.mod_pos_bound off BSIZE ltac:(done)) as Hmod. unfold block_end.
  destruct (Z.leb_spec (n - tot) 0); [lia|].
  pose proof (Z.div_le_mono off (off + (n - tot) - 1) BSIZE ltac:(done) ltac:(lia)).
  split_and!; [lia| |].
  - intros Hr. destruct (Z.leb_spec (n - (tot + m)) 0); [lia|].
    assert (m = BSIZE - off mod BSIZE) as Em by (unfold m, chunk in *; lia). split.
    + symmetry. apply (Z.div_unique _ _ _ 0); unfold BSIZE in *; lia.
    + do 2 f_equal. lia.
  - intros Hr. split; [lia|]. f_equal.
    symmetry. apply (Z.div_unique _ _ _ (off mod BSIZE + (n - tot) - 1)); lia.
Qed.

Lemma touched_step n tot off :
  0 <= off -> tot < n -> let m := chunk n tot off in
  touched off (n - tot) = 1 + touched (off + m) (n - (tot + m)).
Proof.
  intros Ho Ht m. destruct (block_end_step n tot off Ho Ht) as (_ & H1 & H2). fold m in H1, H2.
  unfold touched. destruct (decide (tot + m < n)) as [Hlt|Hge].
  - destruct (H1 Hlt) as [-> ->]. lia.
  - destruct (H2 ltac:(lia)) as [E ->]. rewrite <- E. unfold block_end.
    destruct (Z.leb_spec (n - n) 0); lia.
Qed.

Lemma touched_nonneg off n : 0 <= off -> 0 <= touched off n.
Proof.
  intros. unfold touched, block_end. destruct (Z.leb_spec n 0); [lia|].
  pose proof (Z.div_le_mono off (off + n - 1) BSIZE ltac:(done) ltac:(lia)). lia.
Qed.

(** A transfer of [n] bytes touches at most two blocks more than [n / BSIZE]. *)
Lemma touched_bound off n : 0 <= off -> 0 <= n -> touched off n <= n / BSIZE + 2.
Proof.
  intros Ho Hn. pose proof (Z.div_pos n BSIZE Hn ltac:(done)).
  unfold touched, block_end. destruct (Z.leb_spec n 0); [lia|].
  pose proof (Z.div_mod off BSIZE ltac:(done)). pose proof (Z.mod_pos_bound off BSIZE ltac:(done)).
  pose proof (Z.div_mod n BSIZE ltac:(done)). pose proof (Z.mod_pos_bound n BSIZE ltac:(done)).
  pose proof (Z.div_mod (off + n - 1) BSIZE ltac:(done)).
  pose proof (Z.mod_pos_bound (off + n - 1) BSIZE ltac:(done)). unfold BSIZE in *. lia.
Qed.

Lemma touched_fuel off n : 0 <= off -> 0 <= n -> touched off n < Z.of_nat (blocks_fuel n).
Proof.
  intros Ho Hn. unfold blocks_fuel. pose proof (Z.div_pos n BSIZE Hn ltac:(done)).
  pose proof (touched_bound off n Ho Hn). rewrite Z2Nat.id by lia. lia.
Qed.

Lemma slice_app {A} (l : list A) o m n : slice l o (m + n) = slice l o m ++ slice l (o + m) n.
Proof.
  unfold slice. replace (drop (o + m) l) with (drop m (drop o l)) by (rewrite drop_drop; f_equal; lia).
  generalize (drop o l) as l'. intros l'.
  rewrite <- (take_drop m l') at 1. destruct (decide (m <= length l')%nat).
  - rewrite take_app_ge by (rewrite length_take; lia). rewrite length_take. f_equal.
    f_equal. lia.
  - rewrite (take_ge l' m), (drop_ge l' m), app_nil_r, take_nil, app_nil_r by lia.
    apply take_ge. lia.
Qed.

Lemma write_at_app off b1 b2 p :
  over (write_at off b1) (write_at (off + Z.of_nat (length b1)) b2) p = write_at off (b1 ++ b2) p.
Proof.
  unfold over, write_at. rewrite length_app, Nat2Z.inj_add, Z.add_assoc.
  destruct (Z.leb_spec (off + Z.of_nat (length b1)) p), (Z.leb_spec off p),
    (Z.ltb_spec p (off + Z.of_nat (length b1))),
    (Z.ltb_spec p (off + Z.of_nat (length b1) + Z.of_nat (length b2))); try lia; cbn [andb]; try done.
  - rewrite lookup_app_r by lia.
    replace (Z.to_nat (p - off) - length b1)%nat with (Z.to_nat (p - (off + Z.of_nat (length b1)))) by lia.
    destruct (b2 !! _) eqn:E; [done|]. apply lookup_ge_None in E. lia.
  - by rewrite lookup_app_l by lia.
Qed.

Lemma write_at_nil off p : write_at off [] p = None.
Proof. unfold write_at. by destruct (_ && _)%bool. Qed.

(** ** The disk inode *)

Record dinode_ok (di : dinode) : Prop := {
  do_type : is_s16 (di_type di);
  do_major : is_s16 (di_major di);
  do_minor : is_s16 (di_minor di);
  do_nlink : is_s16 (di_nlink di);
  do_size : is_u32 (di_size di);
  do_addrs : length (di_addrs di) = 13%nat;
  do_addr : Forall (fun a => is_u32 a) (di_addrs di)
}.

Lemma length_concat_words (l : list Z) : length (concat (le_split 4 <$> l)) = (4 * length l)%nat.
Proof. induction l; [done|]. cbn [fmap list_fmap concat length]. rewrite length_app, IHl, length_le_split. lia. Qed.

Lemma length_dinode_bytes di : length (di_addrs di) = 13%nat -> length (dinode_bytes di) = 64%nat.
Proof.
  intros Hl. unfold dinode_bytes. by rewrite !length_app, !length_le_split, length_concat_words, Hl.
Qed.

Lemma bytes_ok_dinode di : bytes_ok (dinode_bytes di).
Proof.
  unfold dinode_bytes, bytes_ok. rewrite !Forall_app. split_and!; try apply le_split_ok.
  induction (di_addrs di) as [|a l IH]; [constructor|]. cbn [fmap list_fmap concat].
  apply Forall_app. split; [apply le_split_ok|exact IH].
Qed.

Lemma slice_word (l : list Z) (k : nat) a rest :
  l !! k = Some a -> slice (concat (le_split 4 <$> l) ++ rest) (4 * k) 4 = le_split 4 a.
Proof.
  revert k. induction l as [|x l IH]; intros [|k] Hk; simplify_eq/=; [done|].
  rewrite <- (IH k Hk) at 1. unfold slice. by rewrite !Nat.add_succ_r, Nat.add_0_r.
Qed.

Lemma dinode_at_slices B o d :
  length B = 64%nat -> (o + 64 <= length d)%nat ->
  dinode_at (splice d o B) o =
  Dinode (s16 (le_combine (slice B 0 2))) (s16 (le_combine (slice B 2 2)))
    (s16 (le_combine (slice B 4 2))) (s16 (le_combine (slice B 6 2))) (le_combine (slice B 8 4))
    ((fun i => le_combine (slice B (12 + 4 * i) 4)) <$> seq 0 13).
Proof.
  intros HB Hd. unfold dinode_at.
  assert (forall k j, (j + k <= 64)%nat -> get_le k (splice d o B) (o + j) = le_combine (slice B j k)) as H.
  { intros k j Hj. apply get_le_splice; lia. }
  f_equal; [|by rewrite H by lia..|].
  - rewrite <- H by lia. by rewrite Nat.add_0_r.
  - apply list_fmap_ext. intros j x Hx%lookup_seq. rewrite <- Nat.add_assoc. apply H. lia.
Qed.

Lemma s16_le_split z : is_s16 z -> s16 (le_combine (le_split 2 z)) = z.
Proof. intros. rewrite le_combine_split. by apply s16_u16. Qed.

Lemma u32_le_split z : is_u32 z -> le_combine (le_split 4 z) = z.
Proof. intros. rewrite le_combine_split. by apply Z.mod_small. Qed.

(** Storing a [struct dinode] and loading it back. *)
Lemma dinode_roundtrip d o di :
  dinode_ok di -> (o + 64 <= length d)%nat ->
  dinode_at (splice d o (dinode_bytes di)) o = di.
Proof.
  intros [H1 H2 H3 H4 H5 H6 H7] Hd. rewrite dinode_at_slices; [|by apply length_dinode_bytes|done].
  destruct di as [t mj mn nl sz ad]. cbn [di_type di_major di_minor di_nlink di_size di_addrs] in *.
  unfold dinode_bytes. cbn [di_type di_major di_minor di_nlink di_size di_addrs].
  f_equal; [by apply s16_le_split..|by apply u32_le_split|].
  apply list_eq. intros k. rewrite list_lookup_fmap.
  destruct (decide (k < 13)%nat) as [Hk|Hk].
  - rewrite lookup_seq_lt by done. cbn [fmap option_fmap option_map].
    destruct (lookup_lt_is_Some_2 ad k) as [a Ha]; [lia|]. rewrite Ha. f_equal.
    transitivity (le_combine (slice (concat (le_split 4 <$> ad) ++ []) (4 * k) 4)).
    + by rewrite app_nil_r.
    + rewrite (slice_word _ _ _ _ Ha). apply u32_le_split. by eapply Forall_lookup_1 in H7.
  - rewrite (lookup_ge_None_2 ad) by lia. by rewrite (lookup_ge_None_2 (seq 0 13)) by (rewrite length_seq; lia).
Qed.

(** Another inode of the same block is not touched. *)
Lemma dinode_at_other d o B o' :
  length B = 64%nat -> (o + 64 <= length d)%nat -> (o' + 64 <= o \/ o + 64 <= o')%nat ->
  dinode_at (splice d o B) o' = dinode_at d o'.
Proof.
  intros HB Hd Ho. unfold dinode_at.
  assert (forall k j, (j + k <= 64)%nat -> get_le k (splice d o B) (o' + j) = get_le k d (o' + j)) as H.
  { intros k j Hj. unfold get_le. rewrite slice_splice_ne; [done|lia|lia]. }
  f_equal; [|by rewrite H by lia..|].
  - pose proof (H 2%nat 0%nat ltac:(lia)) as E. rewrite Nat.add_0_r in E. by rewrite E.
  - apply list_fmap_ext. intros j x Hx%lookup_seq. rewrite <- Nat.add_assoc. apply H. lia.
Qed.

Lemma dinode_off_bound inum : (dinode_off inum + 64 <= Z.to_nat BSIZE)%nat.
Proof.
  unfold dinode_off, sizeof_dinode, BSIZE. change IPB with 8.
  pose proof (Z.mod_pos_bound inum 8 ltac:(done)). lia.
Qed.

Lemma dinode_off_apart i j : IBLOCK i = IBLOCK j -> i <> j ->
  (dinode_off j + 64 <= dinode_off i \/ dinode_off i + 64 <= dinode_off j)%nat.
Proof.
  unfold IBLOCK, dinode_off, sizeof_dinode. change IPB with 8. intros E Hne.
  pose proof (Z.div_mod i 8 ltac:(done)). pose proof (Z.div_mod j 8 ltac:(done)).
  pose proof (Z.mod_pos_bound i 8 ltac:(done)). pose proof (Z.mod_pos_bound j 8 ltac:(done)). lia.
Qed.

(** ** Contents *)

Lemma lookup_upto_lt n (k : nat) : Z.of_nat k < n -> upto n !! k = Some (Z.of_nat k).
Proof. intros. unfold upto. rewrite list_lookup_fmap, lookup_seq_lt by lia. done. Qed.

Lemma lookup_contents mem i (k : nat) :
  contents mem i !! k = if decide (Z.of_nat k < i_size i) then Some (byte mem i (Z.of_nat k)) else None.
Proof.
  unfold contents. rewrite list_lookup_fmap. case_decide.
  - by rewrite lookup_upto_lt.
  - rewrite (lookup_ge_None_2 (upto _)); [done|]. rewrite length_upto. lia.
Qed.

Lemma length_file_contents mem i : length (contents mem i) = Z.to_nat (i_size i).
Proof. unfold contents. by rewrite length_fmap, length_upto. Qed.

Section transfer.
Context {D : Type} (out start sz : Z) (wk : list chan) (rest : D) (sb : superblock).
Implicit Types (mem : gmap Z block) (held lg : gset Z) (ic : list inode) (i : inode).
Abbreviation fstate := (fstate out start sz wk rest).
Abbreviation lim := (loglim sz).
Abbreviation layout := (layout sb start).
Abbreviation inode_ok := (inode_ok sb start).
Abbreviation file_step := (file_step sb start).
Abbreviation pot := (pot sb).
Abbreviation avail := (avail start sb).

(** There is space for a transfer of [n] bytes at [off]: there are free blocks
    for those the file has not got. *)
Definition space mem i off n : Prop :=
  let m := missing mem i (off / BSIZE) (block_end off n) in m = 0 \/ m <= avail mem i.

Lemma avail_same mem i b d :
  layout mem -> data_start sb <= b -> avail (<[b := d]> mem) i = avail mem i.
Proof.
  intros L Hb. unfold FsFile.avail. do 3 f_equal. by apply free_insert_data.
Qed.

Lemma pot_mono i lg : Z.of_nat (size lg) <= pot i lg.
Proof.
  unfold FsFile.pot, indterm. pose proof (subseteq_size lg (opset sb i lg) ltac:(unfold opset; set_solver)).
  destruct (_ =? 0); lia.
Qed.

Hypothesis Hout : 1 <= out.

(** The common part of the two copy loops: the block of position [off]. *)
Lemma bmap_at mem lg ic (ip : nat) i off r :
  layout mem -> inode_ok mem i -> ic !! ip = Some i -> 0 <= off -> 0 < r ->
  off + r <= MAXFILE * BSIZE -> pot i lg + 1 < lim ->
  (slot mem i (off / BSIZE) = 0 -> 1 <= avail mem i) ->
  exists b mem' i' lg' d, bmap (Z.of_nat ip) (off / BSIZE) (fstate mem ∅ lg ic) =
      Ok b (fstate mem' ∅ lg' (<[ip := i']> ic)) /\
    file_step nowrite mem i mem' i' /\ slot mem' i' (off / BSIZE) = b /\ b <> 0 /\
    pot i' ({[b]} ∪ lg') <= pot i lg + 1 /\
    avail mem i - (if decide (slot mem i (off / BSIZE) = 0) then 1 else 0) <= avail mem' i' /\
    (slot mem i (off / BSIZE) <> 0 -> i' = i) /\ mem' !! b = Some d /\ mem' !!! b = d /\
    length d = Z.to_nat BSIZE /\ data_start sb <= b < start /\ 4 <= data_start sb /\
    dio (d_bread 1 b) (fstate mem' ∅ lg' (<[ip := i']> ic)) =
      Ok d (fstate mem' ({[b]} ∪ ∅) lg' (<[ip := i']> ic)) /\ Z.of_nat (size lg') < lim.
Proof.
  intros L O Hi Hoff Hr Hmax Hpot Hsp.
  assert (0 <= off / BSIZE < MAXFILE) as Hk.
  { split; [apply Z.div_pos; [lia|done]|]. apply Z.div_lt_upper_bound; [done|lia]. }
  destruct (bmap_spec out start sz wk rest sb Hout mem lg ic ip i (off / BSIZE))
    as (b & mem1 & i1 & lg1 & Eb & St & Hsl & Hne & Hp & Hav & Hsame); [done|done|done|lia|lia|done|].
  pose proof (ext_layout _ _ _ _ _ _ _ St) as L1. pose proof (ext_ok _ _ _ _ _ _ _ St) as O1.
  destruct (io_slot _ _ _ _ O1 (off / BSIZE)) as [Hbr Hbu]; [lia|by rewrite Hsl|]. rewrite Hsl in *.
  pose proof (layout_data_pos sb start mem1 L1).
  destruct (layout_block _ _ _ L1 b) as (d & Hd & Ed & Hlen & _); [lia|].
  pose proof (pot_mono i1 ({[b]} ∪ lg1)) as Hm.
  pose proof (subseteq_size lg1 ({[b]} ∪ lg1) ltac:(set_solver)).
  assert (Z.of_nat (size lg1) < lim) by lia.
  exists b, mem1, i1, lg1, d. split_and!; try done; try lia.
  - case_decide; [lia|]. destruct Hsame as [-> ->]; [done|]. lia.
  - intros Hs. by apply Hsame.
  - apply bread_run; [lia|set_solver|done|rewrite size_empty; lia|done].
Qed.

(** The blocks that are missing in the next iteration of the copy loop. *)
Lemma missing_step w mem i mem1 i1 n tot off :
  file_step w mem i mem1 i1 -> 0 <= off -> tot < n -> off + (n - tot) <= MAXFILE * BSIZE ->
  let m := chunk n tot off in
  missing mem1 i1 ((off + m) / BSIZE) (block_end (off + m) (n - (tot + m))) +
    (if decide (slot mem i (off / BSIZE) = 0) then 1 else 0) <=
  missing mem i (off / BSIZE) (block_end off (n - tot)).
Proof.
  intros St Ho Ht Hmax m. destruct (block_end_step n tot off Ho Ht) as (H0 & H1 & H2). fold m in H1, H2.
  rewrite (missing_split mem i _ (off / BSIZE + 1)) by lia. rewrite missing_one.
  pose proof (missing_nonneg mem i (off / BSIZE + 1) (block_end off (n - tot))).
  destruct (decide (tot + m < n)) as [Hlt|Hge].
  - destruct (H1 Hlt) as [-> ->].
    assert (missing mem1 i1 (off / BSIZE + 1) (block_end off (n - tot)) <=
      missing mem i (off / BSIZE + 1) (block_end off (n - tot))); [|lia].
    apply missing_mono. intros k Hk Hs. rewrite (ext_slot _ _ _ _ _ _ _ St); [done| |done].
    pose proof (Z.div_pos off BSIZE Ho ltac:(done)). unfold block_end in Hk.
    destruct (Z.leb_spec (n - tot) 0); [lia|].
    assert ((off + (n - tot) - 1) / BSIZE < MAXFILE) by (apply Z.div_lt_upper_bound; [done|lia]). lia.
  - destruct (H2 ltac:(lia)) as [E _]. rewrite missing_empty; [lia|].
    unfold block_end. destruct (Z.leb_spec (n - (tot + m)) 0); lia.
Qed.

(** A new block is available when the next iteration needs one. *)
Lemma space_first mem i n tot off :
  layout mem -> inode_ok mem i -> 0 <= off -> tot < n -> off + (n - tot) <= MAXFILE * BSIZE ->
  space mem i off (n - tot) -> slot mem i (off / BSIZE) = 0 -> 1 <= avail mem i.
Proof.
  intros L O Hoff Hlt Hmax Hsp Hs.
  pose proof (missing_step _ _ _ _ _ n tot off (file_step_refl _ _ _ _ L O) Hoff Hlt Hmax) as Hms.
  cbv zeta in Hms. rewrite decide_True in Hms by done.
  pose proof (missing_nonneg mem i ((off + chunk n tot off) / BSIZE)
    (block_end (off + chunk n tot off) (n - (tot + chunk n tot off)))).
  unfold space in Hsp. cbv zeta in Hsp. lia.
Qed.

(** One iteration: the part of the source that goes into the block of [off]. *)
Lemma writei_loop_step (fuel : nat) mem lg ic (ip : nat) i off n tot src :
  layout mem -> inode_ok mem i -> ic !! ip = Some i -> 0 <= off -> 0 <= tot < n ->
  off + (n - tot) <= MAXFILE * BSIZE -> n <= Z.of_nat (length src) -> bytes_ok src ->
  pot i lg + 1 < lim -> (slot mem i (off / BSIZE) = 0 -> 1 <= avail mem i) ->
  let m := chunk n tot off in
  exists mem' i' lg',
    writei_loop (S fuel) (Z.of_nat ip) 1 off n tot src (fstate mem ∅ lg ic) =
      writei_loop fuel (Z.of_nat ip) 1 (off + m) n (tot + m) src (fstate mem' ∅ lg' (<[ip := i']> ic)) /\
    file_step (write_at off (slice src (Z.to_nat tot) (Z.to_nat m))) mem i mem' i' /\
    slot mem' i' (off / BSIZE) <> 0 /\ pot i' lg' <= pot i lg + 1 /\
    (slot mem i (off / BSIZE) <> 0 -> i' = i) /\
    avail mem i - (if decide (slot mem i (off / BSIZE) = 0) then 1 else 0) <= avail mem' i'.
Proof.
  intros L O Hi Hoff Htot Hmax Hsrc Hok Hpot Hfree m. cbn [writei_loop].
  destruct (Z.ltb_spec tot n) as [Hlt|]; [|lia].
  destruct (bmap_at mem lg ic ip i off (n - tot)) as
    (b & mem1 & i1 & lg1 & d & Eb & St & Hsl & Hne & Hp & Hav & Hsame & Hd & Ed & Hlen & Hbr & Hds & Erd & Hlg);
    [done..|lia|lia|lia|done|].
  erewrite bind_run; [|exact Eb]. erewrite bind_run; [|exact Erd].
  pose proof (chunk_bounds n tot off Hlt) as [Hm Hfit]. fold m in Hm, Hfit |- *. set (bytes := slice src _ _).
  assert (length bytes = Z.to_nat m) as Hbl by (apply length_slice; lia).
  destruct (Z.ltb_spec (Z.of_nat (length bytes)) m); [lia|].
  pose proof (ext_layout _ _ _ _ _ _ _ St) as L1. pose proof (ext_ok _ _ _ _ _ _ _ St) as O1.
  assert (file_step (write_at off bytes) mem1 i1
    (<[b := splice d (Z.to_nat (off mod BSIZE)) bytes]> mem1) i1) as Sw.
  { pose proof (file_step_write start sb mem1 i1 off bytes L1 O1) as Hw. cbv zeta in Hw.
    rewrite Hsl, Ed in Hw. apply Hw; [lia|by apply bytes_ok_slice|lia|done]. }
  rewrite store_run; [|set_solver|lia|done|done|].
  2:{ rewrite length_splice; [done|]. rewrite Hlen. pose proof (Z.mod_pos_bound off BSIZE ltac:(done)).
      unfold BSIZE in *. lia. }
  set (mem2 := <[b := _]> mem1) in *. exists mem2, i1, ({[b]} ∪ lg1). split_and!; try done.
  - eapply file_step_ext; [|exact (file_step_trans _ _ _ _ _ _ _ _ _ _ St Sw)].
    intros p. unfold over. by destruct (write_at off bytes p).
  - assert (0 <= off / BSIZE <= MAXFILE).
    { split; [apply Z.div_pos; [lia|done]|]. apply Z.div_le_upper_bound; [done|lia]. }
    rewrite (ext_slot _ _ _ _ _ _ _ Sw); rewrite ?Hsl; done.
  - assert (avail mem2 i1 = avail mem1 i1) as -> by (unfold mem2; apply avail_same; done || lia). done.
Qed.

(** The positions up to the end of the chunk are in the same block. *)
Lemma chunk_block n tot off p :
  tot < n -> off <= p < off + chunk n tot off -> p / BSIZE = off / BSIZE.
Proof.
  intros Hlt Hp. pose proof (chunk_bounds n tot off Hlt) as [_ Hfit]. symmetry.
  pose proof (Z.div_mod off BSIZE ltac:(done)). pose proof (Z.mod_pos_bound off BSIZE ltac:(done)).
  apply (Z.div_unique _ _ _ (off mod BSIZE + (p - off))); lia.
Qed.

Lemma writei_loop_run (fuel : nat) : forall mem lg ic (ip : nat) i off n tot src,
  layout mem -> inode_ok mem i -> ic !! ip = Some i -> 0 <= off -> 0 <= tot <= n ->
  off + (n - tot) <= MAXFILE * BSIZE -> n <= Z.of_nat (length src) -> bytes_ok src ->
  pot i lg + touched off (n - tot) < lim -> space mem i off (n - tot) ->
  touched off (n - tot) < Z.of_nat fuel ->
  exists mem' i' lg',
    writei_loop fuel (Z.of_nat ip) 1 off n tot src (fstate mem ∅ lg ic) =
      Ok (off + (n - tot)) (fstate mem' ∅ lg' (<[ip := i']> ic)) /\
    file_step (write_at off (slice src (Z.to_nat tot) (Z.to_nat (n - tot)))) mem i mem' i' /\
    pot i' lg' <= pot i lg + touched off (n - tot) /\
    (forall p, off <= p < off + (n - tot) -> slot mem' i' (p / BSIZE) <> 0) /\
    (off + (n - tot) <= i_size i -> i' = i) /\
    avail mem i - missing mem i (off / BSIZE) (block_end off (n - tot)) <= avail mem' i'.
Proof.
  induction fuel as [|fuel IH]; intros mem lg ic ip i off n tot src L O Hi Hoff Htot Hmax Hsrc Hok
    Hpot Hsp Hfuel; [pose proof (touched_nonneg off (n - tot) Hoff); lia|].
  destruct (decide (tot = n)) as [->|Hne].
  { cbn [writei_loop]. destruct (Z.ltb_spec n n); [lia|]. rewrite Z.sub_diag. exists mem, i, lg.
    pose proof (touched_nonneg off 0 Hoff). pose proof (missing_nonneg mem i (off / BSIZE) (block_end off 0)).
    rewrite list_insert_id, Z.add_0_r by done. split_and!; try done; try lia.
    eapply file_step_ext; [|by apply file_step_refl]. intros p. by rewrite write_at_nil. }
  assert (tot < n) as Hlt by lia. pose proof (chunk_bounds n tot off Hlt) as [Hm _].
  pose proof (touched_step n tot off Hoff Hlt) as Htd. cbv zeta in Htd.
  pose proof (touched_nonneg (off + chunk n tot off) (n - (tot + chunk n tot off)) ltac:(lia)) as Htn.
  destruct (writei_loop_step fuel mem lg ic ip i off n tot src) as
    (mem1 & i1 & lg1 & E1 & St & Hs1 & Hp1 & Hsame & Hav); try done; try lia.
  { by apply space_first with n tot. }
  rewrite E1. pose proof (missing_step _ _ _ _ _ n tot off St Hoff Hlt Hmax) as Hms. cbv zeta in Hms.
  pose proof (chunk_block n tot off) as Hblk. set (m := chunk n tot off) in *.
  pose proof (missing_nonneg mem1 i1 ((off + m) / BSIZE) (block_end (off + m) (n - (tot + m)))) as Hm0.
  destruct (IH mem1 lg1 (<[ip := i1]> ic) ip i1 (off + m) n (tot + m) src)
    as (mem2 & i2 & lg2 & E2 & St2 & Hp2 & Hfull & Hsame2 & Hav2); try done; try lia.
  { by eapply ext_layout. }
  { by eapply ext_ok. }
  { apply list_lookup_insert_eq. by eapply lookup_lt_Some. }
  { unfold space in *. cbv zeta in *. case_decide; lia. }
  exists mem2, i2, lg2. rewrite E2, list_insert_insert_eq. split_and!; [f_equal; lia| |lia| | |case_decide; lia].
  - eapply file_step_ext; [|exact (file_step_trans _ _ _ _ _ _ _ _ _ _ St St2)]. intros p.
    replace (Z.to_nat (n - tot)) with (Z.to_nat m + Z.to_nat (n - (tot + m)))%nat by lia.
    rewrite slice_app, <- write_at_app, length_slice, Z2Nat.id, Z2Nat.inj_add by lia. done.
  - intros p Hp. destruct (decide (off + m <= p)); [apply Hfull; lia|]. rewrite Hblk by lia.
    assert (0 <= off / BSIZE <= MAXFILE).
    { split; [apply Z.div_pos; [lia|done]|]. apply Z.div_le_upper_bound; [done|lia]. }
    by rewrite (ext_slot _ _ _ _ _ _ _ St2).
  - intros Hin. assert (slot mem i (off / BSIZE) <> 0) as Hs.
    { pose proof (Z.div_mod off BSIZE ltac:(done)). pose proof (Z.mod_pos_bound off BSIZE ltac:(done)).
      pose proof (Z.div_pos off BSIZE Hoff ltac:(done)). apply (io_full _ _ _ _ O); lia. }
    rewrite Hsame2, Hsame; [done|done|]. rewrite Hsame by done. lia.
Qed.

(** ** [iupdate] *)

Lemma IBLOCK_range mem inum :
  layout mem -> 0 <= inum < sb_ninodes sb -> 2 <= IBLOCK inum < bitmap_block sb 0 /\
  (IBLOCK inum ∉ bitmaps sb) /\ bitmap_block sb 0 < data_start sb.
Proof.
  intros L Hi. pose proof (bitmap_block_range _ _ _ L 0 ltac:(pose proof (ly_size _ _ _ L); lia)).
  pose proof (Z.div_pos inum 8 ltac:(lia) ltac:(lia)).
  pose proof (Z.div_le_mono inum (sb_ninodes sb) 8 ltac:(lia) ltac:(lia)).
  assert (forall b, 0 <= b -> bitmap_block sb b = b / BPB + sb_ninodes sb / 8 + 3) as Hbb by done.
  assert (IBLOCK inum = inum / 8 + 2) as Ei by done.
  rewrite (Hbb 0) in * by lia. rewrite Z.div_0_l in * by done. rewrite Ei.
  split_and!; [lia..| |lia]. unfold bitmaps. rewrite elem_of_list_to_set, list_elem_of_fmap.
  intros (b & E & Hb%elem_of_upto). rewrite Hbb in E by lia.
  pose proof (Z.div_pos b BPB ltac:(lia) ltac:(done)). lia.
Qed.

Lemma used_insert_meta mem b d x :
  layout mem -> 0 <= x < sb_size sb -> b < bitmap_block sb 0 ->
  used sb (<[b := d]> mem) x = used sb mem x.
Proof.
  intros L Hx Hb. unfold used. rewrite lookup_total_insert_ne; [done|].
  unfold bitmap_block, BBLOCK in *. rewrite Z.div_0_l in Hb by done.
  pose proof (Z.div_pos x BPB ltac:(lia) ltac:(done)). lia.
Qed.

(** Overwriting an inode block. *)
Lemma layout_insert_meta mem b d :
  layout mem -> 2 <= b < bitmap_block sb 0 -> length d = Z.to_nat BSIZE -> bytes_ok d ->
  layout (<[b := d]> mem).
Proof.
  intros L Hb Hd Ho. pose proof (fun x Hx => used_insert_meta mem b d x L Hx ltac:(lia)) as Hus.
  destruct L as [? ? ? (ds & Hsb & Hs) Hdom Hlen Hby Hfr]. constructor; auto.
  - exists ds. rewrite lookup_insert_ne by lia. done.
  - intros x Hx. destruct (decide (b = x)) as [->|]; simplify_map_eq; eauto.
  - intros x y. destruct (decide (b = x)) as [->|]; simplify_map_eq; naive_solver.
  - intros x y. destruct (decide (b = x)) as [->|]; simplify_map_eq; naive_solver.
  - intros x Hx. rewrite Hus by done. auto.
Qed.

Lemma slot_insert_meta mem i b d k :
  layout mem -> inode_ok mem i -> b < data_start sb -> slot (<[b := d]> mem) i k = slot mem i k.
Proof.
  intros L O Hb. unfold slot. destruct (_ <? _); [done|]. destruct (_ =? MAXFILE); [done|].
  destruct (Z.eqb_spec (indirect i) 0); [done|]. rewrite lookup_total_insert_ne; [done|].
  destruct (io_slot _ _ _ _ O MAXFILE) as [Hr _]; [by rewrite MAXFILE_eq|done|].
  change (slot mem i MAXFILE) with (indirect i) in Hr. lia.
Qed.

Lemma inode_ok_meta mem i b d :
  layout mem -> inode_ok mem i -> b < bitmap_block sb 0 -> b < data_start sb ->
  inode_ok (<[b := d]> mem) i.
Proof.
  intros L O Hb Hb2. pose proof (fun k => slot_insert_meta mem i b d k L O Hb2) as Hsl.
  pose proof (layout_data_pos sb start mem L).
  destruct O as [? ? ? ? Hso ? ? ?]. constructor; auto; try (intros; rewrite !Hsl in *; auto).
  destruct (Hso k) as [? ?]; [done|done|]. split; [done|]. by rewrite used_insert_meta by (done || lia).
Qed.

Lemma byte_insert_meta mem i b d p :
  layout mem -> inode_ok mem i -> b < data_start sb -> 0 <= p < MAXFILE * BSIZE ->
  byte (<[b := d]> mem) i p = byte mem i p.
Proof.
  intros L O Hb Hp. unfold byte. rewrite slot_insert_meta by done.
  destruct (Z.eqb_spec (slot mem i (p / BSIZE)) 0); [done|].
  rewrite lookup_total_insert_ne; [done|].
  destruct (io_slot _ _ _ _ O (p / BSIZE)) as [Hr _]; [|done|lia].
  split; [apply Z.div_pos; [lia|done]|apply Z.div_le_upper_bound; [done|lia]].
Qed.

Lemma inode_dinode_ok mem i : layout mem -> inode_ok mem i -> dinode_ok (dinode_of i).
Proof.
  intros L O. pose proof (layout_data_pos sb start mem L). pose proof (ly_size _ _ _ L).
  destruct O as [? ? (?&?&?&?) Hlen Hso ? Hsz ?]. constructor; cbn; try done.
  - rewrite MAXFILE_eq in Hsz. unfold BSIZE in Hsz. lia.
  - apply Forall_lookup. intros k a Ha. pose proof (lookup_lt_Some _ _ _ Ha).
    destruct (decide (a = 0)) as [->|Hne]; [lia|].
    assert (exists j, 0 <= j <= MAXFILE /\ slot mem i j = a) as (j & Hj & Ej).
    { destruct (decide (k < 12)%nat).
      - exists (Z.of_nat k). rewrite MAXFILE_eq. split; [lia|]. unfold slot, NDIRECT.
        destruct (Z.ltb_spec (Z.of_nat k) 12); [|lia]. by rewrite Nat2Z.id, nth_lookup, Ha.
      - exists MAXFILE. split; [by rewrite MAXFILE_eq|]. replace k with 12%nat in Ha by lia.
        change (slot mem i MAXFILE) with (indirect i). unfold indirect. rewrite nth_lookup.
        change (Z.to_nat NDIRECT) with 12%nat. by rewrite Ha. }
    destruct (Hso j Hj) as [Hr _]; [congruence|]. rewrite Ej in Hr. lia.
Qed.

Definition updated mem i : gmap Z block :=
  <[IBLOCK (i_inum i) :=
    splice (mem !!! IBLOCK (i_inum i)) (dinode_off (i_inum i)) (dinode_bytes (dinode_of i))]> mem.

Lemma iupdate_run mem lg ic (ip : nat) i :
  layout mem -> inode_ok mem i -> ic !! ip = Some i -> Z.of_nat (size lg) < lim ->
  iupdate (Z.of_nat ip) (fstate mem ∅ lg ic) =
    Ok tt (fstate (updated mem i) ∅ ({[IBLOCK (i_inum i)]} ∪ lg) ic) /\
  layout (updated mem i) /\ inode_ok (updated mem i) i /\ synced (updated mem i) i /\
  (forall j, j <> i_inum i -> dinode_at (updated mem i !!! IBLOCK j) (dinode_off j) =
                              dinode_at (mem !!! IBLOCK j) (dinode_off j)).
Proof.
  intros L O Hi Hl. destruct (IBLOCK_range mem (i_inum i) L (io_inum _ _ _ _ O)) as (Hr & _ & Hd0).
  pose proof (ly_start _ _ _ L). destruct (layout_block _ _ _ L (IBLOCK (i_inum i)))
    as (d & Hd & Ed & Hlen & Hok); [lia|].
  pose proof (dinode_off_bound (i_inum i)). pose proof (io_addrs _ _ _ _ O) as Ha.
  pose proof (length_dinode_bytes (dinode_of i) Ha) as Hb.
  assert (length (splice d (dinode_off (i_inum i)) (dinode_bytes (dinode_of i))) = Z.to_nat BSIZE) as Hs
    by (rewrite length_splice; lia).
  unfold updated. rewrite Ed. split_and!.
  - unfold iupdate. erewrite bind_run; [|by apply get_inode_run]. rewrite (io_dev _ _ _ _ O).
    erewrite bind_run; [|apply bread_run; [lia|set_solver|done|rewrite size_empty; lia|done]].
    apply store_run_end; [set_solver|lia|done|done|done].
  - apply layout_insert_meta; [done|lia|done|]. apply bytes_ok_splice; [done|apply bytes_ok_dinode].
  - apply inode_ok_meta; [done|done|lia|lia].
  - unfold synced. rewrite lookup_total_insert_eq. apply dinode_roundtrip; [|lia].
    by eapply inode_dinode_ok.
  - intros j Hj. destruct (decide (IBLOCK (i_inum i) = IBLOCK j)) as [E|E].
    + rewrite <- E, lookup_total_insert_eq, Ed. apply dinode_at_other; [done|lia|].
      by apply dinode_off_apart.
    + by rewrite lookup_total_insert_ne.
Qed.

(** ** [writei] *)

(** What a write of [bytes] at [off] makes of the file [i]. *)
Record written mem i off bytes mem' i' : Prop := {
  wr_layout : layout mem';
  wr_ok : inode_ok mem' i';
  wr_inode : i' = set_addrs (i_addrs i') (set_size (Z.max (i_size i) (off + Z.of_nat (length bytes))) i);
  wr_contents : contents mem' i' =
    take (Z.to_nat off) (contents mem i) ++ bytes ++
    drop (Z.to_nat off + length bytes) (contents mem i);
  wr_synced : synced mem' i';
  wr_slot k : 0 <= k <= MAXFILE -> slot mem i k <> 0 -> slot mem' i' k = slot mem i k;
  wr_new k : 0 <= k <= MAXFILE -> slot mem' i' k <> 0 ->
    slot mem i k = slot mem' i' k \/ used sb mem (slot mem' i' k) = false;
  wr_used x : 0 <= x < sb_size sb -> used sb mem x = true -> used sb mem' x = true;
  wr_data x : data_start sb <= x < start -> used sb mem x = true ->
    (forall k, 0 <= k <= MAXFILE -> slot mem i k <> x) -> mem' !! x = mem !! x;
  wr_dinode j : 0 <= j < sb_ninodes sb -> j <> i_inum i ->
    dinode_at (mem' !!! IBLOCK j) (dinode_off j) = dinode_at (mem !!! IBLOCK j) (dinode_off j)
}.

(** The bytes of the file after a write that ends at or before position [e]. *)
Lemma contents_written mem i off bytes mem' i' :
  0 <= off <= i_size i ->
  i_size i' = Z.max (i_size i) (off + Z.of_nat (length bytes)) ->
  (forall p, 0 <= p < i_size i' -> byte mem' i' p = default (byte mem i p) (write_at off bytes p)) ->
  contents mem' i' = take (Z.to_nat off) (contents mem i) ++ bytes ++
    drop (Z.to_nat off + length bytes) (contents mem i).
Proof.
  intros Hoff Hsz Hb. apply list_eq. intros k. rewrite lookup_contents, Hsz.
  pose proof (length_file_contents mem i) as Hl.
  destruct (decide (k < Z.to_nat off)%nat).
  { rewrite lookup_app_l by (rewrite length_take; lia). rewrite lookup_take_lt, lookup_contents by done.
    rewrite !decide_True by lia. rewrite Hb by lia. unfold write_at.
    destruct (Z.leb_spec off (Z.of_nat k)); [lia|done]. }
  rewrite lookup_app_r by (rewrite length_take; lia). rewrite length_take, Hl.
  replace (k - Z.to_nat off `min` Z.to_nat (i_size i))%nat with (k - Z.to_nat off)%nat by lia.
  destruct (decide (k - Z.to_nat off < length bytes)%nat).
  - rewrite lookup_app_l by done. rewrite decide_True by lia. rewrite Hb by lia. unfold write_at.
    destruct (Z.leb_spec off (Z.of_nat k)); [|lia].
    destruct (Z.ltb_spec (Z.of_nat k) (off + Z.of_nat (length bytes))); [|lia]. cbn [andb].
    replace (Z.to_nat (Z.of_nat k - off)) with (k - Z.to_nat off)%nat by lia.
    destruct (lookup_lt_is_Some_2 bytes (k - Z.to_nat off)) as [c ->]; [done|]. done.
  - rewrite lookup_app_r by lia. rewrite lookup_drop, lookup_contents.
    replace (Z.to_nat off + length bytes + (k - Z.to_nat off - length bytes))%nat with k by lia.
    destruct (decide (Z.of_nat k < i_size i)).
    + rewrite decide_True by lia. rewrite Hb by lia. unfold write_at.
      destruct (Z.ltb_spec (Z.of_nat k) (off + Z.of_nat (length bytes))); [lia|].
      by rewrite andb_false_r.
    + rewrite decide_False by lia. done.
Qed.

Lemma synced_step w mem i mem' i' :
  file_step w mem i mem' i' -> layout mem -> inode_ok mem i -> forall j, 0 <= j < sb_ninodes sb ->
  mem' !!! IBLOCK j = mem !!! IBLOCK j.
Proof.
  intros St L O j Hj. destruct (IBLOCK_range mem j L Hj) as (H1 & H2 & H3).
  rewrite !lookup_total_alt. by rewrite (ext_meta _ _ _ _ _ _ _ St) by (done || lia).
Qed.

Lemma inode_ok_size mem i n :
  inode_ok mem i -> i_size i <= n <= MAXFILE * BSIZE ->
  (forall p, i_size i <= p < n -> slot mem i (p / BSIZE) <> 0) -> inode_ok mem (set_size n i).
Proof.
  intros [? ? ? ? Hso Hinj Hsz Hfull] Hn Hnew.
  constructor; auto; cbn [i_size set_size]; [lia|].
  intros k Hk Hlt. change (slot mem (set_size n i) k) with (slot mem i k).
  destruct (decide (k * BSIZE < i_size i)); [by apply Hfull|].
  pose proof (Hnew (k * BSIZE) ltac:(lia)) as H. rewrite Z.div_mul in H by done. exact H.
Qed.

Context (devsw : Z -> devops (fsys tdisk D)).

(** The write stays in the file. *)
Lemma written_inside mem i off bytes mem' :
  layout mem -> inode_ok mem i -> synced mem i -> 0 <= off <= i_size i ->
  off + Z.of_nat (length bytes) <= i_size i ->
  file_step (write_at off bytes) mem i mem' i -> written mem i off bytes mem' i.
Proof.
  intros L O Sy Hoff Hlen St. pose proof (io_size _ _ _ _ O). pose proof St as [? ? ? ? ? Hby ? ? ?]. constructor; auto.
  - destruct i; unfold set_size, set_addrs; cbn in *; f_equal; lia.
  - apply contents_written; [lia|lia|]. intros p Hp. apply Hby. lia.
  - unfold synced. rewrite (synced_step _ _ _ _ _ St L O) by apply O. done.
  - intros j Hj Hne. by rewrite (synced_step _ _ _ _ _ St L O).
Qed.

(** The write makes the file grow. *)
Lemma written_grow mem i off bytes mem1 i1 e :
  layout mem -> inode_ok mem i -> 0 <= off <= i_size i ->
  e = off + Z.of_nat (length bytes) -> i_size i < e <= MAXFILE * BSIZE ->
  file_step (write_at off bytes) mem i mem1 i1 ->
  inode_ok mem1 (set_size e i1) -> layout (updated mem1 (set_size e i1)) ->
  inode_ok (updated mem1 (set_size e i1)) (set_size e i1) ->
  synced (updated mem1 (set_size e i1)) (set_size e i1) ->
  (forall j, 0 <= j < sb_ninodes sb -> j <> i_inum i1 ->
    dinode_at (updated mem1 (set_size e i1) !!! IBLOCK j) (dinode_off j) =
    dinode_at (mem1 !!! IBLOCK j) (dinode_off j)) ->
  written mem i off bytes (updated mem1 (set_size e i1)) (set_size e i1).
Proof.
  intros L O Hoff -> Hsz St O2 L3 O3 Sy3 Hoth. set (i2 := set_size _ i1) in *.
  pose proof (ext_layout _ _ _ _ _ _ _ St) as L1. pose proof (ext_ok _ _ _ _ _ _ _ St) as O1.
  destruct (IBLOCK_range mem1 (i_inum i2) L1 (io_inum _ _ _ _ O2)) as (HI1 & HI2 & HI3).
  assert (forall k, slot (updated mem1 i2) i2 k = slot mem1 i1 k) as Hsl.
  { intros k. unfold updated. rewrite slot_insert_meta by (done || lia). done. }
  constructor; auto.
  - unfold i2. rewrite (ext_addrs _ _ _ _ _ _ _ St) at 1.
    replace (Z.max (i_size i) (off + Z.of_nat (length bytes))) with (off + Z.of_nat (length bytes)) by lia.
    done.
  - apply contents_written; [lia|cbn; lia|]. intros p Hp. cbn in Hp. unfold updated.
    rewrite byte_insert_meta by (done || lia).
    change (byte mem1 i2 p) with (byte mem1 i1 p). apply (ext_byte _ _ _ _ _ _ _ St). lia.
  - intros k. rewrite Hsl. apply (ext_slot _ _ _ _ _ _ _ St).
  - intros k. rewrite Hsl. apply (ext_new _ _ _ _ _ _ _ St).
  - intros x Hx Hu. unfold updated. rewrite used_insert_meta by (done || lia).
    by apply (ext_used _ _ _ _ _ _ _ St).
  - intros x Hx Hu Hns. unfold updated. rewrite lookup_insert_ne by lia.
    by apply (ext_data _ _ _ _ _ _ _ St).
  - intros j Hj Hne. rewrite Hoth; [by rewrite (synced_step _ _ _ _ _ St L O)|done|].
    by rewrite (ext_addrs _ _ _ _ _ _ _ St).
Qed.

Lemma avail_updated mem i n :
  layout mem -> inode_ok mem (set_size n i) ->
  avail (updated mem (set_size n i)) (set_size n i) = avail mem i.
Proof.
  intros L O. destruct (IBLOCK_range mem (i_inum (set_size n i)) L (io_inum _ _ _ _ O)) as (HI1 & HI2 & HI3).
  unfold FsFile.avail. change (indterm (set_size n i)) with (indterm i). do 3 f_equal.
  pose proof (ly_start _ _ _ L). apply set_eq. intros x. rewrite !elem_of_free_blocks. unfold updated.
  split; intros [Hx Hu]; (split; [done|]); revert Hu; rewrite used_insert_meta; by (done || lia).
Qed.

Lemma writei_run mem lg ic (ip : nat) i src off n :
  layout mem -> inode_ok mem i -> synced mem i -> ic !! ip = Some i -> i_type i <> T_DEV ->
  0 <= off <= i_size i -> 0 <= n <= Z.of_nat (length src) -> off + n <= MAXFILE * BSIZE ->
  bytes_ok src -> pot i lg + touched off n < lim -> space mem i off n ->
  exists mem' i' lg',
    writei devsw (Z.of_nat ip) src off n (fstate mem ∅ lg ic) =
      Ok n (fstate mem' ∅ lg' (<[ip := i']> ic)) /\
    written mem i off (take (Z.to_nat n) src) mem' i' /\ pot i' lg' <= pot i lg + touched off n /\
    avail mem i - missing mem i (off / BSIZE) (block_end off n) <= avail mem' i'.
Proof.
  intros L O Sy Hi Ht Hoff Hn Hmax Hok Hpot Hsp. unfold writei.
  erewrite bind_run; [|by apply get_inode_run]. destruct (Z.eqb_spec (i_type i) T_DEV); [done|].
  rewrite MAXFILE_eq in *. change BSIZE with 512 in Hmax. rewrite u32_small by lia.
  destruct (Z.ltb_spec (i_size i) off), (Z.ltb_spec (off + n) off); try lia. cbn [orb].
  destruct (Z.ltb_spec (140 * BSIZE) (off + n)); [unfold BSIZE in *; lia|].
  rewrite (io_dev _ _ _ _ O).
  destruct (writei_loop_run (blocks_fuel n) mem lg ic ip i off n 0 src)
    as (mem1 & i1 & lg1 & E & St & Hp & Hnew & Hsame & Hav);
    rewrite ?MAXFILE_eq, ?Z.sub_0_r; try done; try lia; [apply touched_fuel; lia|].
  rewrite Z.sub_0_r in *. erewrite bind_run; [|exact E].
  assert ((<[ip := i1]> ic) !! ip = Some i1) as Hi1
    by (apply list_lookup_insert_eq; by eapply lookup_lt_Some).
  erewrite bind_run; [|by apply get_inode_run].
  assert (i_size i1 = i_size i) as Esz by (rewrite (ext_addrs _ _ _ _ _ _ _ St); done).
  assert (Z.of_nat (length (take (Z.to_nat n) src)) = n) as Elen by (rewrite length_take; lia).
  change (slice src (Z.to_nat 0) (Z.to_nat n)) with (take (Z.to_nat n) src) in St. rewrite Esz.
  pose proof (ext_layout _ _ _ _ _ _ _ St) as L1. pose proof (ext_ok _ _ _ _ _ _ _ St) as O1.
  rewrite (s32_small n) by lia.
  destruct (decide (0 < n /\ i_size i < off + n)) as [[H0n Hgrow]|Hin].
  2:{ replace ((0 <? n) && (i_size i <? off + n))%bool with false by lia. cbn [when].
      rewrite Hsame in * by lia. exists mem1, i, lg1. split_and!; [done| |lia|lia].
      apply written_inside; auto; lia. }
  replace ((0 <? n) && (i_size i <? off + n))%bool with true by lia. cbn [when].
  set (i2 := set_size (off + n) i1).
  assert (inode_ok mem1 i2) as O2.
  { apply inode_ok_size; [done|rewrite Esz, MAXFILE_eq; unfold BSIZE; lia|]. intros p Hp'. apply Hnew. lia. }
  assert ((<[ip := i2]> (<[ip := i1]> ic)) !! ip = Some i2) as Hi2
    by (apply list_lookup_insert_eq; rewrite length_insert; by eapply lookup_lt_Some).
  assert (Z.of_nat (size lg1) < lim) as Hlg1 by (pose proof (pot_mono i1 lg1); lia).
  destruct (iupdate_run mem1 lg1 _ ip i2 L1 O2 Hi2 Hlg1) as (Eu & L3 & O3 & Sy3 & Hoth).
  exists (updated mem1 i2), i2, ({[IBLOCK (i_inum i2)]} ∪ lg1). split_and!.
  - erewrite bind_run; [reflexivity|]. erewrite bind_run; [|apply set_inode_run].
    rewrite Eu. by rewrite list_insert_insert_eq.
  - apply written_grow; auto; lia.
  - unfold FsFile.pot. change (indterm i2) with (indterm i1).
    assert (opset sb i2 ({[IBLOCK (i_inum i2)]} ∪ lg1) = opset sb i1 lg1) as ->
      by (unfold opset; cbn [i2 i_inum set_size]; set_solver).
    exact Hp.
  - unfold i2. by rewrite avail_updated.
Qed.

Lemma over_over {A} (c b1 b2 : list A) o :
  (o <= length c)%nat -> let c1 := take o c ++ b1 ++ drop (o + length b1) c in
  take (o + length b1) c1 ++ b2 ++ drop (o + length b1 + length b2) c1 =
  take o c ++ (b1 ++ b2) ++ drop (o + length (b1 ++ b2)) c.
Proof.
  intros Ho c1. assert (length (take o c ++ b1) = o + length b1)%nat as Hl
    by (rewrite length_app, length_take; lia).
  assert (c1 = (take o c ++ b1) ++ drop (o + length b1) c) as -> by by rewrite <- app_assoc.
  rewrite take_app_length' by done. rewrite drop_app_ge by lia. rewrite Hl, drop_drop, length_app.
  rewrite <- !app_assoc. do 4 f_equal. lia.
Qed.

(** Consecutive writes are one. *)
Lemma written_trans mem i off b1 mem1 i1 b2 mem2 i2 :
  0 <= off <= i_size i -> 4 <= data_start sb -> start <= sb_size sb ->
  written mem i off b1 mem1 i1 -> written mem1 i1 (off + Z.of_nat (length b1)) b2 mem2 i2 ->
  written mem i off (b1 ++ b2) mem2 i2.
Proof.
  intros Hoff Hds Hst [_ O1 E1 C1 _ S1 N1 U1 D1 I1] [L2 O2 E2 C2 Y2 S2 N2 U2 D2 I2].
  assert (length (contents mem i) = Z.to_nat (i_size i)) as Hcl by apply length_file_contents.
  constructor; auto.
  - rewrite E2, E1. cbn. rewrite length_app. unfold set_size, set_addrs; cbn. f_equal. lia.
  - rewrite C2, C1. rewrite Z2Nat.inj_add, Nat2Z.id by lia.
    rewrite over_over by lia. done.
  - intros k Hk Hs. rewrite S2; [by apply S1|done|]. by rewrite S1.
  - intros k Hk Hs. destruct (N2 k Hk Hs) as [E|Hu].
    + rewrite <- E in *. by apply N1.
    + destruct (used sb mem (slot mem2 i2 k)) eqn:Hu0; [|by right].
      destruct (io_slot _ _ _ _ O2 k Hk Hs). rewrite U1 in Hu; [done|lia|done].
  - intros x Hx Hu Hns. rewrite D2; [by apply D1|done|apply U1; [lia|done]|].
    intros k Hk E. destruct (N1 k Hk) as [E'|Hf]; [lia| |congruence]. apply (Hns k Hk). congruence.
  - intros j Hj Hne. rewrite I2; [by apply I1|done|]. by rewrite E1.
Qed.

End transfer.

(** ** [readi] *)

Section reading.
Context {D : Type} (out start sz : Z) (wk : list chan) (rest : D) (sb : superblock).
Context (devsw : Z -> devops (fsys tdisk D)).
Implicit Types (mem : gmap Z block) (held lg : gset Z) (ic : list inode) (i : inode).
Abbreviation fstate := (fstate out start sz wk rest).
Abbreviation lim := (loglim sz).
Abbreviation layout := (layout sb start).
Abbreviation inode_ok := (inode_ok sb start).


Definition bytes_from mem i off n : list Z := (fun k => byte mem i (off + k)) <$> upto n.

Lemma bytes_from_app mem i off m n :
  0 <= m -> 0 <= n -> bytes_from mem i off (m + n) = bytes_from mem i off m ++ bytes_from mem i (off + m) n.
Proof.
  intros Hm Hn. unfold bytes_from, upto. rewrite Z2Nat.inj_add, seq_app, !fmap_app by done. f_equal.
  apply list_eq. intros k. rewrite !list_lookup_fmap. destruct (decide (k < Z.to_nat n)%nat).
  - rewrite !lookup_seq_lt by done. cbn. do 2 f_equal. lia.
  - by rewrite !lookup_seq_ge by lia.
Qed.

Lemma block_bytes mem i off m d :
  0 <= off -> 0 <= m -> off mod BSIZE + m <= BSIZE -> slot mem i (off / BSIZE) <> 0 ->
  mem !!! slot mem i (off / BSIZE) = d -> length d = Z.to_nat BSIZE ->
  slice d (Z.to_nat (off mod BSIZE)) (Z.to_nat m) = bytes_from mem i off m.
Proof.
  intros Ho Hm Hfit Hs Hd Hlen. pose proof (Z.mod_pos_bound off BSIZE ltac:(done)) as Hb.
  pose proof (Z.div_mod off BSIZE ltac:(done)) as Hdm. apply list_eq. intros k.
  unfold bytes_from. rewrite list_lookup_fmap. destruct (decide (k < Z.to_nat m)%nat).
  - rewrite lookup_slice, lookup_upto_lt by lia. cbn. unfold byte.
    assert ((off + Z.of_nat k) / BSIZE = off / BSIZE) as ->.
    { symmetry. apply (Z.div_unique _ _ _ (off mod BSIZE + Z.of_nat k)); lia. }
    assert ((off + Z.of_nat k) mod BSIZE = off mod BSIZE + Z.of_nat k) as ->.
    { symmetry. apply (Z.mod_unique _ _ (off / BSIZE)); lia. }
    destruct (Z.eqb_spec (slot mem i (off / BSIZE)) 0); [done|]. rewrite Hd, nth_lookup.
    rewrite Z2Nat.inj_add, Nat2Z.id by lia.
    destruct (lookup_lt_is_Some_2 d (Z.to_nat (off mod BSIZE) + k)) as [c ->]; [lia|done].
  - rewrite (lookup_ge_None_2 (upto m)) by (rewrite length_upto; lia).
    apply lookup_ge_None. rewrite length_slice; lia.
Qed.

Lemma readi_loop_run (fuel : nat) : forall mem lg ic (ip : nat) i off n tot dst,
  layout mem -> inode_ok mem i -> ic !! ip = Some i -> Z.of_nat (size lg) < lim ->
  0 <= off -> 0 <= tot <= n -> off + (n - tot) <= i_size i ->
  touched off (n - tot) < Z.of_nat fuel ->
  readi_loop fuel (Z.of_nat ip) 1 off n tot dst (fstate mem ∅ lg ic) =
    Ok (dst ++ bytes_from mem i off (n - tot)) (fstate mem ∅ lg ic).
Proof.
  induction fuel as [|fuel IH]; intros mem lg ic ip i off n tot dst L O Hi Hl Hoff Htot Hin Hfuel;
    [pose proof (touched_nonneg off (n - tot) Hoff); lia|].
  cbn [readi_loop]. destruct (Z.ltb_spec tot n) as [Hlt|Hge].
  2:{ replace (n - tot) with 0 by lia. unfold bytes_from, upto. by rewrite app_nil_r. }
  pose proof (Z.mod_pos_bound off BSIZE ltac:(done)) as Hmod.
  pose proof (Z.div_mod off BSIZE ltac:(done)) as Hdm.
  pose proof (io_size _ _ _ _ O) as Hsz. rewrite MAXFILE_eq in Hsz.
  assert (0 <= off / BSIZE < MAXFILE) as Hk.
  { rewrite MAXFILE_eq. split; [apply Z.div_pos; [lia|done]|]. apply Z.div_lt_upper_bound; [done|lia]. }
  assert (slot mem i (off / BSIZE) <> 0) as Hs by (apply (io_full _ _ _ _ O); lia).
  erewrite bind_run; [|by apply (bmap_present out start sz wk rest sb mem lg ic ip i)].
  destruct (io_slot _ _ _ _ O (off / BSIZE)) as [Hr _]; [lia|done|].
  pose proof (layout_data_pos sb start mem L).
  destruct (layout_block _ _ _ L (slot mem i (off / BSIZE))) as (d & Hd & Ed & Hlen & _); [lia|].
  erewrite bind_run; [|apply bread_run; [lia|set_solver|done|rewrite size_empty; lia|done]].
  erewrite bind_run; [|by apply brelse_run; set_solver].
  pose proof (chunk_bounds n tot off Hlt) as [Hm Hfit]. pose proof (touched_step n tot off Hoff Hlt) as Htd.
  cbv zeta in Htd. set (m := chunk n tot off) in *. unfold BSIZE in *. rewrite u32_small by lia.
  rewrite (IH mem lg ic ip i) by (done || lia). f_equal. rewrite <- app_assoc. f_equal.
  replace (n - tot) with (m + (n - (tot + m))) by lia. rewrite bytes_from_app by lia. f_equal.
  by apply block_bytes; [lia|lia|..].
Qed.

Lemma slice_contents mem i off n :
  0 <= off -> 0 <= n -> off + n <= i_size i ->
  bytes_from mem i off n = slice (contents mem i) (Z.to_nat off) (Z.to_nat n).
Proof.
  intros Ho Hn Hsz. apply list_eq. intros k. unfold bytes_from. rewrite list_lookup_fmap.
  destruct (decide (k < Z.to_nat n)%nat).
  - rewrite lookup_upto_lt, lookup_slice, lookup_contents by lia. rewrite decide_True by lia.
    cbn. do 2 f_equal. lia.
  - rewrite (lookup_ge_None_2 (upto n)) by (rewrite length_upto; lia).
    symmetry. apply lookup_ge_None. unfold slice. rewrite length_take. lia.
Qed.

Lemma readi_run mem lg ic (ip : nat) i off n :
  layout mem -> inode_ok mem i -> ic !! ip = Some i -> i_type i <> T_DEV ->
  Z.of_nat (size lg) < lim -> 0 <= off <= i_size i -> 0 <= n < 2147483648 ->
  let n' := Z.min n (i_size i - off) in
  readi devsw (Z.of_nat ip) off n (fstate mem ∅ lg ic) =
    Ok (n', slice (contents mem i) (Z.to_nat off) (Z.to_nat n)) (fstate mem ∅ lg ic).
Proof.
  intros L O Hi Ht Hl Hoff Hn n'. pose proof (io_size _ _ _ _ O) as Hsz. rewrite MAXFILE_eq in Hsz.
  unfold readi. erewrite bind_run; [|by apply get_inode_run].
  destruct (Z.eqb_spec (i_type i) T_DEV); [done|]. unfold BSIZE in Hsz. rewrite u32_small by lia.
  destruct (Z.ltb_spec (i_size i) off), (Z.ltb_spec (off + n) off); try lia. cbn [orb].
  assert ((if i_size i <? off + n then i_size i - off else n) = n') as ->
    by (unfold n'; destruct (Z.ltb_spec (i_size i) (off + n)); lia).
  rewrite (io_dev _ _ _ _ O).
  erewrite bind_run; [|apply readi_loop_run; try done; try lia; rewrite Z.sub_0_r; apply touched_fuel; lia].
  rewrite Z.sub_0_r, app_nil_l, slice_contents by lia. rewrite s32_small by lia.
  unfold mret, M_ret. do 2 f_equal. unfold slice, n'.
  destruct (decide (n <= i_size i - off)); [by rewrite Z.min_l|]. rewrite Z.min_r by lia.
  rewrite !take_ge; [done|rewrite length_drop, length_file_contents; lia..].
Qed.

End reading.
