(* ===== verification/Mkfs.v ===== *)
(** mkfs.c: the program that makes the file system image.

    The image is a map from sectors to blocks; opening, seeking in and writing
    to the image file are taken to succeed.  The input files are arguments: their names
    (as on the command line) and their bytes.  A failed [assert] or a read past
    the end of the image ends the program ([Panic]).  The sizes are variables,
    as in the source; [main_xv6] has the values of the source. *)

From stdpp Require Import prelude strings gmap list.
From S2P Require Import Prelude Bytes Param BlockCache Log TxDisk Fs FsAlloc FsFile FsWrite Dir.

Record mkstate := MkState {
  mk_img : gmap Z block;
  mk_freeblock : Z;
  mk_usedblocks : Z;
  mk_freeinode : Z
}.

Definition assert (b : bool) : M mkstate unit := if b then mret tt else panic "assert".

(** [x] in intel byte order; the host is little-endian. *)
Definition xshort (x : Z) : Z := le_combine (le_split 2 x).
Definition xint (x : Z) : Z := le_combine (le_split 4 x).

Definition wsect (sec : Z) (buf : block) : M mkstate unit :=
  modify (fun s => MkState (<[sec := buf]> (mk_img s)) (mk_freeblock s) (mk_usedblocks s) (mk_freeinode s)).

Definition rsect (sec : Z) : M mkstate block := fun s =>
  match mk_img s !! sec with Some d => Ok d s | None => Panic "read" end.

Definition i2b (inum : Z) : Z := inum / IPB + 2.

Definition winode (inum : Z) (ip : dinode) : M mkstate unit :=
  let bn := i2b inum in
  buf ← rsect bn;
  wsect bn (splice buf (dinode_off inum) (dinode_bytes ip)).

Definition rinode (inum : Z) : M mkstate dinode :=
  buf ← rsect (i2b inum);
  mret (dinode_at buf (dinode_off inum)).

(** [freeblock++] with [usedblocks++]. *)
Definition take_block : M mkstate Z := fun s =>
  Ok (mk_freeblock s)
    (MkState (mk_img s) (u32 (mk_freeblock s + 1)) (u32 (mk_usedblocks s + 1)) (mk_freeinode s)).

Definition ialloc (type : Z) : M mkstate Z :=
  inum ← gets mk_freeinode;
  modify (fun s => MkState (mk_img s) (mk_freeblock s) (mk_usedblocks s) (u32 (mk_freeinode s + 1)));;
  winode inum (Dinode (xshort type) 0 0 (xshort 1) (xint 0) (replicate 13 0));;
  mret inum.

(** [for(i = 0; i < used; i++) buf[i/8] |= 1 << (i%8)] *)
Definition bitmap_upto (used : Z) : block :=
  foldl (fun buf i => bit_set buf i) (replicate 512 0) (upto used).

Definition set_addr (k x : Z) (din : dinode) : dinode :=
  Dinode (di_type din) (di_major din) (di_minor din) (di_nlink din) (di_size din)
    (<[Z.to_nat k := x]> (di_addrs din)).
Definition set_dsize (n : Z) (din : dinode) : dinode :=
  Dinode (di_type din) (di_major din) (di_minor din) (di_nlink din) n (di_addrs din).

(** The block of [din] that holds position [fbn * 512], allocating it. *)
Definition iappend_block (din : dinode) (fbn : Z) : M mkstate (dinode * Z) :=
  if fbn <? NDIRECT then
    din ← (if (di_addrs din).[fbn] =? 0 then b ← take_block; mret (set_addr fbn b din) else mret din);
    mret (din, (di_addrs din).[fbn])
  else
    din ← (if (di_addrs din).[NDIRECT] =? 0 then b ← take_block; mret (set_addr NDIRECT b din)
           else mret din);
    indirect ← rsect ((di_addrs din).[NDIRECT]);
    if get_word indirect (fbn - NDIRECT) =? 0 then
      b ← take_block;
      let indirect := set_word indirect (fbn - NDIRECT) b in
      wsect ((di_addrs din).[NDIRECT]) indirect;;
      mret (din, get_word indirect (fbn - NDIRECT))
    else mret (din, get_word indirect (fbn - NDIRECT)).

Fixpoint iappend_loop (fuel : nat) (din : dinode) (off n : Z) (p : list Z) : M mkstate (dinode * Z) :=
  match fuel with
  | O => fault "fuel"
  | S fuel =>
      if 0 <? n then
        let fbn := off / 512 in
        assert (fbn <? MAXFILE);;
        '(din, x) ← iappend_block din fbn;
        let n1 := Z.min n ((fbn + 1) * 512 - off) in
        buf ← rsect x;
        wsect x (splice buf (Z.to_nat (off - fbn * 512)) (take (Z.to_nat n1) p));;
        iappend_loop fuel din (off + n1) (n - n1) (drop (Z.to_nat n1) p)
      else mret (din, off)
  end.

Definition iappend (inum : Z) (p : list Z) : M mkstate unit :=
  let n := Z.of_nat (length p) in
  din ← rinode inum;
  '(din, off) ← iappend_loop (Z.to_nat (n / 512 + 3)) din (di_size din) n p;
  winode inum (set_dsize (xint off) din).

(** [read(fd, buf, sizeof(buf))] until the end of the file. *)
Fixpoint reads (fuel : nat) (l : list Z) : list (list Z) :=
  match fuel with
  | O => []
  | S fuel => match l with [] => [] | _ => take 512 l :: reads fuel (drop 512 l) end
  end.

Section main.
Context (nblocks nlog ninodes size : Z).

Definition balloc (used : Z) : M mkstate unit :=
  assert (used <? 512 * 8);;
  wsect (ninodes / IPB + 3) (bitmap_upto used).

Definition sb_block : block :=
  splice (replicate 512 0) 0
    (le_split 4 size ++ le_split 4 nblocks ++ le_split 4 ninodes ++ le_split 4 nlog).

Definition add_file (rootino : Z) (f : list Z * list Z) : M mkstate unit :=
  let '(name, bytes) := f in
  assert (negb (existsb (Z.eqb SLASH) name));;
  let name := match name with 95 :: name' => name' | _ => name end in
  inum ← ialloc T_FILE;
  iappend rootino (dirent_bytes inum name);;
  for_each (iappend inum) (reads (length bytes) bytes).

Definition main (files : list (list Z * list Z)) : M mkstate unit :=
  let bitblocks := size / (512 * 8) + 1 in
  let used := ninodes / IPB + 3 + bitblocks in
  modify (fun s => MkState (mk_img s) used used (mk_freeinode s));;
  assert (nblocks + used + nlog =? size);;
  for_each (fun i => wsect i (replicate 512 0)) (upto (nblocks + used + nlog));;
  wsect 1 sb_block;;
  rootino ← ialloc T_DIR;
  assert (rootino =? ROOTINO);;
  iappend rootino (dirent_bytes rootino [46]);;
  iappend rootino (dirent_bytes rootino [46; 46]);;
  for_each (add_file rootino) files;;
  din ← rinode rootino;
  winode rootino (set_dsize (xint ((di_size din / BSIZE + 1) * BSIZE)) din);;
  used ← gets mk_usedblocks;
  balloc used.

End main.

Definition mk0 : mkstate := MkState ∅ 0 0 1.

(** The sizes mkfs.c is built with. *)
Definition nblocks : Z := 995 - LOGSIZE.
Definition nlog : Z := LOGSIZE.
Definition ninodes : Z := 200.
Definition size : Z := 1024.
Definition main_xv6 := main nblocks nlog ninodes size.
