(* ===== verification/FsCheck.v ===== *)
(** Deciding the invariants of the file system on a concrete image, and the
    image mkfs.c makes of one small file. *)

From stdpp Require Import prelude strings gmap list.
From S2P Require Import Prelude Bytes Param BlockCache Log LogCrash BioSpec Bio BioOps TxDisk.
From S2P Require Import Fs Dir FsAlloc FsFile FsWrite Mkfs.

Definition block_b (d : block) : bool :=
  (length d =? Z.to_nat BSIZE)%nat && forallb (fun c => (0 <=? c) && (c <? 256)) d.

Definition sb_eqb (a b : superblock) : bool :=
  (sb_size a =? sb_size b) && (sb_nblocks a =? sb_nblocks b) && (sb_ninodes a =? sb_ninodes b) &&
  (sb_nlog a =? sb_nlog b).

Definition layout_b (sb : superblock) (start : Z) (mem : gmap Z block) : bool :=
  (0 <=? sb_ninodes sb) && (0 <? sb_size sb) && (sb_size sb <? 2147483648) &&
  (data_start sb <=? start) && (start <=? sb_size sb) &&
  sb_eqb (superblock_of (mem !!! 1)) sb && bool_decide (is_Some (mem !! 1)) &&
  forallb (fun b => bool_decide (is_Some (mem !! b))) (upto start) &&
  forallb (fun p => block_b p.2) (map_to_list mem) &&
  forallb (fun b => used sb mem b || (data_start sb <=? b)) (upto (sb_size sb)).

Lemma forallb_upto P n : forallb P (upto n) = true -> forall b, 0 <= b < n -> P b = true.
Proof. rewrite forallb_forall. intros H b Hb. apply H, list_elem_of_In, elem_of_upto, Hb. Qed.

Lemma block_b_sound d : block_b d = true -> length d = Z.to_nat BSIZE /\ bytes_ok d.
Proof.
  unfold block_b. rewrite andb_true_iff, Nat.eqb_eq, forallb_forall. intros [H1 H2].
  split; [done|]. apply Forall_forall. intros c Hc%list_elem_of_In%H2. lia.
Qed.

Lemma layout_b_sound sb start mem : layout_b sb start mem = true -> layout sb start mem.
Proof.
  unfold layout_b. rewrite !andb_true_iff. intros (((((((((H1 & H2) & H3) & H4) & H5) & H6) & H7) & H8) & H9) & H10).
  apply bool_decide_eq_true in H7 as [d Hd].
  assert (forall b x, mem !! b = Some x -> length x = Z.to_nat BSIZE /\ bytes_ok x) as Hbl.
  { intros b x Hx. rewrite forallb_forall in H9. apply block_b_sound.
    apply (H9 (b, x)). apply list_elem_of_In. by apply elem_of_map_to_list. }
  constructor; try lia.
  - exists d. split; [done|]. rewrite (lookup_total_correct _ _ _ Hd) in H6.
    unfold sb_eqb in H6. rewrite !andb_true_iff, !Z.eqb_eq in H6.
    destruct (superblock_of d), sb; simpl in *. destruct H6 as (((-> & ->) & ->) & ->). done.
  - intros b Hb. pose proof (forallb_upto _ _ H8 b Hb) as H. by apply bool_decide_eq_true in H.
  - intros b x Hx. by apply (Hbl b).
  - intros b x Hx. by apply (Hbl b).
  - intros b Hb Hu. pose proof (forallb_upto _ _ H10 b Hb) as H. cbv beta in H. rewrite Hu in H. simpl in H. lia.
Qed.

Definition s16_b (z : Z) : bool := (-32768 <=? z) && (z <? 32768).

Definition inode_b (sb : superblock) (start : Z) (mem : gmap Z block) (i : inode) : bool :=
  (i_dev i =? 1) && (0 <=? i_inum i) && (i_inum i <? sb_ninodes sb) &&
  s16_b (i_type i) && s16_b (i_major i) && s16_b (i_minor i) && s16_b (i_nlink i) &&
  (length (i_addrs i) =? 13)%nat && (0 <=? i_size i) && (i_size i <=? MAXFILE * BSIZE) &&
  forallb (fun k => let a := slot mem i k in
    (a =? 0) || ((data_start sb <=? a) && (a <? start) && used sb mem a)) (upto (MAXFILE + 1)) &&
  bool_decide (NoDup (filter (fun a => a <> 0) (slot mem i <$> upto (MAXFILE + 1)))) &&
  forallb (fun k => (i_size i <=? k * BSIZE) || negb (slot mem i k =? 0)) (upto MAXFILE).

Lemma nodup_filter_inj (f : Z -> Z) n :
  NoDup (filter (fun a => a <> 0) (f <$> upto n)) ->
  forall j k, 0 <= j < n -> 0 <= k < n -> f j <> 0 -> f j = f k -> j = k.
Proof.
  unfold upto. intros Hnd j k Hj Hk H0 E.
  enough (Z.to_nat j = Z.to_nat k) by lia.
  assert (forall l : list nat, NoDup l -> NoDup (filter (fun a => a <> 0) (f <$> (Z.of_nat <$> l))) ->
    forall x y, x ∈ l -> y ∈ l -> f (Z.of_nat x) <> 0 -> f (Z.of_nat x) = f (Z.of_nat y) -> x = y) as Hg.
  { clear. induction l as [|a l IH]; intros Hl Hnd x y Hx Hy Hx0 Hxy; [by apply elem_of_nil in Hx|].
    apply NoDup_cons in Hl as [Ha Hl]. cbn [fmap list_fmap] in Hnd.
    assert (forall z, z ∈ l -> f (Z.of_nat z) <> 0 -> f (Z.of_nat a) <> f (Z.of_nat z)) as Hdis.
    { intros z Hz Hz0 E. rewrite filter_cons_True in Hnd by congruence.
      apply NoDup_cons in Hnd as [Hnin _]. apply Hnin. apply list_elem_of_filter. split; [congruence|].
      rewrite E. apply list_elem_of_fmap. exists (Z.of_nat z). split; [done|].
      apply list_elem_of_fmap. eauto. }
    assert (NoDup (filter (fun a => a <> 0) (f <$> (Z.of_nat <$> l)))) as Hnd'.
    { destruct (decide (f (Z.of_nat a) <> 0)).
      - rewrite filter_cons_True in Hnd by done. by apply NoDup_cons in Hnd as [_ ?].
      - by rewrite filter_cons_False in Hnd by done. }
    apply elem_of_cons in Hx as [->|Hx], Hy as [->|Hy]; auto.
    - exfalso. apply (Hdis y Hy); congruence.
    - exfalso. apply (Hdis x Hx); congruence. }
  apply (Hg _ (NoDup_seq 0 _) Hnd); rewrite ?elem_of_seq, ?Z2Nat.id; try lia; congruence.
Qed.

Lemma inode_b_sound sb start mem i : inode_b sb start mem i = true -> inode_ok sb start mem i.
Proof.
  unfold inode_b, s16_b. rewrite !andb_true_iff, Nat.eqb_eq.
  intros ((((((((((((H1 & H2) & H3) & H4) & H5) & H6) & H7) & H8) & H9) & H10) & H11) & H12) & H13).
  apply bool_decide_eq_true in H12. rewrite MAXFILE_eq in *.
  constructor; rewrite ?MAXFILE_eq; try lia; try done.
  - intros k Hk Hs. pose proof (forallb_upto _ _ H11 k ltac:(lia)) as H. cbv beta zeta in H.
    destruct (Z.eqb_spec (slot mem i k) 0); [done|]. cbn [orb] in H.
    rewrite !andb_true_iff in H. split; [lia|]. tauto.
  - intros j k Hj Hk. apply (nodup_filter_inj _ _ H12); lia.
  - intros k Hk Hlt. assert (k < 140) by (unfold BSIZE in *; lia).
    pose proof (forallb_upto _ _ H13 k ltac:(lia)) as Hf. cbv beta in Hf. unfold BSIZE in *.
    destruct (Z.eqb_spec (slot mem i k) 0); [lia|done].
Qed.

(** ** An image *)

(** A file system of 48 blocks with the file "a" of 600 bytes. *)
Definition small_image : gmap Z block :=
  match main 12 31 8 48 [([95; 97], replicate 600 65)] mk0 with
  | Ok _ s => mk_img s
  | _ => ∅
  end.
Definition small_sb : superblock := Superblock 48 12 8 31.

Lemma small_layout : layout small_sb 17 small_image.
Proof. apply layout_b_sound. vm_compute. reflexivity. Qed.

(** The inode of "a" in the first entry of the cache. *)
Definition small_inode : inode :=
  let di := dinode_at (small_image !!! 2) (dinode_off 2) in
  load_dinode di (Inode 1 2 1 3 0 0 0 0 0 []).

Lemma small_inode_ok : inode_ok small_sb 17 small_image small_inode.
Proof. apply inode_b_sound. vm_compute. reflexivity. Qed.

Lemma small_synced : synced small_image small_inode.
Proof. vm_compute. reflexivity. Qed.

Definition small_icache : list inode := <[0%nat := small_inode]> iinit.
