(* ===== verification/FsThms.v ===== *)
(** Theorems about the file system: the allocator, writing and reading files
    through the log and the buffer cache, and refinement. *)

From stdpp Require Import prelude strings gmap list.
From S2P Require Import Prelude Bytes Param BlockCache Log LogCrash BioSpec Bio BioOps TxDisk CrashDisk.
From S2P Require Import Fs Dir FsSim FsAlloc FsFile FsWrite FsCheck.

#[local] Opaque binit small_image small_inode.

(** ** The allocator *)

(** C30: [balloc] is first fit: it returns the least block the bitmap calls
    free, zeroed, marks it and changes nothing else; [bfree] of that block
    succeeds and restores the bitmap; and when every block is in use [balloc]
    panics. *)
Theorem balloc_first_fit {D} out start sz wk (rest : D) sb mem lg ic :
  1 <= out -> layout sb start mem -> Z.of_nat (size (bitmaps sb ∪ lg)) + 1 < loglim sz ->
  (forall b, 0 <= b < start -> used sb mem b = false ->
    (forall x, 0 <= x < b -> used sb mem x = true) ->
    exists mem' lg' mem'' lg'',
      Fs.balloc 1 (fstate out start sz wk rest mem ∅ lg ic) =
        Ok b (fstate out start sz wk rest mem' ∅ lg' ic) /\
      layout sb start mem' /\ mem' !! b = Some zeros /\
      (forall x, 0 <= x < sb_size sb -> used sb mem' x = if decide (x = b) then true else used sb mem x) /\
      (forall x, x <> b -> x <> bitmap_block sb b -> mem' !! x = mem !! x) /\
      bfree 1 b (fstate out start sz wk rest mem' ∅ lg' ic) =
        Ok tt (fstate out start sz wk rest mem'' ∅ lg'' ic) /\
      (forall x, 0 <= x < sb_size sb -> used sb mem'' x = used sb mem x)) /\
  ((forall x, 0 <= x < sb_size sb -> used sb mem x = true) ->
    Fs.balloc 1 (fstate out start sz wk rest mem ∅ lg ic) = Panic "balloc: out of blocks").
Proof.
  intros Hout L Hl. split.
  - intros b Hb Hu Hfirst. pose proof (ly_start _ _ _ L).
    assert (layout sb start (allocated sb mem b)) as L' by by apply layout_allocated.
    assert (forall x, 0 <= x < sb_size sb ->
      used sb (allocated sb mem b) x = if decide (x = b) then true else used sb mem x) as Hus
      by (intros; by eapply used_allocated).
    exists (allocated sb mem b), ({[b]} ∪ ({[bitmap_block sb b]} ∪ lg)),
      (unmark sb (allocated sb mem b) b), ({[bitmap_block sb b]} ∪ ({[b]} ∪ ({[bitmap_block sb b]} ∪ lg))).
    split_and!; try done.
    + eapply balloc_run; [done|done|apply holds_empty|lia|done|done|done].
    + eapply allocated_get.
    + intros x H1 H2. by eapply allocated_other.
    + erewrite bfree_run; [|done|exact L'|apply holds_empty| |lia].
      * rewrite Hus by lia. by rewrite decide_True.
      * pose proof (elem_of_bitmaps sb b ltac:(lia)). eapply Z.le_lt_trans; [|exact Hl].
        apply (pot_le _ _ b). set_solver.
    + intros x Hx. rewrite (used_unmark sb start _ L') by lia. rewrite Hus by done. case_decide; naive_solver.
  - intros Hall. eapply balloc_none; [exact L|apply holds_empty| |done]. eapply (size_lt _ (bitmaps sb)). lia.
Qed.

Lemma balloc_first_fit_witness :
  exists mem' lg',
    Fs.balloc 1 (fstate 1 17 31 [] tt small_image ∅ ∅ iinit) =
      Ok 8 (fstate 1 17 31 [] tt mem' ∅ lg' iinit) /\ mem' !! 8 = Some zeros.
Proof.
  destruct (balloc_first_fit 1 17 31 [] tt small_sb small_image ∅ iinit ltac:(lia) small_layout)
    as [H _]; [vm_compute; reflexivity|].
  destruct (H 8) as (mem' & lg' & _ & _ & H1 & _ & H2 & _); [lia|vm_compute; reflexivity| |].
  - intros x Hx. assert (x ∈ upto 8) as Hin by by apply elem_of_upto.
    assert (Forall (fun x => used small_sb small_image x = true) (upto 8)) as Hf
      by (repeat constructor; vm_compute; reflexivity).
    rewrite Forall_forall in Hf. by apply Hf.
  - exists mem', lg'. split; [exact H1|exact H2].
Defined.

(** ** Mounting *)

(** A disk with a file system and an empty log. *)
Record formatted (sb : superblock) (start : Z) (d : gmap Z block) : Prop := {
  fm_layout : layout sb start d;
  fm_start : sb_size sb - sb_nlog sb = start;
  fm_nlog : 1 <= sb_nlog sb;
  fm_region b : start <= b < start + sb_nlog sb -> is_Some (d !! b);
  fm_head : get_word (d !!! start) 0 = 0
}.

Lemma mount_rep sb start d :
  formatted sb start d ->
  exists s : lstate bcache, initlog (LState log0 (binit d) []) = Ok tt s /\
    disk_rep s (TDisk d ∅ ∅ ∅ 0 start (sb_nlog sb)).
Proof.
  intros [L Es Hn Hr Hh]. pose proof (ly_size _ _ _ L). pose proof (layout_data_pos sb start d L).
  set (l := Log start (sb_nlog sb) 0 0 ROOTDEV 0 (replicate (Z.to_nat LOGSIZE) 0)).
  assert (log_disk l d (d !!! start)) as LD.
  { pose proof (ly_start _ _ _ L). constructor; cbn [l lg_start lg_size lh_n lh_sector]; try lia; try done.
    - constructor; cbn -[LOGSIZE NBUF]; unfold LOGSIZE, NBUF, MAXOPBLOCKS; try lia; done.
    - apply lookup_lookup_total, Hr. lia.
    - apply L.
    - destruct (ly_sb _ _ _ L) as (x & Hx & <-). eauto. }
  apply committed_mount. exists d. split; [|done]. exists l, (d !!! start). split_and!; [done..|].
  apply (log_disk_cleared l d _ LD eq_refl).
Qed.

Lemma mount_fs {D} sb start d ic (rest : D) :
  formatted sb start d ->
  exists s : lstate bcache, initlog (LState log0 (binit d) []) = Ok tt s /\
    fs_rep (FSys s ic [] rest) (fstate 0 start (sb_nlog sb) [] rest d ∅ ∅ ic).
Proof.
  intros H. destruct (mount_rep sb start d H) as (s & E & R). exists s.
  split; [exact E|]. split; [exact R|]. split_and!; reflexivity.
Qed.

Lemma small_formatted : formatted small_sb 17 small_image.
Proof.
  constructor; [apply small_layout|done|cbn; lia| |vm_compute; reflexivity].
  intros b Hb. assert (forallb (fun b => bool_decide (is_Some (small_image !! b))) (upto 48) = true) as Hf
    by (vm_compute; reflexivity).
  pose proof (forallb_upto _ _ Hf b ltac:(cbn in Hb; lia)) as H.
  cbv beta in H. exact (bool_decide_eq_true_1 _ H).
Qed.

(** ** Writing a file through the log *)

(** One transaction of filewrite. *)
Definition write_op {T D} `{Disk T} (devsw : Z -> devops (fsys T D)) (ip : Z) (src : list Z)
    (off n : Z) : M (fsys T D) Z :=
  dio d_begin_op;;
  r ← writei devsw ip src off n;
  dio d_end_op;;
  mret r.

Section write_op.
Context {D : Type} (start sz : Z) (wk : list chan) (rest : D) (sb : superblock).
Context (mem : gmap Z block) (ic : list inode) (ip : nat) (i : inode) (src : list Z) (off n : Z).

(** A file that can be written at [off], with no operation in progress. *)
Record writable : Prop := {
  wa_layout : layout sb start mem;
  wa_inode : inode_ok sb start mem i;
  wa_synced : synced mem i;
  wa_ip : ic !! ip = Some i;
  wa_type : i_type i <> T_DEV;
  wa_off : 0 <= off <= i_size i;
  wa_n : 0 <= n <= Z.of_nat (length src);
  wa_max : off + n <= MAXFILE * BSIZE;
  wa_src : bytes_ok src;
  wa_log : pot sb i ∅ + touched off n < loglim sz;
  wa_space : space start sb mem i off n
}.

Lemma write_op_run (devsw : Z -> devops (fsys tdisk D)) :
  writable -> exists mem' i',
    write_op devsw (Z.of_nat ip) src off n (fstate 0 start sz wk rest mem ∅ ∅ ic) =
      Ok n (fstate 0 start sz wk rest mem' ∅ ∅ (<[ip := i']> ic)) /\
    written start sb mem i off (take (Z.to_nat n) src) mem' i'.
Proof.
  intros []. destruct (writei_run 1 start sz wk rest sb ltac:(lia) devsw mem ∅ ic ip i src off n)
    as (mem' & i' & lg' & E & W & _); [done..|].
  exists mem', i'. split; [|done]. unfold write_op.
  erewrite bind_run; [|reflexivity].
  change (FSys _ _ _ _) with (fstate 1 start sz wk rest mem ∅ ∅ ic).
  erewrite bind_run; [|exact E]. done.
Qed.

Lemma write_op_sim {T} `{DiskSpec T tdisk} devsw devsw' :
  (forall major, dev_sim (devsw major) (devsw' major)) ->
  msim fs_rep (write_op (T:=T) (D:=D) devsw (Z.of_nat ip) src off n)
    (write_op (T:=tdisk) devsw' (Z.of_nat ip) src off n).
Proof.
  intros Hd. unfold write_op. fs_sim. by apply writei_sim.
Qed.
End write_op.

(** The disk of memide.c between operations: the logical contents. *)
Lemma fs_rep_disk {D} (s : fsys (lstate bcache) D) start sz wk rest mem ic b :
  fs_rep s (fstate 0 start sz wk rest mem ∅ ∅ ic) -> b < start ->
  memdisk (ls_cache (fs_disk s)) !! b = mem !! b.
Proof.
  intros ((a & (_ & _ & Hc) & Ht) & _) Hb. cbn [fs_disk fstate] in Ht.
  rewrite (br_disk _ _ Hc), <- (tx_clean _ _ Ht b) by (cbn; set_solver). by apply (tx_mem _ _ Ht).
Qed.

(** C3: a write is atomic, durable and does what it says.  On the real stack
    (fs.c over log.c over bio.c over memide.c), for a regular file, an offset
    inside it and a source buffer, one transaction [begin_op; writei; end_op]
    returns the number of bytes, makes the file exactly the old bytes with the
    new ones in place (growing it when they end after it), leaves every other
    file's blocks and inodes alone, keeps the invariants, and leaves all of it
    on the disk, provided the log has room and the disk space. *)
Theorem write_durable {D} devsw devsw' (s : fsys (lstate bcache) D) start sz wk rest sb mem ic
    (ip : nat) i src off n :
  (forall major, dev_sim (devsw major) (devsw' major)) ->
  fs_rep s (fstate 0 start sz wk rest mem ∅ ∅ ic) ->
  writable start sz sb mem ic ip i src off n ->
  exists s' mem' i',
    write_op devsw (Z.of_nat ip) src off n s = Ok n s' /\
    written start sb mem i off (take (Z.to_nat n) src) mem' i' /\
    fs_icache s' = <[ip := i']> ic /\
    (forall b, b < start -> memdisk (ls_cache (fs_disk s')) !! b = mem' !! b) /\
    fs_rep s' (fstate 0 start sz wk rest mem' ∅ ∅ (<[ip := i']> ic)).
Proof.
  intros Hd Hr W. destruct (write_op_run start sz wk rest sb mem ic ip i src off n devsw' W)
    as (mem' & i' & E & Hw).
  destruct (msim_Ok _ _ _ _ _ _ _ (write_op_sim ip src off n devsw devsw' Hd) Hr E) as (s' & Es & Rs).
  exists s', mem', i'. split_and!; [done|done| | |done].
  - destruct Rs as (_ & Hi & _). exact Hi.
  - intros b Hb. by eapply fs_rep_disk.
Qed.

Definition no_devs {S} : Z -> devops S := fun _ => DevOps None None None None.

Lemma no_devs_sim {T D} `{DiskSpec T tdisk} major :
  dev_sim (D:=D) (@no_devs (fsys T D) major) (@no_devs (fsys tdisk D) major).
Proof. by constructor. Qed.

(** Three bytes over the end of the 600-byte file of the small image. *)
Lemma small_writable : writable 17 31 small_sb small_image small_icache 0 small_inode [1; 2; 3] 599 3.
Proof.
  assert (i_size small_inode = 600 /\ i_type small_inode = T_FILE) as [Es Et]
    by (vm_compute; split; reflexivity).
  constructor; [exact small_layout|exact small_inode_ok|exact small_synced|reflexivity
    |rewrite Et; discriminate|rewrite Es; lia|cbn; lia|rewrite MAXFILE_eq; unfold BSIZE; lia
    |repeat constructor; lia|apply Z.ltb_lt; vm_compute; reflexivity|].
  right. apply Z.leb_le. vm_compute. reflexivity.
Qed.

Lemma write_durable_witness :
  exists (s s' : fsys (lstate bcache) unit),
    write_op no_devs 0 [1; 2; 3] 599 3 s = Ok 3 s' /\
    exists mem' i', contents mem' i' = replicate 599 65 ++ [1; 2; 3].
Proof.
  destruct (mount_fs small_sb 17 small_image small_icache tt small_formatted) as (s0 & _ & R).
  destruct (write_durable no_devs no_devs _ _ _ _ _ _ _ _ 0%nat _ _ _ _ no_devs_sim R small_writable)
    as (s' & mem' & i' & E & W & _).
  exists (FSys s0 small_icache [] tt), s'. split; [exact E|]. exists mem', i'.
  rewrite (wr_contents _ _ _ _ _ _ _ _ W). vm_compute. reflexivity.
Defined.

(** C29: what is written is what is read.  After the transaction of [write_durable], [readi]
    at the same offset returns the bytes written; and a read of any range of a
    well-formed file returns that range of its contents, cut at the end of the
    file, and changes nothing but the cache. *)
Theorem write_read {D} devsw devsw' (s : fsys (lstate bcache) D) start sz wk rest sb mem ic
    (ip : nat) i src off n :
  (forall major, dev_sim (devsw major) (devsw' major)) ->
  fs_rep s (fstate 0 start sz wk rest mem ∅ ∅ ic) ->
  writable start sz sb mem ic ip i src off n ->
  (exists s', (write_op devsw (Z.of_nat ip) src off n;; readi devsw (Z.of_nat ip) off n) s =
     Ok (n, take (Z.to_nat n) src) s') /\
  (forall o m, 0 <= o <= i_size i -> 0 <= m < 2147483648 ->
     exists s', readi devsw (Z.of_nat ip) o m s =
         Ok (Z.min m (i_size i - o), slice (contents mem i) (Z.to_nat o) (Z.to_nat m)) s' /\
       fs_rep s' (fstate 0 start sz wk rest mem ∅ ∅ ic)).
Proof.
  intros Hd Hr W. pose proof (wa_log _ _ _ _ _ _ _ _ _ _ W) as Hlog. pose proof W as [HL HO _ Hip Htype Hoff Hn Hmax _ _ _].
  assert (Z.of_nat (size (∅ : gset Z)) < loglim sz) as Hl.
  { pose proof (pot_mono sb i ∅). pose proof (touched_nonneg off n ltac:(lia)). lia. }
  split.
  - destruct (write_op_run start sz wk rest sb mem ic ip i src off n devsw' W) as (mem' & i' & E & Hw).
    destruct Hw as [L' O' Ei Hc _ _ _]. rewrite MAXFILE_eq in *. unfold BSIZE in *.
    assert (i_type i' = i_type i /\ i_size i' = Z.max (i_size i) (off + n)) as [Et Esz].
    { rewrite Ei. cbn. rewrite length_take. split; [done|lia]. }
    pose proof (readi_run 0 start sz wk rest sb devsw' mem' ∅ (<[ip := i']> ic) ip i' off n L' O')
      as Er. cbv zeta in Er. rewrite Et, Esz in Er.
    specialize (Er ltac:(apply list_lookup_insert_eq; by eapply lookup_lt_Some) Htype Hl
      ltac:(lia) ltac:(lia)). replace (Z.min n (Z.max (i_size i) (off + n) - off)) with n in Er by lia.
    assert (msim fs_rep (write_op devsw (Z.of_nat ip) src off n;; readi devsw (Z.of_nat ip) off n)
      (write_op devsw' (Z.of_nat ip) src off n;; readi devsw' (Z.of_nat ip) off n)) as Hm
      by (apply msim_bind; [by apply write_op_sim|intros _; by apply readi_sim]).
    rewrite <- (bind_run _ (fun _ => readi devsw' (Z.of_nat ip) off n) _ _ _ E) in Er.
    destruct (msim_Ok _ _ _ _ _ _ _ Hm Hr Er) as (s' & Es & _).
    exists s'. rewrite Es. do 2 f_equal. rewrite Hc. unfold slice.
    rewrite drop_app_length' by (rewrite length_take, length_file_contents; lia).
    rewrite take_app_length' by (rewrite length_take; lia). done.
  - intros o m Ho Hm. pose proof (readi_run 0 start sz wk rest sb devsw' mem ∅ ic ip i o m) as Er.
    destruct (msim_Ok _ _ _ _ _ _ _ (readi_sim devsw devsw' Hd (Z.of_nat ip) o m) Hr
      (Er HL HO Hip Htype Hl Ho Hm)) as (s' & Es & Rs). eauto.
Qed.

Lemma write_read_witness :
  exists (s s' : fsys (lstate bcache) unit),
    (write_op no_devs 0 [1; 2; 3] 599 3;; readi no_devs 0 599 3) s = Ok (3, [1; 2; 3]) s'.
Proof.
  destruct (mount_fs small_sb 17 small_image small_icache tt small_formatted) as (s0 & _ & R).
  destruct (write_read no_devs no_devs _ _ _ _ _ _ _ _ 0%nat _ _ _ _ no_devs_sim R small_writable)
    as [(s' & E) _].
  exists (FSys s0 small_icache [] tt), s'. exact E.
Defined.

(** ** Refinement *)

(** Calls into fs.c, with the inodes, offsets and names they are given. *)
Inductive fsop :=
| OpBegin | OpEnd
| OpIalloc (type : Z) | OpIget (inum : Z) | OpIdup (ip : Z) | OpIlock (ip : Z) | OpIunlock (ip : Z)
| OpIput (ip : Z) | OpIupdate (ip : Z) | OpReadi (ip off n : Z) | OpWritei (ip : Z) (src : list Z) (off n : Z)
| OpDirlookup (dp : Z) (name : list Z) | OpDirlink (dp : Z) (name : list Z) (inum : Z)
| OpNamei (cwd : Z) (path : list Z) | OpNameiparent (cwd : Z) (path : list Z).

(** The values a call returns. *)
Definition run_fsop {T D} `{Disk T} (devsw : Z -> devops (fsys T D)) (o : fsop) : M (fsys T D) (list Z) :=
  match o with
  | OpBegin => dio d_begin_op;; mret []
  | OpEnd => dio d_end_op;; mret []
  | OpIalloc type => ip ← ialloc ROOTDEV type; mret [ip]
  | OpIget inum => ip ← iget ROOTDEV inum; mret [ip]
  | OpIdup ip => ip ← idup ip; mret [ip]
  | OpIlock ip => ilock (Some ip);; mret []
  | OpIunlock ip => iunlock (Some ip);; mret []
  | OpIput ip => iput ip;; mret []
  | OpIupdate ip => iupdate ip;; mret []
  | OpReadi ip off n => '(r, bytes) ← readi devsw ip off n; mret (r :: bytes)
  | OpWritei ip src off n => r ← writei devsw ip src off n; mret [r]
  | OpDirlookup dp name =>
      r ← dirlookup devsw dp name;
      mret (match r with Some (ip, off) => [ip; off] | None => [] end)
  | OpDirlink dp name inum => r ← dirlink devsw dp name inum; mret [r]
  | OpNamei cwd path => r ← namei devsw cwd path; mret (match r with Some ip => [ip] | None => [] end)
  | OpNameiparent cwd path =>
      '(r, name) ← nameiparent devsw cwd path name0;
      mret (match r with Some ip => ip :: name | None => [] end)
  end.

Fixpoint run_fsops {T D} `{Disk T} (devsw : Z -> devops (fsys T D)) (os : list fsop)
    : M (fsys T D) (list (list Z)) :=
  match os with
  | [] => mret []
  | o :: os => r ← run_fsop devsw o; rs ← run_fsops devsw os; mret (r :: rs)
  end.

Lemma run_fsops_sim {T D} `{DiskSpec T tdisk} (devsw : Z -> devops (fsys T D)) devsw' os :
  (forall major, dev_sim (devsw major) (devsw' major)) ->
  msim fs_rep (run_fsops devsw os) (run_fsops devsw' os).
Proof.
  intros Hd. pose proof (readi_sim devsw devsw' Hd). pose proof (writei_sim devsw devsw' Hd).
  pose proof (dirlookup_sim devsw devsw' Hd). pose proof (dirlink_sim devsw devsw' Hd).
  pose proof (namex_sim devsw devsw' Hd). pose proof (ialloc_sim (T:=T) (D:=D)).
  pose proof (iget_sim (T:=T) (D:=D)). pose proof (idup_sim (T:=T) (D:=D)).
  pose proof (ilock_sim (T:=T) (D:=D)). pose proof (iunlock_sim (T:=T) (D:=D)).
  pose proof (iput_sim (T:=T) (D:=D)). pose proof (iupdate_sim (T:=T) (D:=D)).
  induction os as [|o os IH]; cbn [run_fsops]; [auto with msim|].
  apply msim_bind; [|intros r; apply msim_bind; auto with msim].
  destruct o; cbn [run_fsop]; unfold namei, nameiparent; fs_sim.
Qed.

(** C4: the file system over the real log, cache and disk refines the file
    system over the abstract disk.  Booted on any formatted disk, [initlog]
    succeeds, and then every sequence of calls into fs.c, in and out of
    transactions, returns the same values, panics with the same message or
    blocks, as over a map from sectors to blocks, and leaves states that stay
    related, until the abstract run faults. *)
Theorem fs_refines {D} (devsw : Z -> devops (fsys (lstate bcache) D)) devsw' (rest : D) sb start d os :
  (forall major, dev_sim (devsw major) (devsw' major)) -> formatted sb start d ->
  exists s : lstate bcache, initlog (LState log0 (binit d) []) = Ok tt s /\
    rsim fs_rep (run_fsops devsw os (FSys s iinit [] rest))
      (run_fsops devsw' os (FSys (TDisk d ∅ ∅ ∅ 0 start (sb_nlog sb)) iinit [] rest)).
Proof.
  intros Hd Hf. destruct (mount_fs sb start d iinit rest Hf) as (s & E & R). exists s.
  split; [exact E|]. exact (run_fsops_sim devsw devsw' os Hd _ _ R).
Qed.

(** Path lookup of "/a", a read and a write, in one transaction. *)
Definition small_ops : list fsop :=
  [OpBegin; OpNamei 0 [SLASH; 97]; OpIlock 1; OpReadi 1 598 10; OpWritei 1 [1; 2; 3] 599 3;
   OpIunlock 1; OpEnd; OpReadi 1 598 10].

Lemma fs_refines_witness :
  exists (s : lstate bcache) s',
    run_fsops no_devs small_ops (FSys s iinit [] tt) =
      Ok [[]; [1]; []; [2; 65; 65]; [3]; []; []; [4; 65; 1; 2; 3]] s'.
Proof.
  destruct (fs_refines no_devs no_devs tt small_sb 17 small_image small_ops no_devs_sim small_formatted)
    as (s & _ & R).
  exists s. revert R. set (r := run_fsops no_devs small_ops (FSys s iinit [] tt)).
  assert (match run_fsops (T:=tdisk) no_devs small_ops
    (FSys (TDisk small_image ∅ ∅ ∅ 0 17 (sb_nlog small_sb)) iinit [] tt) with
    | Ok v _ => v = [[]; [1]; []; [2; 65; 65]; [3]; []; []; [4; 65; 1; 2; 3]] | _ => False end) as E
    by (vm_compute; reflexivity).
  destruct (run_fsops (T:=tdisk) _ _ _) as [v t| | |]; [|done..]. subst v.
  destruct r as [v s'| | |]; simpl; [|done..]. intros [-> _]. eauto.
Defined.
