(* ===== verification/MkfsThms.v ===== *)
(** Theorems about mkfs.c and the kernel's [balloc]: the bitmap mkfs leaves, and
    what the allocator does on such an image when the data blocks are used up. *)

From stdpp Require Import prelude strings gmap list.
From S2P Require Import Mkfs Prelude Bytes Param BlockCache Log LogCrash LogOps.
From S2P Require Import TxDisk Fs FsAlloc FsFile.

(** The bits of a bitmap whose first blocks are marked. *)
Lemma bitmap_upto_spec (k : nat) b :
  Z.of_nat k <= 4096 -> 0 <= b < 4096 ->
  length (bitmap_upto (Z.of_nat k)) = Z.to_nat BSIZE /\
  bit_clear (bitmap_upto (Z.of_nat k)) b = negb (b <? Z.of_nat k).
Proof.
  intros Hk Hb. unfold bitmap_upto. induction k as [|k IH].
  - split; [apply length_replicate|]. change (upto (Z.of_nat 0)) with (@nil Z). cbn [foldl].
    destruct (Z.ltb_spec b (Z.of_nat 0)); [lia|]. rewrite bit_clear_testbit, nth_lookup.
    destruct (replicate 512 0 !! _) as [x|] eqn:E; [apply lookup_replicate in E as [-> _]|];
      cbn; by rewrite Z.testbit_0_l.
  - rewrite upto_S, foldl_app. cbn [foldl]. destruct IH as [Hl IH]; [lia|].
    split; [by rewrite length_bit_set|]. rewrite bit_clear_set, IH; [|done|unfold BPB, BSIZE; lia|lia].
    destruct (decide (Z.of_nat k = b)); destruct (Z.ltb_spec b (Z.of_nat k)), (Z.ltb_spec b (Z.of_nat (S k)));
      try lia; done.
Qed.

Lemma bitmap_upto_clear u b :
  u <= 4096 -> 0 <= b < 4096 -> bit_clear (bitmap_upto u) b = negb (b <? u).
Proof.
  intros Hu Hb. destruct (bitmap_upto_spec (Z.to_nat u) b) as [_ H]; [lia|done|].
  replace (bitmap_upto u) with (bitmap_upto (Z.of_nat (Z.to_nat u))) by (unfold bitmap_upto, upto; by rewrite Nat2Z.id).
  rewrite H. destruct (Z.ltb_spec b u), (Z.ltb_spec b (Z.of_nat (Z.to_nat u))); lia || done.
Qed.

(** The bitmap that [main] of mkfs.c leaves: the first [usedblocks] blocks are
    marked. *)
Lemma mkfs_bitmap files s :
  main_xv6 files mk0 = Ok tt s ->
  mk_img s !! BBLOCK 0 Mkfs.ninodes = Some (bitmap_upto (mk_usedblocks s)) /\ mk_usedblocks s < 4096.
Proof.
  unfold main_xv6, main. cbv zeta. intros E.
  repeat match type of E with
  | (gets mk_usedblocks ≫= _) _ = _ => fail 1
  | (_ ≫= _) _ = _ => apply bind_Ok in E as (? & ? & _ & E)
  end.
  apply bind_Ok in E as (u & s1 & Eu & E). injection Eu as Eu <-. unfold Mkfs.balloc in E.
  apply bind_Ok in E as ([] & s2 & Ea & E). unfold assert in Ea.
  destruct (Z.ltb_spec u (512 * 8)); [|done]. injection Ea as <-. injection E as <-. subst u.
  cbn [mk_img mk_usedblocks]. split; [apply lookup_insert_eq|done].
Qed.

Section takes_log.
Context {D : Type} (l : log) (disk : gmap Z block) (ws : list (Z * block)) (wk wk' : list chan).
Context (ic : list inode) (rest : D).

(** The file system on the log over the abstract cache. *)
Definition lfs (l : log) (mem : gmap Z block) (busy dirty : gset Z) : fsys alog D :=
  FSys (LState l (ACache mem disk busy dirty ws) wk) ic wk' rest.

Lemma dio_io {A} (m : M alog A) lg mem busy dirty a lg' mem' busy' dirty' :
  m (LState lg (ACache mem disk busy dirty ws) wk) = Ok a (LState lg' (ACache mem' disk busy' dirty' ws) wk) ->
  dio m (lfs lg mem busy dirty) = Ok a (lfs lg' mem' busy' dirty').
Proof. unfold dio, lift, lfs. cbn. by intros ->. Qed.

(** Changing a block in a transaction. *)
Lemma change_run {A} lg mem dirty b d' (k : M (fsys alog D) A) :
  lh_n lg < LOGSIZE -> lh_n lg < lg_size lg - 1 -> 1 <= lg_outstanding lg ->
  (dio (d_bset b d');; dio (d_log_write b);; dio (d_brelse b);; k) (lfs lg mem {[b]} dirty) =
  k (lfs (logged lg b) (<[b := d']> mem) ∅ ({[b]} ∪ dirty)).
Proof.
  intros H1 H2 H3.
  erewrite bind_run; [|apply dio_io, io_bset; set_solver].
  erewrite bind_run; [|apply dio_io, log_write_run; [done..|set_solver]].
  erewrite bind_run; [|apply dio_io, io_brelse; [set_solver|left; set_solver]].
  by rewrite difference_diag_L.
Qed.

Lemma lread_run lg mem dirty b d :
  Z.of_nat (base.size dirty) < NBUF -> mem !! b = Some d ->
  dio (d_bread 1 b) (lfs lg mem ∅ dirty) = Ok d (lfs lg mem {[b]} dirty).
Proof.
  intros Hs Hm. replace {[b]} with ({[b]} ∪ ∅ : gset Z) by set_solver.
  apply dio_io, io_bread; [apply not_elem_of_empty|right; by rewrite union_empty_l_L|done].
Qed.
End takes_log.

Lemma logged_bounds l b :
  lh_n l <= lh_n (logged l b) <= lh_n l + 1 /\ lg_size (logged l b) = lg_size l /\
  lg_outstanding (logged l b) = lg_outstanding l.
Proof. unfold logged. destruct (_ =? _); cbn; split_and!; lia || done. Qed.

Lemma change_end {D} disk ws wk wk' ic (rest : D) lg mem dirty b d' :
  lh_n lg < LOGSIZE -> lh_n lg < lg_size lg - 1 -> 1 <= lg_outstanding lg ->
  (dio (d_bset b d');; dio (d_log_write b);; dio (d_brelse b)) (lfs disk ws wk wk' ic rest lg mem {[b]} dirty) =
  Ok tt (lfs disk ws wk wk' ic rest (logged lg b) (<[b := d']> mem) ∅ ({[b]} ∪ dirty)).
Proof.
  intros H1 H2 H3. etrans; [|exact (change_run disk ws wk wk' ic rest lg mem dirty b d' (mret tt) H1 H2 H3)].
  unfold mbind, M_bind. repeat (case_match; simplify_eq; try done).
  by match goal with u : () |- _ => destruct u end.
Qed.

Lemma logged_start l b : lg_start (logged l b) = lg_start l.
Proof. unfold logged. by destruct (_ =? _). Qed.

(** The loop of [balloc] on a disk of one bitmap block whose first clear bit is
    [b]. *)
Lemma balloc_finds {D} l mem disk dirty ws wk wk' ic (rest : D) sbd bm dat b :
  let sb := superblock_of sbd in
  let bb := BBLOCK 0 (sb_ninodes sb) in
  mem !! 1 = Some sbd -> (1 ∈ dirty \/ disk !! 1 = Some sbd) -> mem !! bb = Some bm -> mem !! b = Some dat ->
  length dat = Z.to_nat BSIZE -> b <> bb -> 0 <= b < sb_size sb -> sb_size sb <= BPB ->
  (forall x, 0 <= x < b -> bit_clear bm x = false) -> bit_clear bm b = true ->
  Z.of_nat (base.size dirty) + 1 < NBUF -> lh_n l + 1 < LOGSIZE -> lh_n l + 1 < lg_size l - 1 ->
  1 <= lg_outstanding l ->
  Fs.balloc 1 (lfs disk ws wk wk' ic rest l mem ∅ dirty) =
    Ok b (lfs disk ws wk wk' ic rest (logged (logged l bb) b) (<[b := zeros]> (<[bb := bit_set bm b]> mem)) ∅
      ({[b]} ∪ ({[bb]} ∪ dirty))).
Proof.
  intros sb bb H1 H1d Hbm Hb Hlen Hne Hr Hbpb Hfirst Hclear Hsz Hn1 Hn2 Ho.
  destruct (logged_bounds l bb) as (Hlb & Hls & Hlo).
  unfold Fs.balloc, Fs.readsb.
  erewrite bind_run; cycle 1.
  { erewrite bind_run; [|apply (lread_run _ _ _ _ _ _ _ _ _ 1 sbd); [lia|done]].
    erewrite bind_run; [|apply dio_io, io_brelse; [set_solver|]].
    - rewrite difference_diag_L. reflexivity.
    - destruct H1d as [?|?]; [by left|right; congruence]. }
  fold sb. assert (bitmap_starts (sb_size sb) = [0]) as ->.
  { unfold bitmap_starts. replace ((sb_size sb + BPB - 1) / BPB) with 1; [reflexivity|].
    apply Z.div_unique with (sb_size sb - 1); unfold BPB in *; lia. }
  cbn [balloc_loop]. fold bb. erewrite bind_run; [|apply lread_run; [lia|exact Hbm]].
  pose proof (find_free_spec bm (Z.to_nat (Z.min BPB (sb_size sb - 0))) 0) as Hff.
  destruct (find_free bm _ 0) as [bj|]; cycle 1.
  { rewrite Hff in Hclear by lia. done. }
  assert (bj = b) as ->.
  { destruct Hff as (Hbj & Hc & Hf). destruct (Z.lt_trichotomy bj b) as [?|[?|?]]; [|done|].
    - rewrite Hfirst in Hc by lia. done.
    - rewrite Hf in Hclear by lia. done. }
  rewrite change_run by lia. rewrite Z.add_0_l. unfold bzero.
  erewrite bind_run; [reflexivity|].
  erewrite bind_run; [|apply lread_run; [|by rewrite lookup_insert_ne]].
  - assert (splice dat 0 (replicate (Z.to_nat BSIZE) 0) = zeros) as ->.
    { unfold splice, zeros. rewrite length_replicate, <- Hlen. by rewrite Nat.add_0_l, drop_all, app_nil_r. }
    by rewrite change_end by lia.
  - rewrite size_union_alt. rewrite size_singleton.
    pose proof (subseteq_size (dirty ∖ {[bb]}) dirty ltac:(set_solver)). lia.
Qed.

Lemma logged_self l b :
  log_geom l -> 0 <= b < 2147483648 -> lh_n l < LOGSIZE -> b ∈ secset (logged l b).
Proof.
  intros G Hb Hn. pose proof (geom_home l G) as Hh. pose proof (geom_end l G). pose proof (geom_n l G).
  pose proof (geom_len l G). pose proof (geom_size l G). unfold LOGSIZE, MAXOPBLOCKS in *.
  destruct (find_sector_spec (lh_sector l) b (Z.to_nat (lh_n l))) as (Hf1 & Hf2 & _); [|lia|].
  { intros j Hj. specialize (Hh (Z.of_nat j)). rewrite Nat2Z.id in Hh. lia. }
  apply elem_of_secset. unfold logged. set (i := find_sector _ _ _) in *. exists (Z.of_nat i).
  destruct (Z.eqb_spec (Z.of_nat i) (lh_n l)); cbn; (split; [lia|]);
    rewrite nth_lookup, Nat2Z.id, list_lookup_insert_eq by lia; simpl; by rewrite s32_small by lia.
Qed.

(** C39: mkfs does not mark the blocks of the log, and [balloc] hands them out.
    Take any image [main] of mkfs.c makes whose files end before the log, and
    any later state of the file system on it in which a transaction with room
    for two more blocks is running, the superblock is mkfs's, every block
    before the log is allocated, and the bits of the log's blocks are as mkfs
    wrote them.  Then [balloc] does not fail for want of space: it
    returns the first block of the log, that is the log header itself, zeroes
    it and puts it among the blocks of the running transaction, where no block
    of the log may be. *)
Theorem balloc_takes_log {D} files mk (s : fsys alog D) sbd bm :
  let l := ls_log (fs_disk s) in
  let mem := ac_mem (ls_cache (fs_disk s)) in
  let start := Mkfs.size - Mkfs.nlog in
  main_xv6 files mk0 = Ok tt mk -> mk_usedblocks mk <= start ->
  log_inv (fs_disk s) ->
  mem !! 1 = Some sbd -> superblock_of sbd = Superblock Mkfs.size Mkfs.nblocks Mkfs.ninodes Mkfs.nlog ->
  mem !! BBLOCK 0 Mkfs.ninodes = Some bm ->
  (forall b, 0 <= b < start -> bit_clear bm b = false) ->
  (forall b, start <= b < Mkfs.size -> bit_clear bm b = bit_clear (mk_img mk !!! BBLOCK 0 Mkfs.ninodes) b) ->
  1 <= lg_outstanding l -> lh_n l + 2 < Mkfs.nlog ->
  exists s', Fs.balloc 1 s = Ok (lg_start l) s' /\
    ac_mem (ls_cache (fs_disk s')) !! lg_start l = Some zeros /\
    lg_start (ls_log (fs_disk s')) = lg_start l /\
    lg_start l ∈ secset (ls_log (fs_disk s')) /\ ~ log_geom (ls_log (fs_disk s')).
Proof.
  destruct s as [[l [mem disk busy dirty ws] wk] ic wk' rest]. cbv zeta. cbn [fs_disk ls_log ls_cache ac_mem].
  change (Mkfs.size - Mkfs.nlog) with 994. change Mkfs.size with 1024. change Mkfs.nlog with 30.
  change (BBLOCK 0 Mkfs.ninodes) with 28. intros Hmk Hused I H1 Hsb Hbm Hfull Hlog Ho Hn.
  pose proof (inv_geom _ I) as G. pose proof (inv_busy _ I) as Eb. pose proof (inv_dirty _ I) as Edr.
  cbn in G, Eb, Edr. subst busy dirty. pose proof (size_secset l G) as Hsz.
  assert (1 ∉ secset l) as H1s by (intros ?%secset_home; [lia|done]).
  pose proof (inv_clean _ I 1 H1s) as E1. cbn in E1. rewrite H1 in E1. symmetry in E1.
  destruct (inv_super _ I) as (d & Ed & Es & El). cbn [ls_log ls_cache ac_disk] in Ed, Es, El.
  rewrite E1 in Ed. injection Ed as <-. rewrite Hsb in Es, El. cbn in Es, El.
  destruct (mkfs_bitmap _ _ Hmk) as [Himg Hu]. change (BBLOCK 0 Mkfs.ninodes) with 28 in Himg.
  rewrite (lookup_total_correct _ _ _ Himg) in Hlog.
  destruct (inv_region _ I 994) as [dat Hdat]; [cbn; lia|]. cbn in Hdat.
  pose proof (inv_len _ I _ _ Hdat) as Hlen. rewrite <- Es.
  destruct (logged_bounds l 28) as (Hlb & _ & _).
  assert (994 ∈ secset (logged (logged l 28) 994)) as Hin
    by (apply logged_self; [apply geom_logged; [done|..]|..]; unfold LOGSIZE, NBUF, MAXOPBLOCKS; lia).
  exists (lfs disk ws wk wk' ic rest (logged (logged l 28) 994) (<[994 := zeros]> (<[28 := bit_set bm 994]> mem)) ∅
    ({[994]} ∪ ({[28]} ∪ secset l))).
  assert (lg_start (logged (logged l 28) 994) = 994) as Est by (rewrite !logged_start; done).
  split_and!; [|apply lookup_insert_eq|exact Est|exact Hin|].
  - pose proof (balloc_finds l mem disk (secset l) ws wk wk' ic rest sbd bm dat 994) as E.
    cbv zeta in E. rewrite Hsb in E. cbn [sb_ninodes sb_size] in E.
    change (BBLOCK 0 Mkfs.ninodes) with 28 in E. apply E; unfold BPB, BSIZE, Mkfs.size, LOGSIZE, NBUF, MAXOPBLOCKS; auto; try lia.
    rewrite Hlog, bitmap_upto_clear by lia. destruct (Z.ltb_spec 994 (mk_usedblocks mk)); lia || done.
  - intros G'. pose proof (secset_home (logged (logged l 28) 994) 994 G' Hin). lia.
Qed.

(** A witness: the image of no files, all of whose data blocks were allocated
    afterwards. *)
Definition demo_mk : mkstate := match main_xv6 [] mk0 with Ok _ s => s | _ => mk0 end.
Definition demo_disk : gmap Z block := <[28 := bitmap_upto 994]> (mk_img demo_mk).
Definition demo_log : log := Log 994 30 1 0 1 0 (replicate 30 0).
Definition demo_fs : fsys alog unit := FSys (LState demo_log (ACache demo_disk demo_disk ∅ ∅ []) []) [] [] tt.

Lemma demo_mk_eq : main_xv6 [] mk0 = Ok tt demo_mk.
Proof.
  assert (match main_xv6 [] mk0 with Ok _ _ => true | _ => false end = true) as E by (vm_compute; reflexivity).
  unfold demo_mk. by destruct (main_xv6 [] mk0) as [[] s| | |].
Qed.

Lemma demo_log_disk : log_disk demo_log demo_disk (replicate 512 0).
Proof.
  assert (forallb (fun p => length p.2 =? 512)%nat (map_to_list demo_disk) = true) as Hl by (vm_compute; reflexivity).
  assert (forallb (fun b => bool_decide (is_Some (demo_disk !! b))) ((fun k => 994 + k) <$> upto 30) = true) as Hr
    by (vm_compute; reflexivity).
  rewrite forallb_forall in Hl, Hr.
  assert (forall b x, demo_disk !! b = Some x -> length x = Z.to_nat BSIZE) as Hlen.
  { intros b x Hx%elem_of_map_to_list%list_elem_of_In. exact (proj1 (Nat.eqb_eq _ _) (Hl _ Hx)). }
  constructor; [..|exact Hlen|].
  - constructor; cbn; unfold LOGSIZE, NBUF, MAXOPBLOCKS; lia || done.
  - vm_compute. reflexivity.
  - vm_compute. reflexivity.
  - intros j. cbn. lia.
  - intros j. cbn. lia.
  - intros b. cbn [lg_start lg_size demo_log]. intros Hb. apply (bool_decide_eq_true_1 _), Hr, list_elem_of_In.
    apply list_elem_of_fmap. exists (b - 994). split; [lia|]. apply elem_of_upto. lia.
  - eexists. split; [vm_compute; reflexivity|]. split; vm_compute; reflexivity.
Qed.

Lemma demo_used : mk_usedblocks demo_mk = 30.
Proof. vm_compute. reflexivity. Qed.

Lemma demo_super :
  exists d, demo_disk !! 1 = Some d /\
    superblock_of d = Superblock Mkfs.size Mkfs.nblocks Mkfs.ninodes Mkfs.nlog.
Proof. eexists. split; [vm_compute; reflexivity|]. vm_compute. reflexivity. Qed.

Lemma log_bits files mk b :
  main_xv6 files mk0 = Ok tt mk -> mk_usedblocks mk <= 994 -> 994 <= b < 1024 ->
  bit_clear (bitmap_upto 994) b = bit_clear (mk_img mk !!! BBLOCK 0 Mkfs.ninodes) b.
Proof.
  intros E Hu Hb. destruct (mkfs_bitmap _ _ E) as [H _]. apply lookup_total_correct in H. rewrite H. clear E H.
  rewrite (bitmap_upto_clear 994), (bitmap_upto_clear (mk_usedblocks mk)) by lia.
  destruct (Z.ltb_spec b 994), (Z.ltb_spec b (mk_usedblocks mk)); lia || done.
Qed.

Lemma balloc_takes_log_witness :
  exists s', Fs.balloc 1 demo_fs = Ok 994 s' /\ ac_mem (ls_cache (fs_disk s')) !! 994 = Some zeros /\
    ~ log_geom (ls_log (fs_disk s')).
Proof.
  destruct demo_super as (sbd & H1 & Hsb).
  destruct (balloc_takes_log [] demo_mk demo_fs sbd (bitmap_upto 994)) as (s' & E & Hz & _ & _ & Hg).
  - exact demo_mk_eq.
  - rewrite demo_used. vm_compute. discriminate.
  - exact (log_inv_of_disk _ _ _ [] [] demo_log_disk eq_refl).
  - exact H1.
  - exact Hsb.
  - apply lookup_insert_eq.
  - intros b Hb. change (Mkfs.size - Mkfs.nlog) with 994 in Hb. rewrite bitmap_upto_clear by lia.
    destruct (Z.ltb_spec b 994); lia || done.
  - intros b. apply (log_bits [] demo_mk b demo_mk_eq). rewrite demo_used. discriminate.
  - discriminate.
  - reflexivity.
  - exists s'. split_and!; [exact E|exact Hz|exact Hg].
Defined.
