(* ===== verification/Hw.v ===== *)
(** The drivers that talk to ports and device registers: picirq.c, timer.c,
    ioapic.c, lapic.c and uart.c.

    A driver runs on the list of values the devices will answer its reads with,
    which is arbitrary, and leaves the trace of its accesses.  A loop that waits
    for a device takes one answer per iteration; when the answers end it is
    still waiting, and the run faults. *)

From stdpp Require Import prelude strings gmap list.
From S2P Require Import Prelude Param.

Inductive event :=
| Outb (port v : Z)
| Inb (port v : Z)
| Outl (port v : Z)
| Inl (port v : Z)
| MWrite (addr v : Z)     (* a memory-mapped register *)
| MRead (addr v : Z)
| Cprintf (fmt : string) (args : list Z).

#[export] Instance event_eq_dec : EqDecision event.
Proof. solve_decision. Defined.

(** The devices and the static variables of the drivers; [bcpu] is an index of
    [cpus], whose fields [id] are [cpu_ids], and [kbd_shift] the variable
    [shift] of kbdgetc(). *)
Record hw := HW {
  hw_in : list Z;
  hw_trace : list event;
  irqmask : Z;
  uart : Z;
  lapic : Z;
  ismp : Z;
  ioapicid : Z;
  ncpu : Z;
  havedisk1 : Z;
  bcpu : Z;
  cpu_ids : list Z;
  kbd_shift : Z
}.

(** The variables before any initialisation. *)
Definition hw0 (ins : list Z) : hw :=
  HW ins [] 65531 0 0 0 0 0 0 0 (replicate (Z.to_nat NCPU) 0) 0.

Definition with_in (x : list Z) (h : hw) : hw :=
  HW x (hw_trace h) (irqmask h) (uart h) (lapic h) (ismp h) (ioapicid h) (ncpu h) (havedisk1 h)
    (bcpu h) (cpu_ids h) (kbd_shift h).
Definition with_trace (x : list event) (h : hw) : hw :=
  HW (hw_in h) x (irqmask h) (uart h) (lapic h) (ismp h) (ioapicid h) (ncpu h) (havedisk1 h)
    (bcpu h) (cpu_ids h) (kbd_shift h).
Definition set_irqmask (x : Z) : M hw unit :=
  modify (fun h =>
    HW (hw_in h) (hw_trace h) x (uart h) (lapic h) (ismp h) (ioapicid h) (ncpu h) (havedisk1 h)
      (bcpu h) (cpu_ids h) (kbd_shift h)).
Definition set_uart (x : Z) : M hw unit :=
  modify (fun h =>
    HW (hw_in h) (hw_trace h) (irqmask h) x (lapic h) (ismp h) (ioapicid h) (ncpu h)
      (havedisk1 h) (bcpu h) (cpu_ids h) (kbd_shift h)).
Definition set_lapic (x : Z) : M hw unit :=
  modify (fun h =>
    HW (hw_in h) (hw_trace h) (irqmask h) (uart h) x (ismp h) (ioapicid h) (ncpu h) (havedisk1 h)
      (bcpu h) (cpu_ids h) (kbd_shift h)).
Definition set_ismp (x : Z) : M hw unit :=
  modify (fun h =>
    HW (hw_in h) (hw_trace h) (irqmask h) (uart h) (lapic h) x (ioapicid h) (ncpu h)
      (havedisk1 h) (bcpu h) (cpu_ids h) (kbd_shift h)).
Definition set_ioapicid (x : Z) : M hw unit :=
  modify (fun h =>
    HW (hw_in h) (hw_trace h) (irqmask h) (uart h) (lapic h) (ismp h) x (ncpu h) (havedisk1 h)
      (bcpu h) (cpu_ids h) (kbd_shift h)).
Definition set_ncpu (x : Z) : M hw unit :=
  modify (fun h =>
    HW (hw_in h) (hw_trace h) (irqmask h) (uart h) (lapic h) (ismp h) (ioapicid h) x
      (havedisk1 h) (bcpu h) (cpu_ids h) (kbd_shift h)).
Definition set_havedisk1 (x : Z) : M hw unit :=
  modify (fun h =>
    HW (hw_in h) (hw_trace h) (irqmask h) (uart h) (lapic h) (ismp h) (ioapicid h) (ncpu h) x
      (bcpu h) (cpu_ids h) (kbd_shift h)).
Definition set_bcpu (x : Z) : M hw unit :=
  modify (fun h =>
    HW (hw_in h) (hw_trace h) (irqmask h) (uart h) (lapic h) (ismp h) (ioapicid h) (ncpu h)
      (havedisk1 h) x (cpu_ids h) (kbd_shift h)).
Definition set_cpu_ids (x : list Z) : M hw unit :=
  modify (fun h =>
    HW (hw_in h) (hw_trace h) (irqmask h) (uart h) (lapic h) (ismp h) (ioapicid h) (ncpu h)
      (havedisk1 h) (bcpu h) x (kbd_shift h)).
Definition set_kbd_shift (x : Z) : M hw unit :=
  modify (fun h =>
    HW (hw_in h) (hw_trace h) (irqmask h) (uart h) (lapic h) (ismp h) (ioapicid h) (ncpu h)
      (havedisk1 h) (bcpu h) (cpu_ids h) x).

Definition emit (e : event) : M hw unit := modify (fun h => with_trace (hw_trace h ++ [e]) h).
Definition hprintf (fmt : string) (args : list Z) : M hw unit := emit (Cprintf fmt args).
(** The next answer. *)
Definition answer : M hw Z := fun h =>
  match hw_in h with
  | [] => Fault "waiting for a device"
  | v :: ins => Ok v (with_in ins h)
  end.

(** x86.h *)
Definition outb (port v : Z) : M hw unit := emit (Outb port (u8 v)).
Definition inb (port : Z) : M hw Z := v ← answer; emit (Inb port (u8 v));; mret (u8 v).

(** [outsl] and [insl]: a list of words. *)
Definition outsl (port : Z) (ws : list Z) : M hw unit := for_each (fun w => emit (Outl port w)) ws.
Fixpoint insl (port : Z) (n : nat) : M hw (list Z) :=
  match n with
  | O => mret []
  | S n => v ← answer; emit (Inl port (u32 v));; l ← insl port n; mret (u32 v :: l)
  end.

(** traps.h *)
Definition T_SYSCALL : Z := 64.
Definition T_IRQ0 : Z := 32.
Definition IRQ_TIMER : Z := 0.
Definition IRQ_KBD : Z := 1.
Definition IRQ_COM1 : Z := 4.
Definition IRQ_IDE : Z := 14.
Definition IRQ_ERROR : Z := 19.
Definition IRQ_SPURIOUS : Z := 31.

(** ** picirq.c *)

Definition IO_PIC1 : Z := 32.
Definition IO_PIC2 : Z := 160.
Definition IRQ_SLAVE : Z := 2.

Definition picsetmask (mask : Z) : M hw unit :=
  set_irqmask mask;;
  outb (IO_PIC1 + 1) mask;;
  outb (IO_PIC2 + 1) (mask >> 8).

Definition picenable (irq : Z) : M hw unit :=
  m ← gets irqmask;
  picsetmask (u16 (m .& Z.lnot (1 << irq))).

Definition picinit : M hw unit :=
  outb (IO_PIC1 + 1) 255;;
  outb (IO_PIC2 + 1) 255;;
  outb IO_PIC1 17;;
  outb (IO_PIC1 + 1) T_IRQ0;;
  outb (IO_PIC1 + 1) (1 << IRQ_SLAVE);;
  outb (IO_PIC1 + 1) 3;;
  outb IO_PIC2 17;;
  outb (IO_PIC2 + 1) (T_IRQ0 + 8);;
  outb (IO_PIC2 + 1) IRQ_SLAVE;;
  outb (IO_PIC2 + 1) 3;;
  outb IO_PIC1 104;;
  outb IO_PIC1 10;;
  outb IO_PIC2 104;;
  outb IO_PIC2 10;;
  m ← gets irqmask;
  when (negb (m =? 65535)) (picsetmask m).

(** ** timer.c *)

Definition IO_TIMER1 : Z := 64.
Definition TIMER_FREQ : Z := 1193182.
Definition TIMER_DIV (x : Z) : Z := (TIMER_FREQ + x / 2) / x.
Definition TIMER_MODE : Z := IO_TIMER1 + 3.

Definition timerinit : M hw unit :=
  outb TIMER_MODE (0 .| 4 .| 48);;
  outb IO_TIMER1 (TIMER_DIV 100 mod 256);;
  outb IO_TIMER1 (TIMER_DIV 100 / 256);;
  picenable IRQ_TIMER.

(** ** ioapic.c *)

Definition IOAPIC : Z := 4273995776.
Definition REG_ID : Z := 0.
Definition REG_VER : Z := 1.
Definition REG_TABLE : Z := 16.
Definition INT_DISABLED : Z := 65536.

(** [ioapic->reg] and [ioapic->data] *)
Definition ioapicread (reg : Z) : M hw Z :=
  emit (MWrite IOAPIC reg);;
  v ← answer;
  emit (MRead (IOAPIC + 16) (u32 v));;
  mret (u32 v).

Definition ioapicwrite (reg data : Z) : M hw unit :=
  emit (MWrite IOAPIC reg);;
  emit (MWrite (IOAPIC + 16) (u32 data)).

Definition ioapicinit : M hw unit :=
  h ← get;
  if ismp h =? 0 then mret tt
  else
    v ← ioapicread REG_VER;
    let maxintr := (v >> 16) .& 255 in
    i ← ioapicread REG_ID;
    when (negb (i >> 24 =? ioapicid h)) (hprintf "ioapicinit: id isn't equal to ioapicid; not a MP" []);;
    for_each (fun i =>
      ioapicwrite (REG_TABLE + 2 * i) (INT_DISABLED .| (T_IRQ0 + i));;
      ioapicwrite (REG_TABLE + 2 * i + 1) 0) (upto (maxintr + 1)).

Definition ioapicenable (irq cpunum : Z) : M hw unit :=
  h ← get;
  if ismp h =? 0 then mret tt
  else
    ioapicwrite (REG_TABLE + 2 * irq) (T_IRQ0 + irq);;
    ioapicwrite (REG_TABLE + 2 * irq + 1) (cpunum << 24).

(** ** lapic.c *)

Definition ID : Z := 32 / 4.
Definition VER : Z := 48 / 4.
Definition TPR : Z := 128 / 4.
Definition EOI : Z := 176 / 4.
Definition SVR : Z := 240 / 4.
Definition ENABLE : Z := 256.
Definition ESR : Z := 640 / 4.
Definition ICRLO : Z := 768 / 4.
Definition INIT : Z := 1280.
Definition STARTUP : Z := 1536.
Definition DELIVS : Z := 4096.
Definition ASSERT : Z := 16384.
Definition LEVEL : Z := 32768.
Definition BCAST : Z := 524288.
Definition ICRHI : Z := 784 / 4.
Definition TIMER : Z := 800 / 4.
Definition X1 : Z := 11.
Definition PERIODIC : Z := 131072.
Definition PCINT : Z := 832 / 4.
Definition LINT0 : Z := 848 / 4.
Definition LINT1 : Z := 864 / 4.
Definition ERROR : Z := 880 / 4.
Definition MASKED : Z := 65536.
Definition TICR : Z := 896 / 4.
Definition TDCR : Z := 992 / 4.

(** [lapic[index]] *)
Definition lapicr (index : Z) : M hw Z :=
  l ← gets lapic;
  v ← answer;
  emit (MRead (l + 4 * index) (u32 v));;
  mret (u32 v).

Definition lapicw (index value : Z) : M hw unit :=
  l ← gets lapic;
  emit (MWrite (l + 4 * index) (u32 value));;
  lapicr ID;;
  mret tt.

(** [while(lapic[ICRLO] & DELIVS)] *)
Fixpoint wait_delivs (fuel : nat) : M hw unit :=
  match fuel with
  | O => fault "waiting for a device"
  | S fuel => v ← lapicr ICRLO; if ctrue (v .& DELIVS) then wait_delivs fuel else mret tt
  end.

Definition lapicinit : M hw unit :=
  l ← gets lapic;
  if l =? 0 then mret tt
  else
    lapicw SVR (ENABLE .| (T_IRQ0 + IRQ_SPURIOUS));;
    lapicw TDCR X1;;
    lapicw TIMER (PERIODIC .| (T_IRQ0 + IRQ_TIMER));;
    lapicw TICR 10000000;;
    lapicw LINT0 MASKED;;
    lapicw LINT1 MASKED;;
    v ← lapicr VER;
    when (4 <=? ((v >> 16) .& 255)) (lapicw PCINT MASKED);;
    lapicw ERROR (T_IRQ0 + IRQ_ERROR);;
    lapicw ESR 0;;
    lapicw ESR 0;;
    lapicw EOI 0;;
    lapicw ICRHI 0;;
    lapicw ICRLO (BCAST .| INIT .| LEVEL);;
    h ← get;
    wait_delivs (length (hw_in h));;
    lapicw TPR 0.

(** Without the warning about interrupts. *)
Definition cpunum : M hw Z :=
  l ← gets lapic;
  if l =? 0 then mret 0 else v ← lapicr ID; mret (v >> 24).

Definition lapiceoi : M hw unit :=
  l ← gets lapic;
  when (negb (l =? 0)) (lapicw EOI 0).

Definition microdelay (us : Z) : M hw unit := mret tt.

Definition CMOS_PORT : Z := 112.
Definition CMOS_RETURN : Z := 113.

(** The warm reset vector is at 40:67. *)
Definition lapicstartap (apicid addr : Z) : M hw unit :=
  outb CMOS_PORT 15;;
  outb (CMOS_PORT + 1) 10;;
  let wrv := 2147483648 + ((64 << 4) .| 103) in
  emit (MWrite wrv 0);;
  emit (MWrite (wrv + 2) (u16 (addr >> 4)));;
  lapicw ICRHI (apicid << 24);;
  lapicw ICRLO (INIT .| LEVEL .| ASSERT);;
  microdelay 200;;
  lapicw ICRLO (INIT .| LEVEL);;
  microdelay 100;;
  for_each (fun _ =>
    lapicw ICRHI (apicid << 24);;
    lapicw ICRLO (STARTUP .| (addr >> 12));;
    microdelay 200) (upto 2).

(** *** The clock *)

Record rtcdate := RtcDate { second : Z; minute : Z; hour : Z; day : Z; month : Z; year : Z }.

#[export] Instance rtcdate_eq_dec : EqDecision rtcdate.
Proof. solve_decision. Defined.

Definition CMOS_STATA : Z := 10.
Definition CMOS_STATB : Z := 11.
Definition CMOS_UIP : Z := 1 << 7.

Definition cmos_read (reg : Z) : M hw Z :=
  outb CMOS_PORT reg;;
  microdelay 200;;
  inb CMOS_RETURN.

Definition fill_rtcdate : M hw rtcdate :=
  s ← cmos_read 0;
  mi ← cmos_read 2;
  h ← cmos_read 4;
  d ← cmos_read 7;
  mo ← cmos_read 8;
  y ← cmos_read 9;
  mret (RtcDate s mi h d mo y).

(** [for(;;)] until two reads agree with no update in progress. *)
Fixpoint read_clock (fuel : nat) : M hw rtcdate :=
  match fuel with
  | O => fault "waiting for a device"
  | S fuel =>
      t1 ← fill_rtcdate;
      sa ← cmos_read CMOS_STATA;
      if ctrue (sa .& CMOS_UIP) then read_clock fuel
      else
        t2 ← fill_rtcdate;
        if decide (t1 = t2) then mret t1 else read_clock fuel
  end.

Definition CONV (x : Z) : Z := (x >> 4) * 10 + (x .& 15).

Definition cmostime : M hw rtcdate :=
  sb ← cmos_read CMOS_STATB;
  h ← get;
  t1 ← read_clock (length (hw_in h));
  let t1 := if sb .& (1 << 2) =? 0
            then RtcDate (CONV (second t1)) (CONV (minute t1)) (CONV (hour t1)) (CONV (day t1))
                   (CONV (month t1)) (CONV (year t1))
            else t1 in
  mret (RtcDate (second t1) (minute t1) (hour t1) (day t1) (month t1) (year t1 + 2000)).

(** ** uart.c *)

Definition COM1 : Z := 1016.

(** [for(i = 0; i < 128 && !(inb(COM1+5) & 0x20); i++) microdelay(10);] *)
Fixpoint uart_poll (n : nat) : M hw unit :=
  match n with
  | O => mret tt
  | S n =>
      s ← inb (COM1 + 5);
      if ctrue (s .& 32) then mret tt else microdelay 10;; uart_poll n
  end.

Definition uartputc (c : Z) : M hw unit :=
  u ← gets uart;
  if u =? 0 then mret tt
  else
    uart_poll 128;;
    outb (COM1 + 0) c.

(** -1 when there is nothing to read. *)
Definition uartgetc : M hw Z :=
  u ← gets uart;
  if u =? 0 then mret (-1)
  else
    s ← inb (COM1 + 5);
    if ctrue (s .& 1) then inb (COM1 + 0) else mret (-1).

(** "xv6...\n" *)
Definition banner : list Z := [120; 118; 54; 46; 46; 46; 10].

Definition uartinit : M hw unit :=
  outb (COM1 + 2) 0;;
  outb (COM1 + 3) 128;;
  outb (COM1 + 0) (115200 / 9600);;
  outb (COM1 + 1) 0;;
  outb (COM1 + 3) 3;;
  outb (COM1 + 4) 0;;
  outb (COM1 + 1) 1;;
  s ← inb (COM1 + 5);
  if s =? 255 then mret tt
  else
    set_uart 1;;
    inb (COM1 + 2);;
    inb (COM1 + 0);;
    picenable IRQ_COM1;;
    ioapicenable IRQ_COM1 0;;
    for_each uartputc banner.
