(* ===== verification/Mp.v ===== *)
(** mp.c and mp.h: the multiprocessor tables of the BIOS.

    The tables are in the memory [m], by kernel address; the variables mp.c sets
    ([lapic], [ismp], [ncpu], [ioapicid], [bcpu], the ids of [cpus]) are those of
    the state [hw]. *)

From stdpp Require Import prelude strings gmap list.
From S2P Require Import Prelude Bytes Param CString Kalloc Hw.

Definition sizeof_mp : Z := 16.
Definition sizeof_mpconf : Z := 44.
Definition sizeof_mpproc : Z := 20.
Definition sizeof_mpioapic : Z := 8.

(** Table entry types *)
Definition MPPROC : Z := 0.
Definition MPBUS : Z := 1.
Definition MPIOAPIC : Z := 2.
Definition MPIOINTR : Z := 3.
Definition MPLINTR : Z := 4.
Definition MPBOOT : Z := 2.

(** "_MP_" and "PCMP" *)
Definition sig_mp : list Z := [95; 77; 80; 95].
Definition sig_conf : list Z := [80; 67; 77; 80].

Section mp.
Context (m : mem).

(** The [n] bytes at [a], and the number they make. *)
Definition bytes_at (a n : Z) : list Z := (fun i => m (a + i)) <$> upto n.
Definition field (a n : Z) : Z := le_combine (bytes_at a n).

Definition sum (addr len : Z) : Z := u8 (foldl Z.add 0 (bytes_at addr len)).

Definition is_mp (p : Z) : bool :=
  (bool_decide (bytes_at p 4 = sig_mp) && (sum p sizeof_mp =? 0))%bool.

(** [n] more structures from [p]. *)
Fixpoint mpsearch1_loop (n : nat) (p : Z) : option Z :=
  match n with
  | O => None
  | S n => if is_mp p then Some p else mpsearch1_loop n (p + sizeof_mp)
  end.

(** [len] is a multiple of the size of [struct mp] in every call. *)
Definition mpsearch1 (a len : Z) : option Z :=
  mpsearch1_loop (Z.to_nat ((len + sizeof_mp - 1) / sizeof_mp)) (p2v a).

Definition mpsearch : option Z :=
  let bda := p2v 1024 in
  let p := ((m (bda + 15) << 8) .| m (bda + 14)) << 4 in
  let found :=
    if ctrue p then mpsearch1 p 1024
    else
      let p := ((m (bda + 20) << 8) .| m (bda + 19)) * 1024 in
      mpsearch1 (u32 (p - 1024)) 1024 in
  match found with
  | Some mp => Some mp
  | None => mpsearch1 983040 65536
  end.

(** The addresses of the [struct mp] and of the [struct mpconf]. *)
Definition mpconfig : option (Z * Z) :=
  match mpsearch with
  | None => None
  | Some mp =>
      let physaddr := field (mp + 4) 4 in
      if physaddr =? 0 then None
      else
        let conf := p2v physaddr in
        if negb (bool_decide (bytes_at conf 4 = sig_conf)) then None
        else if (negb (m (conf + 6) =? 1) && negb (m (conf + 6) =? 4))%bool then None
        else if negb (sum conf (field (conf + 4) 2) =? 0) then None
        else Some (mp, conf)
  end.

(** The entry of a processor. *)
Definition mp_proc (p : Z) : M hw unit :=
  n ← gets ncpu;
  when (negb (n =? m (p + 1)))
    (hprintf "mpinit: ncpu=%d apicid=%d" [n; m (p + 1)];; set_ismp 0);;
  when (ctrue (m (p + 3) .& MPBOOT)) (set_bcpu n);;
  if NCPU <=? n then fault "cpus[ncpu]"
  else
    ids ← gets cpu_ids;
    set_cpu_ids (<[Z.to_nat n := u8 n]> ids);;
    set_ncpu (n + 1).

(** The loop of [mpinit]: no table has more entries than bytes.  An entry of an unknown type is read again and again. *)
Fixpoint mpinit_loop (fuel : nat) (p e : Z) : M hw unit :=
  if negb (p <? e) then mret tt
  else
    match fuel with
    | O => fault "mpinit does not end"
    | S fuel =>
        if m p =? MPPROC then mp_proc p;; mpinit_loop fuel (p + sizeof_mpproc) e
        else if m p =? MPIOAPIC then
          set_ioapicid (m (p + 1));; mpinit_loop fuel (p + sizeof_mpioapic) e
        else if ((m p =? MPBUS) || (m p =? MPIOINTR) || (m p =? MPLINTR))%bool then
          mpinit_loop fuel (p + 8) e
        else
          hprintf "mpinit: unknown config type %x" [m p];;
          set_ismp 0;;
          mpinit_loop fuel p e
    end.

(** After the loop. *)
Definition mpinit_end (mp : Z) : M hw unit :=
  mpok ← gets ismp;
  if mpok =? 0 then
    set_ncpu 1;;
    set_lapic 0;;
    set_ioapicid 0
  else if ctrue (m (mp + 12)) then
    outb 34 112;;
    v ← inb 35;
    outb 35 (v .| 1)
  else mret tt.

Definition mpinit : M hw unit :=
  set_bcpu 0;;
  match mpconfig with
  | None => mret tt
  | Some (mp, conf) =>
      set_ismp 1;;
      set_lapic (field (conf + 36) 4);;
      let length := field (conf + 4) 2 in
      mpinit_loop (Z.to_nat length) (conf + sizeof_mpconf) (conf + length);;
      mpinit_end mp
  end.

Definition mpbcpu : M hw Z := gets bcpu.

(** ** What the tables say *)

Inductive entry :=
| Eproc (apicid flags : Z)
| Eioapic (apicno : Z)
| Eother (type : Z).

Definition entry_size (x : entry) : Z := match x with Eproc _ _ => sizeof_mpproc | _ => 8 end.

(** The entry at address [p]. *)
Definition entry_at (p : Z) (x : entry) : Prop :=
  match x with
  | Eproc a f => m p = MPPROC /\ m (p + 1) = a /\ m (p + 3) = f
  | Eioapic a => m p = MPIOAPIC /\ m (p + 1) = a
  | Eother t => m p = t /\ (t = MPBUS \/ t = MPIOINTR \/ t = MPLINTR)
  end.

Fixpoint table_at (p : Z) (es : list entry) (e : Z) : Prop :=
  match es with
  | [] => e <= p
  | x :: es => p < e /\ entry_at p x /\ table_at (p + entry_size x) es e
  end.

End mp.

(** The processors of a table: their APIC ids and flags. *)
Definition procs (es : list entry) : list (Z * Z) :=
  omap (fun x => match x with Eproc a f => Some (a, f) | _ => None end) es.

(** The processors are numbered as they are listed, from [n] on. *)
Fixpoint in_order (n : Z) (l : list (Z * Z)) : bool :=
  match l with
  | [] => true
  | (a, _) :: l => ((a =? n) && in_order (n + 1) l)%bool
  end.

(** The last of them that is a boot processor, or [b]. *)
Fixpoint boot (n b : Z) (l : list (Z * Z)) : Z :=
  match l with
  | [] => b
  | (_, f) :: l => boot (n + 1) (if ctrue (f .& MPBOOT) then n else b) l
  end.

(** The number of the last I/O APIC, or [i]. *)
Definition last_ioapic (i : Z) (es : list entry) : Z :=
  foldl (fun i x => match x with Eioapic a => a | _ => i end) i es.

(** The processors found so far have their ids. *)
Definition cpus_ok (h : hw) : Prop :=
  0 <= ncpu h <= NCPU /\ length (cpu_ids h) = Z.to_nat NCPU /\
  forall i, 0 <= i < ncpu h -> cpu_ids h !! Z.to_nat i = Some i.

Lemma cpus_ok_start h : ncpu h = 0 -> cpu_ids h = replicate (Z.to_nat NCPU) 0 -> cpus_ok h.
Proof.
  intros E1 E2. unfold cpus_ok. rewrite E1, E2. split; [unfold NCPU; lia|]. split; [done|]. intros i Hi. lia.
Qed.

(** The variables after the entries [es]. *)
Record scanned (h : hw) (es : list entry) (h' : hw) : Prop := {
  sc_ncpu : ncpu h' = ncpu h + Z.of_nat (length (procs es));
  sc_ismp : ismp h' = if in_order (ncpu h) (procs es) then ismp h else 0;
  sc_bcpu : bcpu h' = boot (ncpu h) (bcpu h) (procs es);
  sc_ioapicid : ioapicid h' = last_ioapic (ioapicid h) es;
  sc_lapic : lapic h' = lapic h;
  sc_in : hw_in h' = hw_in h;
  sc_cpus : cpus_ok h'
}.

Lemma scanned_cons h x h1 es h' :
  scanned h [x] h1 -> scanned h1 es h' -> scanned h (x :: es) h'.
Proof.
  intros [N1 M1 B1 I1 L1 D1 C1] [N2 M2 B2 I2 L2 D2 C2].
  assert (procs (x :: es) = procs [x] ++ procs es) as Ep by (by destruct x).
  split; try congruence.
  - rewrite N2, N1, Ep, length_app. lia.
  - rewrite M2, M1, N1, Ep. generalize (procs es) as l. intros l. destruct x as [a f| |]; cbn; rewrite ?Z.add_0_r; try done.
    change (Z.of_nat 1) with 1. by destruct (a =? ncpu h), (in_order (ncpu h + 1) l).
  - rewrite B2, B1, N1, Ep. destruct x as [a f| |]; cbn; by rewrite ?Z.add_0_r.
  - by rewrite I2, I1.
Qed.

Section mp_run.
Context (m : mem).

Lemma mp_proc_run p a f h :
  m (p + 1) = a -> m (p + 3) = f -> cpus_ok h -> ncpu h < NCPU ->
  exists h', mp_proc m p h = Ok tt h' /\ scanned h [Eproc a f] h'.
Proof.
  intros Ha Hf (Hn & Hlen & Hids) Hlt. unfold mp_proc, mbind, M_bind, gets, when, hprintf, emit.
  rewrite Ha, Hf.
  assert ((NCPU <=? ncpu h) = false) as HN by (apply Z.leb_gt; lia).
  assert (forall h', ncpu h' = ncpu h + 1 -> cpu_ids h' = <[Z.to_nat (ncpu h) := u8 (ncpu h)]> (cpu_ids h) ->
    cpus_ok h') as Hok.
  { intros h' E1 E2. unfold cpus_ok. rewrite E1, E2, length_insert. split; [lia|]. split; [done|].
    intros i Hi. destruct (decide (i = ncpu h)) as [->|].
    - rewrite list_lookup_insert_eq by (rewrite Hlen; lia). f_equal. apply u8_small.
      unfold NCPU in *. lia.
    - rewrite list_lookup_insert_ne by lia. apply Hids. lia. }
  destruct (ncpu h =? a) eqn:E; cbn [negb];
    destruct (ctrue (f .& MPBOOT)) eqn:Eb; cbn; rewrite HN; eexists; (split; [reflexivity|]);
    split; try done; try (by apply Hok); cbn; rewrite ?(Z.eqb_sym a), ?E, ?Eb; done.
Qed.

Lemma entry_run p x e fuel h :
  entry_at m p x -> p < e -> cpus_ok h -> ncpu h + Z.of_nat (length (procs [x])) <= NCPU ->
  exists h', scanned h [x] h' /\
    mpinit_loop m (S fuel) p e h = mpinit_loop m fuel (p + entry_size x) e h'.
Proof.
  intros Hx Hp Hok Hn. cbn [mpinit_loop].
  assert ((p <? e) = true) as -> by by apply Z.ltb_lt. cbn [negb].
  destruct x as [a f|a|t]; cbn [entry_at entry_size] in *.
  - destruct Hx as (-> & Ha & Hf).
    destruct (mp_proc_run p a f h Ha Hf Hok) as (h' & Hrun & Hsc); [cbn in Hn; lia|].
    exists h'. split; [done|]. cbn. by erewrite bind_run.
  - destruct Hx as (-> & Ha). eexists. split; [|reflexivity].
    split; cbn; try done; rewrite ?Z.add_0_r; done.
  - exists h. split; [split; cbn; try done; by rewrite ?Z.add_0_r|].
    destruct Hx as (-> & [->|[->| ->]]); done.
Qed.

Lemma mpinit_loop_run es fuel p e h :
  table_at m p es e -> (length es <= fuel)%nat -> cpus_ok h ->
  ncpu h + Z.of_nat (length (procs es)) <= NCPU ->
  exists h', mpinit_loop m fuel p e h = Ok tt h' /\ scanned h es h'.
Proof.
  revert fuel p h. induction es as [|x es IH]; intros fuel p h Ht Hf Hok Hn; cbn in Ht.
  - exists h. split; [|split; cbn; try done; lia].
    destruct fuel; cbn [mpinit_loop]; assert ((p <? e) = false) as -> by (by apply Z.ltb_ge); done.
  - destruct Ht as (Hp & Hx & Ht). destruct fuel as [|fuel]; [cbn in Hf; lia|].
    assert (length (procs (x :: es)) = (length (procs [x]) + length (procs es))%nat) as El
      by (destruct x; done).
    destruct (entry_run p x e fuel h Hx Hp Hok) as (h1 & S1 & ->); [lia|].
    destruct (IH fuel (p + entry_size x) h1 Ht) as (h' & Hr & S2); [cbn in Hf; lia|apply S1| |].
    + rewrite (sc_ncpu _ _ _ S1). lia.
    + exists h'. split; [done|]. by eapply scanned_cons.
Qed.

Lemma table_length es p e : table_at m p es e -> Z.of_nat (length es) <= Z.max 0 (e - p).
Proof.
  revert p. induction es as [|x es IH]; intros p Ht; cbn in Ht; [cbn; lia|].
  destruct Ht as (Hp & _ & Ht). specialize (IH _ Ht). cbn [length].
  assert (8 <= entry_size x) by (destruct x; cbn; unfold sizeof_mpproc; lia). lia.
Qed.
End mp_run.

(** The configuration mpinit() decides on. *)
Definition configured (m : mem) (conf : Z) (es : list entry) (h' : hw) : Prop :=
  if in_order 0 (procs es) then
    ismp h' = 1 /\ ncpu h' = Z.of_nat (length (procs es)) /\ lapic h' = field m (conf + 36) 4 /\
    ioapicid h' = last_ioapic 0 es /\ bcpu h' = boot 0 0 (procs es) /\
    (forall i, 0 <= i < ncpu h' -> cpu_ids h' !! Z.to_nat i = Some i)
  else ismp h' = 0 /\ ncpu h' = 1 /\ lapic h' = 0 /\ ioapicid h' = 0.

Lemma mpinit_end_run m mp h :
  hw_in h <> [] ->
  exists h', mpinit_end m mp h = Ok tt h' /\
    (if ismp h =? 0 then ismp h' = 0 /\ ncpu h' = 1 /\ lapic h' = 0 /\ ioapicid h' = 0
     else ismp h' = ismp h /\ ncpu h' = ncpu h /\ lapic h' = lapic h /\ ioapicid h' = ioapicid h /\
          bcpu h' = bcpu h /\ cpu_ids h' = cpu_ids h).
Proof.
  intros Hin. unfold mpinit_end, mbind, M_bind, gets. destruct (ismp h =? 0) eqn:E.
  - eexists. split; [reflexivity|]. apply Z.eqb_eq in E. done.
  - destruct (ctrue (m (mp + 12))); [|by exists h].
    unfold outb, inb, emit, answer, modify, mbind, M_bind. cbn. destruct (hw_in h) as [|v ins]; [done|].
    eexists. split; [reflexivity|]. done.
Qed.

(** C33: [mpinit] returns, and reads the table as it is written: for any table
    of processor, I/O APIC, bus and interrupt entries with at most NCPU
    processors it finds the processors, the boot processor, the addresses of
    the local and I/O APICs, and numbers [cpus]; when the APIC ids are not
    0, 1, 2, ... in order it falls back to one processor without APIC. *)
Theorem mpinit_reads m mp conf es ins :
  mpconfig m = Some (mp, conf) -> table_at m (conf + sizeof_mpconf) es (conf + field m (conf + 4) 2) ->
  Z.of_nat (length (procs es)) <= NCPU -> ins <> [] ->
  exists h', mpinit m (hw0 ins) = Ok tt h' /\ configured m conf es h'.
Proof.
  intros Hc Ht Hn Hin. unfold mpinit. rewrite Hc. cbv zeta.
  pose proof (table_length _ _ _ _ Ht) as Hl.
  set (h1 := HW ins [] 65531 0 (field m (conf + 36) 4) 1 0 0 0 0 (replicate (Z.to_nat NCPU) 0) 0).
  destruct (mpinit_loop_run m es (Z.to_nat (field m (conf + 4) 2)) _ _ h1 Ht) as (h2 & Hrun & Hsc).
  { unfold sizeof_mpconf in *. lia. }
  { by apply cpus_ok_start. }
  { cbn. lia. }
  destruct (mpinit_end_run m mp h2) as (h' & Hend & Hh'); [by rewrite (sc_in _ _ _ Hsc)|].
  exists h'. split.
  - unfold mbind, M_bind, set_bcpu, set_ismp, set_lapic, modify. cbv beta iota zeta.
    fold h1 in Hrun. change (mpinit_loop m _ _ _ _) with
      (mpinit_loop m (Z.to_nat (field m (conf + 4) 2)) (conf + sizeof_mpconf) (conf + field m (conf + 4) 2) h1).
    by rewrite Hrun.
  - destruct Hsc as [N M' B I' L _ (_ & _ & Hids)]. cbn [ncpu ismp bcpu ioapicid lapic h1] in *.
    unfold configured. rewrite M' in Hh'. destruct (in_order 0 (procs es)); cbn in Hh'; [|done].
    destruct Hh' as (-> & -> & -> & -> & -> & ->). split_and!; [done|lia|done|done|done|].
    intros i Hi. apply Hids. lia.
Qed.

(** A machine with two processors, the second the boot one, and an I/O APIC
    with id 2; the tables are at 0x9fc00. *)
Definition mp_bytes : list Z :=
  sig_mp ++ [16; 252; 9; 0; 1; 4; 139; 0; 0; 0; 0; 0] ++
  sig_conf ++ [92; 0; 4; 133] ++ replicate 20 0 ++ [0; 0; 0; 0; 0; 0; 3; 0] ++ [0; 0; 224; 254; 0; 0; 0; 0] ++
  ([0; 0; 0; 1] ++ replicate 16 0) ++ ([0; 1; 0; 3] ++ replicate 16 0) ++ [2; 2; 0; 1; 0; 0; 0; 0].
Definition mp_memory : mem := fun a =>
  if a =? p2v 1024 + 15 then 159
  else if a =? p2v 1024 + 14 then 192
  else if ((p2v 654336 <=? a) && (a <? p2v 654336 + 108))%bool then mp_bytes.[a - p2v 654336]
  else 0.

Lemma mpinit_reads_witness :
  let es := [Eproc 0 1; Eproc 1 3; Eioapic 2] in
  mpconfig mp_memory = Some (p2v 654336, p2v 654352) /\
  exists h', mpinit mp_memory (hw0 [0]) = Ok tt h' /\ configured mp_memory (p2v 654352) es h'.
Proof.
  intros es. assert (mpconfig mp_memory = Some (p2v 654336, p2v 654352)) as E by (vm_compute; reflexivity).
  split; [exact E|]. apply (mpinit_reads mp_memory (p2v 654336)); [exact E| |vm_compute; discriminate|done].
  vm_compute. repeat split. discriminate.
Defined.

(** ** Tables mpinit() does not survive *)

(** The entries [es] lead from [p] to an entry of another type at [q]. *)
Fixpoint leads_to (m : mem) (p : Z) (es : list entry) (q e : Z) : Prop :=
  match es with
  | [] => p = q
  | x :: es => p < e /\ entry_at m p x /\ leads_to m (p + entry_size x) es q e
  end.

Definition unknown (t : Z) : Prop :=
  t <> MPPROC /\ t <> MPBUS /\ t <> MPIOAPIC /\ t <> MPIOINTR /\ t <> MPLINTR.

Lemma unknown_stuck m fuel q e h :
  q < e -> unknown (m q) -> mpinit_loop m fuel q e h = Fault "mpinit does not end".
Proof.
  intros Hq (H0 & H1 & H2 & H3 & H4). revert h. induction fuel as [|fuel IH]; intros h; cbn [mpinit_loop].
  all: assert ((q <? e) = true) as -> by (by apply Z.ltb_lt); cbn [negb].
  { done. }
  apply Z.eqb_neq in H0, H1, H2, H3, H4. rewrite H0, H1, H2, H3, H4. cbn [orb].
  unfold mbind, M_bind, hprintf, emit, set_ismp, modify. apply IH.
Qed.

(** An entry of an unknown type is never passed: whatever entries come
    before it, the loop of [mpinit] has not returned after any number of
    iterations. *)
Theorem mpinit_unknown_loops m es fuel p q e h :
  leads_to m p es q e -> q < e -> unknown (m q) -> cpus_ok h ->
  ncpu h + Z.of_nat (length (procs es)) <= NCPU ->
  mpinit_loop m fuel p e h = Fault "mpinit does not end".
Proof.
  revert fuel p h. induction es as [|x es IH]; intros fuel p h Hl Hq Hu Hok Hn.
  - cbn in Hl. subst. by apply unknown_stuck.
  - destruct Hl as (Hp & Hx & Hl). destruct fuel as [|fuel].
    { cbn. assert ((p <? e) = true) as -> by (by apply Z.ltb_lt). done. }
    assert (length (procs (x :: es)) = (length (procs [x]) + length (procs es))%nat) as El
      by (by destruct x).
    destruct (entry_run m p x e fuel h Hx Hp Hok) as (h1 & S1 & ->); [lia|].
    apply IH; [done|done|done|apply S1|]. rewrite (sc_ncpu _ _ _ S1). lia.
Qed.

(** A processor, then an entry of type 128 (the extended table). *)
Lemma mpinit_unknown_loops_witness :
  let m := fun a => if a =? 20 then 128 else 0 in
  mpinit_loop m 1000 0 40 (hw0 []) = Fault "mpinit does not end".
Proof.
  intros m. apply (mpinit_unknown_loops m [Eproc 0 0] 1000 0 20 40).
  - cbn. unfold sizeof_mpproc. split_and!; done.
  - lia.
  - unfold unknown. cbn. done.
  - by apply cpus_ok_start.
  - cbn. unfold NCPU. lia.
Defined.
