(* ===== verification/Ide.v ===== *)
(** ide.c: the driver of an IDE disk.

    A [struct buf *] is an index of [ide_bufs]; the list linked by [qnext] from
    [idequeue] is the list of its buffers, whose first one is the active
    request.  The data of a buffer are its 128 words. *)

From stdpp Require Import prelude strings gmap list.
From S2P Require Import Prelude Param Hw.

Record ibuf := IBuf { ib_flags : Z; ib_dev : Z; ib_sector : Z; ib_data : list Z }.

Record ide := Ide {
  ide_hw : hw;
  ide_bufs : list ibuf;
  idequeue : list nat;
  ide_wakeups : list chan
}.

Definition IDE_BSY : Z := 128.
Definition IDE_DRDY : Z := 64.
Definition IDE_DF : Z := 32.
Definition IDE_ERR : Z := 1.
Definition IDE_CMD_READ : Z := 32.
Definition IDE_CMD_WRITE : Z := 48.

Definition onhw {A} : M hw A -> M ide A :=
  lift ide_hw (fun h s => Ide h (ide_bufs s) (idequeue s) (ide_wakeups s)).
Definition get_ibuf (b : nat) : M ide ibuf :=
  s ← get; of_option "buffer" (ide_bufs s !! b).
Definition set_ibuf (b : nat) (x : ibuf) : M ide unit :=
  modify (fun s => Ide (ide_hw s) (<[b := x]> (ide_bufs s)) (idequeue s) (ide_wakeups s)).
Definition set_queue (q : list nat) : M ide unit :=
  modify (fun s => Ide (ide_hw s) (ide_bufs s) q (ide_wakeups s)).

(** The loop of [idewait]: the status. *)
Fixpoint idewait_loop (fuel : nat) : M hw Z :=
  match fuel with
  | O => fault "waiting for a device"
  | S fuel =>
      r ← inb 503;
      if r .& (IDE_BSY .| IDE_DRDY) =? IDE_DRDY then mret r else idewait_loop fuel
  end.

Definition idewait (checkerr : bool) : M hw Z :=
  h ← get;
  r ← idewait_loop (length (hw_in h));
  mret (if (checkerr && ctrue (r .& (IDE_DF .| IDE_ERR)))%bool then -1 else 0).

(** [for(i=0; i<1000; i++) if(inb(0x1f7) != 0)] *)
Fixpoint probe_disk1 (n : nat) : M hw unit :=
  match n with
  | O => mret tt
  | S n => r ← inb 503; if ctrue r then set_havedisk1 1 else probe_disk1 n
  end.

Definition ideinit : M hw unit :=
  picenable IRQ_IDE;;
  n ← gets ncpu;
  ioapicenable IRQ_IDE (n - 1);;
  idewait false;;
  outb 502 (224 .| (1 << 4));;
  probe_disk1 1000;;
  outb 502 (224 .| (0 << 4)).

(** The accesses of [idestart] for the buffer [x]. *)
Definition idestart_hw (x : ibuf) : M hw unit :=
  idewait false;;
  outb 1014 0;;
  outb 498 1;;
  outb 499 (ib_sector x .& 255);;
  outb 500 ((ib_sector x >> 8) .& 255);;
  outb 501 ((ib_sector x >> 16) .& 255);;
  outb 502 (224 .| ((ib_dev x .& 1) << 4) .| ((ib_sector x >> 24) .& 15));;
  if ctrue (ib_flags x .& B_DIRTY) then
    outb 503 IDE_CMD_WRITE;;
    outsl 496 (ib_data x)
  else outb 503 IDE_CMD_READ.

Definition idestart (b : option nat) : M ide unit :=
  match b with
  | None => panic "idestart"
  | Some b => x ← get_ibuf b; onhw (idestart_hw x)
  end.

Definition ideintr : M ide unit :=
  s ← get;
  match idequeue s with
  | [] => mret tt
  | b :: q =>
      set_queue q;;
      x ← get_ibuf b;
      data ← (if ctrue (ib_flags x .& B_DIRTY) then mret (ib_data x)
              else
                r ← onhw (idewait true);
                if 0 <=? r then onhw (insl 496 128) else mret (ib_data x));
      set_ibuf b (IBuf ((ib_flags x .| B_VALID) .& Z.lnot B_DIRTY) (ib_dev x) (ib_sector x) data);;
      modify (fun s => Ide (ide_hw s) (ide_bufs s) (idequeue s) (ide_wakeups s ++ [ChBuf (Z.of_nat b)]));;
      match q with
      | [] => mret tt
      | n :: _ => idestart (Some n)
      end
  end.

(** The loop that waits for the request; a [Sleep] runs it again when woken. *)
Definition iderw_wait (b : nat) : M ide unit :=
  x ← get_ibuf b;
  if ib_flags x .& (B_VALID .| B_DIRTY) =? B_VALID then mret tt else sleep_on (ChBuf (Z.of_nat b)).

Definition iderw (b : nat) : M ide unit :=
  x ← get_ibuf b;
  s ← get;
  if negb (ctrue (ib_flags x .& B_BUSY)) then panic "iderw: buf not busy"
  else if ib_flags x .& (B_VALID .| B_DIRTY) =? B_VALID then panic "iderw: nothing to do"
  else if (negb (ib_dev x =? 0) && (havedisk1 (ide_hw s) =? 0))%bool
       then panic "iderw: ide disk 1 not present"
  else
    set_queue (idequeue s ++ [b]);;
    when (bool_decide (idequeue s = [])) (idestart (Some b));;
    iderw_wait b.

(** ** What the disk is told *)

(** The last value written to a port. *)
Definition last_out (port : Z) (t : list event) : Z :=
  foldl (fun v e => match e with Outb p w => if p =? port then w else v | _ => v end) 0 t.

(** The command in the registers of the controller: write or read, the drive
    and the sector of a 28-bit address, and the words sent. *)
Record command := Command { cm_write : bool; cm_drive : Z; cm_sector : Z; cm_words : list Z }.

Definition out_words (t : list event) : list Z :=
  omap (fun e => match e with Outl 496 w => Some w | _ => None end) t.

Definition decode (t : list event) : command :=
  Command (last_out 503 t =? IDE_CMD_WRITE) ((last_out 502 t >> 4) .& 1)
    (last_out 499 t + (last_out 500 t << 8) + (last_out 501 t << 16) + ((last_out 502 t .& 15) << 24))
    (out_words t).
