(* ===== verification/Console.v ===== *)
(** console.c, kbd.c and kbd.h: console output, the screen, the keyboard and
    the line-editing input buffer. *)

From stdpp Require Import prelude strings gmap list.
From S2P Require Import Prelude Param Hw.

(** ** Output *)

(** [consputc(BACKSPACE)] *)
Definition BACKSPACE : Z := 256.
Definition PERCENT : Z := 37.

Definition cdigits : list Z :=
  [48; 49; 50; 51; 52; 53; 54; 55; 56; 57; 97; 98; 99; 100; 101; 102].

(** [do ... while((x /= base) != 0)]: the digits in [buf], last one first; 32
    bits have at most 32 digits. *)
Fixpoint cprintint_digits (fuel : nat) (x base : Z) : list Z :=
  match fuel with
  | O => []
  | S fuel =>
      cdigits.[x mod base] ::
      (if x / base =? 0 then [] else cprintint_digits fuel (x / base) base)
  end.

(** The characters put; [xx] is an [int], negated as an unsigned one. *)
Definition cprintint (xx base : Z) (sign : bool) : list Z :=
  let neg := (sign && (xx <? 0))%bool in
  let x := if neg then u32 (- xx) else u32 xx in
  let buf := cprintint_digits 32 x base in
  reverse (if neg then buf ++ [45] else buf).

(** An argument of [cprintf]: a word, or the string a pointer leads to. *)
Inductive carg := CInt (v : Z) | CStr (s : option (list Z)).

Definition cnull : list Z := [40; 110; 117; 108; 108; 41].

(** The characters [cprintf] puts; [None] when the arguments do not match. *)
Fixpoint cprintf (fmt : list Z) (args : list carg) : option (list Z) :=
  match fmt with
  | [] => Some []
  | c :: fmt' =>
      if negb (c =? PERCENT) then app [c] <$> cprintf fmt' args
      else
        match fmt' with
        | [] => Some []
        | c :: fmt' =>
            if c =? 100 then
              match args with
              | CInt v :: args => app (cprintint (s32 v) 10 true) <$> cprintf fmt' args
              | _ => None
              end
            else if ((c =? 120) || (c =? 112))%bool then
              match args with
              | CInt v :: args => app (cprintint (s32 v) 16 false) <$> cprintf fmt' args
              | _ => None
              end
            else if c =? 115 then
              match args with
              | CStr s :: args => app (default cnull s) <$> cprintf fmt' args
              | _ => None
              end
            else if c =? PERCENT then app [PERCENT] <$> cprintf fmt' args
            else app [PERCENT; c] <$> cprintf fmt' args
        end
  end.

(** ** The screen *)

(** The cells of CGA memory, 25 rows of 80, and the cursor. *)
Record screen := Screen { crt : list Z; pos : Z }.

Definition blank : Z := 32 .| 1792.

(** [crt[p] = v]; outside the memory of the screen it faults. *)
Definition put_cell (p v : Z) : M screen unit := fun s =>
  if ((0 <=? p) && (p <? Z.of_nat (length (crt s))))%bool
  then Ok tt (Screen (<[Z.to_nat p := v]> (crt s)) (pos s)) else Fault "outside the screen".

Definition set_pos (p : Z) : M screen unit := modify (fun s => Screen (crt s) p).

(** [memmove] and [memset] of [n] cells; outside the memory of the screen they
    fault, and so does a negative number, which is a huge size. *)
Definition in_screen (p n : Z) (s : screen) : bool :=
  ((0 <=? p) && (0 <=? n) && (p + n <=? Z.of_nat (length (crt s))))%bool.

Definition move_cells (dst src n : Z) : M screen unit := fun s =>
  if (in_screen dst n s && in_screen src n s)%bool
  then Ok tt (Screen (take (Z.to_nat dst) (crt s) ++ slice (crt s) (Z.to_nat src) (Z.to_nat n) ++
                      drop (Z.to_nat (dst + n)) (crt s)) (pos s))
  else Fault "memmove outside the screen".

Definition clear_cells (p n : Z) : M screen unit := fun s =>
  if in_screen p n s
  then Ok tt (Screen (take (Z.to_nat p) (crt s) ++ replicate (Z.to_nat n) 0 ++
                      drop (Z.to_nat (p + n)) (crt s)) (pos s))
  else Fault "memset outside the screen".

Definition cgaputc (c : Z) : M screen unit :=
  p ← gets pos;
  p ← (if c =? 10 then mret (p + (80 - Z.rem p 80))
       else if c =? BACKSPACE then mret (if 0 <? p then p - 1 else p)
       else put_cell p ((c .& 255) .| 1792);; mret (p + 1));
  p ← (if 24 <=? Z.quot p 80 then
         move_cells 0 80 (23 * 80);;
         let p := p - 80 in
         clear_cells p (24 * 80 - p);;
         mret p
       else mret p);
  set_pos p;;
  put_cell p blank.

(** What [consputc] sends to the serial port. *)
Definition uart_bytes (c : Z) : list Z := if c =? BACKSPACE then [8; 32; 8] else [c].

(** ** The keyboard *)

Definition SHIFT : Z := 1.
Definition CTL : Z := 2.
Definition ALT : Z := 4.
Definition CAPSLOCK : Z := 8.
Definition NUMLOCK : Z := 16.
Definition SCROLLLOCK : Z := 32.
Definition E0ESC : Z := 64.

(** An array of 256 with the first elements and designated ones. *)
Definition table (l : list Z) (ds : list (nat * Z)) : list Z :=
  foldl (fun t d => <[d.1 := d.2]> t) (l ++ replicate (256 - length l) 0) ds.

Definition shiftcode : list Z :=
  table [] [(29%nat, CTL); (42%nat, SHIFT); (54%nat, SHIFT); (56%nat, ALT); (157%nat, CTL); (184%nat, ALT)].

Definition togglecode : list Z :=
  table [] [(58%nat, CAPSLOCK); (69%nat, NUMLOCK); (70%nat, SCROLLLOCK)].

(** The keypad and the KEY_ codes, common to the three maps. *)
Definition special_keys : list (nat * Z) :=
  [(200%nat, 226); (208%nat, 227); (201%nat, 230); (209%nat, 231); (203%nat, 228); (205%nat, 229);
   (151%nat, 224); (207%nat, 225); (210%nat, 232); (211%nat, 233)].

Definition normalmap : list Z := table
  [0; 27; 49; 50; 51; 52; 53; 54;
   55; 56; 57; 48; 45; 61; 8; 9;
   113; 119; 101; 114; 116; 121; 117; 105;
   111; 112; 91; 93; 10; 0; 97; 115;
   100; 102; 103; 104; 106; 107; 108; 59;
   39; 96; 0; 92; 122; 120; 99; 118;
   98; 110; 109; 44; 46; 47; 0; 42;
   0; 32; 0; 0; 0; 0; 0; 0;
   0; 0; 0; 0; 0; 0; 0; 55;
   56; 57; 45; 52; 53; 54; 43; 49;
   50; 51; 48; 46; 0; 0; 0; 0]
  ([(156%nat, 10); (181%nat, 47)] ++ special_keys).

Definition shiftmap : list Z := table
  [0; 27; 33; 64; 35; 36; 37; 94;
   38; 42; 40; 41; 95; 43; 8; 9;
   81; 87; 69; 82; 84; 89; 85; 73;
   79; 80; 123; 125; 10; 0; 65; 83;
   68; 70; 71; 72; 74; 75; 76; 58;
   34; 126; 0; 124; 90; 88; 67; 86;
   66; 78; 77; 60; 62; 63; 0; 42;
   0; 32; 0; 0; 0; 0; 0; 0;
   0; 0; 0; 0; 0; 0; 0; 55;
   56; 57; 45; 52; 53; 54; 43; 49;
   50; 51; 48; 46; 0; 0; 0; 0]
  ([(156%nat, 10); (181%nat, 47)] ++ special_keys).

(** [C('/')] is negative; the array holds unsigned bytes. *)
Definition ctlmap : list Z := table
  [0; 0; 0; 0; 0; 0; 0; 0;
   0; 0; 0; 0; 0; 0; 0; 0;
   17; 23; 5; 18; 20; 25; 21; 9;
   15; 16; 0; 0; 13; 0; 1; 19;
   4; 6; 7; 8; 10; 11; 12; 0;
   0; 0; 0; 28; 26; 24; 3; 22;
   2; 14; 13; 0; 0; u8 (-17); 0; 0]
  ([(156%nat, 13); (181%nat, u8 (-17))] ++ special_keys).

Definition charcode (i : Z) : list Z :=
  if i =? 0 then normalmap else if i =? 1 then shiftmap else ctlmap.

(** [kbdgetc] after a data byte has been read: the result and [shift]. *)
Definition kbd_data (data shift : Z) : Z * Z :=
  if data =? 224 then (0, shift .| E0ESC)
  else if ctrue (data .& 128) then
    let data := if ctrue (shift .& E0ESC) then data else data .& 127 in
    (0, shift .& Z.lnot (shiftcode.[data] .| E0ESC))
  else
    let '(data, shift) := if ctrue (shift .& E0ESC) then (data .| 128, shift .& Z.lnot E0ESC)
                          else (data, shift) in
    let shift := shift .| shiftcode.[data] in
    let shift := Z.lxor shift togglecode.[data] in
    let c := (charcode (shift .& (CTL .| SHIFT))).[data] in
    let c := if ctrue (shift .& CAPSLOCK) then
               if ((97 <=? c) && (c <=? 122))%bool then c + (65 - 97)
               else if ((65 <=? c) && (c <=? 90))%bool then c + (97 - 65)
               else c
             else c in
    (c, shift).

Definition KBSTATP : Z := 100.
Definition KBDATAP : Z := 96.
Definition KBS_DIB : Z := 1.

Definition kbdgetc : M hw Z :=
  st ← inb KBSTATP;
  if st .& KBS_DIB =? 0 then mret (-1)
  else
    data ← inb KBDATAP;
    shift ← gets kbd_shift;
    let '(c, shift) := kbd_data data shift in
    set_kbd_shift shift;;
    mret c.

(** ** Input *)

Definition INPUT_BUF : Z := 128.

Record input := Input { in_buf : list Z; in_r : Z; in_w : Z; in_e : Z }.

(** What a call does besides changing the buffer. *)
Inductive ceffect := Put (c : Z) | Dump | Wake (ch : chan).

Definition input0 : input := Input (replicate (Z.to_nat INPUT_BUF) 0) 0 0 0.

(** [C('P')] and the like. *)
Definition CTRL_P : Z := 16.
Definition CTRL_U : Z := 21.
Definition CTRL_H : Z := 8.
Definition CTRL_D : Z := 4.
Definition DEL : Z := 127.

(** The loop of C('U'): a line has at most [INPUT_BUF] characters. *)
Fixpoint kill_line (fuel : nat) (i : input) : list ceffect * input :=
  match fuel with
  | O => ([], i)
  | S fuel =>
      if (negb (in_e i =? in_w i) && negb ((in_buf i).[u32 (in_e i - 1) mod INPUT_BUF] =? 10))%bool then
        let '(l, i) := kill_line fuel (Input (in_buf i) (in_r i) (in_w i) (u32 (in_e i - 1))) in
        (Put BACKSPACE :: l, i)
      else ([], i)
  end.

(** [input.buf] holds characters: the low byte. *)
Definition intr_char (c : Z) (i : input) : list ceffect * input :=
  if c =? CTRL_P then ([Dump], i)
  else if c =? CTRL_U then kill_line (Z.to_nat INPUT_BUF) i
  else if ((c =? CTRL_H) || (c =? DEL))%bool then
    if negb (in_e i =? in_w i)
    then ([Put BACKSPACE], Input (in_buf i) (in_r i) (in_w i) (u32 (in_e i - 1)))
    else ([], i)
  else if (negb (c =? 0) && (u32 (in_e i - in_r i) <? INPUT_BUF))%bool then
    let c := if c =? 13 then 10 else c in
    let e := u32 (in_e i + 1) in
    let buf := <[Z.to_nat (in_e i mod INPUT_BUF) := u8 c]> (in_buf i) in
    if ((c =? 10) || (c =? CTRL_D) || (e =? u32 (in_r i + INPUT_BUF)))%bool
    then ([Put c; Wake ChInput], Input buf (in_r i) e e)
    else ([Put c], Input buf (in_r i) (in_w i) e)
  else ([], i).

(** [consoleintr] on the characters [getc] returns before it returns -1. *)
Fixpoint consoleintr (cs : list Z) (i : input) : list ceffect * input :=
  match cs with
  | [] => ([], i)
  | c :: cs =>
      let '(l1, i) := intr_char c i in
      let '(l2, i) := consoleintr cs i in
      (l1 ++ l2, i)
  end.

(** A read that returns, or sleeps with [n] bytes still to read. *)
Inductive read_out := RRet (v : Z) | RSleep (n : Z).

(** The loop of [consoleread] with [n] bytes left of [target]: the outcome, the
    bytes stored at [dst] and the buffer. *)
Fixpoint consoleread_loop (n : nat) (target : Z) (killed : bool) (i : input)
    : read_out * list Z * input :=
  match n with
  | O => (RRet target, [], i)
  | S n' =>
      if in_r i =? in_w i then
        if killed then (RRet (-1), [], i) else (RSleep (Z.of_nat n), [], i)
      else
        let c := (in_buf i).[in_r i mod INPUT_BUF] in
        let i' := Input (in_buf i) (u32 (in_r i + 1)) (in_w i) (in_e i) in
        if c =? CTRL_D then
          (RRet (target - Z.of_nat n), [], if Z.of_nat n <? target then i else i')
        else if c =? 10 then (RRet (target - Z.of_nat n'), [c], i')
        else
          let '(out, l, i'') := consoleread_loop n' target killed i' in
          (out, c :: l, i'')
  end.

Definition consoleread (target : Z) (killed : bool) (i : input) : read_out * list Z * input :=
  if target <=? 0 then (RRet 0, [], i) else consoleread_loop (Z.to_nat target) target killed i.

(** The characters [consolewrite] puts, and its result. *)
Definition consolewrite (buf : list Z) (n : Z) : list ceffect * Z :=
  ((fun c => Put (c .& 255)) <$> take (Z.to_nat n) buf, n).

(** ** The screen is a terminal *)

(** A terminal of 24 rows of 80 cells with a cursor. *)
Record term := Term { cell : Z -> Z -> Z; trow : Z; tcol : Z }.

Definition set_cell (r c v : Z) (t : term) : term :=
  Term (fun r' c' => if decide (r' = r /\ c' = c) then v else cell t r' c') (trow t) (tcol t).

(** A character is drawn at the cursor, which moves on; a newline moves it to
    the next row, a backspace one cell back. *)
Definition term_draw (c : Z) (t : term) : term :=
  if c =? 10 then Term (cell t) (trow t + 1) 0
  else if c =? BACKSPACE then
    if 0 <? tcol t then Term (cell t) (trow t) (tcol t - 1)
    else if 0 <? trow t then Term (cell t) (trow t - 1) 79 else t
  else
    let t := set_cell (trow t) (tcol t) ((c .& 255) .| 1792) t in
    if tcol t =? 79 then Term (cell t) (trow t + 1) 0 else Term (cell t) (trow t) (tcol t + 1).

(** Past the last row, the rows move up and the last one is empty. *)
Definition term_scroll (t : term) : term :=
  if trow t =? 24 then Term (fun r c => if r =? 23 then 0 else cell t (r + 1) c) 23 (tcol t) else t.

(** The cursor is drawn as a blank. *)
Definition term_putc (t : term) (c : Z) : term :=
  let t := term_scroll (term_draw c t) in set_cell (trow t) (tcol t) blank t.

(** The screen shows the terminal, in the first 24 of its 25 rows. *)
Record shows (s : screen) (t : term) : Prop := {
  sh_len : length (crt s) = Z.to_nat 2000;
  sh_row : 0 <= trow t < 24;
  sh_col : 0 <= tcol t < 80;
  sh_pos : pos s = 80 * trow t + tcol t;
  sh_cell r c : 0 <= r < 24 -> 0 <= c < 80 -> crt s !! Z.to_nat (80 * r + c) = Some (cell t r c)
}.

Lemma put_cell_run s p v :
  0 <= p < Z.of_nat (length (crt s)) ->
  put_cell p v s = Ok tt (Screen (<[Z.to_nat p := v]> (crt s)) (pos s)).
Proof.
  intros Hp. unfold put_cell. destruct (Z.leb_spec 0 p), (Z.ltb_spec p (Z.of_nat (length (crt s)))); try lia.
  done.
Qed.

(** Where the cursor goes before scrolling. *)
Definition advance (c p : Z) : Z :=
  if c =? 10 then p + (80 - Z.rem p 80) else if c =? BACKSPACE then Z.max 0 (p - 1) else p + 1.

(** The cells after [cgaputc] and before the cursor is drawn. *)
Definition drawn (c : Z) (s : screen) : list Z :=
  if ((c =? 10) || (c =? BACKSPACE))%bool then crt s
  else <[Z.to_nat (pos s) := (c .& 255) .| 1792]> (crt s).

Definition scrolled (l : list Z) : list Z :=
  slice l 80 (23 * 80) ++ replicate 80 0 ++ drop (24 * 80) l.

Lemma length_drawn c s : length (drawn c s) = length (crt s).
Proof. unfold drawn. destruct (_ || _)%bool; [done|apply length_insert]. Qed.

Lemma length_scrolled l : length l = 2000%nat -> length (scrolled l) = 2000%nat.
Proof.
  intros Hl. unfold scrolled, slice. rewrite !length_app, length_take, length_replicate, !length_drop. lia.
Qed.

(** The two block operations of the scroll. *)
Lemma scroll_run l q :
  length l = 2000%nat ->
  (move_cells 0 80 (23 * 80);; clear_cells 1840 (24 * 80 - 1840);; mret 1840) (Screen l q) =
    Ok 1840 (Screen (scrolled l) q).
Proof.
  intros Hl. set (m := slice l 80 1840). assert (length m = 1840%nat) as Hm.
  { unfold m, slice. rewrite length_take, length_drop. lia. }
  erewrite bind_run; cycle 1.
  { unfold move_cells, in_screen. cbn [crt pos]. rewrite Hl. reflexivity. }
  erewrite bind_run; [reflexivity|]. unfold clear_cells, in_screen. cbn [crt pos].
  change (Z.to_nat (23 * 80)) with 1840%nat. change (Z.to_nat 80) with 80%nat. fold m.
  change (take (Z.to_nat 0) l) with (@nil Z). rewrite app_nil_l.
  change (Z.to_nat (0 + 23 * 80)) with 1840%nat. change (Z.to_nat 1840) with 1840%nat.
  change (Z.to_nat (24 * 80 - 1840)) with 80%nat. change (Z.to_nat (1840 + (24 * 80 - 1840))) with 1920%nat.
  assert (length (m ++ drop 1840 l) = 2000%nat) as Hl2 by (rewrite length_app, length_drop; lia).
  rewrite Hl2. cbn [Z.leb andb]. rewrite take_app_length' by done.
  rewrite drop_app_ge, drop_drop by lia. rewrite Hm. reflexivity.
Qed.

Lemma cgaputc_run c s :
  length (crt s) = 2000%nat -> 0 <= pos s < 1920 -> 0 <= advance c (pos s) <= 1920 ->
  let p := advance c (pos s) in
  cgaputc c s = Ok tt (if 1920 <=? p
    then Screen (<[1840%nat := blank]> (scrolled (drawn c s))) 1840
    else Screen (<[Z.to_nat p := blank]> (drawn c s)) p).
Proof.
  intros Hl Hp Hb p. fold p in Hb.
  pose proof (length_drawn c s) as Hd. rewrite Hl in Hd.
  unfold cgaputc. erewrite bind_run; [|reflexivity].
  erewrite (bind_run _ _ _ p (Screen (drawn c s) (pos s))); cycle 1.
  { unfold p, advance, drawn. destruct (c =? 10); [by destruct s|].
    destruct (c =? BACKSPACE); cbn [orb].
    - destruct (Z.ltb_spec 0 (pos s)); destruct s; unfold mret, M_ret; simpl in *; f_equal; lia.
    - erewrite bind_run; [|apply put_cell_run; rewrite Hl; lia]. done. }
  rewrite Z.quot_div_nonneg by lia. destruct (Z.leb_spec 1920 p) as [Hs|Hs].
  - assert (p = 1920) as -> by lia. change (24 <=? 1920 / 80) with true. cbv iota zeta.
    change (1920 - 80) with 1840. erewrite bind_run; [|apply scroll_run; done].
    erewrite bind_run; [|reflexivity]. rewrite put_cell_run; [done|].
    cbn [crt]. rewrite length_scrolled by done. lia.
  - assert (p / 80 < 24) by (apply Z.div_lt_upper_bound; lia).
    destruct (Z.leb_spec 24 (p / 80)); [lia|]. erewrite bind_run; [|reflexivity].
    erewrite bind_run; [|reflexivity]. rewrite put_cell_run by (cbn [crt]; rewrite Hd; lia). done.
Qed.

(** Cells of two places are different. *)
Lemma cell_eq r c r' c' :
  0 <= r -> 0 <= c < 80 -> 0 <= r' -> 0 <= c' < 80 ->
  Z.to_nat (80 * r + c) = Z.to_nat (80 * r' + c') <-> r = r' /\ c = c'.
Proof. intros. split; [lia|]. by intros [-> ->]. Qed.

Lemma insert_cell l r c v r' c' t :
  length l = 2000%nat -> 0 <= r < 24 -> 0 <= c < 80 -> 0 <= r' < 24 -> 0 <= c' < 80 ->
  l !! Z.to_nat (80 * r' + c') = Some (cell t r' c') ->
  <[Z.to_nat (80 * r + c) := v]> l !! Z.to_nat (80 * r' + c') = Some (cell (set_cell r c v t) r' c').
Proof.
  intros Hl Hr Hc Hr' Hc' E. cbn [cell set_cell]. case_decide as Ed.
  - destruct Ed as [-> ->]. apply list_lookup_insert_eq. lia.
  - rewrite list_lookup_insert_ne; [done|]. rewrite cell_eq by lia. intros [-> ->]. by apply Ed.
Qed.

(** The cells and the cursor before the scroll. *)
Lemma draw_shows c s t :
  shows s t ->
  let t' := term_draw c t in
  0 <= trow t' <= 24 /\ 0 <= tcol t' < 80 /\ (trow t' = 24 -> tcol t' = 0) /\
  advance c (pos s) = 80 * trow t' + tcol t' /\
  (forall r k, 0 <= r < 24 -> 0 <= k < 80 -> drawn c s !! Z.to_nat (80 * r + k) = Some (cell t' r k)) /\
  (forall i, (1920 <= i)%nat -> drawn c s !! i = crt s !! i).
Proof.
  intros [Hl Hr Hc Hp Hcell]. cbv zeta. unfold term_draw, advance, drawn. rewrite Hp.
  assert (Z.rem (80 * trow t + tcol t) 80 = tcol t) as Erem.
  { rewrite Z.rem_mod_nonneg by lia. rewrite Z.mul_comm, Z.add_comm, Z_mod_plus_full.
    apply Z.mod_small. lia. }
  destruct (c =? 10).
  { cbn [orb cell trow tcol]. rewrite Erem. split_and!; lia || done. }
  destruct (c =? BACKSPACE); cbn [orb].
  { destruct (Z.ltb_spec 0 (tcol t)); [|destruct (Z.ltb_spec 0 (trow t))]; cbn [cell trow tcol];
      split_and!; lia || done. }
  assert (forall r k, 0 <= r < 24 -> 0 <= k < 80 ->
    <[Z.to_nat (80 * trow t + tcol t) := (c .& 255) .| 1792]> (crt s) !! Z.to_nat (80 * r + k) =
      Some (cell (set_cell (trow t) (tcol t) ((c .& 255) .| 1792) t) r k)) as Hin.
  { intros r k Hr' Hk. apply insert_cell; try done. by apply Hcell. }
  assert (forall i, (1920 <= i)%nat ->
    <[Z.to_nat (80 * trow t + tcol t) := (c .& 255) .| 1792]> (crt s) !! i = crt s !! i) as Hout.
  { intros i Hi. apply list_lookup_insert_ne. lia. }
  cbn [trow tcol set_cell]. destruct (Z.eqb_spec (tcol t) 79); cbn [trow tcol];
    split_and!; lia || done.
Qed.

(** The scroll moves every row up. *)
Lemma lookup_scrolled l r k :
  length l = 2000%nat -> 0 <= r < 24 -> 0 <= k < 80 ->
  scrolled l !! Z.to_nat (80 * r + k) =
    if r =? 23 then Some 0 else l !! Z.to_nat (80 * (r + 1) + k).
Proof.
  intros Hl Hr Hk. unfold scrolled, slice.
  assert (length (take (23 * 80) (drop 80 l)) = 1840%nat) as Hm by (rewrite length_take, length_drop; lia).
  destruct (Z.eqb_spec r 23) as [->|Hne].
  - rewrite lookup_app_r by lia. rewrite lookup_app_l by (rewrite length_replicate, Hm; lia).
    apply lookup_replicate_2. lia.
  - rewrite lookup_app_l by lia. rewrite lookup_take_lt by lia. rewrite lookup_drop. f_equal. lia.
Qed.

Lemma scrolled_rest l i : length l = 2000%nat -> (1920 <= i)%nat -> scrolled l !! i = l !! i.
Proof.
  intros Hl Hi. unfold scrolled, slice.
  assert (length (take (23 * 80) (drop 80 l)) = 1840%nat) as Hm by (rewrite length_take, length_drop; lia).
  rewrite lookup_app_r, Hm by lia. rewrite lookup_app_r, length_replicate by (rewrite length_replicate; lia).
  rewrite lookup_drop. f_equal. lia.
Qed.

Lemma cgaputc_shows c s t :
  shows s t ->
  exists s', cgaputc c s = Ok tt s' /\ shows s' (term_putc t c) /\
    forall i, (1920 <= i)%nat -> crt s' !! i = crt s !! i.
Proof.
  intros Hs. pose proof (draw_shows c s t Hs) as D. cbv zeta in D.
  destruct D as (Dr & Dc & D24 & Dp & Dcell & Drest).
  destruct Hs as [Hl Hr Hc Hp _]. assert (length (crt s) = 2000%nat) as Hl' by exact Hl.
  pose proof (length_drawn c s) as Hd. rewrite Hl' in Hd.
  pose proof (cgaputc_run c s Hl' ltac:(lia) ltac:(lia)) as E. cbv zeta in E. rewrite E. clear E.
  unfold term_putc. set (t1 := term_draw c t) in *. unfold term_scroll.
  destruct (Z.leb_spec 1920 (advance c (pos s))) as [H24|H24].
  - assert (trow t1 = 24) as Et by lia. specialize (D24 Et). rewrite (proj2 (Z.eqb_eq _ _) Et).
    cbn [trow tcol].
    eexists. split; [reflexivity|]. pose proof (length_scrolled _ Hd) as Hsc. split.
    + assert (1840%nat = Z.to_nat (80 * 23 + tcol t1)) as Ei by (rewrite D24; reflexivity).
      split; cbn [crt pos trow tcol set_cell]; [rewrite length_insert, Hsc; done|lia|lia|lia|].
      intros r k Hr' Hk. rewrite Ei. apply insert_cell; [done|lia|done|done|done|].
      rewrite lookup_scrolled by done. cbn [cell]. destruct (Z.eqb_spec r 23); [done|]. apply Dcell; lia.
    + intros i Hi. cbn [crt]. rewrite list_lookup_insert_ne by lia. rewrite scrolled_rest by done. by apply Drest.
  - assert (trow t1 <> 24) as Et by lia. rewrite (proj2 (Z.eqb_neq _ _) Et).
    eexists. split; [reflexivity|]. split.
    + split; cbn [crt pos trow tcol set_cell]; [rewrite length_insert, Hd; done|lia|lia|lia|].
      intros r k Hr' Hk. rewrite Dp. apply insert_cell; [done|lia|done|done|done|]. by apply Dcell.
    + intros i Hi. cbn [crt]. rewrite list_lookup_insert_ne by lia. by apply Drest.
Qed.

(** C37: the screen is a terminal.  Whatever is put on it, [cgaputc] never
    faults, and the memory of the screen shows what a terminal of 24 rows of 80
    cells does: a character is drawn at the cursor and the cursor moves on, a
    newline moves it to the next row, a backspace one cell back, past the last
    row everything moves up one row, and the cursor itself is blank.  The 25th
    row is not touched. *)
Theorem cga_refines (cs : list Z) s t :
  shows s t ->
  exists s', for_each cgaputc cs s = Ok tt s' /\ shows s' (foldl term_putc t cs) /\
    forall i, (1920 <= i)%nat -> crt s' !! i = crt s !! i.
Proof.
  revert s t. induction cs as [|c cs IH]; intros s t Hs; [by exists s|].
  destruct (cgaputc_shows c s t Hs) as (s1 & E1 & H1 & R1). cbn [for_each foldl].
  destruct (IH s1 _ H1) as (s2 & E2 & H2 & R2). exists s2.
  split; [by erewrite bind_run; [|exact E1]|]. split; [done|].
  intros i Hi. rewrite R2, R1 by done. done.
Qed.

(** "hi" and a newline at the end of the last row. *)
Lemma cga_refines_witness :
  exists s', for_each cgaputc [104; 105; 10] (Screen (replicate (Z.to_nat 2000) 0) 1918) = Ok tt s' /\
    crt s' !! Z.to_nat (80 * 21 + 78) = Some (104 .| 1792) /\
    crt s' !! Z.to_nat (80 * 21 + 79) = Some (105 .| 1792) /\ pos s' = 80 * 23.
Proof.
  destruct (cga_refines [104; 105; 10] (Screen (replicate (Z.to_nat 2000) 0) 1918)
    (Term (fun _ _ => 0) 23 78)) as (s' & E & [_ _ _ Hp Hc] & _).
  - split; cbn [trow tcol pos crt cell]; [apply length_replicate|lia|lia|lia|].
    intros r c Hr Hc. apply lookup_replicate_2. lia.
  - exists s'. split; [exact E|]. split; [exact (Hc 21 78 ltac:(lia) ltac:(lia))|].
    split; [exact (Hc 21 79 ltac:(lia) ltac:(lia))|exact Hp].
Defined.

(** ** The input buffer is a queue of lines *)

(** [n] characters from index [a] on. *)
Definition ring (buf : list Z) (a n : Z) : list Z := (fun k => buf.[k mod INPUT_BUF]) <$> seqZ a n.

Lemma u32_mod128 x : u32 x mod INPUT_BUF = x mod INPUT_BUF.
Proof.
  unfold u32, INPUT_BUF. change 4294967296 with (128 * 33554432).
  rewrite Z.rem_mul_r by lia. rewrite Z.mul_comm, Z.mod_add by lia. apply Z.mod_mod. lia.
Qed.

Lemma ring_shift buf a b n :
  (forall i, 0 <= i < n -> (a + i) mod INPUT_BUF = (b + i) mod INPUT_BUF) -> ring buf a n = ring buf b n.
Proof.
  intros Hab. unfold ring. apply list_eq_same_length with (n := Z.to_nat n);
    [by rewrite length_fmap, length_seqZ..|].
  intros i x y Hi. rewrite !list_lookup_fmap, !lookup_seqZ_lt by lia. cbn.
  rewrite Hab by lia. congruence.
Qed.

Lemma ring_u32 buf a n : ring buf (u32 a) n = ring buf a n.
Proof.
  apply ring_shift. intros i Hi. rewrite Zplus_mod, u32_mod128, <- Zplus_mod. done.
Qed.

Lemma length_ring buf a n : length (ring buf a n) = Z.to_nat n.
Proof. unfold ring. by rewrite length_fmap, length_seqZ. Qed.

Lemma ring_app buf a n m : 0 <= n -> 0 <= m -> ring buf a (n + m) = ring buf a n ++ ring buf (a + n) m.
Proof. intros Hn Hm. unfold ring. by rewrite seqZ_app, fmap_app by done. Qed.

Lemma ring_one buf a : ring buf a 1 = [buf.[a mod INPUT_BUF]].
Proof. done. Qed.

(** A store outside the range. *)
Lemma ring_insert buf a n v :
  0 <= n < INPUT_BUF -> ring (<[Z.to_nat ((a + n) mod INPUT_BUF) := v]> buf) a n = ring buf a n.
Proof.
  intros Hn. unfold ring. apply list_fmap_ext. intros i j Hj.
  apply lookup_seqZ in Hj as [-> Hj]. unfold INPUT_BUF in *. rewrite !nth_lookup.
  rewrite list_lookup_insert_ne; [done|]. intros E.
  assert ((a + Z.of_nat i) mod 128 = (a + n) mod 128) as E2
    by (pose proof (Z.mod_pos_bound (a + Z.of_nat i) 128 ltac:(lia));
        pose proof (Z.mod_pos_bound (a + n) 128 ltac:(lia)); lia).
  assert ((n - Z.of_nat i) mod 128 = 0) as E3.
  { replace (n - Z.of_nat i) with (a + n - (a + Z.of_nat i)) by lia.
    rewrite Zminus_mod, E2, Z.sub_diag. done. }
  rewrite Z.mod_small in E3 by lia. lia.
Qed.

Definition zlen (l : list Z) : Z := Z.of_nat (length l).

(** The characters a reader can get, and the line being edited. *)
Record input_rep (i : input) (cm ed : list Z) : Prop := {
  rp_len : length (in_buf i) = Z.to_nat INPUT_BUF;
  rp_r : is_u32 (in_r i);
  rp_w : in_w i = u32 (in_r i + zlen cm);
  rp_e : in_e i = u32 (in_r i + (zlen cm + zlen ed));
  rp_total : zlen cm + zlen ed <= INPUT_BUF;
  rp_open : ed <> [] -> zlen cm + zlen ed < INPUT_BUF;
  rp_cm : ring (in_buf i) (in_r i) (zlen cm) = cm;
  rp_ed : ring (in_buf i) (in_r i + zlen cm) (zlen ed) = ed;
  rp_line : Forall (fun c => c <> 10) ed
}.

(** What a character does. *)
Definition spec_char (c : Z) (cm ed : list Z) : list ceffect * (list Z * list Z) :=
  if c =? CTRL_P then ([Dump], (cm, ed))
  else if c =? CTRL_U then (replicate (length ed) (Put BACKSPACE), (cm, []))
  else if ((c =? CTRL_H) || (c =? DEL))%bool then
    match ed with
    | [] => ([], (cm, ed))
    | _ => ([Put BACKSPACE], (cm, take (length ed - 1) ed))
    end
  else if (negb (c =? 0) && (zlen cm + zlen ed <? INPUT_BUF))%bool then
    let c := if c =? 13 then 10 else c in
    if ((c =? 10) || (c =? CTRL_D) || (zlen cm + zlen ed + 1 =? INPUT_BUF))%bool
    then ([Put c; Wake ChInput], (cm ++ ed ++ [c], []))
    else ([Put c], (cm, ed ++ [c]))
  else ([], (cm, ed)).

Lemma zlen_nonneg l : 0 <= zlen l.
Proof. unfold zlen. lia. Qed.

Lemma zlen_app l1 l2 : zlen (l1 ++ l2) = zlen l1 + zlen l2.
Proof. unfold zlen. rewrite length_app. lia. Qed.

(** Equality of two indices near [r]. *)
Lemma u32_eqb r a b :
  0 <= a <= 256 -> 0 <= b <= 256 -> (u32 (r + a) =? u32 (r + b)) = (a =? b).
Proof.
  intros Ha Hb. destruct (Z.eqb_spec a b) as [->|Hne]; [by rewrite Z.eqb_refl|].
  apply Z.eqb_neq. unfold u32. intros E.
  assert ((a - b) mod 4294967296 = 0) as E2.
  { replace (a - b) with (r + a - (r + b)) by lia. by rewrite Zminus_mod, E, Z.sub_diag. }
  apply Z.mod_divide in E2 as [k Hk]; lia.
Qed.

Lemma input_room i cm ed : input_rep i cm ed -> u32 (in_e i - in_r i) = zlen cm + zlen ed.
Proof.
  intros R. pose proof (zlen_nonneg cm). pose proof (zlen_nonneg ed). pose proof (rp_total _ _ _ R).
  rewrite (rp_e _ _ _ R), u32_sub_l. unfold INPUT_BUF in *. rewrite u32_small; lia.
Qed.

Lemma input_editing i cm ed : input_rep i cm ed -> (in_e i =? in_w i) = (zlen ed =? 0).
Proof.
  intros R. pose proof (zlen_nonneg cm). pose proof (zlen_nonneg ed). pose proof (rp_total _ _ _ R).
  unfold INPUT_BUF in *. rewrite (rp_e _ _ _ R), (rp_w _ _ _ R), u32_eqb by lia.
  destruct (Z.eqb_spec (zlen ed) 0), (Z.eqb_spec (zlen cm + zlen ed) (zlen cm)); lia.
Qed.

(** Taking the last character of the line away. *)
Lemma input_back i cm ed c :
  input_rep i cm (ed ++ [c]) ->
  input_rep (Input (in_buf i) (in_r i) (in_w i) (u32 (in_e i - 1))) cm ed /\
  (in_buf i).[u32 (in_e i - 1) mod INPUT_BUF] = c.
Proof.
  intros [Hl Hr Hw He Ht Ho Hcm Hed Hn]. rewrite zlen_app in *. change (zlen [c]) with 1 in *.
  rewrite ring_app in Hed by (try apply zlen_nonneg; lia).
  apply app_inj_2 in Hed as [Hed Hc]; [|rewrite length_ring; done].
  rewrite ring_one in Hc. injection Hc as Hc. apply Forall_app in Hn as [Hn _]. split.
  - constructor; cbn [in_buf in_r in_w in_e]; try done; [|lia|].
    + rewrite He, u32_sub_l. f_equal. lia.
    + intros _. assert (ed ++ [c] <> []) as Hne by by destruct ed. specialize (Ho Hne). lia.
  - rewrite He, u32_sub_l, u32_mod128, <- Hc. do 3 f_equal. lia.
Qed.

Lemma kill_line_spec i cm ed fuel :
  input_rep i cm ed -> (length ed < fuel)%nat ->
  exists i', kill_line fuel i = (replicate (length ed) (Put BACKSPACE), i') /\ input_rep i' cm [].
Proof.
  revert i fuel. induction ed as [|c ed IH] using rev_ind; intros i fuel R Hf.
  - exists i. split; [|done]. destruct fuel; [done|]. cbn [kill_line].
    rewrite (input_editing _ _ _ R). done.
  - destruct fuel as [|fuel]; [lia|]. rewrite length_app in *. cbn [length] in *.
    cbn [kill_line]. rewrite (input_editing _ _ _ R), zlen_app.
    destruct (input_back _ _ _ _ R) as [R' E]. rewrite E.
    pose proof (rp_line _ _ _ R) as Hn. apply Forall_app in Hn as [_ Hn]. inversion Hn; subst.
    pose proof (zlen_nonneg ed). change (zlen [(in_buf i).[u32 (in_e i - 1) mod INPUT_BUF]]) with 1 in *.
    destruct (Z.eqb_spec (zlen ed + 1) 0); [lia|].
    destruct (Z.eqb_spec ((in_buf i).[u32 (in_e i - 1) mod INPUT_BUF]) 10); [done|]. cbn [negb andb].
    destruct (IH _ fuel R' ltac:(lia)) as (i' & -> & Ri'). exists i'. split; [|done].
    rewrite Nat.add_comm. done.
Qed.

(** Appending a character to the line, before it is committed. *)
Lemma input_push i cm ed c :
  input_rep i cm ed -> zlen cm + zlen ed < INPUT_BUF ->
  let buf := <[Z.to_nat (in_e i mod INPUT_BUF) := c]> (in_buf i) in
  ring buf (in_r i) (zlen cm) = cm /\ ring buf (in_r i + zlen cm) (zlen ed + 1) = ed ++ [c].
Proof.
  intros [Hl Hr Hw He Ht Ho Hcm Hed Hn] Hroom buf.
  pose proof (zlen_nonneg cm). pose proof (zlen_nonneg ed).
  assert (ring buf (in_r i) (zlen cm + zlen ed) = cm ++ ed) as Hall.
  { unfold buf. rewrite He, u32_mod128. rewrite ring_insert by lia.
    rewrite ring_app by lia. by rewrite Hcm, Hed. }
  rewrite ring_app in Hall by lia.
  apply app_inj_1 in Hall as [H1 H2]; [|rewrite length_ring; unfold zlen; lia].
  split; [done|]. rewrite ring_app by lia. rewrite H2, ring_one. do 2 f_equal.
  unfold buf. rewrite nth_lookup, He, u32_mod128.
  replace (in_r i + zlen cm + zlen ed) with (in_r i + (zlen cm + zlen ed)) by lia.
  rewrite list_lookup_insert_eq; [done|]. rewrite Hl.
  pose proof (Z.mod_pos_bound (in_r i + (zlen cm + zlen ed)) INPUT_BUF ltac:(done)). lia.
Qed.

Lemma intr_char_spec i cm ed c :
  input_rep i cm ed -> is_u8 c ->
  exists i', intr_char c i = ((spec_char c cm ed).1, i') /\
    input_rep i' (spec_char c cm ed).2.1 (spec_char c cm ed).2.2.
Proof.
  intros R Hc. unfold intr_char, spec_char.
  destruct (c =? CTRL_P); [by exists i|].
  destruct (c =? CTRL_U).
  { apply kill_line_spec; [done|]. pose proof (rp_open _ _ _ R) as Ho. unfold zlen, INPUT_BUF in *.
    destruct ed; [simpl length; lia|]. specialize (Ho ltac:(done)). lia. }
  destruct (_ || _)%bool.
  { rewrite (input_editing _ _ _ R). destruct ed as [|c0 ed] using rev_ind; [by exists i|].
    destruct (input_back _ _ _ _ R) as [R' _]. rewrite zlen_app. pose proof (zlen_nonneg ed).
    change (zlen [c0]) with 1. destruct (Z.eqb_spec (zlen ed + 1) 0); [lia|]. cbn [negb].
    eexists. destruct (ed ++ [c0]) eqn:E; [by destruct ed|]. rewrite <- E. cbn [fst snd].
    split; [done|]. rewrite length_app, take_app_length' by (cbn; lia). done. }
  rewrite (input_room _ _ _ R).
  destruct (negb (c =? 0) && (zlen cm + zlen ed <? INPUT_BUF))%bool eqn:Eroom; [|by exists i].
  apply andb_true_iff in Eroom as [_ Hroom%Z.ltb_lt].
  set (c' := if c =? 13 then 10 else c). assert (is_u8 c') as Hc' by (unfold c'; destruct (c =? 13); lia).
  rewrite (u8_small c') by done.
  pose proof (input_push _ _ _ c' R Hroom) as [P1 P2]. cbv zeta in P1, P2.
  destruct R as [Hl Hr Hw He Ht Ho Hcm Hed Hn]. pose proof (zlen_nonneg cm). pose proof (zlen_nonneg ed).
  assert ((u32 (in_e i + 1) =? u32 (in_r i + INPUT_BUF)) = (zlen cm + zlen ed + 1 =? INPUT_BUF)) as ->.
  { unfold INPUT_BUF in *. rewrite He, u32_add_l, <- Z.add_assoc. apply u32_eqb; lia. }
  destruct (_ || _)%bool eqn:Ecommit; cbn [fst snd]; eexists; (split; [reflexivity|]);
    constructor; cbn [in_buf in_r in_w in_e]; rewrite ?length_insert, ?zlen_app;
    change (zlen []) with 0; change (zlen [c']) with 1; try done; try lia.
  - rewrite He, u32_add_l. f_equal. lia.
  - rewrite He, u32_add_l. f_equal. lia.
  - rewrite ring_app by lia. by rewrite P1, P2.
  - rewrite He, u32_add_l. f_equal. lia.
  - apply orb_false_iff in Ecommit as [E _]. apply orb_false_iff in E as [E _]. apply Z.eqb_neq in E.
    apply Forall_app. split; [done|]. by constructor.
Qed.

(** What a read of at most [n] bytes does. *)
Fixpoint spec_read (n : nat) (target : Z) (killed : bool) (cm : list Z)
    : read_out * list Z * list Z :=
  match n, cm with
  | O, _ => (RRet target, [], cm)
  | S _, [] => (if killed then RRet (-1) else RSleep (Z.of_nat n), [], [])
  | S n', c :: cm' =>
      if c =? CTRL_D then (RRet (target - Z.of_nat n), [], if Z.of_nat n <? target then cm else cm')
      else if c =? 10 then (RRet (target - Z.of_nat n'), [c], cm')
      else let '(out, l, cm'') := spec_read n' target killed cm' in (out, c :: l, cm'')
  end.

(** Consuming the first character. *)
Lemma input_pop i c cm ed :
  input_rep i (c :: cm) ed ->
  input_rep (Input (in_buf i) (u32 (in_r i + 1)) (in_w i) (in_e i)) cm ed /\
  (in_buf i).[in_r i mod INPUT_BUF] = c /\ (in_r i =? in_w i) = false.
Proof.
  intros [Hl Hr Hw He Ht Ho Hcm Hed Hn]. pose proof (zlen_nonneg cm). pose proof (zlen_nonneg ed).
  assert (zlen (c :: cm) = 1 + zlen cm) as E by (unfold zlen; simpl length; lia). rewrite E in *.
  rewrite ring_app, ring_one in Hcm by lia. injection Hcm as Hc Hcm. split_and!.
  - constructor; cbn [in_buf in_r in_w in_e]; auto using u32_range; try lia.
    + rewrite Hw, u32_add_l. f_equal. lia.
    + rewrite He, u32_add_l. f_equal. lia.
    + by rewrite ring_u32.
    + rewrite <- Hed at 2. rewrite <- ring_u32, u32_add_l, ring_u32. f_equal. lia.
  - done.
  - unfold INPUT_BUF in *. rewrite Hw, <- (u32_small (in_r i)) at 1 by done.
    rewrite <- (Z.add_0_r (in_r i)) at 1. rewrite u32_eqb by lia. apply Z.eqb_neq. lia.
Qed.

Lemma consoleread_spec n target killed i cm ed :
  input_rep i cm ed ->
  exists i', consoleread_loop n target killed i =
      ((spec_read n target killed cm).1.1, (spec_read n target killed cm).1.2, i') /\
    input_rep i' (spec_read n target killed cm).2 ed.
Proof.
  revert i cm. induction n as [|n IH]; intros i cm R; [by exists i; destruct cm|].
  cbn [consoleread_loop spec_read]. destruct cm as [|c cm].
  - pose proof (rp_w _ _ _ R) as Hw. change (zlen []) with 0 in Hw.
    rewrite Z.add_0_r, u32_small in Hw by apply R. rewrite Hw, Z.eqb_refl.
    destruct killed; by exists i.
  - destruct (input_pop _ _ _ _ R) as (R' & -> & ->).
    destruct (c =? CTRL_D); [eexists; split; [reflexivity|]; by destruct (_ <? _)|].
    destruct (c =? 10); [by eexists|].
    destruct (IH _ _ R') as (i' & -> & Ri'). exists i'.
    destruct (spec_read n target killed cm) as [[out l] cm'']. done.
Qed.

(** Interrupts and reads.  A read that slept goes on when its process runs
    again: [Resume k] is the turn of the [k]th sleeper. *)
Inductive cevent :=
| Typed (cs : list Z)
| Read (target : Z) (killed : bool)
| Resume (k : nat) (killed : bool).

Inductive cresult :=
| Effects (l : list ceffect)
| Returned (out : read_out) (bytes : list Z).

(** The reads that sleep: what each asked for and the bytes it still wants. *)
Abbreviation sleepers := (list (Z * Z)).

Definition asleep (target : Z) (out : read_out) (ws : sleepers) : sleepers :=
  match out with RSleep n => ws ++ [(target, n)] | RRet _ => ws end.

Definition console_step (e : cevent) (i : input) (ws : sleepers) : cresult * input * sleepers :=
  match e with
  | Typed cs => let '(l, i) := consoleintr cs i in (Effects l, i, ws)
  | Read target killed =>
      let '(out, bytes, i) := consoleread target killed i in
      (Returned out bytes, i, asleep target out ws)
  | Resume k killed =>
      match ws !! k with
      | None => (Effects [], i, ws)
      | Some (target, n) =>
          let '(out, bytes, i) := consoleread_loop (Z.to_nat n) target killed i in
          (Returned out bytes, i, asleep target out (delete k ws))
      end
  end.

Fixpoint run_console (es : list cevent) (i : input) (ws : sleepers)
    : list cresult * input * sleepers :=
  match es with
  | [] => ([], i, ws)
  | e :: es =>
      let '(r, i, ws) := console_step e i ws in
      let '(rs, i, ws) := run_console es i ws in
      (r :: rs, i, ws)
  end.

Fixpoint spec_chars (cs : list Z) (q : list Z * list Z) : list ceffect * (list Z * list Z) :=
  match cs with
  | [] => ([], q)
  | c :: cs =>
      let '(l1, q) := spec_char c q.1 q.2 in
      let '(l2, q) := spec_chars cs q in
      (l1 ++ l2, q)
  end.

Definition spec_step (e : cevent) (q : list Z * list Z) (ws : sleepers)
    : cresult * (list Z * list Z) * sleepers :=
  match e with
  | Typed cs => let '(l, q) := spec_chars cs q in (Effects l, q, ws)
  | Read target killed =>
      if target <=? 0 then (Returned (RRet 0) [], q, ws)
      else
        let '(out, bytes, cm) := spec_read (Z.to_nat target) target killed q.1 in
        (Returned out bytes, (cm, q.2), asleep target out ws)
  | Resume k killed =>
      match ws !! k with
      | None => (Effects [], q, ws)
      | Some (target, n) =>
          let '(out, bytes, cm) := spec_read (Z.to_nat n) target killed q.1 in
          (Returned out bytes, (cm, q.2), asleep target out (delete k ws))
      end
  end.

Fixpoint spec_console (es : list cevent) (q : list Z * list Z) (ws : sleepers)
    : list cresult * (list Z * list Z) * sleepers :=
  match es with
  | [] => ([], q, ws)
  | e :: es =>
      let '(r, q, ws) := spec_step e q ws in
      let '(rs, q, ws) := spec_console es q ws in
      (r :: rs, q, ws)
  end.

Definition event_ok (e : cevent) : Prop :=
  match e with Typed cs => Forall (fun c => is_u8 c) cs | _ => True end.

Lemma consoleintr_spec cs i q :
  input_rep i q.1 q.2 -> Forall (fun c => is_u8 c) cs ->
  exists i', consoleintr cs i = ((spec_chars cs q).1, i') /\
    input_rep i' (spec_chars cs q).2.1 (spec_chars cs q).2.2.
Proof.
  intros R Hcs. revert i q R. induction Hcs as [|c cs Hc Hcs IH]; intros i q R; [by exists i|].
  cbn [consoleintr spec_chars]. destruct (intr_char_spec _ _ _ _ R Hc) as (i1 & -> & R1).
  destruct (spec_char c q.1 q.2) as [l1 q1]. cbn [fst snd] in *.
  destruct (IH _ _ R1) as (i2 & -> & R2). destruct (spec_chars cs q1) as [l2 q2]. by exists i2.
Qed.

Lemma console_step_spec e i q ws :
  input_rep i q.1 q.2 -> event_ok e ->
  exists i', console_step e i ws = ((spec_step e q ws).1.1, i', (spec_step e q ws).2) /\
    input_rep i' (spec_step e q ws).1.2.1 (spec_step e q ws).1.2.2.
Proof.
  intros R He. destruct e as [cs|target killed|k killed]; cbn [console_step spec_step].
  - destruct (consoleintr_spec cs i q R He) as (i1 & -> & R1).
    destruct (spec_chars cs q) as [l1 q1]. by exists i1.
  - unfold consoleread. destruct (target <=? 0); [by exists i|].
    destruct (consoleread_spec (Z.to_nat target) target killed i q.1 q.2 R) as (i1 & -> & R1).
    destruct (spec_read _ _ _ _) as [[out l] cm]. by exists i1.
  - destruct (ws !! k) as [[target n]|]; [|by exists i].
    destruct (consoleread_spec (Z.to_nat n) target killed i q.1 q.2 R) as (i1 & -> & R1).
    destruct (spec_read _ _ _ _) as [[out l] cm]. by exists i1.
Qed.

Lemma run_console_spec es i q ws :
  input_rep i q.1 q.2 -> Forall event_ok es ->
  exists i', run_console es i ws = ((spec_console es q ws).1.1, i', (spec_console es q ws).2) /\
    input_rep i' (spec_console es q ws).1.2.1 (spec_console es q ws).1.2.2.
Proof.
  intros R Hes. revert i q ws R. induction Hes as [|e es He Hes IH]; intros i q ws R; [by exists i|].
  cbn [run_console spec_console]. destruct (console_step_spec e i q ws R He) as (i1 & -> & R1).
  destruct (spec_step e q ws) as [[r q1] ws1]. cbn [fst snd] in *.
  destruct (IH _ _ ws1 R1) as (i2 & -> & R2). destruct (spec_console es q1 ws1) as [[??]?]. by exists i2.
Qed.

Lemma input0_rep : input_rep input0 [] [].
Proof. constructor; try done; unfold zlen; cbn; lia. Qed.

(** C22: the console is a queue of lines: whatever is typed, however much is read at
    a time and however reads that sleep are resumed, what the ring buffer with
    its three wrapping indices does is what a list of committed characters and a
    line being edited do. *)
Theorem console_refines es :
  Forall event_ok es ->
  let '(rs, i, ws) := run_console es input0 [] in
  let '(rs', q, ws') := spec_console es ([], []) [] in
  rs = rs' /\ ws = ws' /\ input_rep i q.1 q.2.
Proof.
  intros He. destruct (run_console_spec es input0 ([], []) [] input0_rep He) as (i' & -> & R).
  by destruct (spec_console es ([], []) []) as [[??]?].
Qed.

(** A read of four bytes sleeps; "hx", backspace, "i", return; it goes on. *)
Lemma console_refines_witness :
  (run_console [Read 4 false; Typed [104; 120; 8; 105; 13]; Resume 0 false] input0 []).1.1 =
    [Returned (RSleep 4) [];
     Effects [Put 104; Put 120; Put 256; Put 105; Put 10; Wake ChInput];
     Returned (RRet 3) [104; 105; 10]].
Proof.
  pose proof (console_refines [Read 4 false; Typed [104; 120; 8; 105; 13]; Resume 0 false]) as H.
  destruct (run_console [Read 4 false; Typed [104; 120; 8; 105; 13]; Resume 0 false] input0 [])
    as [[rs i] ws] eqn:E.
  destruct H as [-> _]; [|reflexivity]. repeat constructor; lia.
Defined.

(** ** The keyboard *)

Lemma table_nth l ds n (i : Z) :
  forallb (fun c => (0 <=? c) && (c <? n))%bool (table l ds) = true -> 0 < n ->
  0 <= (table l ds).[i] < n.
Proof.
  intros Hf Hn. rewrite nth_lookup. destruct (table l ds !! Z.to_nat i) as [c|] eqn:E; cbn; [|lia].
  rewrite forallb_forall in Hf. specialize (Hf c).
  assert (List.In c (table l ds)) as Hin by (apply list_elem_of_In; by eapply list_elem_of_lookup_2).
  specialize (Hf Hin). lia.
Qed.

Lemma charcode_range k i : 0 <= (charcode k).[i] < 256.
Proof.
  unfold charcode. destruct (k =? 0); [|destruct (k =? 1)]; apply table_nth; (vm_compute; reflexivity) || lia.
Qed.

Lemma shiftcode_range i : 0 <= shiftcode.[i] < 128.
Proof. apply table_nth; (vm_compute; reflexivity) || lia. Qed.

Lemma togglecode_range i : 0 <= togglecode.[i] < 128.
Proof. apply table_nth; (vm_compute; reflexivity) || lia. Qed.

(** Seven-bit numbers are closed under the operations on [shift]. *)
Lemma bits7 x : 0 <= x < 128 <-> 0 <= x /\ (forall k, 7 <= k -> Z.testbit x k = false).
Proof.
  split.
  - intros Hx. split; [lia|]. intros k Hk. destruct (decide (x = 0)) as [->|]; [apply Z.bits_0|].
    apply Z.bits_above_log2; [lia|]. assert (Z.log2 x < 7) by (apply Z.log2_lt_pow2; lia). lia.
  - intros [H0 Hb]. split; [done|]. destruct (decide (x = 0)) as [->|]; [lia|].
    destruct (Z.lt_ge_cases x 128) as [|Hge]; [done|].
    assert (7 <= Z.log2 x) by (apply Z.log2_le_pow2; lia).
    pose proof (Z.bit_log2 x ltac:(lia)) as Hbit. by rewrite Hb in Hbit.
Qed.

Lemma lor7 x y : 0 <= x < 128 -> 0 <= y < 128 -> 0 <= x .| y < 128.
Proof.
  rewrite !bits7. intros [? Hx] [? Hy]. split; [by apply Z.lor_nonneg|].
  intros k Hk. by rewrite Z.lor_spec, Hx, Hy.
Qed.

Lemma lxor7 x y : 0 <= x < 128 -> 0 <= y < 128 -> 0 <= Z.lxor x y < 128.
Proof.
  rewrite !bits7. intros [? Hx] [? Hy]. split; [by apply Z.lxor_nonneg|].
  intros k Hk. by rewrite Z.lxor_spec, Hx, Hy.
Qed.

Lemma land7 x y : 0 <= x < 128 -> 0 <= x .& y < 128.
Proof.
  rewrite !bits7. intros [? Hx]. split; [apply Z.land_nonneg; by left|].
  intros k Hk. by rewrite Z.land_spec, Hx.
Qed.

(** The driver of the keyboard is well typed: for every byte the controller
    sends, in every state of the modifiers, the result is a character (0 for
    none) and the state stays in its seven bits. *)
Theorem kbd_typed data shift :
  0 <= shift < 128 ->
  0 <= (kbd_data data shift).1 < 256 /\ 0 <= (kbd_data data shift).2 < 128.
Proof.
  intros Hs. unfold kbd_data. destruct (data =? 224).
  { cbn. split; [lia|]. by apply lor7. }
  destruct (ctrue (data .& 128)); [cbn; split; [lia|by apply land7]|].
  destruct (ctrue (shift .& E0ESC)); cbn [fst snd].
  all: match goal with |- context [charcode ?k] => pose proof (charcode_range k (data .| 128));
         pose proof (charcode_range k data) end.
  all: split; [|apply lxor7; [apply lor7; [try apply land7; done|apply shiftcode_range]|apply togglecode_range]].
  all: repeat match goal with |- context [if ?b then _ else _] => destruct b eqn:? end; lia.
Qed.

Lemma kbd_typed_witness :
  0 <= (kbd_data 30 SHIFT).1 < 256 /\ (kbd_data 30 SHIFT).1 = 65.
Proof. split; [apply (kbd_typed 30 SHIFT); unfold SHIFT; lia|vm_compute; reflexivity]. Defined.
