(* ===== verification/File.v ===== *)
(** file.c: open files, and [pipealloc] of pipe.c.

    The state of the kernel outside the file system proper is [krest]: the table of open
    files, the pipes (by the address of their page), the memory with its page allocator, the
    process table and the running process, procfs.c's [currentInode], the clock, the page
    directory the processor uses, and the console.  A [struct file *] is an index of the table. *)

From stdpp Require Import prelude strings gmap list.
From S2P Require Import Prelude Bytes Param BlockCache CString Pipe Kalloc Proc.
From S2P Require Import Log TxDisk Fs Dir Console.

Inductive fdtype := FD_NONE | FD_PIPE | FD_INODE.

#[export] Instance fdtype_eq_dec : EqDecision fdtype.
Proof. solve_decision. Defined.

Record file := File {
  f_type : fdtype;
  f_ref : Z;
  f_readable : Z;
  f_writable : Z;
  f_pipe : Z;
  f_ip : Z;
  f_off : Z
}.

Definition file0 : file := File FD_NONE 0 0 0 0 0 0.

Definition set_fref (r : Z) (f : file) : file :=
  File (f_type f) r (f_readable f) (f_writable f) (f_pipe f) (f_ip f) (f_off f).
Definition set_ftype (t : fdtype) (f : file) : file :=
  File t (f_ref f) (f_readable f) (f_writable f) (f_pipe f) (f_ip f) (f_off f).
Definition set_foff (o : Z) (f : file) : file :=
  File (f_type f) (f_ref f) (f_readable f) (f_writable f) (f_pipe f) (f_ip f) o.

Record krest := KRest {
  k_ftable : list file;
  k_pipes : gmap Z pipe;
  k_kmem : kmem;
  k_procs : list proc;
  k_nextpid : Z;
  k_initproc : option nat;
  k_cur : nat;                 (* the running process *)
  k_curinode : Z;              (* currentInode of procfs.c *)
  k_ticks : Z;
  k_kpgdir : Z;
  k_cr3 : Z;
  k_input : input;
  k_console : list ceffect     (* what has been put on the console *)
}.

Definition set_ftable (x : list file) (r : krest) : krest :=
  KRest x (k_pipes r) (k_kmem r) (k_procs r) (k_nextpid r) (k_initproc r) (k_cur r)
    (k_curinode r) (k_ticks r) (k_kpgdir r) (k_cr3 r) (k_input r) (k_console r).
Definition set_pipes (x : gmap Z pipe) (r : krest) : krest :=
  KRest (k_ftable r) x (k_kmem r) (k_procs r) (k_nextpid r) (k_initproc r) (k_cur r)
    (k_curinode r) (k_ticks r) (k_kpgdir r) (k_cr3 r) (k_input r) (k_console r).
Definition set_kmem (x : kmem) (r : krest) : krest :=
  KRest (k_ftable r) (k_pipes r) x (k_procs r) (k_nextpid r) (k_initproc r) (k_cur r)
    (k_curinode r) (k_ticks r) (k_kpgdir r) (k_cr3 r) (k_input r) (k_console r).
Definition set_procs (x : list proc) (r : krest) : krest :=
  KRest (k_ftable r) (k_pipes r) (k_kmem r) x (k_nextpid r) (k_initproc r) (k_cur r)
    (k_curinode r) (k_ticks r) (k_kpgdir r) (k_cr3 r) (k_input r) (k_console r).
Definition set_nextpid (x : Z) (r : krest) : krest :=
  KRest (k_ftable r) (k_pipes r) (k_kmem r) (k_procs r) x (k_initproc r) (k_cur r)
    (k_curinode r) (k_ticks r) (k_kpgdir r) (k_cr3 r) (k_input r) (k_console r).
Definition set_initproc (x : option nat) (r : krest) : krest :=
  KRest (k_ftable r) (k_pipes r) (k_kmem r) (k_procs r) (k_nextpid r) x (k_cur r)
    (k_curinode r) (k_ticks r) (k_kpgdir r) (k_cr3 r) (k_input r) (k_console r).
Definition set_cur (x : nat) (r : krest) : krest :=
  KRest (k_ftable r) (k_pipes r) (k_kmem r) (k_procs r) (k_nextpid r) (k_initproc r) x
    (k_curinode r) (k_ticks r) (k_kpgdir r) (k_cr3 r) (k_input r) (k_console r).
Definition set_curinode (x : Z) (r : krest) : krest :=
  KRest (k_ftable r) (k_pipes r) (k_kmem r) (k_procs r) (k_nextpid r) (k_initproc r) (k_cur r)
    x (k_ticks r) (k_kpgdir r) (k_cr3 r) (k_input r) (k_console r).
Definition set_ticks (x : Z) (r : krest) : krest :=
  KRest (k_ftable r) (k_pipes r) (k_kmem r) (k_procs r) (k_nextpid r) (k_initproc r) (k_cur r)
    (k_curinode r) x (k_kpgdir r) (k_cr3 r) (k_input r) (k_console r).
Definition set_kpgdir (x : Z) (r : krest) : krest :=
  KRest (k_ftable r) (k_pipes r) (k_kmem r) (k_procs r) (k_nextpid r) (k_initproc r) (k_cur r)
    (k_curinode r) (k_ticks r) x (k_cr3 r) (k_input r) (k_console r).
Definition set_cr3 (x : Z) (r : krest) : krest :=
  KRest (k_ftable r) (k_pipes r) (k_kmem r) (k_procs r) (k_nextpid r) (k_initproc r) (k_cur r)
    (k_curinode r) (k_ticks r) (k_kpgdir r) x (k_input r) (k_console r).
Definition set_input (x : input) (r : krest) : krest :=
  KRest (k_ftable r) (k_pipes r) (k_kmem r) (k_procs r) (k_nextpid r) (k_initproc r) (k_cur r)
    (k_curinode r) (k_ticks r) (k_kpgdir r) (k_cr3 r) x (k_console r).
Definition set_console (x : list ceffect) (r : krest) : krest :=
  KRest (k_ftable r) (k_pipes r) (k_kmem r) (k_procs r) (k_nextpid r) (k_initproc r) (k_cur r)
    (k_curinode r) (k_ticks r) (k_kpgdir r) (k_cr3 r) (k_input r) x.

(** [fileinit]: the zero-initialised table. *)
Definition fileinit : list file := replicate (Z.to_nat NFILE) file0.

(** [for(f = ftable.file; f < ftable.file + NFILE; f++) if(f->ref == 0)] *)
Fixpoint find_file (l : list file) (i : Z) : option Z :=
  match l with
  | [] => None
  | f :: l => if f_ref f =? 0 then Some i else find_file l (i + 1)
  end.

Section ops.
Context {T : Type} `{Disk T}.
Abbreviation K := (fsys T krest).
Context (end_ : Z).                    (* first address after the kernel *)
Context (devsw : Z -> devops K).

(** Running code on [krest] and on the page allocator. *)
Definition onrest {A} : M krest A -> M K A :=
  lift fs_rest (fun r s => FSys (fs_disk s) (fs_icache s) (fs_wakeups s) r).
Definition onkmem {A} (m : M kmem A) : M K A := onrest (lift k_kmem set_kmem m).

Definition get_file (f : Z) : M K file :=
  ft ← onrest (gets k_ftable);
  if f <? 0 then fault "file pointer" else of_option "file pointer" (ft !! Z.to_nat f).
Definition set_file (f : Z) (x : file) : M K unit :=
  onrest (modify (fun r => set_ftable (<[Z.to_nat f := x]> (k_ftable r)) r)).

(** The fields of [proc]. *)
Definition curproc : M K proc :=
  p ← onrest (gets (fun r => k_procs r !! k_cur r));
  of_option "no process" p.
Definition set_curproc (p : proc) : M K unit :=
  onrest (modify (fun r => set_procs (<[k_cur r := p]> (k_procs r)) r)).

Definition get_pipe (a : Z) : M K pipe :=
  p ← onrest (gets (fun r => k_pipes r !! a));
  of_option "pipe pointer" p.
Definition set_pipe (a : Z) (p : pipe) : M K unit :=
  onrest (modify (fun r => set_pipes (<[a := p]> (k_pipes r)) r)).

(** *** pipe.c on the table of pipes *)

Definition fpipeclose (a writable : Z) : M K unit :=
  p ← get_pipe a;
  let '(p', freed) := pipeclose a writable p in
  if freed then
    onrest (modify (fun r => set_pipes (delete a (k_pipes r)) r));;
    onkmem (kfree end_ a)
  else set_pipe a p'.

(** A call that sleeps leaves the pipe as it is when the process blocks. *)
Definition fpiperead (a n : Z) : M K (Z * list Z) :=
  me ← curproc;
  p ← get_pipe a;
  let '(out, bytes, p') := piperead a (ctrue (p_killed me)) n p in
  set_pipe a p';;
  match out with
  | PRet v => mret (v, bytes)
  | PSleep ch _ => sleep_on ch
  end.

Definition fpipewrite (a : Z) (addr : list Z) (n : Z) : M K Z :=
  me ← curproc;
  p ← get_pipe a;
  if Z.of_nat (length addr) <? n then fault "source buffer"
  else
    let '(out, p') := pipewrite a (ctrue (p_killed me)) (take (Z.to_nat n) addr) p in
    set_pipe a p';;
    match out with
    | PRet v => mret (if n <? 0 then n else v)
    | PSleep ch _ => sleep_on ch
    end.

(** *** file.c *)

Definition filealloc : M K (option Z) :=
  ft ← onrest (gets k_ftable);
  match find_file ft 0 with
  | Some f =>
      x ← get_file f;
      set_file f (set_fref 1 x);;
      mret (Some f)
  | None => mret None
  end.

Definition filedup (f : Z) : M K Z :=
  x ← get_file f;
  if f_ref x <? 1 then panic "filedup"
  else
    set_file f (set_fref (s32 (f_ref x + 1)) x);;
    mret f.

Definition fileclose (f : Z) : M K unit :=
  x ← get_file f;
  if f_ref x <? 1 then panic "fileclose"
  else if 0 <? f_ref x - 1 then set_file f (set_fref (f_ref x - 1) x)
  else
    set_file f (set_ftype FD_NONE (set_fref 0 x));;
    match f_type x with
    | FD_PIPE => fpipeclose (f_pipe x) (f_writable x)
    | FD_INODE =>
        dio d_begin_op;;
        iput (f_ip x);;
        dio d_end_op
    | FD_NONE => mret tt
    end.

(** The result and [*st]. *)
Definition filestat (f : Z) : M K (Z * option stat) :=
  x ← get_file f;
  if decide (f_type x = FD_INODE) then
    ilock (Some (f_ip x));;
    st ← stati (f_ip x);
    iunlock (Some (f_ip x));;
    mret (0, Some st)
  else mret (-1, None).

(** The result and the bytes stored at [addr]. *)
Definition fileread (f n : Z) : M K (Z * list Z) :=
  x ← get_file f;
  if f_readable x =? 0 then mret (-1, [])
  else match f_type x with
  | FD_PIPE => fpiperead (f_pipe x) n
  | FD_INODE =>
      ilock (Some (f_ip x));;
      x ← get_file f;
      '(r, bytes) ← readi devsw (f_ip x) (f_off x) (u32 n);
      (if 0 <? r then
         x ← get_file f;
         set_file f (set_foff (u32 (f_off x + r)) x)
       else mret tt);;
      iunlock (Some (f_ip x));;
      mret (r, bytes)
  | FD_NONE => panic "fileread"
  end.

Definition filewrite_max : Z := ((LOGSIZE - 1 - 1 - 2) / 2) * 512.

(** One transaction of [filewrite]: the result of [writei]. *)
Definition filewrite_op (f : Z) (addr : list Z) (n1 : Z) : M K Z :=
  dio d_begin_op;;
  x ← get_file f;
  ilock (Some (f_ip x));;
  x ← get_file f;
  r ← writei devsw (f_ip x) addr (f_off x) (u32 n1);
  (if 0 <? r then
     x ← get_file f;
     set_file f (set_foff (u32 (f_off x + r)) x)
   else mret tt);;
  iunlock (Some (f_ip x));;
  dio d_end_op;;
  mret r.

(** The value of [i] after the loop. *)
Fixpoint filewrite_loop (fuel : nat) (f : Z) (addr : list Z) (n i : Z) : M K Z :=
  match fuel with
  | O => fault "fuel"
  | S fuel =>
      if i <? n then
        let n1 := if filewrite_max <? n - i then filewrite_max else n - i in
        r ← filewrite_op f (drop (Z.to_nat i) addr) n1;
        if r <? 0 then mret i
        else if negb (r =? n1) then panic "short filewrite"
        else filewrite_loop fuel f addr n (i + r)
      else mret i
  end.

Definition filewrite (f : Z) (addr : list Z) (n : Z) : M K Z :=
  x ← get_file f;
  if f_writable x =? 0 then mret (-1)
  else match f_type x with
  | FD_PIPE => fpipewrite (f_pipe x) addr n
  | FD_INODE =>
      i ← filewrite_loop (Z.to_nat (Z.max 0 n / filewrite_max + 2)) f addr n 0;
      mret (if i =? n then n else -1)
  | FD_NONE => panic "filewrite"
  end.

Definition fileType (f : Z) : M K string :=
  x ← get_file f;
  mret (match f_type x with
        | FD_NONE => "FD_NONE"
        | FD_PIPE => "FD_PIPE"
        | FD_INODE => "FD_INODE"
        end)%string.

(** *** pipealloc *)

(** Three words and [pcs[10]]. *)
Definition sizeof_spinlock : Z := 52.

Definition pipealloc_bad (f0 f1 : option Z) : M K (option (Z * Z)) :=
  match f0 with Some f => fileclose f | None => mret tt end;;
  match f1 with Some f => fileclose f | None => mret tt end;;
  mret None.

(** The two files, or [None] for -1. *)
Definition pipealloc : M K (option (Z * Z)) :=
  f0 ← filealloc;
  match f0 with
  | None => pipealloc_bad None None
  | Some rf =>
      f1 ← filealloc;
      match f1 with
      | None => pipealloc_bad f0 None
      | Some wf =>
          p ← onkmem kalloc;
          if p =? 0 then pipealloc_bad f0 f1
          else
            pg ← onkmem (gets pages);
            set_pipe p (pipe_init ((fun i => pg (p + sizeof_spinlock + i)) <$> upto PIPESIZE));;
            x0 ← get_file rf;
            set_file rf (File FD_PIPE (f_ref x0) 1 0 p (f_ip x0) (f_off x0));;
            x1 ← get_file wf;
            set_file wf (File FD_PIPE (f_ref x1) 0 1 p (f_ip x1) (f_off x1));;
            mret (Some (rf, wf))
      end
  end.

End ops.
