(* ===== verification/FileThms.v ===== *)
(** file.c over the log, the buffer cache and the disk: the simulation that
    transfers its theorems from the abstract disk, and the correctness of
    [filewrite], which splits a write over transactions. *)

From stdpp Require Import prelude strings gmap list.
From S2P Require Import Prelude Bytes Param BlockCache Log Bio BioSpec BioOps TxDisk Fs Dir FsSim FsAlloc FsFile FsWrite.
From S2P Require Import FsThms FsCheck Kalloc Pipe Proc Console File.

(** ** Simulation *)

Section sim.
Context {T A : Type} `{DiskSpec T A}.
Abbreviation R := (fs_rep (T:=T) (A:=A) (D:=krest)).
Context (end_ : Z) (devsw : Z -> devops (fsys T krest)) (devsw' : Z -> devops (fsys A krest)).
Hypothesis Hdev : forall major, dev_sim (devsw major) (devsw' major).

Lemma onrest_sim {X} (m : M krest X) : msim R (onrest m) (onrest m).
Proof.
  intros s t (Hd & Hi & Hw & Hr). unfold onrest, lift. rewrite Hr.
  destruct (m (fs_rest t)); simpl; unfold fs_rep; simpl; try done; tauto.
Qed.

Lemma of_option_sim {X} what (o : option X) : msim R (of_option what o) (of_option what o).
Proof. destruct o; cbn [of_option]; auto with msim. Qed.

#[local] Hint Resolve onrest_sim of_option_sim readi_sim writei_sim ilock_sim iunlock_sim iput_sim
  stati_sim : msim.

Ltac file_sim := unfold get_file, set_file, curproc, set_curproc, get_pipe, set_pipe, onkmem; fs_sim.

Lemma filealloc_sim : msim R filealloc filealloc.
Proof. unfold filealloc. file_sim. Qed.

Lemma filedup_sim f : msim R (filedup f) (filedup f).
Proof. unfold filedup. file_sim. Qed.

Lemma fpipeclose_sim a w : msim R (fpipeclose end_ a w) (fpipeclose end_ a w).
Proof. unfold fpipeclose. file_sim. Qed.
#[local] Hint Resolve fpipeclose_sim : msim.

Lemma fileclose_sim f : msim R (fileclose end_ f) (fileclose end_ f).
Proof. unfold fileclose. file_sim. Qed.

Lemma filestat_sim f : msim R (filestat f) (filestat f).
Proof. unfold filestat. file_sim. Qed.

Lemma fileread_sim f n : msim R (fileread devsw f n) (fileread devsw' f n).
Proof. unfold fileread, fpiperead. file_sim. Qed.

Lemma filewrite_op_sim f addr n : msim R (filewrite_op devsw f addr n) (filewrite_op devsw' f addr n).
Proof. unfold filewrite_op. file_sim. Qed.
#[local] Hint Resolve filewrite_op_sim filealloc_sim fileclose_sim : msim.

Lemma filewrite_loop_sim fuel f addr n i :
  msim R (filewrite_loop devsw fuel f addr n i) (filewrite_loop devsw' fuel f addr n i).
Proof. revert i. induction fuel; intros; cbn [filewrite_loop]; fs_sim. Qed.
#[local] Hint Resolve filewrite_loop_sim : msim.

Lemma filewrite_sim f addr n : msim R (filewrite devsw f addr n) (filewrite devsw' f addr n).
Proof. unfold filewrite, fpipewrite. file_sim. Qed.

Lemma pipealloc_sim : msim R (pipealloc end_) (pipealloc end_).
Proof. unfold pipealloc, pipealloc_bad. file_sim. Qed.

End sim.

(** ** [filewrite] on the abstract disk *)

Section write.
Context (start sz : Z) (sb : superblock) (devsw : Z -> devops (fsys tdisk krest)).
Abbreviation st := (fstate (D:=krest) 0 start sz).

Lemma get_file_run out wk rest mem held lg ic (f : nat) x :
  k_ftable rest !! f = Some x ->
  get_file (Z.of_nat f) (fstate out start sz wk rest mem held lg ic) =
    Ok x (fstate out start sz wk rest mem held lg ic).
Proof.
  intros Hf. unfold get_file. erewrite bind_run; [|reflexivity].
  destruct (Z.ltb_spec (Z.of_nat f) 0); [lia|]. cbn [fstate fs_rest]. by rewrite Nat2Z.id, Hf.
Qed.

Lemma set_file_run out wk rest mem held lg ic (f : nat) x :
  set_file (Z.of_nat f) x (fstate out start sz wk rest mem held lg ic) =
    Ok tt (fstate out start sz wk (set_ftable (<[f := x]> (k_ftable rest)) rest) mem held lg ic).
Proof. unfold set_file, onrest, lift, fstate. cbn. by rewrite Nat2Z.id. Qed.

Lemma ilock_run out wk rest mem held lg ic (ip : nat) i :
  ic !! ip = Some i -> 1 <= i_ref i -> i_flags i = I_VALID ->
  ilock (Some (Z.of_nat ip)) (fstate (D:=krest) out start sz wk rest mem held lg ic) =
    Ok tt (fstate out start sz wk rest mem held lg (<[ip := set_flags 3 i]> ic)).
Proof.
  intros Hi Hr Hf. unfold ilock. erewrite bind_run; [|by apply get_inode_run].
  destruct (Z.ltb_spec (i_ref i) 1); [lia|]. rewrite Hf. change (ctrue (I_VALID .& I_BUSY)) with false. cbv iota.
  erewrite bind_run; [|apply set_inode_run].
  erewrite bind_run; [|apply get_inode_run; apply list_lookup_insert_eq; by eapply lookup_lt_Some].
  done.
Qed.

Lemma iunlock_run out wk rest mem held lg ic (ip : nat) i :
  ic !! ip = Some i -> 1 <= i_ref i -> i_flags i = 3 ->
  iunlock (Some (Z.of_nat ip)) (fstate (D:=krest) out start sz wk rest mem held lg ic) =
    Ok tt (fstate out start sz (wk ++ [ChInode (Z.of_nat ip)]) rest mem held lg
      (<[ip := set_flags I_VALID i]> ic)).
Proof.
  intros Hi Hr Hf. unfold iunlock. erewrite bind_run; [|by apply get_inode_run].
  rewrite Hf. destruct (Z.ltb_spec (i_ref i) 1); [lia|].
  change (negb (ctrue (3 .& I_BUSY))) with false. cbn [orb].
  erewrite bind_run; [|apply set_inode_run]. done.
Qed.

(** The lock bits do not matter for the contents. *)
Lemma written_flags mem i off bytes mem' i' f :
  written start sb mem (set_flags f i) off bytes mem' i' ->
  written start sb mem i off bytes mem' (set_flags (i_flags i) i').
Proof.
  intros [L O E C S W1 W2 U D I]. destruct O. constructor; auto.
  - constructor; auto.
  - rewrite E. done.
Qed.

(** A file that is open for writing on a regular inode, not locked. *)
Record open_file (x : file) (ic : list inode) (ip : nat) (i : inode) : Prop := {
  of_type : f_type x = FD_INODE;
  of_writable : f_writable x <> 0;
  of_ip : f_ip x = Z.of_nat ip;
  of_inode : ic !! ip = Some i;
  of_flags : i_flags i = I_VALID;
  of_ref : 1 <= i_ref i;
  of_regular : i_type i <> T_DEV
}.

Lemma open_file_step x ic ip i off bytes mem mem' i' :
  open_file x ic ip i -> written start sb mem i off bytes mem' i' ->
  i_flags i' = I_VALID -> 
  open_file (set_foff (off + Z.of_nat (length bytes)) x) (<[ip := i']> ic) ip i'.
Proof.
  intros [] W Hf. pose proof (wr_inode _ _ _ _ _ _ _ _ W) as E.
  constructor; auto; try (rewrite E; done).
  apply list_lookup_insert_eq. by eapply lookup_lt_Some.
Qed.

(** The blocks an operation of [filewrite] logs at most. *)
Lemma pot_bound i : pot sb i ∅ <= Z.of_nat (size (bitmaps sb)) + 2.
Proof.
  unfold FsFile.pot, opset, indterm. rewrite (right_id_L ∅ (∪)), size_union_alt.
  set (r := if indirect i =? 0 then ∅ else {[indirect i]}).
  set (b := ({[IBLOCK (i_inum i)]} : gset Z)).
  assert (size ((b ∪ r) ∖ bitmaps sb) <= size (b ∪ r))%nat as H1 by (apply subseteq_size; set_solver).
  assert (size (b ∪ r) = size b + size (r ∖ b))%nat as H2 by apply size_union_alt.
  assert (size (r ∖ b) <= size r)%nat as H3 by (apply subseteq_size; set_solver).
  assert (size b = 1)%nat as H4 by apply size_singleton.
  assert (Z.of_nat (size r) = 1 - (if indirect i =? 0 then 1 else 0)); [|lia].
  unfold r. destruct (indirect i =? 0); [by rewrite size_empty|by rewrite size_singleton].
Qed.

(** What is left to do has space after the first [n1] bytes are written. *)
Lemma space_rest mem i off n1 r bytes mem' i' :
  0 <= off -> 0 < n1 <= r -> off + r <= MAXFILE * BSIZE -> Z.of_nat (length bytes) = n1 ->
  space start sb mem i off r ->
  written start sb mem i off bytes mem' i' ->
  avail start sb mem i - missing mem i (off / BSIZE) (block_end off n1) <= avail start sb mem' i' ->
  space start sb mem' i' (off + n1) (r - n1).
Proof.
  intros Hoff Hn1 Hmax Hlen Hsp W Hav. unfold space in *. cbv zeta in *.
  assert (off / BSIZE <= (off + n1 - 1) / BSIZE <= (off + r - 1) / BSIZE) as Hd
    by (split; apply Z.div_le_mono; unfold BSIZE; lia).
  assert (block_end off n1 = (off + n1 - 1) / BSIZE + 1 /\ block_end off r = (off + r - 1) / BSIZE + 1)
    as [E1 Er].
  { unfold block_end. destruct (Z.leb_spec n1 0), (Z.leb_spec r 0); lia. }
  rewrite (missing_split mem i _ (block_end off n1)) in Hsp by lia.
  pose proof (missing_nonneg mem i (off / BSIZE) (block_end off n1)).
  pose proof (missing_nonneg mem i (block_end off n1) (block_end off r)).
  pose proof (missing_nonneg mem' i' ((off + n1) / BSIZE) (block_end (off + n1) (r - n1))).
  assert (missing mem' i' ((off + n1) / BSIZE) (block_end (off + n1) (r - n1)) <=
    missing mem i (block_end off n1) (block_end off r)); [|lia].
  destruct (decide (r <= n1)) as [Hr|Hr].
  { rewrite missing_empty; [lia|]. unfold block_end. destruct (Z.leb_spec (r - n1) 0); lia. }
  replace (block_end (off + n1) (r - n1)) with (block_end off r)
    by (rewrite Er; unfold block_end; destruct (Z.leb_spec (r - n1) 0); [lia|do 2 f_equal; lia]).
  assert ((off + n1 - 1) / BSIZE <= (off + n1) / BSIZE <= (off + n1 - 1) / BSIZE + 1) as Hlo.
  { split; [apply Z.div_le_mono; unfold BSIZE; lia|].
    replace ((off + n1 - 1) / BSIZE + 1) with ((off + n1 - 1 + 1 * BSIZE) / BSIZE)
      by (apply Z.div_add; done). apply Z.div_le_mono; unfold BSIZE; lia. }
  rewrite (missing_split mem' i' _ (block_end off n1)) by lia.
  assert (missing mem' i' ((off + n1) / BSIZE) (block_end off n1) = 0) as ->.
  { apply Z.le_antisymm; [|apply missing_nonneg].
    destruct (decide ((off + n1) / BSIZE = block_end off n1)) as [->|Hne]; [rewrite missing_empty; lia|].
    replace (block_end off n1) with ((off + n1) / BSIZE + 1) by lia. rewrite missing_one.
    rewrite decide_False; [done|]. apply (io_full _ _ _ _ (wr_ok _ _ _ _ _ _ _ _ W)).
    - apply Z.div_pos; unfold BSIZE; lia.
    - rewrite (wr_inode _ _ _ _ _ _ _ _ W). cbn. rewrite Hlen.
      assert ((off + n1) / BSIZE = (off + n1 - 1) / BSIZE) as -> by lia.
      pose proof (Z.mul_div_le (off + n1 - 1) BSIZE ltac:(done)). lia. }
  apply missing_mono. intros k Hk Hs. rewrite (wr_slot _ _ _ _ _ _ _ _ W); [done| |done].
  assert ((off + r - 1) / BSIZE < MAXFILE) by (apply Z.div_lt_upper_bound; [done|lia]).
  pose proof (Z.div_pos off BSIZE Hoff ltac:(done)). lia.
Qed.

Lemma space_prefix mem i off n1 r :
  0 <= off -> 0 < n1 <= r -> space start sb mem i off r -> space start sb mem i off n1.
Proof.
  intros Hoff Hn1. unfold space. cbv zeta.
  assert (off / BSIZE <= block_end off n1 <= block_end off r) as Hd.
  { unfold block_end. destruct (Z.leb_spec n1 0), (Z.leb_spec r 0); try lia.
    assert (off / BSIZE <= (off + n1 - 1) / BSIZE <= (off + r - 1) / BSIZE)
      by (split; apply Z.div_le_mono; unfold BSIZE; lia). lia. }
  rewrite (missing_split mem i _ _ _ Hd).
  pose proof (missing_nonneg mem i (off / BSIZE) (block_end off n1)).
  pose proof (missing_nonneg mem i (block_end off n1) (block_end off r)). lia.
Qed.

(** The transactions [r] bytes take. *)
Definition ops (r : Z) : Z := (r + filewrite_max - 1) / filewrite_max.

Lemma ops_nonneg r : 0 <= r -> 0 <= ops r.
Proof. intros. apply Z.div_pos; [change filewrite_max with 6656; lia|done]. Qed.

Lemma ops_step r n1 (fuel : nat) :
  0 < n1 <= r -> (n1 < r -> n1 = 6656) -> ops r < Z.of_nat (S fuel) -> ops (r - n1) < Z.of_nat fuel.
Proof.
  intros Hn H. rewrite Nat2Z.inj_succ. unfold ops. change filewrite_max with 6656.
  destruct (decide (n1 < r)) as [Hl|Hg].
  - rewrite (H Hl). replace (r - 6656 + 6656 - 1) with (r + 6656 - 1 + (-1) * 6656) by lia.
    rewrite Z.div_add by done. lia.
  - replace (r - n1 + 6656 - 1) with 6655 by lia. change (6655 / 6656) with 0.
    assert (1 <= (r + 6656 - 1) / 6656) by (apply Z.div_le_lower_bound; lia). lia.
Qed.

Lemma filewrite_op_run wk rest mem ic (f ip : nat) x i src n1 :
  layout sb start mem -> inode_ok sb start mem i -> synced mem i ->
  k_ftable rest !! f = Some x -> open_file x ic ip i ->
  0 <= f_off x <= i_size i -> 0 < n1 <= Z.of_nat (length src) -> f_off x + n1 <= MAXFILE * BSIZE ->
  bytes_ok src -> pot sb i ∅ + touched (f_off x) n1 < loglim sz -> space start sb mem i (f_off x) n1 ->
  exists mem' i',
    filewrite_op devsw (Z.of_nat f) src n1 (st wk rest mem ∅ ∅ ic) =
      Ok n1 (st (wk ++ [ChInode (Z.of_nat ip)])
        (set_ftable (<[f := set_foff (f_off x + n1) x]> (k_ftable rest)) rest) mem' ∅ ∅ (<[ip := i']> ic)) /\
    written start sb mem i (f_off x) (take (Z.to_nat n1) src) mem' i' /\ i_flags i' = I_VALID /\
    avail start sb mem i - missing mem i (f_off x / BSIZE) (block_end (f_off x) n1) <=
      avail start sb mem' i'.
Proof.
  intros L O Sy Hf [Ft Fw Fip Hi Hfl Hr Ht] Hoff Hn Hmax Hok Hpot Hsp.
  pose proof (lookup_lt_Some _ _ _ Hi) as Hlt. rewrite MAXFILE_eq in Hmax. unfold BSIZE in Hmax.
  destruct (writei_run 1 start sz wk rest sb ltac:(lia) devsw mem ∅ (<[ip := set_flags 3 i]> ic) ip
    (set_flags 3 i) src (f_off x) n1) as (mem' & i' & lg' & E & W & _ & Hav);
    [done|by destruct O|done|by apply list_lookup_insert_eq|done|done|lia
    |rewrite MAXFILE_eq; unfold BSIZE; lia|done|exact Hpot|exact Hsp|].
  pose proof (wr_inode _ _ _ _ _ _ _ _ W) as Ei'.
  exists mem', (set_flags I_VALID i'). split_and!; [|by rewrite <- Hfl; eapply written_flags|done|exact Hav].
  unfold filewrite_op. erewrite bind_run; [|reflexivity].
  change (FSys _ _ _ _) with (fstate 1 start sz wk rest mem ∅ ∅ ic).
  erewrite bind_run; [|by apply get_file_run]. rewrite Fip.
  erewrite bind_run; [|by apply ilock_run].
  erewrite bind_run; [|by apply get_file_run]. rewrite Fip, u32_small by lia.
  erewrite bind_run; [|exact E]. destruct (Z.ltb_spec 0 n1); [|lia].
  erewrite bind_run; [|erewrite bind_run; [|by apply get_file_run]; apply set_file_run].
  rewrite u32_small by lia. rewrite list_insert_insert_eq.
  erewrite bind_run; [|apply iunlock_run; [by apply list_lookup_insert_eq|by rewrite Ei'..]].
  rewrite list_insert_insert_eq. done.
Qed.

Lemma filewrite_max_eq : filewrite_max = 6656.
Proof. done. Qed.

Hypothesis Hlog : Z.of_nat (size (bitmaps sb)) + 17 < loglim sz.

(** The bytes of one transaction: [n1] in the source. *)
Lemma filewrite_chunk off r :
  0 <= off -> 0 < r ->
  let n1 := if filewrite_max <? r then filewrite_max else r in
  0 < n1 <= r /\ n1 <= 6656 /\ (n1 < r -> n1 = 6656) /\ touched off n1 <= 15.
Proof.
  intros Hoff Hr n1. assert (0 < n1 <= r /\ n1 <= 6656 /\ (n1 < r -> n1 = 6656)) as (Hn1 & Hmax & Heq)
    by (unfold n1; rewrite filewrite_max_eq; destruct (Z.ltb_spec 6656 r); lia).
  split_and!; try lia. pose proof (touched_bound off n1 ltac:(lia) ltac:(lia)).
  assert (n1 / BSIZE <= 13) by (apply Z.div_le_upper_bound; unfold BSIZE; lia). lia.
Qed.

(** Two transactions one after the other write the bytes of both. *)
Lemma written_slices mem i off addr k n n1 mem1 i1 mem2 i2 :
  layout sb start mem -> 0 <= k -> 0 < n1 <= n - k -> n <= Z.of_nat (length addr) ->
  written start sb mem i off (take (Z.to_nat n1) (drop (Z.to_nat k) addr)) mem1 i1 ->
  written start sb mem1 i1 (off + n1) (slice addr (Z.to_nat (k + n1)) (Z.to_nat (n - (k + n1)))) mem2 i2 ->
  0 <= off <= i_size i ->
  written start sb mem i off (slice addr (Z.to_nat k) (Z.to_nat (n - k))) mem2 i2.
Proof.
  intros L Hk Hn1 Hn W1 W2 Hoff.
  replace (slice addr (Z.to_nat k) (Z.to_nat (n - k))) with
    (take (Z.to_nat n1) (drop (Z.to_nat k) addr) ++ slice addr (Z.to_nat (k + n1)) (Z.to_nat (n - (k + n1)))).
  - eapply written_trans; [done| | |exact W1|].
    + apply (layout_data_pos sb start mem L).
    + pose proof (ly_start _ _ _ L). lia.
    + rewrite length_take, length_drop. by replace (Z.of_nat _) with n1 by lia.
  - replace (Z.to_nat (n - k)) with (Z.to_nat n1 + Z.to_nat (n - (k + n1)))%nat by lia.
    rewrite slice_app. unfold slice. do 3 f_equal. lia.
Qed.

Lemma filewrite_loop_run (fuel : nat) : forall wk rest mem ic (f ip : nat) x i addr n k,
  layout sb start mem -> inode_ok sb start mem i -> synced mem i ->
  k_ftable rest !! f = Some x -> open_file x ic ip i ->
  0 <= f_off x <= i_size i -> 0 <= k <= n -> n <= Z.of_nat (length addr) ->
  f_off x + (n - k) <= MAXFILE * BSIZE -> bytes_ok addr -> space start sb mem i (f_off x) (n - k) ->
  ops (n - k) < Z.of_nat fuel ->
  exists mem' i' wk',
    filewrite_loop devsw fuel (Z.of_nat f) addr n k (st wk rest mem ∅ ∅ ic) =
      Ok n (st wk' (set_ftable (<[f := set_foff (f_off x + (n - k)) x]> (k_ftable rest)) rest)
        mem' ∅ ∅ (<[ip := i']> ic)) /\
    (k < n -> written start sb mem i (f_off x) (slice addr (Z.to_nat k) (Z.to_nat (n - k))) mem' i') /\
    (k = n -> mem' = mem /\ i' = i) /\ i_flags i' = I_VALID.
Proof.
  induction fuel as [|fuel IH]; intros wk rest mem ic f ip x i addr n k L O Sy Hf Fo Hoff Hk Hn Hmax Hok
    Hsp Hfuel; [pose proof (ops_nonneg (n - k)); lia|].
  cbn [filewrite_loop]. destruct (Z.ltb_spec k n) as [Hlt|Hge].
  2:{ assert (k = n) as -> by lia. exists mem, i, wk. rewrite Z.sub_diag, Z.add_0_r.
      rewrite (list_insert_id ic) by apply Fo.
      rewrite list_insert_id by (rewrite Hf; by destruct x). destruct rest.
      split_and!; [done|lia|done|apply Fo]. }
  set (n1 := if filewrite_max <? n - k then filewrite_max else n - k).
  destruct (filewrite_chunk (f_off x) (n - k)) as (Hn1 & Hn1max & Hn1eq & Ht); [lia|lia|]. fold n1 in Hn1, Hn1max, Hn1eq, Ht.
  pose proof (pot_bound i).
  destruct (filewrite_op_run wk rest mem ic f ip x i (drop (Z.to_nat k) addr) n1)
    as (mem1 & i1 & E1 & W1 & Hfl1 & Hav1); try done; [rewrite length_drop; lia|lia
    |by apply Forall_drop|lia|apply (space_prefix _ _ _ _ (n - k)); [lia|lia|exact Hsp]|].
  assert (Z.of_nat (length (take (Z.to_nat n1) (drop (Z.to_nat k) addr))) = n1) as El
    by (rewrite length_take, length_drop; lia).
  pose proof (open_file_step _ _ _ _ _ _ _ _ _ Fo W1 Hfl1) as Fo1. rewrite El in Fo1.
  set (x1 := set_foff (f_off x + n1) x) in *.
  set (rest1 := set_ftable (<[f := x1]> (k_ftable rest)) rest) in *.
  assert (k_ftable rest1 !! f = Some x1) as Hf1
    by (apply list_lookup_insert_eq; by eapply lookup_lt_Some).
  destruct (IH (wk ++ [ChInode (Z.of_nat ip)]) rest1 mem1 (<[ip := i1]> ic) f ip x1 i1 addr n (k + n1))
    as (mem2 & i2 & wk2 & E2 & W2 & Hend & Hfl2); try done.
  { apply W1. }
  { apply W1. }
  { apply W1. }
  { cbn. rewrite (wr_inode _ _ _ _ _ _ _ _ W1). cbn. rewrite El. lia. }
  { lia. }
  { cbn. lia. }
  { cbn [f_off x1 set_foff]. replace (n - (k + n1)) with (n - k - n1) by lia.
    eapply space_rest; [..|exact El|exact Hsp|exact W1|exact Hav1]; lia. }
  { apply (ops_step _ n1) in Hfuel; [|lia|done]. by replace (n - (k + n1)) with (n - k - n1) by lia. }
  exists mem2, i2, wk2. erewrite bind_run; [|exact E1].
  destruct (Z.ltb_spec n1 0); [lia|]. rewrite Z.eqb_refl. cbn [negb]. rewrite E2.
  unfold rest1. cbn [k_ftable set_ftable]. rewrite !list_insert_insert_eq. split_and!; [| |lia|done].
  - replace (f_off x + (n - k)) with (f_off x1 + (n - (k + n1))) by (cbn; lia). done.
  - intros _. destruct (decide (k + n1 = n)) as [En|Hne].
    + destruct (Hend En) as [-> ->]. replace (n - k) with n1 by lia. exact W1.
    + eapply written_slices; [done|lia|exact Hn1|done|exact W1|apply W2; lia|done].
Qed.

End write.

(** A file open for writing at its offset, with no operation in progress: the
    [n] bytes at [addr] fit in the file and on the disk, and the log has room
    for one transaction of [filewrite]. *)
Record write_ready (start sz : Z) (sb : superblock) (rest : krest) (mem : gmap Z block)
    (ic : list inode) (f ip : nat) (x : file) (i : inode) (addr : list Z) (n : Z) : Prop := {
  rd_layout : layout sb start mem;
  rd_ok : inode_ok sb start mem i;
  rd_synced : synced mem i;
  rd_file : k_ftable rest !! f = Some x;
  rd_open : open_file x ic ip i;
  rd_off : 0 <= f_off x <= i_size i;
  rd_n : 0 < n <= Z.of_nat (length addr);
  rd_max : f_off x + n <= MAXFILE * BSIZE;
  rd_bytes : bytes_ok addr;
  rd_space : space start sb mem i (f_off x) n;
  rd_log : Z.of_nat (size (bitmaps sb)) + 17 < loglim sz
}.

Lemma filewrite_run start sz sb devsw wk rest mem ic (f ip : nat) x i addr n :
  write_ready start sz sb rest mem ic f ip x i addr n ->
  exists mem' i' wk',
    filewrite devsw (Z.of_nat f) addr n (fstate 0 start sz wk rest mem ∅ ∅ ic) =
      Ok n (fstate 0 start sz wk' (set_ftable (<[f := set_foff (f_off x + n) x]> (k_ftable rest)) rest)
        mem' ∅ ∅ (<[ip := i']> ic)) /\
    written start sb mem i (f_off x) (take (Z.to_nat n) addr) mem' i' /\ i_flags i' = I_VALID.
Proof.
  intros [L O Sy Hf Fo Hoff Hn Hmax Hok Hsp Hlog]. unfold filewrite.
  erewrite bind_run; [|by apply get_file_run].
  destruct (Z.eqb_spec (f_writable x) 0); [by destruct Fo|]. rewrite (of_type _ _ _ _ Fo).
  destruct (filewrite_loop_run start sz sb devsw Hlog (Z.to_nat (Z.max 0 n / filewrite_max + 2)) wk rest mem ic
    f ip x i addr n 0) as (mem' & i' & wk' & E & W & _ & Hfl); rewrite ?Z.sub_0_r; try done; try lia.
  { unfold ops. replace (Z.max 0 n) with n by lia.
    pose proof (Z.div_pos n filewrite_max ltac:(lia) ltac:(done)). rewrite Z2Nat.id by lia.
    assert ((n + filewrite_max - 1) / filewrite_max <= (n + 1 * filewrite_max) / filewrite_max)
      by (apply Z.div_le_mono; [done|lia]). rewrite Z.div_add in * by done. lia. }
  rewrite Z.sub_0_r in *. exists mem', i', wk'. split_and!; [|apply W; lia|done].
  erewrite bind_run; [|exact E]. by rewrite Z.eqb_refl.
Qed.

(** C8: [filewrite] over the real log, cache and disk.  For a file open for
    writing on a regular inode, whatever the number of bytes (it is split into
    transactions of at most 13 blocks), the call returns [n], the bytes of the
    file are the old ones with the [n] bytes of [addr] at the file's offset, the offset
    advances by [n], every other file keeps its inode and its blocks, the invariants
    hold again and everything is on the disk; each transaction fits in the log. *)
Theorem filewrite_correct devsw devsw' (s : fsys (lstate bcache) krest) start sz wk rest sb mem ic
    (f ip : nat) x i addr n :
  (forall major, dev_sim (devsw major) (devsw' major)) ->
  fs_rep s (fstate 0 start sz wk rest mem ∅ ∅ ic) ->
  write_ready start sz sb rest mem ic f ip x i addr n ->
  exists s' mem' i',
    filewrite devsw (Z.of_nat f) addr n s = Ok n s' /\
    written start sb mem i (f_off x) (take (Z.to_nat n) addr) mem' i' /\
    fs_icache s' = <[ip := i']> ic /\
    k_ftable (fs_rest s') = <[f := set_foff (f_off x + n) x]> (k_ftable rest) /\
    (forall b, b < start -> memdisk (ls_cache (fs_disk s')) !! b = mem' !! b).
Proof.
  intros Hd Hr W. destruct (filewrite_run start sz sb devsw' wk rest mem ic f ip x i addr n W)
    as (mem' & i' & wk' & E & Hw & _).
  destruct (msim_Ok _ _ _ _ _ _ _ (filewrite_sim devsw devsw' Hd (Z.of_nat f) addr n) Hr E)
    as (s' & Es & Rs).
  exists s', mem', i'. split_and!; [exact Es|exact Hw| | |].
  - destruct Rs as (_ & Hi & _). exact Hi.
  - destruct Rs as (_ & _ & _ & Hk). by rewrite Hk.
  - intros b Hb. by eapply fs_rep_disk.
Qed.

(** The 600-byte file of the small image, open at offset 600. *)
Definition small_file : file := File FD_INODE 1 1 1 0 0 600.
Definition small_rest : krest :=
  KRest (<[3%nat := small_file]> fileinit) ∅ (KMem 0 0 (fun _ => 0)) [] 1 None 0 0 0 0 0 input0 [].
Definition idle_inode : inode := set_flags I_VALID small_inode.
#[local] Opaque small_image small_inode.

Lemma synced_flags mem i f : synced mem i -> synced mem (set_flags f i).
Proof. done. Qed.

Lemma inode_ok_flags sb start mem i f : inode_ok sb start mem i -> inode_ok sb start mem (set_flags f i).
Proof. intros []. by constructor. Qed.

Lemma small_ready : write_ready 17 31 small_sb small_rest small_image (<[0%nat := idle_inode]> iinit)
  3 0 small_file idle_inode (replicate 2000 66) 2000.
Proof.
  assert (i_size small_inode = 600 /\ i_type small_inode = T_FILE /\ i_ref small_inode = 1)
    as (Es & Et & Er) by (vm_compute; split_and!; reflexivity).
  constructor; [exact small_layout|exact (inode_ok_flags _ _ _ _ _ small_inode_ok)
    |exact (synced_flags _ _ _ small_synced)|reflexivity| | | | | | |].
  - constructor; [done|done|done|done|done|change (1 <= i_ref small_inode); lia|].
    change (i_type small_inode <> T_DEV). by rewrite Et.
  - change (0 <= 600 <= i_size small_inode). lia.
  - rewrite length_replicate. lia.
  - rewrite MAXFILE_eq. unfold BSIZE. cbn. lia.
  - apply Forall_replicate. lia.
  - right. apply Z.leb_le. vm_compute. reflexivity.
  - apply Z.ltb_lt. vm_compute. reflexivity.
Qed.

Lemma filewrite_correct_witness :
  exists (s s' : fsys (lstate bcache) krest) mem' i',
    filewrite no_devs 3 (replicate 2000 66) 2000 s = Ok 2000 s' /\
    FsFile.contents mem' i' = replicate 600 65 ++ replicate 2000 66.
Proof.
  destruct (mount_fs small_sb 17 small_image (<[0%nat := idle_inode]> iinit) small_rest small_formatted)
    as (s0 & _ & R).
  destruct (filewrite_correct no_devs no_devs _ _ _ _ _ _ _ _ 3%nat _ _ _ _ _ no_devs_sim R small_ready)
    as (s' & mem' & i' & E & W & _).
  exists (FSys s0 (<[0%nat := idle_inode]> iinit) [] small_rest), s', mem', i'. split; [exact E|].
  rewrite (wr_contents _ _ _ _ _ _ _ _ W). vm_compute. reflexivity.
Defined.
