(* ===== verification/Syscall.v ===== *)
(** syscall.c: fetching the arguments of a system call, and what proc.c calls
    in the other components.

    User memory is reached as the kernel does, through the page directory the
    processor uses ([k_cr3]).  A C string is returned as the list of its bytes
    without the NUL.  [kernel_env] implements the interface of proc.c with
    kalloc.c, vm.c, file.c, fs.c and log.c; a pointer to a file or an inode in a
    [struct proc] is the index of the object plus one. *)

From stdpp Require Import prelude strings gmap list.
From S2P Require Import Prelude Bytes Param BlockCache CString Pipe Kalloc Vm Proc.
From S2P Require Import Log TxDisk Fs Dir File.

Section ops.
Context {T : Type} `{Disk T}.
Abbreviation K := (fsys T krest).

(** ** User memory *)

Definition uldb (va : Z) : M K Z :=
  cr3 ← onrest (gets k_cr3);
  onkmem (uload (p2v cr3) va).
Definition ustb (va b : Z) : M K unit :=
  cr3 ← onrest (gets k_cr3);
  onkmem (ustore (p2v cr3) va b).

(** The [int] at [va]. *)
Definition uldw (va : Z) : M K Z :=
  b0 ← uldb va;
  b1 ← uldb (u32 (va + 1));
  b2 ← uldb (u32 (va + 2));
  b3 ← uldb (u32 (va + 3));
  mret (s32 (b0 + b1 * 256 + b2 * 65536 + b3 * 16777216)).

(** [n] bytes at [va]. *)
Fixpoint uld_bytes (va : Z) (n : nat) : M K (list Z) :=
  match n with
  | O => mret []
  | S n => b ← uldb va; l ← uld_bytes (u32 (va + 1)) n; mret (b :: l)
  end.

Fixpoint ust_bytes (va : Z) (l : list Z) : M K unit :=
  match l with
  | [] => mret tt
  | b :: l => ustb va b;; ust_bytes (u32 (va + 1)) l
  end.

(** ** Arguments; [None] is -1 *)

Definition fetchint (addr : Z) : M K (option Z) :=
  p ← curproc;
  if ((p_sz p <=? addr) || (p_sz p <? u32 (addr + 4)))%bool then mret None
  else v ← uldw addr; mret (Some v).

(** [for(s = *pp; s < ep; s++)]: [n] bytes left before [ep]. *)
Fixpoint fetchstr_loop (n : nat) (s : Z) : M K (option (list Z)) :=
  match n with
  | O => mret None
  | S n =>
      c ← uldb s;
      if c =? 0 then mret (Some [])
      else r ← fetchstr_loop n (s + 1); mret (cons c <$> r)
  end.

Definition fetchstr (addr : Z) : M K (option (list Z)) :=
  p ← curproc;
  if p_sz p <=? addr then mret None
  else fetchstr_loop (Z.to_nat (p_sz p - addr)) addr.

Definition argint (n : Z) : M K (option Z) :=
  p ← curproc;
  fetchint (u32 (tf_esp (p_tf p) + 4 + 4 * n)).

Definition argptr (n size : Z) : M K (option Z) :=
  i ← argint n;
  match i with
  | None => mret None
  | Some i =>
      p ← curproc;
      if ((p_sz p <=? u32 i) || (p_sz p <? u32 (u32 i + size)))%bool then mret None
      else mret (Some (u32 i))
  end.

Definition argstr (n : Z) : M K (option (list Z)) :=
  a ← argint n;
  match a with
  | None => mret None
  | Some addr => fetchstr (u32 addr)
  end.

(** ** The kernel as proc.c sees it *)

Context (end_ data_ : Z) (initcode : list Z) (devsw : Z -> devops K).

Definition switchkvm : M K unit :=
  onrest (modify (fun r => set_cr3 (v2p (k_kpgdir r)) r)).

Definition kvmalloc : M K unit :=
  d ← onkmem (setupkvm data_);
  onrest (modify (set_kpgdir d));;
  switchkvm.

Definition switchuvm (pgdir : Z) : M K unit :=
  if pgdir =? 0 then panic "switchuvm: no pgdir"
  else onrest (modify (set_cr3 (v2p pgdir))).

Definition kernel_env : ProcEnv K := {|
  pe_kalloc := onkmem kalloc;
  pe_kfree v := onkmem (kfree end_ v);
  pe_setupkvm := onkmem (setupkvm data_);
  pe_inituvm pgdir := onkmem (inituvm pgdir initcode);
  pe_copyuvm pgdir sz := onkmem (copyuvm end_ data_ pgdir sz);
  pe_allocuvm pgdir oldsz newsz := onkmem (allocuvm end_ pgdir oldsz newsz);
  pe_deallocuvm pgdir oldsz newsz := onkmem (deallocuvm end_ pgdir oldsz newsz);
  pe_freevm pgdir := onkmem (freevm end_ pgdir);
  pe_switchuvm := switchuvm;
  pe_filedup f := r ← filedup (f - 1); mret (r + 1);
  pe_fileclose f := fileclose end_ (f - 1);
  pe_idup ip := r ← idup (ip - 1); mret (r + 1);
  pe_iput ip := iput (ip - 1);
  pe_namei_root := r ← namei devsw 0 [SLASH]; mret (match r with Some ip => ip + 1 | None => 0 end);
  pe_begin_op := dio d_begin_op;
  pe_end_op := dio d_end_op
|}.

(** Running proc.c on the kernel: its table is part of [krest], which what it
    calls does not touch. *)
Definition onproc {A} : M (pstate K) A -> M K A :=
  lift (fun s => PState (k_procs (fs_rest s)) (k_nextpid (fs_rest s)) (k_initproc (fs_rest s)) s)
    (fun ps _ =>
      let s := penv ps in
      FSys (fs_disk s) (fs_icache s) (fs_wakeups s)
        (set_procs (procs ps) (set_nextpid (nextpid ps) (set_initproc (initproc ps) (fs_rest s))))).

Definition kcur : M K nat := onrest (gets k_cur).

(** ** sysproc.c *)

Definition sys_fork : M K Z := c ← kcur; onproc (fork (H:=kernel_env) c).
(** [exit] does not return. *)
Definition sys_exit : M K Z := c ← kcur; onproc (exit (H:=kernel_env) c);; sleep_on ChNever.
Definition sys_wait : M K Z := c ← kcur; onproc (wait (H:=kernel_env) c).

Definition sys_kill : M K Z :=
  pid ← argint 0;
  match pid with
  | None => mret (-1)
  | Some pid =>
      l ← onrest (gets k_procs);
      let '(r, l) := kill pid l in
      onrest (modify (set_procs l));;
      mret r
  end.

Definition sys_getpid : M K Z := p ← curproc; mret (p_pid p).

Definition sys_sbrk : M K Z :=
  n ← argint 0;
  match n with
  | None => mret (-1)
  | Some n =>
      p ← curproc;
      c ← kcur;
      r ← onproc (growproc (H:=kernel_env) c n);
      if r <? 0 then mret (-1) else mret (s32 (p_sz p))
  end.

(** The loop of [sys_sleep]; a [Sleep] runs it again when woken.  [n] is
    compared as an unsigned number. *)
Definition sleep_loop (ticks0 n : Z) : M K Z :=
  t ← onrest (gets k_ticks);
  if u32 (t - ticks0) <? u32 n then
    p ← curproc;
    if ctrue (p_killed p) then mret (-1) else sleep_on ChTicks
  else mret 0.

Definition sys_sleep : M K Z :=
  n ← argint 0;
  match n with
  | None => mret (-1)
  | Some n => ticks0 ← onrest (gets k_ticks); sleep_loop ticks0 n
  end.

Definition sys_uptime : M K Z := t ← onrest (gets k_ticks); mret (s32 t).

End ops.
