(* ===== verification/Exec.v ===== *)
(** exec.c, and [loaduvm] of vm.c: replacing the image of a process. *)

From stdpp Require Import prelude strings gmap list.
From S2P Require Import Prelude Bytes Param BlockCache CString Pipe Kalloc Vm Proc.
From S2P Require Import Log TxDisk Fs Dir File Syscall.

(** elf.h: the fields exec.c uses. *)
Definition ELF_MAGIC : Z := 1179403647.
Definition ELF_PROG_LOAD : Z := 1.
Definition sizeof_elfhdr : Z := 52.
Definition sizeof_proghdr : Z := 32.

Record elfhdr := ElfHdr { elf_magic : Z; elf_entry : Z; elf_phoff : Z; elf_phnum : Z }.
Definition elfhdr_of (l : list Z) : elfhdr :=
  ElfHdr (get_le 4 l 0) (get_le 4 l 24) (get_le 4 l 28) (get_le 2 l 44).

Record proghdr := ProgHdr { ph_type : Z; ph_off : Z; ph_vaddr : Z; ph_filesz : Z; ph_memsz : Z }.
Definition proghdr_of (l : list Z) : proghdr :=
  ProgHdr (get_le 4 l 0) (get_le 4 l 4) (get_le 4 l 8) (get_le 4 l 16) (get_le 4 l 20).

(** The bytes after the last slash. *)
Fixpoint last_elem (last s : list Z) : list Z :=
  match s with
  | [] => last
  | c :: s => last_elem (if c =? SLASH then s else last) s
  end.

(** [safestrcpy(proc->name, last, sizeof(proc->name))] *)
Definition copy_name (last name : list Z) : list Z := splice name 0 (take 15 last ++ [0]).

(** The words at [ustack]. *)
Definition words (l : list Z) : list Z := concat (le_split 4 <$> l).

Section ops.
Context {T : Type} `{Disk T}.
Abbreviation K := (fsys T krest).
Context (end_ data_ : Z) (devsw : Z -> devops K).

(** [for(i = 0; i < sz; i += PGSIZE)] *)
Fixpoint loaduvm_loop (fuel : nat) (pgdir addr ip offset sz i : Z) : M K Z :=
  match fuel with
  | O => fault "fuel"
  | S fuel =>
      if i <? sz then
        p ← onkmem (walkpgdir pgdir (u32 (addr + i)) false);
        match p with
        | None => panic "loaduvm: address should exist"
        | Some pte =>
            w ← onkmem (lw pte);
            let pa := PTE_ADDR w in
            let n := if sz - i <? PGSIZE then sz - i else PGSIZE in
            '(r, bytes) ← readi devsw ip (u32 (offset + i)) n;
            onkmem (set_pages (put_bytes (p2v pa) bytes));;
            if negb (r =? n) then mret (-1)
            else loaduvm_loop fuel pgdir addr ip offset sz (u32 (i + PGSIZE))
        end
      else mret 0
  end.

Definition loaduvm (pgdir addr ip offset sz : Z) : M K Z :=
  if ctrue (addr mod PGSIZE) then panic "loaduvm: addr must be page aligned"
  else loaduvm_loop (Z.to_nat (sz / PGSIZE + 2)) pgdir addr ip offset sz 0.

(** *** exec *)

(** [bad:] with the inode locked, or after it has been released. *)
Definition exec_bad (pgdir : Z) (ip : option Z) : M K Z :=
  when (ctrue pgdir) (onkmem (freevm end_ pgdir));;
  match ip with
  | Some ip =>
      iunlockput (Some ip);;
      dio d_end_op
  | None => mret tt
  end;;
  mret (-1).

(** The loop over the program headers: the size, or [None] for [goto bad]. *)
Fixpoint load_segments (n : nat) (pgdir ip off sz : Z) : M K (option Z) :=
  match n with
  | O => mret (Some sz)
  | S n =>
      '(r, bytes) ← readi devsw ip (u32 off) sizeof_proghdr;
      if negb (r =? sizeof_proghdr) then mret None
      else
        let ph := proghdr_of bytes in
        let off := s32 (off + sizeof_proghdr) in
        if negb (ph_type ph =? ELF_PROG_LOAD) then load_segments n pgdir ip off sz
        else if ph_memsz ph <? ph_filesz ph then mret None
        else
          sz ← onkmem (allocuvm end_ pgdir sz (u32 (ph_vaddr ph + ph_memsz ph)));
          if sz =? 0 then mret None
          else
            r ← loaduvm pgdir (ph_vaddr ph) ip (ph_off ph) (ph_filesz ph);
            if r <? 0 then mret None
            else load_segments n pgdir ip off sz
  end.

(** The loop that pushes the argument strings: the stack pointer and the
    addresses stored in [ustack[3..]], or [None] for [goto bad]. *)
Fixpoint push_args (pgdir sp argc : Z) (argv : list (list Z)) : M K (option (Z * list Z)) :=
  match argv with
  | [] => mret (Some (sp, []))
  | arg :: argv =>
      if MAXARG <=? argc then mret None
      else
        let sp := u32 (sp - (Z.of_nat (length arg) + 1)) .& Z.lnot 3 in
        r ← onkmem (copyout pgdir sp (arg ++ [0]));
        if r <? 0 then mret None
        else
          rest ← push_args pgdir sp (argc + 1) argv;
          mret (match rest with Some (sp', l) => Some (sp', sp :: l) | None => None end)
  end.

(** The image is complete: the user stack, and the switch to it. *)
Definition exec_commit (path : list Z) (pgdir sz sp : Z) (entry : Z) (ptrs : list Z) : M K Z :=
  let argc := Z.of_nat (length ptrs) in
  let ustack := [4294967295; argc; u32 (sp - (argc + 1) * 4)] ++ ptrs ++ [0] in
  let sp := u32 (sp - (3 + argc + 1) * 4) in
  r ← onkmem (copyout pgdir sp (words ustack));
  if r <? 0 then exec_bad pgdir None
  else
    p ← curproc;
    let tf := p_tf p in
    let old := p_pgdir p in
    set_curproc (set_tf (Trapframe (tf_eax tf) entry sp (tf_eflags tf) (tf_cs tf) (tf_ds tf)
                           (tf_es tf) (tf_ss tf) (tf_rest tf))
                   (set_vm sz pgdir (set_name (copy_name (last_elem path path) (p_name p)) p)));;
    switchuvm pgdir;;
    onkmem (freevm end_ old);;
    mret 0.

(** The user stack and its guard page, and the arguments. *)
Definition exec_stack (path : list Z) (argv : list (list Z)) (pgdir sz entry : Z) : M K Z :=
  let sz := PGROUNDUP sz in
  sz ← onkmem (allocuvm end_ pgdir sz (u32 (sz + 2 * PGSIZE)));
  if sz =? 0 then exec_bad pgdir None
  else
    onkmem (clearpteu pgdir (u32 (sz - 2 * PGSIZE)));;
    a ← push_args pgdir sz 0 argv;
    match a with
    | None => exec_bad pgdir None
    | Some (sp, ptrs) => exec_commit path pgdir sz sp entry ptrs
    end.

(** [sizeof] is unsigned, so that the comparison with the result of [readi] is. *)
Definition exec (path : list Z) (argv : list (list Z)) : M K Z :=
  p ← curproc;
  dio d_begin_op;;
  ip ← namei devsw (p_cwd p - 1) path;
  match ip with
  | None => dio d_end_op;; mret (-1)
  | Some ip =>
      ilock (Some ip);;
      '(r, bytes) ← readi devsw ip 0 sizeof_elfhdr;
      if u32 r <? sizeof_elfhdr then exec_bad 0 (Some ip)
      else if Z.of_nat (length bytes) <? sizeof_elfhdr then fault "exec: header not initialised"
      else
        let elf := elfhdr_of bytes in
        if negb (elf_magic elf =? ELF_MAGIC) then exec_bad 0 (Some ip)
        else
          pgdir ← onkmem (setupkvm data_);
          if pgdir =? 0 then exec_bad 0 (Some ip)
          else
            r ← load_segments (Z.to_nat (elf_phnum elf)) pgdir ip (s32 (elf_phoff elf)) 0;
            match r with
            | None => exec_bad pgdir (Some ip)
            | Some sz =>
                iunlockput (Some ip);;
                dio d_end_op;;
                exec_stack path argv pgdir sz (elf_entry elf)
            end
  end.

End ops.
