(* ===== verification/SysFile.v ===== *)
(** sysfile.c: the file-system calls, and the table of syscall.c.

    A path or a name is the list of its bytes; [name[DIRSIZ]] starts
    undefined and is written by [nameiparent].  A handler returns the value
    [syscall] stores in [eax]. *)

From stdpp Require Import prelude strings gmap list.
From S2P Require Import Prelude Bytes Param BlockCache CString Pipe Kalloc Vm Proc.
From S2P Require Import Log TxDisk Fs Dir File Syscall Exec.

Definition DOT : list Z := [46].
Definition DOTDOT : list Z := [46; 46].

(** [for(fd = 0; fd < NOFILE; fd++) if(proc->ofile[fd] == 0)] *)
Fixpoint find_fd (l : list Z) (fd : Z) : option Z :=
  match l with
  | [] => None
  | f :: l => if f =? 0 then Some fd else find_fd l (fd + 1)
  end.

Section ops.
Context {T : Type} `{Disk T}.
Abbreviation K := (fsys T krest).
Context (end_ data_ : Z) (initcode : list Z) (devsw : Z -> devops K).

(** The descriptor and the index of the file. *)
Definition argfd (n : Z) : M K (option (Z * Z)) :=
  fd ← argint n;
  match fd with
  | None => mret None
  | Some fd =>
      p ← curproc;
      if ((fd <? 0) || (NOFILE <=? fd) || ((p_ofile p).[fd] =? 0))%bool then mret None
      else mret (Some (fd, (p_ofile p).[fd] - 1))
  end.

Definition set_fd (fd f : Z) : M K unit :=
  p ← curproc;
  set_curproc (set_ofile (<[Z.to_nat fd := f]> (p_ofile p)) p).

Definition fdalloc (f : Z) : M K Z :=
  p ← curproc;
  match find_fd (p_ofile p) 0 with
  | Some fd => set_fd fd (f + 1);; mret fd
  | None => mret (-1)
  end.

Definition sys_dup : M K Z :=
  a ← argfd 0;
  match a with
  | None => mret (-1)
  | Some (_, f) =>
      fd ← fdalloc f;
      if fd <? 0 then mret (-1)
      else filedup f;; mret fd
  end.

(** The arguments of [read] and [write]: the file, the address and the count. *)
Definition argrw : M K (option (Z * Z * Z)) :=
  a ← argfd 0;
  match a with
  | None => mret None
  | Some (_, f) =>
      n ← argint 2;
      match n with
      | None => mret None
      | Some n => p ← argptr 1 n; mret ((fun p => (f, p, n)) <$> p)
      end
  end.

Definition sys_read : M K Z :=
  a ← argrw;
  match a with
  | None => mret (-1)
  | Some (f, p, n) =>
      '(r, bytes) ← fileread devsw f n;
      ust_bytes p bytes;;
      mret r
  end.

(** The bytes are fetched before the call that copies them. *)
Definition sys_write : M K Z :=
  a ← argrw;
  match a with
  | None => mret (-1)
  | Some (f, p, n) =>
      bytes ← uld_bytes p (Z.to_nat n);
      filewrite devsw f bytes n
  end.

Definition sys_close : M K Z :=
  a ← argfd 0;
  match a with
  | None => mret (-1)
  | Some (fd, f) =>
      set_fd fd 0;;
      fileclose end_ f;;
      mret 0
  end.

Definition sizeof_stat : Z := 20.

(** The fields of the [struct stat] at [p]; [type] and [nlink] are followed by
    two bytes of padding. *)
Definition ust_stat (p : Z) (st : stat) : M K unit :=
  ust_bytes p (le_split 2 (st_type st));;
  ust_bytes (u32 (p + 4)) (le_split 4 (st_dev st));;
  ust_bytes (u32 (p + 8)) (le_split 4 (st_ino st));;
  ust_bytes (u32 (p + 12)) (le_split 2 (st_nlink st));;
  ust_bytes (u32 (p + 16)) (le_split 4 (st_size st)).

Definition sys_fstat : M K Z :=
  a ← argfd 0;
  match a with
  | None => mret (-1)
  | Some (_, f) =>
      st ← argptr 1 sizeof_stat;
      match st with
      | None => mret (-1)
      | Some p =>
          '(r, st) ← filestat f;
          match st with Some st => ust_stat p st | None => mret tt end;;
          mret r
      end
  end.

(** [proc->cwd] *)
Definition cwd : M K Z := p ← curproc; mret (p_cwd p - 1).
Definition knamei (path : list Z) : M K (option Z) := c ← cwd; namei devsw c path.
Definition knameiparent (path : list Z) : M K (option Z * list Z) :=
  c ← cwd; nameiparent devsw c path name0.

Definition upd_inode (ip : Z) (f : inode -> inode) : M K unit :=
  i ← get_inode ip; set_inode ip (f i).

(** [ip->nlink++], [ip->nlink--] on a [short] *)
Definition add_nlink (d : Z) (i : inode) : inode := set_nlink (s16 (i_nlink i + d)) i.

Definition end_ret (r : Z) : M K Z := dio d_end_op;; mret r.

Definition link_bad (ip : Z) : M K Z :=
  ilock (Some ip);;
  upd_inode ip (add_nlink (-1));;
  iupdate ip;;
  iunlockput (Some ip);;
  end_ret (-1).

(** [sys_link] from the lookup of the parent of [new] on. *)
Definition link_new (ip : Z) (new : list Z) : M K Z :=
  '(dp, name) ← knameiparent new;
  match dp with
  | None => link_bad ip
  | Some dp =>
      ilock (Some dp);;
      d ← get_inode dp;
      i ← get_inode ip;
      ok ← (if negb (i_dev d =? i_dev i) then mret false
            else r ← dirlink devsw dp name (i_inum i); mret (negb (r <? 0)));
      if negb ok then
        iunlockput (Some dp);;
        link_bad ip
      else
        iunlockput (Some dp);;
        iput ip;;
        end_ret 0
  end.

Definition sys_link : M K Z :=
  old ← argstr 0;
  match old with
  | None => mret (-1)
  | Some old =>
      new ← argstr 1;
      match new with
      | None => mret (-1)
      | Some new =>
          dio d_begin_op;;
          ip ← knamei old;
          match ip with
          | None => end_ret (-1)
          | Some ip =>
              ilock (Some ip);;
              i ← get_inode ip;
              if i_type i =? T_DIR then
                iunlockput (Some ip);;
                end_ret (-1)
              else
                upd_inode ip (add_nlink 1);;
                iupdate ip;;
                iunlock (Some ip);;
                link_new ip new
          end
      end
  end.

Fixpoint isdirempty_loop (fuel : nat) (dp off : Z) : M K bool :=
  match fuel with
  | O => fault "fuel"
  | S fuel =>
      d ← get_inode dp;
      if off <? i_size d then
        '(r, de) ← readi devsw dp off sizeof_dirent;
        if negb (r =? sizeof_dirent) then panic "isdirempty: readi"
        else if negb (dirent_inum de =? 0) then mret false
        else isdirempty_loop fuel dp (off + sizeof_dirent)
      else mret true
  end.

Definition isdirempty (dp : Z) : M K bool :=
  d ← get_inode dp;
  isdirempty_loop (Z.to_nat (i_size d / sizeof_dirent + 2)) dp (2 * sizeof_dirent).

Definition unlink_bad (dp : Z) : M K Z :=
  iunlockput (Some dp);;
  end_ret (-1).

(** [sys_unlink] with [dp] locked and the entry of [ip] at [off]. *)
Definition unlink_entry (dp ip off : Z) : M K Z :=
  ilock (Some ip);;
  i ← get_inode ip;
  if i_nlink i <? 1 then panic "unlink: nlink < 1"
  else
    busy ← (if i_type i =? T_DIR then e ← isdirempty ip; mret (negb e) else mret false);
    if busy : bool then
      iunlockput (Some ip);;
      unlink_bad dp
    else
      w ← writei devsw dp (replicate (Z.to_nat sizeof_dirent) 0) off sizeof_dirent;
      if negb (w =? sizeof_dirent) then panic "unlink: writei"
      else
        i ← get_inode ip;
        when (i_type i =? T_DIR)
          (upd_inode dp (add_nlink (-1));;
           iupdate dp);;
        iunlockput (Some dp);;
        upd_inode ip (add_nlink (-1));;
        iupdate ip;;
        iunlockput (Some ip);;
        end_ret 0.

Definition sys_unlink : M K Z :=
  path ← argstr 0;
  match path with
  | None => mret (-1)
  | Some path =>
      dio d_begin_op;;
      '(dp, name) ← knameiparent path;
      match dp with
      | None => end_ret (-1)
      | Some dp =>
          ilock (Some dp);;
          if ((namecmp name DOT =? 0) || (namecmp name DOTDOT =? 0))%bool then unlink_bad dp
          else
            r ← dirlookup devsw dp name;
            match r with
            | None => unlink_bad dp
            | Some (ip, off) => unlink_entry dp ip off
            end
      end
  end.

(** [create] with the parent [dp] locked and no entry called [name]. *)
Definition create_new (dp : Z) (name : list Z) (type major minor : Z) : M K Z :=
  d ← get_inode dp;
  ip ← ialloc (i_dev d) type;
  ilock (Some ip);;
  upd_inode ip (fun i => set_nlink 1 (set_devno major minor i));;
  iupdate ip;;
  i ← get_inode ip;
  when (type =? T_DIR)
    (upd_inode dp (add_nlink 1);;
     iupdate dp;;
     r ← dirlink devsw ip DOT (i_inum i);
     d ← get_inode dp;
     if r <? 0 then panic "create dots"
     else
       r ← dirlink devsw ip DOTDOT (i_inum d);
       if r <? 0 then panic "create dots" else mret tt);;
  r ← dirlink devsw dp name (i_inum i);
  if r <? 0 then panic "create: dirlink"
  else
    iunlockput (Some dp);;
    mret ip.

(** The inode, locked. *)
Definition create (path : list Z) (type major minor : Z) : M K (option Z) :=
  '(dp, name) ← knameiparent path;
  match dp with
  | None => mret None
  | Some dp =>
      ilock (Some dp);;
      d ← get_inode dp;
      if i_type d =? T_DEV then
        iunlockput (Some dp);;
        mret None
      else
        r ← dirlookup devsw dp name;
        match r with
        | Some (ip, _) =>
            iunlockput (Some dp);;
            ilock (Some ip);;
            i ← get_inode ip;
            if ((type =? T_FILE) && (i_type i =? T_FILE))%bool then mret (Some ip)
            else
              iunlockput (Some ip);;
              mret None
        | None => ip ← create_new dp name type major minor; mret (Some ip)
        end
  end.

(** The inode [open] is for, locked. *)
Definition open_inode (path : list Z) (omode : Z) : M K (option Z) :=
  if ctrue (omode .& O_CREATE) then create path T_FILE 0 0
  else
    ip ← knamei path;
    match ip with
    | None => mret None
    | Some ip =>
        ilock (Some ip);;
        i ← get_inode ip;
        if ((i_type i =? T_DIR) && negb (omode =? O_RDONLY))%bool then
          iunlockput (Some ip);;
          mret None
        else mret (Some ip)
    end.

Definition open_fail (f : option Z) (ip : Z) : M K Z :=
  match f with Some f => fileclose end_ f | None => mret tt end;;
  iunlockput (Some ip);;
  end_ret (-1).

Definition sys_open : M K Z :=
  path ← argstr 0;
  match path with
  | None => mret (-1)
  | Some path =>
      omode ← argint 1;
      match omode with
      | None => mret (-1)
      | Some omode =>
          dio d_begin_op;;
          ip ← open_inode path omode;
          match ip with
          | None => end_ret (-1)
          | Some ip =>
              f ← filealloc;
              match f with
              | None => open_fail None ip
              | Some f =>
                  fd ← fdalloc f;
                  if fd <? 0 then open_fail (Some f) ip
                  else
                    iunlock (Some ip);;
                    dio d_end_op;;
                    x ← get_file f;
                    set_file f (File FD_INODE (f_ref x)
                      (if ctrue (omode .& O_WRONLY) then 0 else 1)
                      (if (ctrue (omode .& O_WRONLY) || ctrue (omode .& O_RDWR))%bool then 1 else 0)
                      (f_pipe x) ip 0);;
                    mret fd
              end
          end
      end
  end.

(** [mkdir] and [mknod] after their arguments. *)
Definition make (path : list Z) (type major minor : Z) : M K Z :=
  ip ← create path type major minor;
  match ip with
  | None => end_ret (-1)
  | Some ip =>
      iunlockput (Some ip);;
      end_ret 0
  end.

Definition sys_mkdir : M K Z :=
  dio d_begin_op;;
  path ← argstr 0;
  match path with
  | None => end_ret (-1)
  | Some path => make path T_DIR 0 0
  end.

Definition sys_mknod : M K Z :=
  dio d_begin_op;;
  path ← argstr 0;
  match path with
  | None => end_ret (-1)
  | Some path =>
      major ← argint 1;
      match major with
      | None => end_ret (-1)
      | Some major =>
          minor ← argint 2;
          match minor with
          | None => end_ret (-1)
          | Some minor => make path T_DEV (s16 major) (s16 minor)
          end
      end
  end.

Definition sys_chdir : M K Z :=
  dio d_begin_op;;
  path ← argstr 0;
  match path with
  | None => end_ret (-1)
  | Some path =>
      ip ← knamei path;
      match ip with
      | None => end_ret (-1)
      | Some ip =>
          ilock (Some ip);;
          b ← is_dir devsw ip;
          if negb b then
            iunlockput (Some ip);;
            end_ret (-1)
          else
            iunlock (Some ip);;
            c ← cwd;
            iput c;;
            dio d_end_op;;
            p ← curproc;
            set_curproc (set_cwd (ip + 1) p);;
            mret 0
      end
  end.

(** The loop of [sys_exec] that collects [argv]: [n] entries left. *)
Fixpoint exec_args (n : nat) (uargv : Z) : M K (option (list (list Z))) :=
  match n with
  | O => mret None
  | S n =>
      uarg ← fetchint uargv;
      match uarg with
      | None => mret None
      | Some uarg =>
          if uarg =? 0 then mret (Some [])
          else
            s ← fetchstr (u32 uarg);
            match s with
            | None => mret None
            | Some s => r ← exec_args n (u32 (uargv + 4)); mret (cons s <$> r)
            end
      end
  end.

Definition sys_exec : M K Z :=
  path ← argstr 0;
  match path with
  | None => mret (-1)
  | Some path =>
      uargv ← argint 1;
      match uargv with
      | None => mret (-1)
      | Some uargv =>
          argv ← exec_args (Z.to_nat MAXARG) (u32 uargv);
          match argv with
          | None => mret (-1)
          | Some argv => exec end_ data_ devsw path argv
          end
      end
  end.

Definition sys_pipe : M K Z :=
  fd ← argptr 0 8;
  match fd with
  | None => mret (-1)
  | Some fd =>
      r ← pipealloc end_;
      match r with
      | None => mret (-1)
      | Some (rf, wf) =>
          fd0 ← fdalloc rf;
          fd1 ← (if fd0 <? 0 then mret (-1) else fdalloc wf);
          if fd1 <? 0 then
            when (0 <=? fd0) (set_fd fd0 0);;
            fileclose end_ rf;;
            fileclose end_ wf;;
            mret (-1)
          else
            ust_bytes fd (le_split 4 fd0);;
            ust_bytes (u32 (fd + 4)) (le_split 4 fd1);;
            mret 0
      end
  end.

(** ** syscall.c *)

Definition syscalls (num : Z) : option (M K Z) :=
  match num with
  | 1 => Some (sys_fork end_ data_ initcode devsw)
  | 2 => Some (sys_exit end_ data_ initcode devsw)
  | 3 => Some (sys_wait end_ data_ initcode devsw)
  | 4 => Some sys_pipe
  | 5 => Some sys_read
  | 6 => Some sys_kill
  | 7 => Some sys_exec
  | 8 => Some sys_fstat
  | 9 => Some sys_chdir
  | 10 => Some sys_dup
  | 11 => Some sys_getpid
  | 12 => Some (sys_sbrk end_ data_ initcode devsw)
  | 13 => Some sys_sleep
  | 14 => Some sys_uptime
  | 15 => Some sys_open
  | 16 => Some sys_write
  | 17 => Some sys_mknod
  | 18 => Some sys_unlink
  | 19 => Some sys_link
  | 20 => Some sys_mkdir
  | 21 => Some sys_close
  | _ => None
  end.

Definition set_eax (v : Z) : M K unit :=
  p ← curproc;
  let tf := p_tf p in
  set_curproc (set_tf (Trapframe (u32 v) (tf_eip tf) (tf_esp tf) (tf_eflags tf) (tf_cs tf) (tf_ds tf)
                         (tf_es tf) (tf_ss tf) (tf_rest tf)) p).

Definition syscall : M K unit :=
  p ← curproc;
  match syscalls (s32 (tf_eax (p_tf p))) with
  | Some f => r ← f; set_eax r
  | None => set_eax (-1)
  end.

End ops.
