(* ===== verification/Procfs.v ===== *)
(** procfs.c: the /proc file system of assignment 4, and the table of devices.

    A read builds the whole file in the array [buf] on the stack, and copies the
    part asked for.  The array is the memory from address 0, whose contents
    before the call are [junk]; string literals are placed at [LIT], above it.
    Stores outside the array fault. *)

From stdpp Require Import prelude strings gmap list.
From S2P Require Import Prelude Bytes Param BlockCache CString Pipe Kalloc Vm Proc.
From S2P Require Import Log TxDisk Fs Dir File Syscall.

Definition DIRENTSZ : Z := 16.
Definition BUFFSIZE : Z := (2 + NPROC) * DIRENTSZ.
Definition LIT : Z := 4096.

(** The bytes of a literal, without the NUL. *)
Fixpoint lit (s : string) : list Z :=
  match s with
  | EmptyString => []
  | String a s => Z.of_N (Ascii.N_of_ascii a) :: lit s
  end.
Definition NL : list Z := [10].

(** The array [de.name] after [itoa(x, de.name)]. *)
Definition itoa_name (x : Z) (name : list Z) : option (list Z) :=
  m ← itoa x 0 (fun a => name.[a]);
  Some (m <$> upto DIRSIZ).

(** The bytes of a [struct dirent]; [inum] is a [ushort]. *)
Definition dirent (inum : Z) (name : list Z) : list Z := le_split 2 (u16 inum) ++ name.

Section ops.
Context {T : Type} `{Disk T}.
Abbreviation K := (fsys T krest).
Context (junk : mem).
Context (bstat : M K (Z * Z * Z * Z)).   (* the four statistics of bio.c *)

(** *** The array [buf] *)

(** [memmove(buf + DIRENTSZ * i, &de, DIRENTSZ)] *)
Definition put_dirent (i : Z) (de : list Z) (buf : mem) : M K mem :=
  if BUFFSIZE <? DIRENTSZ * i + DIRENTSZ then fault "buf overflow"
  else mret (put_bytes (DIRENTSZ * i) de buf).

Definition buf_len (buf : mem) : M K Z :=
  of_option "string too long" (strlen (Z.to_nat BUFFSIZE) 0 buf).

(** [strncpy(buf + o, s, n)] *)
Definition cpy (o : Z) (s : list Z) (n : Z) (buf : mem) : M K mem :=
  if BUFFSIZE <? o + n then fault "buf overflow"
  else mret (strncpy o LIT n (put_bytes LIT (s ++ [0]) buf)).

(** [strncpy(buf + strlen(buf), s, n)] and [itoa(x, buf + strlen(buf))] *)
Definition cat (s : list Z) (n : Z) (buf : mem) : M K mem := o ← buf_len buf; cpy o s n buf.
Definition cat_int (x : Z) (buf : mem) : M K mem := o ← buf_len buf; of_option "itoa" (itoa (s32 x) o buf).

Definition len (s : list Z) : Z := Z.of_nat (length s).

(** *** The directory /proc *)

(** The loop of [initProc]: the next index, the array, and [de.name]. *)
Fixpoint initProc_loop (ps : list proc) (index : Z) (name : list Z) (buf : mem) : M K (Z * mem) :=
  match ps with
  | [] => mret (index, buf)
  | p :: ps =>
      if is_state UNUSED p then initProc_loop ps index name buf
      else
        name ← of_option "itoa" (itoa_name (p_pid p) name);
        buf ← put_dirent index (dirent (700 * p_pid p) name) buf;
        initProc_loop ps (index + 1) name buf
  end.

Definition initProc (ip : Z) (buf : mem) : M K (Z * mem) :=
  i ← get_inode ip;
  buf ← put_dirent 0 (dirent (i_inum i) (strncpy_name (lit "."))) buf;
  buf ← put_dirent 1 (dirent ROOTINO (strncpy_name (lit ".."))) buf;
  buf ← put_dirent 2 (dirent 660 (strncpy_name (lit "blockstat"))) buf;
  buf ← put_dirent 3 (dirent 670 (strncpy_name (lit "inodestat"))) buf;
  ps ← onrest (gets k_procs);
  '(index, buf) ← initProc_loop ps 4 (strncpy_name (lit "inodestat")) buf;
  mret (index * DIRENTSZ, buf).

(** *** /proc/PID *)

Definition proc_at (i : nat) : M K proc :=
  l ← onrest (gets k_procs);
  of_option "process table index" (l !! i).

Definition initPID (inum : Z) (buf : mem) : M K (Z * mem) :=
  buf ← put_dirent 0 (dirent inum (strncpy_name (lit "."))) buf;
  cur ← onrest (gets k_curinode);
  buf ← put_dirent 1 (dirent cur (strncpy_name (lit ".."))) buf;
  k ← onproc (getProcByPID (inum / 700));
  p ← proc_at k;
  buf ← put_dirent 2 (dirent (10 + inum) (strncpy_name (lit "status"))) buf;
  buf ← put_dirent 3 (dirent (20 + inum) (strncpy_name (lit "fdinfo"))) buf;
  buf ← (if p_cwd p =? 0 then mret buf
         else
           c ← get_inode (p_cwd p - 1);
           put_dirent 4 (dirent (i_inum c) (strncpy_name (lit "cwd"))) buf);
  mret (DIRENTSZ * 5, buf).

(** [getProc] takes an index of the table. *)
Definition status (pid : Z) (buf : mem) : M K (Z * mem) :=
  k ← onproc (getProc (pid / 700));
  p ← proc_at k;
  let procstat := lit (getProcState p) in
  sz ← of_option "itoa" (itoa (s32 (p_sz p)) LIT junk);
  szlen ← of_option "itoa" (strlen 20 LIT sz);
  let sz := (fun i => sz (LIT + i)) <$> upto szlen in
  buf ← cpy 0 (lit "Status: ") (len (lit "Status:  ")) buf;
  buf ← cat procstat (len procstat + 1) buf;
  buf ← cat (lit " Size: ") (len (lit " Size:  ")) buf;
  buf ← cat sz (len sz + 1) buf;
  buf ← cat NL 2 buf;
  n ← buf_len buf;
  mret (n, buf).

(** *** /proc/PID/fdinfo *)

Fixpoint fdinfo_loop (l : list Z) (i pid index : Z) (name : list Z) (buf : mem) : M K (Z * mem) :=
  match l with
  | [] => mret (index, buf)
  | f :: l =>
      if f =? 0 then fdinfo_loop l (i + 1) pid index name buf
      else
        name ← of_option "itoa" (itoa_name i name);
        buf ← put_dirent index (dirent (pid + i + 1) name) buf;
        fdinfo_loop l (i + 1) pid (index + 1) name buf
  end.

Definition fdinfo (pid : Z) (buf : mem) : M K (Z * mem) :=
  buf ← put_dirent 0 (dirent pid (strncpy_name (lit "."))) buf;
  buf ← put_dirent 1 (dirent (pid - 20) (strncpy_name (lit ".."))) buf;
  k ← onproc (getProc (pid / 700));
  p ← proc_at k;
  '(index, buf) ← fdinfo_loop (p_ofile p) 0 pid 2 (strncpy_name (lit "..")) buf;
  mret (index * DIRENTSZ, buf).

(** The names of the modes, as the code has them. *)
Definition flags_name (readable writable : Z) : list Z :=
  if ((readable =? 1) && (writable =? 1))%bool then lit "RDWR"
  else if ((readable =? 0) && (writable =? 1))%bool then lit "RDONLY"
  else if ((readable =? 1) && (writable =? 0))%bool then lit "WRONLY"
  else lit "no flags , sad so sad".

(** [fd-1] is an index of [p->ofile]; only an open inode has an [ip]. *)
Definition filesContent (pid : Z) (buf : mem) : M K (Z * mem) :=
  k ← onproc (getProc (pid / 700));
  p ← proc_at k;
  let fd := Z.rem (Z.rem pid 700 - 20) NOFILE in
  if fd - 1 <? 0 then fault "ofile[-1]"
  else
    let f := (p_ofile p).[fd - 1] in
    if f =? 0 then fault "null file"
    else
      x ← get_file (f - 1);
      buf ← cpy 0 (lit "TYPE: ") (len (lit "TYPE:  ")) buf;
      type ← fileType (f - 1);
      buf ← cat (lit type) (len (lit type) + 1) buf;
      buf ← cat (NL ++ lit "POSITION: ") (len (NL ++ lit "POSITION:  ")) buf;
      buf ← cat_int (f_off x) buf;
      buf ← cat (NL ++ lit "flags: ") (len (NL ++ lit "flags:  ")) buf;
      let fl := flags_name (f_readable x) (f_writable x) in
      buf ← cat fl (len fl + 1) buf;
      if decide (f_type x <> FD_INODE) then fault "inode of a pipe"
      else
        i ← get_inode (f_ip x);
        buf ← cat (NL ++ lit "INODE NUMBER: ") (len (NL ++ lit "INODE NUMBER:  ")) buf;
        buf ← cat_int (i_inum i) buf;
        buf ← cat (NL ++ lit "REFERENCE COUNT: ") (len (NL ++ lit "REFERENCE COUNT:  ")) buf;
        buf ← cat_int (i_ref i) buf;
        buf ← cat NL 3 buf;
        n ← buf_len buf;
        mret (n, buf).

(** *** /proc/blockstat and /proc/inodestat *)

Definition blockstat (buf : mem) : M K (Z * mem) :=
  '(free, total, hits, acc) ← bstat;
  buf ← cpy 0 (lit "Free blocks: ") (len (lit "Free blocks:  ")) buf;
  buf ← cat_int free buf;
  buf ← cat (NL ++ lit "Total blocks: ") (len (NL ++ lit "Total blocks:  ")) buf;
  buf ← cat_int total buf;
  buf ← cat (NL ++ lit "Hits ratio: ") (len (NL ++ lit "Hits ratio:  ")) buf;
  buf ← cat_int hits buf;
  buf ← cat (lit "/") 2 buf;
  buf ← cat_int acc buf;
  buf ← cat NL 3 buf;
  n ← buf_len buf;
  mret (n, buf).

Definition inodestat (buf : mem) : M K (Z * mem) :=
  buf ← cpy 0 (lit "Free inodes: ") (len (lit "Free inodes:  ")) buf;
  n ← get_number_of_free_inode;
  buf ← cat_int n buf;
  buf ← cat (NL ++ lit "Valid inode: ") (len (NL ++ lit "Valid inode:  ")) buf;
  n ← number_of_valid_inode;
  buf ← cat_int n buf;
  buf ← cat (NL ++ lit "Refs per inode: ") (len (NL ++ lit "Refs per inode:  ")) buf;
  n ← get_number_of_ref;
  buf ← cat_int n buf;
  buf ← cat (lit "/") 2 buf;
  n ← get_number_of_active_inode;
  buf ← cat_int n buf;
  buf ← cat NL 3 buf;
  n ← buf_len buf;
  mret (n, buf).

(** *** The device functions *)

Definition procfsisdir (ip : Z) : M K Z :=
  i ← get_inode ip;
  mret (if ((i_minor i =? 0) || (i_minor i =? T_DIR))%bool then 1 else 0).

Definition procfsiread (dp ip : Z) : M K unit :=
  i ← get_inode ip;
  let minor := if ((i_inum i =? 19) || (i_inum i mod 700 =? 0) || (i_inum i mod 700 =? 20))%bool
               then T_DIR else T_FILE in
  set_inode ip (Inode (i_dev i) (i_inum i) 1 I_VALID T_DEV PROCFS minor 1 0 (i_addrs i)).

(** The size of the file and the array. *)
Definition procfs_fill (ip command : Z) (buf : mem) : M K (Z * mem) :=
  i ← get_inode ip;
  if command =? 19 then
    onrest (modify (set_curinode (i_inum i)));;
    initProc ip buf
  else if command =? 0 then initPID (i_inum i) buf
  else if command =? 10 then status (i_inum i) buf
  else if command =? 20 then fdinfo (i_inum i) buf
  else if command =? 660 then blockstat buf
  else if command =? 670 then inodestat buf
  else if command =? 21 then filesContent (i_inum i) buf
  else mret (0, buf).

(** The result and the bytes stored at [dst]; a negative count makes
    [memmove] run over 4 GB, and a negative offset reads below the array. *)
Definition procfsread (ip off n : Z) : M K (Z * list Z) :=
  i ← get_inode ip;
  let command := i_inum i mod 700 in
  let command := if ((21 <=? command) && (command <=? 36))%bool then 21 else command in
  '(size, buf) ← procfs_fill ip command junk;
  if off <? size then
    let nr := if n <? size - off then n else size - off in
    if ((off <? 0) || (nr <? 0))%bool then fault "memmove"
    else mret (nr, (fun k => buf (off + k)) <$> upto nr)
  else mret (0, []).

Definition procfswrite (ip : Z) (buf : list Z) (n : Z) : M K Z := mret 0.

Definition procfs_ops : devops K :=
  DevOps (Some procfsisdir) (Some procfsiread) (Some procfsread) (Some procfswrite).

(** The table after [procfsinit]. *)
Definition procfsinit (devsw : Z -> devops K) : Z -> devops K := fun major =>
  if major =? PROCFS then procfs_ops else devsw major.

End ops.
