(* ===== verification/Kernel.v ===== *)
(** trap.c and main.c: the device table of the running kernel, traps, and the
    start of the system. *)

From stdpp Require Import prelude strings gmap list.
From S2P Require Import Prelude Bytes Param BlockCache CString Pipe Kalloc Vm Proc.
From S2P Require Import Log TxDisk Fs Dir Hw Mp Ide Console File Syscall Exec SysFile Procfs.

(** ** The interrupt descriptor table *)

(** [idt] after [tvinit]; [vectors] are the entry points of vectors.S. *)
Definition tvinit (vectors : list Z) : list gatedesc :=
  let idt := (fun i => SETGATE 0 (SEG_KCODE << 3) vectors.[i] 0) <$> upto 256 in
  <[Z.to_nat T_SYSCALL := SETGATE 1 (SEG_KCODE << 3) vectors.[T_SYSCALL] DPL_USER]> idt.

Section ops.
Context {T : Type} `{Disk T}.
Abbreviation K := (fsys T krest).

(** ** The console as a device *)

Definition puts_effects (l : list ceffect) : M K unit :=
  onrest (modify (fun r => set_console (k_console r ++ l) r));;
  for_each (fun e => match e with Wake ch => fwakeup ch | _ => mret tt end) l.

Definition kconsoleread (ip off n : Z) : M K (Z * list Z) :=
  iunlock (Some ip);;
  p ← curproc;
  i ← onrest (gets k_input);
  let '(out, bytes, i) := consoleread n (ctrue (p_killed p)) i in
  onrest (modify (set_input i));;
  match out with
  | RRet v => ilock (Some ip);; mret (v, bytes)
  | RSleep _ => sleep_on ChInput
  end.

Definition kconsolewrite (ip : Z) (buf : list Z) (n : Z) : M K Z :=
  iunlock (Some ip);;
  let '(l, r) := consolewrite buf n in
  puts_effects l;;
  ilock (Some ip);;
  mret r.

Definition console_ops : devops K := DevOps None None (Some kconsoleread) (Some kconsolewrite).

Definition consoleinit (devsw : Z -> devops K) : Z -> devops K := fun major =>
  if major =? CONSOLE then console_ops else devsw major.

Context (junk : mem) (bstat : M K (Z * Z * Z * Z)).

(** [devsw] when main() has initialised procfs and the console. *)
Definition kdevsw : Z -> devops K :=
  consoleinit (procfsinit junk bstat (fun _ => DevOps None None None None)).

(** ** The machine *)

(** The devices, the kernel, the descriptor tables of the processors, the
    interrupt descriptor table and the page of code at 0x7000 for the other
    processors. *)
Record machine := Machine {
  mc_hw : hw;
  mc_k : K;
  mc_gdts : list (list segdesc);
  mc_idt : list gatedesc;
  mc_low : mem
}.

Definition onhw {A} : M hw A -> M machine A :=
  lift mc_hw (fun h s => Machine h (mc_k s) (mc_gdts s) (mc_idt s) (mc_low s)).
Definition onk {A} : M K A -> M machine A :=
  lift mc_k (fun k s => Machine (mc_hw s) k (mc_gdts s) (mc_idt s) (mc_low s)).
Definition set_gdts (x : list (list segdesc)) : M machine unit :=
  modify (fun s => Machine (mc_hw s) (mc_k s) x (mc_idt s) (mc_low s)).
Definition set_idt (x : list gatedesc) : M machine unit :=
  modify (fun s => Machine (mc_hw s) (mc_k s) (mc_gdts s) x (mc_low s)).
Definition set_low (f : mem -> mem) : M machine unit :=
  modify (fun s => Machine (mc_hw s) (mc_k s) (mc_gdts s) (mc_idt s) (f (mc_low s))).

(** ** Traps *)

Context (end_ data_ : Z) (initcode : list Z).
Abbreviation devsw := kdevsw.

(** What [panic] puts on the console before it stops the processor; [pcs] is
    what [getcallerpcs] finds.  [Panic] is the end of a run. *)
Definition panic_prints (c : Z) (s : string) (pcs : list Z) : M hw unit :=
  hprintf "cpu%d: panic: " [c];;
  hprintf s [];;
  hprintf (String (Ascii.ascii_of_nat 10) EmptyString) [];;
  for_each (fun pc => hprintf " %p" [pc]) pcs.

(** [exit()] of the running process does not return. *)
Definition kexit {A} : M K A :=
  c ← kcur;
  onproc (exit (H:=kernel_env end_ data_ initcode devsw) c);;
  sleep_on ChNever.

(** [consoleintr(getc)]: every call of [getc] that does not return -1 has read
    an answer. *)
Fixpoint kintr_loop (fuel : nat) (getc : M hw Z) : M machine unit :=
  match fuel with
  | O => fault "waiting for a device"
  | S fuel =>
      c ← onhw getc;
      if c <? 0 then mret tt
      else
        onk (i ← onrest (gets k_input);
             let '(l, i) := intr_char c i in
             onrest (modify (set_input i));;
             puts_effects l);;
        kintr_loop fuel getc
  end.
Definition kintr (getc : M hw Z) : M machine unit :=
  s ← get; kintr_loop (S (length (hw_in (mc_hw s)))) getc.

Definition kbdintr : M machine unit := kintr kbdgetc.
Definition uartintr : M machine unit := kintr uartgetc.

Definition tick : M K unit :=
  onrest (modify (fun r => set_ticks (u32 (k_ticks r + 1)) r));;
  fwakeup ChTicks.

(** The switch of [trap]; the disk is that of memide.c, whose [ideintr] does
    nothing.  [running] is [proc != 0]. *)
Definition trap_switch (cpuid : Z) (running : bool) (tf : trapframe) (trapno : Z) : M machine unit :=
  if trapno =? T_IRQ0 + IRQ_TIMER then when (cpuid =? 0) (onk tick);; onhw lapiceoi
  else if trapno =? T_IRQ0 + IRQ_IDE then onhw lapiceoi
  else if trapno =? T_IRQ0 + IRQ_IDE + 1 then mret tt
  else if trapno =? T_IRQ0 + IRQ_KBD then kbdintr;; onhw lapiceoi
  else if trapno =? T_IRQ0 + IRQ_COM1 then uartintr;; onhw lapiceoi
  else if ((trapno =? T_IRQ0 + 7) || (trapno =? T_IRQ0 + IRQ_SPURIOUS))%bool then
    onhw (hprintf "cpu%d: spurious interrupt at %x:%x" [cpuid; tf_cs tf; tf_eip tf]);;
    onhw lapiceoi
  else if (negb running || (tf_cs tf .& 3 =? 0))%bool then panic "trap"
  else
    p ← onk curproc;
    onhw (hprintf "pid %d: trap %d on cpu %d eip 0x%x--kill proc" [p_pid p; trapno; cpuid; tf_eip tf]);;
    onk (set_curproc (set_killed 1 p)).

(** [if(proc && proc->killed && (tf->cs&3) == DPL_USER) exit();] *)
Definition exit_if_killed (running : bool) (tf : trapframe) : M K unit :=
  if running then
    p ← curproc;
    if (ctrue (p_killed p) && (tf_cs tf .& 3 =? DPL_USER))%bool then kexit else mret tt
  else mret tt.

Definition trap_syscall (tf : trapframe) : M K unit :=
  p ← curproc;
  if ctrue (p_killed p) then kexit
  else
    set_curproc (set_tf tf p);;
    syscall end_ data_ initcode devsw;;
    p ← curproc;
    if ctrue (p_killed p) then kexit else mret tt.

Definition trap (cpuid : Z) (running : bool) (tf : trapframe) (trapno : Z) : M machine unit :=
  if trapno =? T_SYSCALL then onk (trap_syscall tf)
  else
    trap_switch cpuid running tf trapno;;
    onk (exit_if_killed running tf);;
    onk (if running then
           p ← curproc;
           c ← kcur;
           when (bool_decide (p_state p = RUNNING) && (trapno =? T_IRQ0 + IRQ_TIMER))%bool
             (onproc (yield c))
         else mret tt);;
    onk (exit_if_killed running tf).

(** ** main.c *)

(** [bios] is the memory mp.c searches; [vectors] the entry points of
    vectors.S; [entryother] the code of entryother.S; [cpus], [mpenter_] and
    [entrypgdir_] the addresses of the variables and the function. *)
Context (bios : mem) (vectors entryother : list Z) (cpus mpenter_ entrypgdir_ : Z).

(** [sizeof(struct cpu)], and the offsets of [started] and [cpu] in it. *)
Definition sizeof_cpu : Z := 188.
Definition cpu_started : Z := 168.
Definition cpu_cpu : Z := 180.

(** [seginit] on the processor it runs on. *)
Definition kseginit : M machine unit :=
  c ← onhw cpunum;
  s ← get;
  gdt ← of_option "cpus" (mc_gdts s !! Z.to_nat c);
  set_gdts (<[Z.to_nat c := seginit (cpus + sizeof_cpu * c + cpu_cpu) gdt]> (mc_gdts s)).

(** [consoleinit] beside the device table. *)
Definition consoleinit_hw : M hw unit :=
  picenable IRQ_KBD;;
  ioapicenable IRQ_KBD 0.

(** [while(c->started == 0);] *)
Fixpoint wait_started (fuel : nat) (c : Z) : M hw unit :=
  match fuel with
  | O => fault "waiting for a device"
  | S fuel =>
      v ← answer;
      emit (MRead (cpus + sizeof_cpu * c + cpu_started) v);;
      if v =? 0 then wait_started fuel c else mret tt
  end.

(** Starting processor [c]; 0x7000 is [code]. *)
Definition start_cpu (c : Z) : M machine unit :=
  me ← onhw cpunum;
  if c =? me then mret tt
  else
    stack ← onk (onkmem kalloc);
    let code := p2v 28672 in
    set_low (store_long (code - 4) (u32 (stack + KSTACKSIZE)));;
    set_low (store_long (code - 8) mpenter_);;
    set_low (store_long (code - 12) (v2p entrypgdir_));;
    ids ← onhw (gets cpu_ids);
    onhw (lapicstartap ids.[c] (v2p code));;
    s ← get;
    onhw (wait_started (length (hw_in (mc_hw s))) c).

Definition startothers : M machine unit :=
  set_low (put_bytes (p2v 28672) entryother);;
  n ← onhw (gets ncpu);
  for_each start_cpu (upto n).

(** [mpmain] until it enters the scheduler; loading the descriptor table has no
    state of its own. *)
Definition mpmain (c : Z) : M machine unit :=
  onhw (hprintf "cpu%d: starting" [c]);;
  onhw (emit (MWrite (cpus + sizeof_cpu * c + cpu_started) 1)).

Definition mpenter : M machine unit :=
  onk switchkvm;;
  kseginit;;
  onhw lapicinit;;
  c ← onhw cpunum;
  mpmain c.

(** [main] until it enters the scheduler.  The device table is [kdevsw]; the
    file, inode and buffer tables are those the state starts with; locks have
    no state here. *)
Definition main : M machine unit :=
  onk (onkmem (kinit1 end_ end_ (p2v (4 * 1024 * 1024))));;
  onk (kvmalloc data_);;
  onhw (mpinit bios);;
  onhw lapicinit;;
  kseginit;;
  c ← onhw cpunum;
  onhw (hprintf "cpu%d: starting xv6" [c]);;
  onhw picinit;;
  onhw ioapicinit;;
  onhw consoleinit_hw;;
  onhw uartinit;;
  set_idt (tvinit vectors);;
  onhw ideinit;;
  mp ← onhw (gets ismp);
  when (mp =? 0) (onhw timerinit);;
  startothers;;
  onk (onkmem (kinit2 end_ (p2v (4 * 1024 * 1024)) (p2v PHYSTOP)));;
  onk (onproc (userinit (H:=kernel_env end_ data_ initcode devsw)));;
  mpmain c.

End ops.

(** [entrypgdir], the page directory of entry.S: 4MB pages. *)
Definition PTE_PS : Z := 128.
Definition entrypgdir : list Z :=
  <[Z.to_nat (KERNBASE >> PDXSHIFT) := 0 .| PTE_P .| PTE_W .| PTE_PS]>
    (<[0%nat := 0 .| PTE_P .| PTE_W .| PTE_PS]> (replicate (Z.to_nat NPDENTRIES) 0)).
