(* ===== verification/Sh.v ===== *)
(** sh.c: the command parser of the shell.

    A position in the line is the list of the characters from it to its end
    [es], where the NUL is.  A word [q..eq] is the list of its characters, as
    [nulterminate] makes it one.  A [struct execcmd] is filled while the
    redirections around it have already been made, so that the loop of
    [parseexec] collects the two separately and the tree is built at the end.
    [Bad] is [panic], which ends the child process. *)

From stdpp Require Import prelude strings gmap list.
From S2P Require Import Prelude Param.

(** ** Data *)

Inductive cmd :=
| EXEC (argv : list (list Z))
| REDIR (c : cmd) (file : list Z) (mode fd : Z)
| PIPE (left right : cmd)
| LIST (left right : cmd)
| BACK (c : cmd).

(** A parse: a result with the rest of the line, a message, or not enough fuel. *)
Inductive parse (A : Type) :=
| Good (a : A) (rest : list Z)
| Bad (msg : string)
| Fuel.
Arguments Good {A}.
Arguments Bad {A}.
Arguments Fuel {A}.

Definition pbind {A B} (p : parse A) (f : A -> list Z -> parse B) : parse B :=
  match p with
  | Good a s => f a s
  | Bad e => Bad e
  | Fuel => Fuel
  end.

Definition MAXARGS : Z := 10.

Definition BAR : Z := 124.
Definition AMP : Z := 38.
Definition SEMI : Z := 59.
Definition LPAR : Z := 40.
Definition RPAR : Z := 41.
Definition LT : Z := 60.
Definition GT : Z := 62.
Definition PLUS : Z := 43.
Definition CH_A : Z := 97.

(** " \t\r\n\v" and "<|>&;()" *)
Definition whitespace : list Z := [32; 9; 13; 10; 11].
Definition symbols : list Z := [LT; BAR; GT; AMP; SEMI; LPAR; RPAR].

Definition mem (c : Z) (l : list Z) : bool := bool_decide (c ∈ l).

(** ** Tokens *)

(** [while(s < es && strchr(whitespace, *s)) s++;] *)
Fixpoint skip_ws (s : list Z) : list Z :=
  match s with
  | c :: s' => if mem c whitespace then skip_ws s' else s
  | [] => []
  end.

Definition word_char (c : Z) : bool := (negb (mem c whitespace) && negb (mem c symbols))%bool.

(** The characters of a word, and what follows. *)
Fixpoint scan_word (s : list Z) : list Z * list Z :=
  match s with
  | c :: s' => if word_char c then let '(w, r) := scan_word s' in (c :: w, r) else ([], s)
  | [] => ([], [])
  end.

(** The token (0 at the end), the word [q..eq], and the position after. *)
Definition gettoken (s : list Z) : Z * list Z * list Z :=
  let s := skip_ws s in
  match s with
  | [] => (0, [], [])
  | c :: s' =>
      if mem c [BAR; LPAR; RPAR; SEMI; AMP; LT] then (c, [c], skip_ws s')
      else if c =? GT then
        match s' with
        | c' :: s'' => if c' =? GT then (PLUS, [c; c'], skip_ws s'') else (c, [c], skip_ws s')
        | [] => (c, [c], [])
        end
      else
        let '(w, r) := scan_word s in
        (CH_A, w, skip_ws r)
  end.

(** Whether the next character is one of [toks]; [*ps] moves to it. *)
Definition peek (s toks : list Z) : bool * list Z :=
  let s := skip_ws s in
  match s with
  | c :: _ => (mem c toks, s)
  | [] => (false, s)
  end.

(** ** The parser *)

(** The file, the mode and the descriptor of a redirection. *)
Definition redir : Type := list Z * Z * Z.

Definition add_redir (c : cmd) (r : redir) : cmd :=
  let '(file, mode, fd) := r in REDIR c file mode fd.

(** [parseredirs]: the redirections, in order. *)
Fixpoint parseredirs (fuel : nat) (s : list Z) : parse (list redir) :=
  match fuel with
  | O => Fuel
  | S fuel =>
      let '(b, s) := peek s [LT; GT] in
      if b : bool then
        let '(tok, _, s) := gettoken s in
        let '(tok2, w, s) := gettoken s in
        if negb (tok2 =? CH_A) then Bad "missing file for redirection"
        else
          pbind (parseredirs fuel s) (fun l s =>
            Good ((if tok =? LT then (w, O_RDONLY, 0) else (w, O_WRONLY .| O_CREATE, 1)) :: l) s)
      else Good [] s
  end.

(** The loop of [parseexec]: the arguments and the redirections that follow. *)
Fixpoint parseargs (fuel : nat) (argc : Z) (s : list Z) : parse (list (list Z) * list redir) :=
  match fuel with
  | O => Fuel
  | S fuel =>
      let '(b, s) := peek s [BAR; RPAR; AMP; SEMI] in
      if b : bool then Good ([], []) s
      else
        let '(tok, w, s) := gettoken s in
        if tok =? 0 then Good ([], []) s
        else if negb (tok =? CH_A) then Bad "syntax"
        else if MAXARGS <=? argc + 1 then Bad "too many args"
        else
          pbind (parseredirs fuel s) (fun l1 s =>
          pbind (parseargs fuel (argc + 1) s) (fun '(ws, l2) s =>
            Good (w :: ws, l1 ++ l2) s))
  end.

(** [while(peek(ps, es, "&"))] *)
Fixpoint parseback (fuel : nat) (c : cmd) (s : list Z) : parse cmd :=
  match fuel with
  | O => Fuel
  | S fuel =>
      let '(b, s) := peek s [AMP] in
      if b : bool then let '(_, _, s) := gettoken s in parseback fuel (BACK c) s
      else Good c s
  end.

Fixpoint parseline (fuel : nat) (s : list Z) : parse cmd :=
  match fuel with
  | O => Fuel
  | S fuel =>
      pbind (parsepipe fuel s) (fun c s =>
      pbind (parseback fuel c s) (fun c s =>
        let '(b, s) := peek s [SEMI] in
        if b : bool then
          let '(_, _, s) := gettoken s in
          pbind (parseline fuel s) (fun c2 s => Good (LIST c c2) s)
        else Good c s))
  end
with parsepipe (fuel : nat) (s : list Z) : parse cmd :=
  match fuel with
  | O => Fuel
  | S fuel =>
      pbind (parseexec fuel s) (fun c s =>
        let '(b, s) := peek s [BAR] in
        if b : bool then
          let '(_, _, s) := gettoken s in
          pbind (parsepipe fuel s) (fun c2 s => Good (PIPE c c2) s)
        else Good c s)
  end
with parseexec (fuel : nat) (s : list Z) : parse cmd :=
  match fuel with
  | O => Fuel
  | S fuel =>
      let '(b, s) := peek s [LPAR] in
      if b : bool then parseblock fuel s
      else
        pbind (parseredirs fuel s) (fun l1 s =>
        pbind (parseargs fuel 0 s) (fun '(ws, l2) s =>
          Good (foldl add_redir (EXEC ws) (l1 ++ l2)) s))
  end
with parseblock (fuel : nat) (s : list Z) : parse cmd :=
  match fuel with
  | O => Fuel
  | S fuel =>
      let '(b, s) := peek s [LPAR] in
      if negb b then Bad "parseblock"
      else
        let '(_, _, s) := gettoken s in
        pbind (parseline fuel s) (fun c s =>
          let '(b, s) := peek s [RPAR] in
          if negb b then Bad "syntax - missing )"
          else
            let '(_, _, s) := gettoken s in
            pbind (parseredirs fuel s) (fun l s => Good (foldl add_redir c l) s))
  end.

(** Every character takes part in at most four nested calls. *)
Definition parse_fuel (s : list Z) : nat := 4 * length s + 8.

Definition parsecmd (s : list Z) : parse cmd :=
  pbind (parseline (parse_fuel s) s) (fun c r =>
    match (peek r []).2 with
    | [] => Good c []
    | _ => Bad "syntax"
    end).
