(* ===== verification/ShThms.v ===== *)
(** The parser of the shell: it terminates on every line, and it reads back
    every command as it is written. *)

From stdpp Require Import prelude strings gmap list.
From S2P Require Import Prelude Param Sh.

(** ** Termination *)

Lemma skip_ws_length s : (length (skip_ws s) <= length s)%nat.
Proof. induction s as [|c s IH]; [done|]. cbn. destruct (mem c whitespace); cbn; lia. Qed.

Lemma skip_ws_idem s : skip_ws (skip_ws s) = skip_ws s.
Proof.
  induction s as [|c s IH]; [done|]. cbn. destruct (mem c whitespace) eqn:E; [done|]. cbn. by rewrite E.
Qed.

Lemma scan_word_length s : (length (scan_word s).2 <= length s)%nat.
Proof.
  induction s as [|c s IH]; [done|]. cbn. destruct (word_char c); [|done].
  destruct (scan_word s). cbn in *. lia.
Qed.

(** A token takes at least one character. *)
Lemma gettoken_length s :
  let '(tok, _, r) := gettoken s in
  (length r <= length s)%nat /\ (tok <> 0 -> (length r < length s)%nat).
Proof.
  unfold gettoken. pose proof (skip_ws_length s) as Hs. destruct (skip_ws s) as [|c s'] eqn:E.
  { cbn. split; [lia|done]. }
  cbn [length] in Hs. pose proof (skip_ws_length s').
  destruct (mem c _) eqn:Em; [split; [|intros _]; lia|].
  destruct (Z.eqb_spec c GT) as [->|Hgt].
  - destruct s' as [|c' s'']; [cbn in *; split; [|intros _]; lia|].
    pose proof (skip_ws_length s''). cbn [length] in *.
    destruct (c' =? GT); (split; [|intros _]; cbn in *; lia).
  - destruct (scan_word (c :: s')) as [w r] eqn:Ew. pose proof (skip_ws_length r).
    pose proof (skip_ws_idem s) as Hi. rewrite E in Hi.
    assert (word_char c = true) as Hwc.
    { unfold word_char. cbn in Hi. destruct (mem c whitespace) eqn:Ews.
      - exfalso. pose proof (skip_ws_length s') as Hl. rewrite Hi in Hl. cbn in Hl. lia.
      - unfold mem in *. apply bool_decide_eq_false in Em. cbn [negb andb].
        rewrite negb_true_iff. apply bool_decide_eq_false. intros Hin. apply Em.
        unfold symbols in Hin. set_unfold. tauto. }
    cbn in Ew. rewrite Hwc in Ew. pose proof (scan_word_length s').
    destruct (scan_word s'). injection Ew as <- <-. cbn in *. split; [|intros _]; lia.
Qed.

Lemma peek_snd s toks : (peek s toks).2 = skip_ws s.
Proof. unfold peek. by destruct (skip_ws s). Qed.

(** A token follows where [peek] says so. *)
Lemma peek_token s toks :
  (peek s toks).1 = true -> let '(tok, _, r) := gettoken (skip_ws s) in (length r < length s)%nat.
Proof.
  unfold peek. intros H. pose proof (gettoken_length (skip_ws s)) as Hg.
  pose proof (skip_ws_length s) as Hl. destruct (gettoken (skip_ws s)) as [[tok w] r] eqn:E.
  destruct Hg as [Hg1 Hg2]. destruct (skip_ws s) as [|c s'] eqn:Es; [done|].
  assert (tok <> 0); [|lia]. intros ->. unfold gettoken in E.
  assert (skip_ws (c :: s') = c :: s') as Ec by (by rewrite <- Es, skip_ws_idem).
  rewrite Ec in E. clear -E. destruct (mem c _) eqn:Em.
  { unfold mem in Em. apply bool_decide_eq_true in Em. simplify_eq. set_unfold.
    unfold BAR, LPAR, RPAR, SEMI, AMP, LT in Em. lia. }
  destruct (Z.eqb_spec c GT) as [->|_].
  { destruct s' as [|c' s'']; [done|]. destruct (c' =? GT); done. }
  destruct (scan_word (c :: s')); done.
Qed.

(** Not out of fuel, and no longer than the line. *)
Definition ok_parse {A} (s : list Z) (p : parse A) : Prop :=
  match p with
  | Good _ r => (length r <= length s)%nat
  | Bad _ => True
  | Fuel => False
  end.

Lemma ok_parse_bind {A B} s s' (p : parse A) (f : A -> list Z -> parse B) :
  ok_parse s' p -> (forall a r, (length r <= length s')%nat -> ok_parse s (f a r)) -> ok_parse s (pbind p f).
Proof. destruct p; cbn; auto. Qed.

Lemma ok_parse_mono {A} s s' (p : parse A) :
  (length s' <= length s)%nat -> ok_parse s' p -> ok_parse s p.
Proof. destruct p; cbn; auto. lia. Qed.

(** The step of every loop: what [peek] and [gettoken] leave. *)
Ltac peek_step s toks H :=
  let b := fresh "b" in let E := fresh "E" in let Hl := fresh "Hl" in
  pose proof (peek_token s toks) as H; pose proof (peek_snd s toks) as E; pose proof (skip_ws_length s) as Hl;
  destruct (peek s toks) as [b ?]; cbn [fst snd] in *; subst; destruct b; try specialize (H eq_refl).

Lemma parseredirs_ok fuel s : (length s < fuel)%nat -> ok_parse s (parseredirs fuel s).
Proof.
  revert s. induction fuel as [|fuel IH]; intros s Hf; [lia|]. cbn [parseredirs].
  peek_step s [LT; GT] Ht; [|cbn; lia].
  destruct (gettoken (skip_ws s)) as [[tok w] r].
  pose proof (gettoken_length r) as Hr. destruct (gettoken r) as [[tok2 w2] r2]. destruct Hr as [Hr _].
  destruct (negb (tok2 =? CH_A)); [done|].
  eapply ok_parse_bind; [apply IH; lia|]. intros l r3 Hr3. cbn. lia.
Qed.

Lemma parseargs_ok fuel argc s : (length s < fuel)%nat -> ok_parse s (parseargs fuel argc s).
Proof.
  revert argc s. induction fuel as [|fuel IH]; intros argc s Hf; [lia|]. cbn [parseargs].
  peek_step s [BAR; RPAR; AMP; SEMI] Ht; [cbn; lia|].
  pose proof (gettoken_length (skip_ws s)) as Hr. destruct (gettoken (skip_ws s)) as [[tok w] r].
  destruct Hr as [Hr1 Hr2]. destruct (Z.eqb_spec tok 0); [cbn; lia|]. specialize (Hr2 ltac:(done)).
  destruct (negb (tok =? CH_A)); [done|]. destruct (MAXARGS <=? argc + 1); [done|].
  eapply ok_parse_bind; [apply parseredirs_ok; lia|]. intros l1 r1 H1.
  eapply ok_parse_bind; [apply IH; lia|]. intros [ws l2] r2 H2. cbn. lia.
Qed.

Lemma parseback_ok fuel c s : (length s < fuel)%nat -> ok_parse s (parseback fuel c s).
Proof.
  revert c s. induction fuel as [|fuel IH]; intros c s Hf; [lia|]. cbn [parseback].
  peek_step s [AMP] Ht; [|cbn; lia].
  destruct (gettoken (skip_ws s)) as [[tok w] r]. eapply ok_parse_mono; [|apply IH]; lia.
Qed.

Lemma parse_ok fuel :
  (forall s, (4 * length s + 4 <= fuel)%nat -> ok_parse s (parseline fuel s)) /\
  (forall s, (4 * length s + 3 <= fuel)%nat -> ok_parse s (parsepipe fuel s)) /\
  (forall s, (4 * length s + 2 <= fuel)%nat -> ok_parse s (parseexec fuel s)) /\
  (forall s, (4 * length s + 1 <= fuel)%nat -> ok_parse s (parseblock fuel s)).
Proof.
  induction fuel as [|fuel (IHl & IHp & IHe & IHb)]; [split_and!; intros; lia|].
  split_and!; intros s Hf; cbn [parseline parsepipe parseexec parseblock].
  - eapply ok_parse_bind; [apply IHp; lia|]. intros c r Hr.
    eapply ok_parse_bind; [apply parseback_ok; lia|]. intros c' r' Hr'.
    peek_step r' [SEMI] Ht; [|cbn; lia].
    destruct (gettoken (skip_ws r')) as [[tok w] r2].
    eapply ok_parse_bind; [apply IHl; lia|]. intros c2 r3 H3. cbn. lia.
  - eapply ok_parse_bind; [apply IHe; lia|]. intros c r Hr.
    peek_step r [BAR] Ht; [|cbn; lia].
    destruct (gettoken (skip_ws r)) as [[tok w] r2].
    eapply ok_parse_bind; [apply IHp; lia|]. intros c2 r3 H3. cbn. lia.
  - peek_step s [LPAR] Ht.
    + eapply ok_parse_mono; [|apply IHb; lia]. lia.
    + eapply ok_parse_bind; [apply parseredirs_ok; lia|]. intros l1 r1 H2.
      eapply ok_parse_bind; [apply parseargs_ok; lia|]. intros [ws l2] r2 H3. cbn. lia.
  - peek_step s [LPAR] Ht; [|done]. cbn [negb].
    destruct (gettoken (skip_ws s)) as [[tok w] r].
    eapply ok_parse_bind; [apply IHl; lia|]. intros c r1 H2.
    peek_step r1 [RPAR] Ht2; [|done]. cbn [negb].
    destruct (gettoken (skip_ws r1)) as [[tok2 w2] r2].
    eapply ok_parse_bind; [apply parseredirs_ok; lia|]. intros l r3 H6. cbn. lia.
Qed.

(** The parser ends on every line: it returns a command or a syntax error. *)
Theorem parsecmd_total s : (exists c, parsecmd s = Good c []) \/ (exists e, parsecmd s = Bad e).
Proof.
  unfold parsecmd, parse_fuel. destruct (parse_ok (4 * length s + 8)) as (Hl & _).
  specialize (Hl s ltac:(lia)). destruct (parseline _ s) as [c r|e|]; cbn in *; [|eauto|done].
  destruct (peek r []).2; eauto.
Qed.

(** ** More fuel gives the same *)

Definition le_parse {A} (p q : parse A) : Prop := p = Fuel \/ p = q.

Lemma le_parse_refl {A} (p : parse A) : le_parse p p.
Proof. by right. Qed.

Lemma le_parse_bind {A B} (p q : parse A) (f g : A -> list Z -> parse B) :
  le_parse p q -> (forall a r, le_parse (f a r) (g a r)) -> le_parse (pbind p f) (pbind q g).
Proof. intros [-> | ->] Hf; [by left|]. destruct q; cbn; [apply Hf|by right..]. Qed.

(** Both sides take the same branches. *)
Ltac le_step := match goal with
  | |- le_parse (pbind _ _) _ => apply le_parse_bind; [|intros]
  | |- context [peek ?s ?t] => destruct (peek s t)
  | |- context [gettoken ?s] => destruct (gettoken s) as [[? ?] ?]
  | |- context [if ?b then _ else _] => destruct b
  | p : (_ * _)%type |- _ => destruct p
  | |- _ => solve [apply le_parse_refl | auto]
  end.

Lemma parseredirs_le fuel s : le_parse (parseredirs fuel s) (parseredirs (S fuel) s).
Proof.
  revert s. induction fuel as [|fuel IH]; intros s; [by left|].
  remember (S fuel) as f eqn:Ef. cbn [parseredirs]. rewrite Ef at 1. cbn [parseredirs]. subst f.
  repeat le_step.
Qed.

Lemma parseargs_le fuel argc s : le_parse (parseargs fuel argc s) (parseargs (S fuel) argc s).
Proof.
  revert argc s. induction fuel as [|fuel IH]; intros argc s; [by left|].
  remember (S fuel) as f eqn:Ef. cbn [parseargs]. rewrite Ef at 1. cbn [parseargs]. subst f.
  pose proof parseredirs_le. repeat le_step.
Qed.

Lemma parseback_le fuel c s : le_parse (parseback fuel c s) (parseback (S fuel) c s).
Proof.
  revert c s. induction fuel as [|fuel IH]; intros c s; [by left|].
  remember (S fuel) as f eqn:Ef. cbn [parseback]. rewrite Ef at 1. cbn [parseback]. subst f.
  repeat le_step.
Qed.

Lemma parse_le fuel :
  (forall s, le_parse (parseline fuel s) (parseline (S fuel) s)) /\
  (forall s, le_parse (parsepipe fuel s) (parsepipe (S fuel) s)) /\
  (forall s, le_parse (parseexec fuel s) (parseexec (S fuel) s)) /\
  (forall s, le_parse (parseblock fuel s) (parseblock (S fuel) s)).
Proof.
  induction fuel as [|fuel (IHl & IHp & IHe & IHb)]; [split_and!; by left|].
  pose proof parseredirs_le. pose proof parseargs_le. pose proof parseback_le.
  split_and!; intros s; remember (S fuel) as f eqn:Ef;
    cbn [parseline parsepipe parseexec parseblock]; rewrite Ef at 1;
    cbn [parseline parsepipe parseexec parseblock]; subst f; repeat le_step.
Qed.

(** A result that some fuel gives is the result of every larger one. *)
Lemma parse_more {A} (p : nat -> parse A) n m :
  (forall k, le_parse (p k) (p (S k))) -> p n <> Fuel -> (n <= m)%nat -> p m = p n.
Proof.
  intros Hp Hn. induction 1 as [|m Hm IH]; [done|]. destruct (Hp m) as [E|E]; congruence.
Qed.

(** A run with enough fuel, whatever it is. *)
Definition runs {A} (p : nat -> parse A) (r : parse A) : Prop := exists n, forall m, (n <= m)%nat -> p m = r.

Lemma runs_S {A} (p q : nat -> parse A) r : (forall m, p (S m) = q m) -> runs q r -> runs p r.
Proof.
  intros Hpq [n Hn]. exists (S n). intros [|m] Hm; [lia|]. rewrite Hpq. apply Hn. lia.
Qed.

Lemma runs_bind {A B} (p : nat -> parse A) (f : nat -> A -> list Z -> parse B) a s r :
  runs p (Good a s) -> runs (fun n => f n a s) r -> runs (fun n => pbind (p n) (f n)) r.
Proof.
  intros [n1 H1] [n2 H2]. exists (n1 `max` n2)%nat. intros m Hm.
  rewrite H1 by lia. cbn. apply H2. lia.
Qed.

Lemma runs_const {A} (r : parse A) : runs (fun _ => r) r.
Proof. by exists 0%nat. Qed.

(** ** Writing a command *)

Inductive level := LvLine | LvBack | LvPipe | LvExec.

Definition at_line (k : level) : bool := match k with LvLine => true | _ => false end.
Definition at_back (k : level) : bool := match k with LvLine | LvBack => true | _ => false end.
Definition at_pipe (k : level) : bool := match k with LvExec => false | _ => true end.

Definition paren (b : bool) (s : list Z) : list Z := if b then s else [LPAR] ++ s ++ [RPAR].

Definition print_args (ws : list (list Z)) : list Z := concat ((fun w => w ++ [32]) <$> ws).
Definition print_redir (file : list Z) (fd : Z) : list Z :=
  (if fd =? 0 then LT else GT) :: file ++ [32].

Fixpoint print (k : level) (c : cmd) : list Z :=
  match c with
  | EXEC ws => print_args ws
  | REDIR c file mode fd => print LvExec c ++ print_redir file fd
  | PIPE l r => paren (at_pipe k) (print LvExec l ++ [BAR] ++ print LvPipe r)
  | BACK c => paren (at_back k) (print LvBack c ++ [AMP])
  | LIST l r => paren (at_line k) (print LvBack l ++ [SEMI] ++ print LvLine r)
  end.

(** Words without blanks or symbols, fewer than ten of them, and the modes the
    parser gives. *)
Definition word_ok (w : list Z) : Prop := w <> [] /\ Forall (fun c => word_char c = true) w.

Definition redir_ok (r : redir) : Prop :=
  let '(file, mode, fd) := r in
  word_ok file /\ ((mode = O_RDONLY /\ fd = 0) \/ (mode = O_WRONLY .| O_CREATE /\ fd = 1)).

Fixpoint cmd_ok (c : cmd) : Prop :=
  match c with
  | EXEC ws => Forall word_ok ws /\ Z.of_nat (length ws) < MAXARGS
  | REDIR c file mode fd => cmd_ok c /\ redir_ok (file, mode, fd)
  | PIPE l r => cmd_ok l /\ cmd_ok r
  | LIST l r => cmd_ok l /\ cmd_ok r
  | BACK c => cmd_ok c
  end.

(** *** Tokens of the text *)

(** The text does not start with a blank. *)
Definition tidy (s : list Z) : Prop := skip_ws s = s.

Definition starts (l s : list Z) : Prop := match s with [] => True | c :: _ => c ∈ l end.

Lemma starts_tidy l s : (forall c, c ∈ l -> mem c whitespace = false) -> starts l s -> tidy s.
Proof. intros Hl Hs. destruct s as [|c s]; [done|]. unfold tidy. cbn. by rewrite Hl. Qed.

Lemma symbols_not_ws c : c ∈ symbols -> mem c whitespace = false.
Proof.
  intros Hc. unfold mem. apply bool_decide_eq_false. unfold symbols, whitespace in *.
  unfold LT, BAR, GT, AMP, SEMI, LPAR, RPAR in *. set_unfold. lia.
Qed.

Lemma word_char_not_ws c : word_char c = true -> mem c whitespace = false.
Proof. unfold word_char. destruct (mem c whitespace); done. Qed.

Lemma word_char_not_symbol c : word_char c = true -> mem c symbols = false.
Proof. unfold word_char. destruct (mem c whitespace), (mem c symbols); done. Qed.

Lemma mem_false_sub c l l' : mem c l' = false -> l ⊆ l' -> mem c l = false.
Proof. unfold mem. rewrite !bool_decide_eq_false. set_solver. Qed.

Lemma peek_tidy s toks : tidy s -> peek s toks = (match s with c :: _ => mem c toks | [] => false end, s).
Proof. intros Hs. unfold peek. rewrite Hs. by destruct s. Qed.

(** A symbol other than [>]. *)
Lemma gettoken_symbol c s :
  c ∈ [BAR; LPAR; RPAR; SEMI; AMP; LT] -> gettoken (c :: s) = (c, [c], skip_ws s).
Proof.
  intros Hc. unfold gettoken. cbn [skip_ws]. rewrite symbols_not_ws.
  - unfold mem. by rewrite bool_decide_eq_true_2.
  - unfold symbols. set_solver.
Qed.

Lemma scan_word_spec w s :
  Forall (fun c => word_char c = true) w -> (match s with c :: _ => word_char c = false | [] => True end) ->
  scan_word (w ++ s) = (w, s).
Proof.
  intros Hw Hs. induction Hw as [|c w Hc Hw IH]; cbn.
  - destruct s as [|c s]; [done|]. cbn. by rewrite Hs.
  - by rewrite Hc, IH.
Qed.

Lemma word_char_space : word_char 32 = false.
Proof. done. Qed.

(** A word and the blank after it. *)
Lemma gettoken_word w s : word_ok w -> gettoken (w ++ 32 :: s) = (CH_A, w, skip_ws s).
Proof.
  intros [Hne Hw]. unfold gettoken. pose proof (scan_word_spec w (32 :: s) Hw word_char_space) as Es.
  destruct w as [|c w]; [done|]. inversion Hw as [|? ? Hc Hw']; subst.
  change ((c :: w) ++ 32 :: s) with (c :: w ++ 32 :: s) in *. cbn [skip_ws].
  rewrite (word_char_not_ws c Hc). pose proof (word_char_not_symbol c Hc) as Hsym.
  rewrite (mem_false_sub c [BAR; LPAR; RPAR; SEMI; AMP; LT] symbols Hsym)
    by (unfold symbols; set_solver).
  destruct (Z.eqb_spec c GT) as [->|_]; [done|]. rewrite Es. done.
Qed.

Lemma skip_space s : skip_ws (32 :: s) = skip_ws s.
Proof. done. Qed.

Lemma word_tidy w s : word_ok w -> tidy (w ++ s).
Proof.
  intros [Hne Hw]. destruct w as [|c w]; [done|]. inversion Hw; subst. unfold tidy. cbn.
  by rewrite word_char_not_ws.
Qed.

(** *** Redirections and arguments *)

Definition print_redirs (rs : list redir) : list Z :=
  concat ((fun '(file, mode, fd) => print_redir file fd) <$> rs).

Lemma print_redirs_cons (r : redir) rs : print_redirs (r :: rs) = print_redir r.1.1 r.2 ++ print_redirs rs.
Proof. by destruct r as [[file mode] fd]. Qed.

(** What can follow a redirection. *)
Definition after_redirs (s : list Z) : Prop :=
  tidy s /\ match s with c :: _ => mem c [LT; GT] = false | [] => True end.

Lemma redirs_tidy rs s : Forall redir_ok rs -> tidy s -> tidy (print_redirs rs ++ s).
Proof.
  intros Hrs Hs. destruct Hrs as [|[[file mode] fd] rs Hr Hrs]; [done|].
  unfold print_redirs, print_redir. cbn. unfold tidy. cbn. by destruct (fd =? 0).
Qed.

Lemma gettoken_redir file fd s :
  word_ok file ->
  gettoken (print_redir file fd ++ s) =
    (if fd =? 0 then LT else GT, [if fd =? 0 then LT else GT], file ++ 32 :: s).
Proof.
  intros Hf. unfold print_redir. destruct (fd =? 0); cbn [app]; rewrite <- app_assoc; cbn [app].
  - rewrite gettoken_symbol by set_solver. by rewrite (word_tidy file _ Hf).
  - unfold gettoken. cbn [skip_ws]. change (mem GT whitespace) with false. cbv iota.
    change (mem GT [BAR; LPAR; RPAR; SEMI; AMP; LT]) with false. change (GT =? GT) with true. cbv iota.
    pose proof (word_tidy file (32 :: s) Hf) as Ht. destruct Hf as [Hne Hw].
    destruct file as [|c file]; [done|]. inversion Hw as [|? ? Hc Hw']; subst. cbn [app] in *.
    destruct (Z.eqb_spec c GT) as [->|_]; [done|]. by rewrite Ht.
Qed.

Lemma parseredirs_print rs s :
  Forall redir_ok rs -> after_redirs s -> runs (fun n => parseredirs n (print_redirs rs ++ s)) (Good rs s).
Proof.
  intros Hrs [Hs1 Hs2]. induction Hrs as [|[[file mode] fd] rs [Hf Hm] Hrs IH].
  - eapply runs_S; [intros m; cbn [parseredirs print_redirs fmap list_fmap concat app]; reflexivity|].
    cbv beta. rewrite peek_tidy by done.
    replace (match s with [] => false | c :: _ => mem c [LT; GT] end) with false
      by (destruct s; [done|by rewrite Hs2]).
    apply runs_const.
  - eapply runs_S; [intros m; cbn [parseredirs]; reflexivity|]. cbv beta.
    rewrite print_redirs_cons, <- app_assoc. cbn [fst snd].
    rewrite peek_tidy; cycle 1.
    { unfold print_redir, tidy. cbn. by destruct (fd =? 0). }
    replace (match print_redir file fd ++ print_redirs rs ++ s with [] => false | c :: _ => mem c [LT; GT] end)
      with true by (unfold print_redir; by destruct (fd =? 0)).
    cbv iota. rewrite gettoken_redir by done. rewrite gettoken_word by done.
    rewrite (redirs_tidy rs s Hrs Hs1). change (negb (CH_A =? CH_A)) with false. cbv iota.
    eapply runs_bind; [exact IH|]. cbv beta.
    destruct Hm as [[-> ->]|[-> ->]]; apply runs_const.
Qed.

(** What can follow a simple command. *)
Definition after_exec (s : list Z) : Prop := starts [BAR; RPAR; AMP; SEMI] s.

Lemma after_exec_tidy s : after_exec s -> tidy s.
Proof.
  apply starts_tidy. intros c Hc. apply symbols_not_ws. unfold symbols. set_solver.
Qed.

Lemma after_exec_redirs s : after_exec s -> after_redirs s.
Proof.
  intros Hs. split; [by apply after_exec_tidy|]. destruct s as [|c s]; [done|].
  unfold mem. apply bool_decide_eq_false. cbn in Hs. set_unfold.
  unfold LT, BAR, GT, AMP, SEMI, LPAR, RPAR in *. lia.
Qed.

Lemma args_cons w ws s : print_args (w :: ws) ++ s = w ++ 32 :: (print_args ws ++ s).
Proof. unfold print_args. cbn [fmap list_fmap concat]. by rewrite <- !app_assoc. Qed.

Lemma args_tidy ws s : Forall word_ok ws -> tidy s -> tidy (print_args ws ++ s).
Proof. intros [|w ws' Hw _] Hs; [done|]. rewrite args_cons. by apply word_tidy. Qed.

(** A word is not one of the symbols. *)
Lemma head_word w s toks :
  word_ok w -> toks ⊆ symbols -> match w ++ s with c :: _ => mem c toks | [] => false end = false.
Proof.
  intros [Hne Hw] Ht. destruct w as [|c w]; [done|]. inversion Hw; subst. cbn.
  by eapply mem_false_sub; [apply word_char_not_symbol|].
Qed.

Lemma parseargs_end argc s :
  after_exec s -> runs (fun n => parseargs n argc s) (Good ([], []) s).
Proof.
  intros Hs. eapply runs_S; [intros m; cbn [parseargs]; reflexivity|]. cbv beta.
  rewrite peek_tidy by by apply after_exec_tidy. destruct s as [|c s]; [by exists 0%nat|].
  cbn in Hs. unfold mem at 1. rewrite bool_decide_eq_true_2 by set_solver. apply runs_const.
Qed.

Lemma parseargs_print ws rs argc s :
  Forall word_ok ws -> Forall redir_ok rs -> ws <> [] -> 0 <= argc ->
  argc + Z.of_nat (length ws) < MAXARGS -> after_exec s ->
  runs (fun n => parseargs n argc (print_args ws ++ print_redirs rs ++ s)) (Good (ws, rs) s).
Proof.
  intros Hws Hrs. revert argc. induction Hws as [|w ws Hw Hws IH]; intros argc Hne Ha Hlen Hs; [done|].
  eapply runs_S; [intros m; cbn [parseargs]; reflexivity|]. cbv beta.
  rewrite args_cons. rewrite peek_tidy by by apply word_tidy.
  rewrite head_word by (done || unfold symbols; set_solver). rewrite gettoken_word by done.
  pose proof (after_exec_tidy s Hs) as Hst.
  rewrite (args_tidy ws _ Hws (redirs_tidy rs s Hrs Hst)).
  change (CH_A =? 0) with false. change (negb (CH_A =? CH_A)) with false. cbv iota.
  simpl length in Hlen. destruct (Z.leb_spec MAXARGS (argc + 1)); [lia|].
  destruct ws as [|w' ws'].
  - cbn [print_args fmap list_fmap concat app]. change (print_args []) with ([] : list Z). cbn [app].
    eapply runs_bind; [apply parseredirs_print; [done|by apply after_exec_redirs]|].
    eapply runs_bind; [by apply parseargs_end|]. cbv beta iota. rewrite app_nil_r. apply runs_const.
  - eapply runs_bind.
    { apply (parseredirs_print []); [done|]. split; [by apply args_tidy; [|apply redirs_tidy]|].
      rewrite args_cons. inversion Hws; subst.
      pose proof (head_word w' (32 :: print_args ws' ++ print_redirs rs ++ s) [LT; GT]) as Hh.
      destruct (w' ++ _); [done|]. apply Hh; [done|unfold symbols; set_solver]. }
    eapply runs_bind; [apply IH; [done|lia|lia|done]|]. cbn [app]. apply runs_const.
Qed.

(** *** Commands *)

Definition after_pipe (s : list Z) : Prop := starts [RPAR; AMP; SEMI] s.
Definition after_back (s : list Z) : Prop := starts [RPAR; SEMI] s.
Definition after_line (s : list Z) : Prop := starts [RPAR] s.

Lemma starts_weaken l l' s : l ⊆ l' -> starts l s -> starts l' s.
Proof. destruct s; cbn; [done|]. set_solver. Qed.

(** The four ways a command is read, each in its place. *)
Record reads (c : cmd) : Prop := {
  rd_exec rs s : Forall redir_ok rs -> after_exec s ->
    runs (fun n => parseexec n (print LvExec c ++ print_redirs rs ++ s)) (Good (foldl add_redir c rs) s);
  rd_pipe s : after_pipe s -> runs (fun n => parsepipe n (print LvPipe c ++ s)) (Good c s);
  rd_back s X : after_pipe s -> runs (fun n => parseback n c s) X ->
    runs (fun n => pbind (parsepipe n (print LvBack c ++ s)) (fun c s => parseback n c s)) X;
  rd_line s : after_line s -> runs (fun n => parseline n (print LvLine c ++ s)) (Good c s)
}.

Lemma parseback_end c s : after_back s -> runs (fun n => parseback n c s) (Good c s).
Proof.
  intros Hs. eapply runs_S; [intros m; cbn [parseback]; reflexivity|]. cbv beta.
  assert (after_exec s) as He by (eapply starts_weaken; [|exact Hs]; set_solver).
  rewrite peek_tidy by by apply after_exec_tidy. destruct s as [|c' s]; [apply runs_const|].
  cbn in Hs. unfold mem. rewrite bool_decide_eq_false_2; [apply runs_const|].
  unfold RPAR, AMP, SEMI in *. set_unfold. lia.
Qed.

(** A simple command is a pipeline. *)
Lemma exec_pipe c s :
  after_pipe s -> runs (fun n => parseexec n (print LvExec c ++ s)) (Good c s) ->
  runs (fun n => parsepipe n (print LvExec c ++ s)) (Good c s).
Proof.
  intros Hs He. eapply runs_S; [intros m; cbn [parsepipe]; reflexivity|].
  eapply runs_bind; [exact He|]. cbv beta.
  assert (after_exec s) as Ha by (eapply starts_weaken; [|exact Hs]; set_solver).
  rewrite peek_tidy by by apply after_exec_tidy. destruct s as [|c' s]; [apply runs_const|].
  cbn in Hs. unfold mem. rewrite bool_decide_eq_false_2; [apply runs_const|].
  unfold BAR, RPAR, AMP, SEMI in *. set_unfold. lia.
Qed.

(** A pipeline is a line. *)
Lemma back_line c t s :
  after_line s -> runs (fun n => pbind (parsepipe n t) (fun c s => parseback n c s)) (Good c s) ->
  runs (fun n => parseline n t) (Good c s).
Proof.
  intros Hs [n Hn]. exists (S n). intros [|m] Hm; [lia|]. cbn [parseline].
  specialize (Hn m ltac:(lia)). destruct (parsepipe m t) as [c0 s0|e|]; cbn [pbind] in *; try done.
  rewrite Hn. cbn [pbind]. assert (after_exec s) as Ha by (eapply starts_weaken; [|exact Hs]; set_solver).
  rewrite peek_tidy by by apply after_exec_tidy. destruct s as [|c' s]; [done|].
  cbn in Hs. unfold mem. rewrite bool_decide_eq_false_2; [done|].
  unfold RPAR, SEMI in *. set_unfold. lia.
Qed.

Lemma print_tidy k c s : cmd_ok c -> tidy s -> tidy (print k c ++ s).
Proof.
  revert k s. induction c as [ws|c IH file mode fd|l IHl r IHr|l IHl r IHr|c IH]; intros k s Hc Hs; cbn in Hc.
  - apply args_tidy; [apply Hc|done].
  - cbn [print]. rewrite <- app_assoc. apply IH; [apply Hc|]. unfold print_redir, tidy. cbn.
    by destruct (fd =? 0).
  - cbn [print]. destruct (at_pipe k); [|done]. cbn [paren]. rewrite <- app_assoc.
    apply IHl; [apply Hc|done].
  - cbn [print]. destruct (at_line k); [|done]. cbn [paren]. rewrite <- app_assoc.
    apply IHl; [apply Hc|done].
  - cbn [print]. destruct (at_back k); [|done]. cbn [paren]. rewrite <- app_assoc. by apply IH.
Qed.

Lemma rpar_tidy s : tidy (RPAR :: s).
Proof. done. Qed.

(** A line in parentheses is a simple command. *)
Lemma line_exec c rs s :
  cmd_ok c -> Forall redir_ok rs -> after_exec s ->
  (forall s, after_line s -> runs (fun n => parseline n (print LvLine c ++ s)) (Good c s)) ->
  runs (fun n => parseexec n (([LPAR] ++ print LvLine c ++ [RPAR]) ++ print_redirs rs ++ s))
    (Good (foldl add_redir c rs) s).
Proof.
  intros Hc Hrs Hs Hl. rewrite <- !app_assoc. cbn [app].
  eapply runs_S; [intros m; cbn [parseexec]; reflexivity|]. cbv beta.
  rewrite peek_tidy by done. change (mem LPAR [LPAR]) with true. cbv iota.
  eapply runs_S; [intros m; cbn [parseblock]; reflexivity|]. cbv beta.
  rewrite peek_tidy by done. change (mem LPAR [LPAR]) with true. cbn [negb].
  rewrite gettoken_symbol by set_solver.
  rewrite (print_tidy LvLine c _ Hc (rpar_tidy _)).
  eapply runs_bind; [apply Hl; cbn; set_solver|]. cbv beta.
  rewrite peek_tidy by done. change (mem RPAR [RPAR]) with true. cbn [negb].
  rewrite gettoken_symbol by set_solver.
  rewrite (redirs_tidy rs s Hrs (after_exec_tidy s Hs)).
  eapply runs_bind; [by apply parseredirs_print; [|apply after_exec_redirs]|]. apply runs_const.
Qed.

Section levels.
Context (c : cmd).

Lemma lift_pipe :
  print LvPipe c = print LvExec c ->
  (forall rs s, Forall redir_ok rs -> after_exec s ->
    runs (fun n => parseexec n (print LvExec c ++ print_redirs rs ++ s)) (Good (foldl add_redir c rs) s)) ->
  forall s, after_pipe s -> runs (fun n => parsepipe n (print LvPipe c ++ s)) (Good c s).
Proof.
  intros -> He s Hs. apply exec_pipe; [done|]. apply (He []); [done|].
  eapply starts_weaken; [|exact Hs]. set_solver.
Qed.

Lemma lift_back :
  print LvBack c = print LvPipe c ->
  (forall s, after_pipe s -> runs (fun n => parsepipe n (print LvPipe c ++ s)) (Good c s)) ->
  forall s X, after_pipe s -> runs (fun n => parseback n c s) X ->
    runs (fun n => pbind (parsepipe n (print LvBack c ++ s)) (fun c s => parseback n c s)) X.
Proof. intros -> Hp s X Hs HX. eapply runs_bind; [by apply Hp|done]. Qed.

Lemma lift_line :
  print LvLine c = print LvBack c ->
  (forall s X, after_pipe s -> runs (fun n => parseback n c s) X ->
    runs (fun n => pbind (parsepipe n (print LvBack c ++ s)) (fun c s => parseback n c s)) X) ->
  forall s, after_line s -> runs (fun n => parseline n (print LvLine c ++ s)) (Good c s).
Proof.
  intros -> Hb s Hs. apply back_line; [done|]. apply Hb.
  - eapply starts_weaken; [|exact Hs]. set_solver.
  - apply parseback_end. eapply starts_weaken; [|exact Hs]. set_solver.
Qed.

Lemma lift_exec :
  cmd_ok c -> print LvExec c = [LPAR] ++ print LvLine c ++ [RPAR] ->
  (forall s, after_line s -> runs (fun n => parseline n (print LvLine c ++ s)) (Good c s)) ->
  forall rs s, Forall redir_ok rs -> after_exec s ->
    runs (fun n => parseexec n (print LvExec c ++ print_redirs rs ++ s)) (Good (foldl add_redir c rs) s).
Proof. intros Hc -> Hl rs s Hrs Hs. by apply line_exec. Qed.
End levels.

Lemma exec_reads ws : cmd_ok (EXEC ws) -> reads (EXEC ws).
Proof.
  intros Hc. assert (forall rs s, Forall redir_ok rs -> after_exec s ->
    runs (fun n => parseexec n (print LvExec (EXEC ws) ++ print_redirs rs ++ s))
      (Good (foldl add_redir (EXEC ws) rs) s)) as He.
  2:{ pose proof (lift_pipe (EXEC ws) eq_refl He) as Hp. pose proof (lift_back (EXEC ws) eq_refl Hp) as Hb.
      pose proof (lift_line (EXEC ws) eq_refl Hb). by constructor. }
  intros rs s Hrs Hs. destruct Hc as [Hws Hlen]. cbn [print].
  pose proof (after_exec_tidy s Hs) as Hst. pose proof (redirs_tidy rs s Hrs Hst) as Hrt.
  eapply runs_S; [intros m; cbn [parseexec]; reflexivity|]. cbv beta.
  rewrite peek_tidy by by apply args_tidy. destruct ws as [|w ws].
  - change (print_args []) with ([] : list Z). cbn [app].
    replace (match print_redirs rs ++ s with [] => false | c :: _ => mem c [LPAR] end) with false.
    2:{ destruct rs as [|[[file mode] fd] rs]; [|rewrite print_redirs_cons; by cbn; destruct (fd =? 0)].
        cbn. destruct s as [|c s]; [done|]. cbn in Hs. symmetry. apply bool_decide_eq_false.
        unfold BAR, RPAR, AMP, SEMI, LPAR in *. set_unfold. lia. }
    eapply runs_bind; [apply parseredirs_print; [done|by apply after_exec_redirs]|].
    eapply runs_bind; [by apply parseargs_end|]. cbv beta iota. rewrite app_nil_r. apply runs_const.
  - rewrite args_cons, head_word by (by inversion Hws || unfold symbols; set_solver). rewrite <- args_cons.
    eapply runs_bind.
    { apply (parseredirs_print []); [done|]. split; [by apply args_tidy|]. rewrite args_cons.
      inversion Hws; subst. pose proof (head_word w (32 :: print_args ws ++ print_redirs rs ++ s) [LT; GT]) as Hh.
      destruct (w ++ _); [done|]. apply Hh; [done|unfold symbols; set_solver]. }
    eapply runs_bind; [by apply parseargs_print; try done; lia|]. apply runs_const.
Qed.

Lemma redir_reads c file mode fd : cmd_ok (REDIR c file mode fd) -> reads c -> reads (REDIR c file mode fd).
Proof.
  intros [Hc Hr] R. assert (forall rs s, Forall redir_ok rs -> after_exec s ->
    runs (fun n => parseexec n (print LvExec (REDIR c file mode fd) ++ print_redirs rs ++ s))
      (Good (foldl add_redir (REDIR c file mode fd) rs) s)) as He.
  2:{ pose proof (lift_pipe (REDIR c file mode fd) eq_refl He) as Hp.
      pose proof (lift_back (REDIR c file mode fd) eq_refl Hp) as Hb.
      pose proof (lift_line (REDIR c file mode fd) eq_refl Hb). by constructor. }
  intros rs s Hrs Hs. cbn [print].
  pose proof (rd_exec _ R ((file, mode, fd) :: rs) s) as H. rewrite print_redirs_cons in H.
  rewrite <- !app_assoc in *. apply H; [by constructor|done].
Qed.

Lemma pipe_reads l r : cmd_ok (PIPE l r) -> reads l -> reads r -> reads (PIPE l r).
Proof.
  intros [Hl Hr] Rl Rr. assert (forall s, after_pipe s ->
    runs (fun n => parsepipe n (print LvPipe (PIPE l r) ++ s)) (Good (PIPE l r) s)) as Hp.
  { intros s Hs. cbn [print at_pipe paren]. rewrite <- !app_assoc.
    eapply runs_S; [intros m; cbn [parsepipe]; reflexivity|].
    eapply runs_bind; [apply (rd_exec _ Rl []); [done|cbn; set_solver]|]. cbn [print_redirs app foldl].
    rewrite peek_tidy by done. change (mem BAR [BAR]) with true. cbv iota.
    rewrite gettoken_symbol by set_solver.
    rewrite (print_tidy LvPipe r s Hr); [|apply after_exec_tidy; eapply starts_weaken; [|exact Hs]; set_solver].
    eapply runs_bind; [by apply (rd_pipe _ Rr)|]. apply runs_const. }
  pose proof (lift_back (PIPE l r) eq_refl Hp) as Hb. pose proof (lift_line (PIPE l r) eq_refl Hb) as Hln.
  constructor; auto. apply lift_exec; [done|done|exact Hln].
Qed.

Lemma back_reads c : cmd_ok (BACK c) -> reads c -> reads (BACK c).
Proof.
  intros Hc R. assert (forall s X, after_pipe s -> runs (fun n => parseback n (BACK c) s) X ->
    runs (fun n => pbind (parsepipe n (print LvBack (BACK c) ++ s)) (fun c s => parseback n c s)) X) as Hb.
  { intros s X Hs HX. cbn [print at_back paren]. rewrite <- !app_assoc. cbn [app].
    apply (rd_back _ R); [cbn; set_solver|].
    eapply runs_S; [intros m; cbn [parseback]; reflexivity|]. cbv beta.
    rewrite peek_tidy by done. change (mem AMP [AMP]) with true. cbv iota.
    rewrite gettoken_symbol by set_solver.
    assert (tidy s) as -> by (apply after_exec_tidy; eapply starts_weaken; [|exact Hs]; set_solver).
    exact HX. }
  pose proof (lift_line (BACK c) eq_refl Hb) as Hln.
  pose proof (lift_exec (BACK c) Hc eq_refl Hln) as He.
  pose proof (lift_pipe (BACK c) eq_refl He) as Hp. by constructor.
Qed.

Lemma list_reads l r : cmd_ok (LIST l r) -> reads l -> reads r -> reads (LIST l r).
Proof.
  intros Hc Rl Rr. pose proof Hc as [Hl Hr].
  assert (forall s, after_line s ->
    runs (fun n => parseline n (print LvLine (LIST l r) ++ s)) (Good (LIST l r) s)) as Hln.
  { intros s Hs. cbn [print at_line paren]. rewrite <- !app_assoc. cbn [app].
    destruct (rd_back _ Rl (SEMI :: print LvLine r ++ s) (Good l (SEMI :: print LvLine r ++ s)))
      as [n1 H1]; [cbn; set_solver|apply parseback_end; cbn; set_solver|].
    destruct (rd_line _ Rr s Hs) as [n2 H2].
    exists (S (n1 `max` n2))%nat. intros [|m] Hm; [lia|]. cbn [parseline].
    specialize (H1 m ltac:(lia)). destruct (parsepipe m _) as [c0 s0|e|]; cbn [pbind] in *; try done.
    rewrite H1. cbn [pbind]. rewrite peek_tidy by done. change (mem SEMI [SEMI]) with true. cbv iota.
    rewrite gettoken_symbol by set_solver.
    rewrite (print_tidy LvLine r s Hr); [|apply after_exec_tidy; eapply starts_weaken; [|exact Hs]; set_solver].
    rewrite H2 by lia. done. }
  pose proof (lift_exec (LIST l r) Hc eq_refl Hln) as He.
  pose proof (lift_pipe (LIST l r) eq_refl He) as Hp. pose proof (lift_back (LIST l r) eq_refl Hp) as Hb.
  by constructor.
Qed.

Lemma cmd_reads c : cmd_ok c -> reads c.
Proof.
  induction c as [ws|c IH file mode fd|l IHl r IHr|l IHl r IHr|c IH]; intros Hc.
  - by apply exec_reads.
  - apply redir_reads; [done|apply IH, Hc].
  - apply pipe_reads; [done|apply IHl, Hc|apply IHr, Hc].
  - apply list_reads; [done|apply IHl, Hc|apply IHr, Hc].
  - apply back_reads; [done|apply IH, Hc].
Qed.

(** C20: what is written is what is read: every command the shell can build, nested
    in any way, written with the fewest parentheses, is parsed back as itself,
    with the fuel [parsecmd] takes. *)
Theorem parse_print c : cmd_ok c -> parsecmd (print LvLine c) = Good c [].
Proof.
  intros Hc. destruct (rd_line _ (cmd_reads c Hc) [] I) as [n Hn]. rewrite app_nil_r in Hn.
  unfold parsecmd. set (s := print LvLine c) in *.
  destruct (parse_ok (parse_fuel s)) as (Hok & _). specialize (Hok s ltac:(unfold parse_fuel; lia)).
  assert (parseline (parse_fuel s) s = Good c []) as ->; [|done].
  rewrite <- (Hn (n `max` parse_fuel s)%nat) by lia. symmetry.
  apply (parse_more (fun n => parseline n s)); [intros k; apply parse_le| |lia].
  intros E. by rewrite E in Hok.
Qed.

(** (ls > y ; cat) < x | wc & *)
Lemma parse_print_witness :
  exists c, print LvLine c = [40; 108; 115; 32; 62; 121; 32; 59; 99; 97; 116; 32; 41; 60; 120; 32; 124;
      119; 99; 32; 38] /\ parsecmd (print LvLine c) = Good c [].
Proof.
  exists (BACK (PIPE (REDIR (LIST (REDIR (EXEC [[108; 115]]) [121] (O_WRONLY .| O_CREATE) 1)
    (EXEC [[99; 97; 116]])) [120] O_RDONLY 0) (EXEC [[119; 99]]))).
  split; [vm_compute; reflexivity|]. apply parse_print.
  cbn; repeat split; try done; try (repeat constructor; done); try (by left); try (by right).
Defined.
