(* ===== verification/ShMem.v ===== *)
(** sh.c: the command parser in memory.

    Sh.v reads words off the line; here are the pointers of the source.  The
    line is in memory, with a NUL at [es]; a command is a structure that [malloc]
    has given, with pointers to others and into the line.  The execcmd is filled
    while the redcmds around it already point to it, and [nulterminate] ends the
    words in the line once it has been parsed.

    A pointer to a structure is its number from 1 on, in the order of the calls
    of [malloc], which never fails here; the structures themselves cannot be
    reached through pointers into the line.  The parser ends the process with
    [panic]; what it prints before is not kept. *)

From stdpp Require Import prelude strings gmap list.
From S2P Require Import Prelude Param CString Sh.

(** ** Data *)

Inductive node :=
| NEXEC (argv eargv : list Z)
| NREDIR (cmd file efile mode fd : Z)
| NPIPE (left right : Z)
| NLIST (left right : Z)
| NBACK (cmd : Z).

Record shmem := ShMem {
  sm_line : Z -> Z;
  sm_nodes : list node
}.

Definition lookup_node (l : list node) (p : Z) : option node :=
  if p <=? 0 then None else l !! Z.to_nat (p - 1).

Definition node_at (p : Z) : M shmem node :=
  l ← gets sm_nodes;
  of_option "not a command" (lookup_node l p).

Definition new_node (n : node) : M shmem Z :=
  l ← gets sm_nodes;
  modify (fun s => ShMem (sm_line s) (sm_nodes s ++ [n]));;
  mret (Z.of_nat (length l) + 1).

(** [*p = c] in the line *)
Definition set_char (p c : Z) : M shmem unit :=
  modify (fun s => ShMem (fun x => if x =? p then c else sm_line s x) (sm_nodes s)).

(** [cmd->argv[argc] = q; cmd->eargv[argc] = eq;] *)
Definition set_arg (cmd argc q eq : Z) : M shmem unit :=
  n ← node_at cmd;
  match n with
  | NEXEC argv eargv =>
      if argc <? MAXARGS then
        modify (fun s => ShMem (sm_line s) (<[Z.to_nat (cmd - 1) :=
          NEXEC (<[Z.to_nat argc := q]> argv) (<[Z.to_nat argc := eq]> eargv)]> (sm_nodes s)))
      else fault "argv[MAXARGS]"
  | _ => fault "not an execcmd"
  end.

(** ** Constructors *)

Definition execcmd : M shmem Z :=
  new_node (NEXEC (replicate (Z.to_nat MAXARGS) 0) (replicate (Z.to_nat MAXARGS) 0)).
Definition redircmd (subcmd file efile mode fd : Z) : M shmem Z := new_node (NREDIR subcmd file efile mode fd).
Definition pipecmd (left right : Z) : M shmem Z := new_node (NPIPE left right).
Definition listcmd (left right : Z) : M shmem Z := new_node (NLIST left right).
Definition backcmd (subcmd : Z) : M shmem Z := new_node (NBACK subcmd).

(** ** Tokens *)

Section line.
Context (m : Z -> Z) (es : Z).

(** while [s < es] and [test] holds of the character, [s++] *)
Fixpoint advance (test : Z -> bool) (fuel : nat) (s : Z) : Z :=
  match fuel with
  | O => s
  | S fuel => if ((s <? es) && test (m s))%bool then advance test fuel (s + 1) else s
  end.
Definition skip (test : Z -> bool) (s : Z) : Z := advance test (Z.to_nat (es - s)) s.

Definition is_ws (c : Z) : bool := Sh.mem c whitespace.

(** The token, [*q], [*eq] and [*ps]. *)
Definition gettoken (s : Z) : Z * Z * Z * Z :=
  let s := skip is_ws s in
  let q := s in
  let c := m s in
  let '(ret, s) :=
    if c =? 0 then (c, s)
    else if Sh.mem c [BAR; LPAR; RPAR; SEMI; AMP; LT] then (c, s + 1)
    else if c =? GT then if m (s + 1) =? GT then (PLUS, s + 2) else (c, s + 1)
    else (CH_A, skip word_char s) in
  (ret, q, s, skip is_ws s).

Definition peek (s : Z) (toks : list Z) : bool * Z :=
  let s := skip is_ws s in
  ((negb (m s =? 0) && Sh.mem (m s) toks)%bool, s).

End line.

(** ** The parser *)

Section parser.
Context (es : Z).

Fixpoint parseredirs (fuel : nat) (cmd s : Z) : M shmem (Z * Z) :=
  match fuel with
  | O => fault "fuel"
  | S fuel =>
      m ← gets sm_line;
      let '(b, s) := peek m es s [LT; GT] in
      if b : bool then
        let '(tok, _, _, s) := gettoken m es s in
        let '(tok2, q, eq, s) := gettoken m es s in
        if negb (tok2 =? CH_A) then panic "missing file for redirection"
        else
          cmd ← (if tok =? LT then redircmd cmd q eq O_RDONLY 0
                 else if tok =? GT then redircmd cmd q eq (O_WRONLY .| O_CREATE) 1
                 else if tok =? PLUS then redircmd cmd q eq (O_WRONLY .| O_CREATE) 1
                 else mret cmd);
          parseredirs fuel cmd s
      else mret (cmd, s)
  end.

(** The loop of [parseexec]: [argc], [ret] and [*ps]. *)
Fixpoint parseargs (fuel : nat) (cmd argc ret s : Z) : M shmem (Z * Z * Z) :=
  match fuel with
  | O => fault "fuel"
  | S fuel =>
      m ← gets sm_line;
      let '(b, s) := peek m es s [BAR; RPAR; AMP; SEMI] in
      if b : bool then mret (argc, ret, s)
      else
        let '(tok, q, eq, s) := gettoken m es s in
        if tok =? 0 then mret (argc, ret, s)
        else if negb (tok =? CH_A) then panic "syntax"
        else
          set_arg cmd argc q eq;;
          if MAXARGS <=? argc + 1 then panic "too many args"
          else
            '(ret, s) ← parseredirs fuel ret s;
            parseargs fuel cmd (argc + 1) ret s
  end.

(** [while(peek(ps, es, "&"))] *)
Fixpoint parseback (fuel : nat) (cmd s : Z) : M shmem (Z * Z) :=
  match fuel with
  | O => fault "fuel"
  | S fuel =>
      m ← gets sm_line;
      let '(b, s) := peek m es s [AMP] in
      if b : bool then
        let '(_, _, _, s) := gettoken m es s in
        cmd ← backcmd cmd;
        parseback fuel cmd s
      else mret (cmd, s)
  end.

Fixpoint parseline (fuel : nat) (s : Z) : M shmem (Z * Z) :=
  match fuel with
  | O => fault "fuel"
  | S fuel =>
      '(cmd, s) ← parsepipe fuel s;
      '(cmd, s) ← parseback fuel cmd s;
      m ← gets sm_line;
      let '(b, s) := peek m es s [SEMI] in
      if b : bool then
        let '(_, _, _, s) := gettoken m es s in
        '(rcmd, s) ← parseline fuel s;
        cmd ← listcmd cmd rcmd;
        mret (cmd, s)
      else mret (cmd, s)
  end
with parsepipe (fuel : nat) (s : Z) : M shmem (Z * Z) :=
  match fuel with
  | O => fault "fuel"
  | S fuel =>
      '(cmd, s) ← parseexec fuel s;
      m ← gets sm_line;
      let '(b, s) := peek m es s [BAR] in
      if b : bool then
        let '(_, _, _, s) := gettoken m es s in
        '(rcmd, s) ← parsepipe fuel s;
        cmd ← pipecmd cmd rcmd;
        mret (cmd, s)
      else mret (cmd, s)
  end
with parseexec (fuel : nat) (s : Z) : M shmem (Z * Z) :=
  match fuel with
  | O => fault "fuel"
  | S fuel =>
      m ← gets sm_line;
      let '(b, s) := peek m es s [LPAR] in
      if b : bool then parseblock fuel s
      else
        cmd ← execcmd;
        '(ret, s) ← parseredirs fuel cmd s;
        '(argc, ret, s) ← parseargs fuel cmd 0 ret s;
        set_arg cmd argc 0 0;;
        mret (ret, s)
  end
with parseblock (fuel : nat) (s : Z) : M shmem (Z * Z) :=
  match fuel with
  | O => fault "fuel"
  | S fuel =>
      m ← gets sm_line;
      let '(b, s) := peek m es s [LPAR] in
      if negb b then panic "parseblock"
      else
        let '(_, _, _, s) := gettoken m es s in
        '(cmd, s) ← parseline fuel s;
        let '(b, s) := peek m es s [RPAR] in
        if negb b then panic "syntax - missing )"
        else
          let '(_, _, _, s) := gettoken m es s in
          parseredirs fuel cmd s
  end.

End parser.

(** ** The ends of the words *)

(** [for(i=0; ecmd->argv[i]; i++) *ecmd->eargv[i] = 0;] *)
Fixpoint term_args (argv eargv : list Z) : M shmem unit :=
  match argv, eargv with
  | a :: argv, e :: eargv => if a =? 0 then mret tt else set_char e 0;; term_args argv eargv
  | _, _ => fault "argv[MAXARGS]"
  end.

Fixpoint nulterminate (fuel : nat) (cmd : Z) : M shmem Z :=
  match fuel with
  | O => fault "fuel"
  | S fuel =>
      if cmd =? 0 then mret 0
      else
        n ← node_at cmd;
        match n with
        | NEXEC argv eargv => term_args argv eargv
        | NREDIR c _ efile _ _ => nulterminate fuel c;; set_char efile 0
        | NPIPE l r => nulterminate fuel l;; nulterminate fuel r;; mret tt
        | NLIST l r => nulterminate fuel l;; nulterminate fuel r;; mret tt
        | NBACK c => nulterminate fuel c;; mret tt
        end;;
        mret cmd
  end.

(** [n] is more than the length of the line.  Every character takes part in at
    most four nested calls, and a structure points to older ones only. *)
Definition parsecmd (n : nat) (s : Z) : M shmem Z :=
  m ← gets sm_line;
  k ← of_option "strlen" (strlen n s m);
  let es := s + k in
  '(cmd, s) ← parseline es (4 * Z.to_nat k + 8) s;
  m ← gets sm_line;
  let '(_, s) := peek m es s [] in
  if negb (s =? es) then panic "syntax"
  else
    l ← gets sm_nodes;
    nulterminate (S (length l)) cmd.

(** ** What [runcmd] finds *)

(** The string at [p], which is shorter than [n]. *)
Fixpoint str_at (n : nat) (m : Z -> Z) (p : Z) : list Z :=
  match n with
  | O => []
  | S n => if m p =? 0 then [] else m p :: str_at n m (p + 1)
  end.

Fixpoint args_at (n : nat) (m : Z -> Z) (argv : list Z) : list (list Z) :=
  match argv with
  | a :: argv => if a =? 0 then [] else str_at n m a :: args_at n m argv
  | [] => []
  end.

(** The tree of strings at [p]. *)
Fixpoint cmd_at (fuel n : nat) (s : shmem) (p : Z) : option cmd :=
  match fuel with
  | O => None
  | S fuel =>
      match lookup_node (sm_nodes s) p with
      | Some (NEXEC argv _) => Some (EXEC (args_at n (sm_line s) argv))
      | Some (NREDIR c file _ mode fd) =>
          c ← cmd_at fuel n s c; Some (REDIR c (str_at n (sm_line s) file) mode fd)
      | Some (NPIPE l r) => l ← cmd_at fuel n s l; r ← cmd_at fuel n s r; Some (PIPE l r)
      | Some (NLIST l r) => l ← cmd_at fuel n s l; r ← cmd_at fuel n s r; Some (LIST l r)
      | Some (NBACK c) => c ← cmd_at fuel n s c; Some (BACK c)
      | None => None
      end
  end.
