(* ===== verification/ShMemThms.v ===== *)
(** The parser of the shell in memory builds the commands of Sh.v: the pointers
    of the structures lead to the words of the line, and the NULs of
    [nulterminate] end each of them without cutting another. *)

From stdpp Require Import prelude strings gmap list.
From S2P Require Import Prelude Param CString Sh ShThms ShMem.

(** ** Structures *)

(** The structures of the heap [l] are in [l']. *)
Definition ext (l l' : list node) : Prop :=
  forall p n, lookup_node l p = Some n -> lookup_node l' p = Some n.

#[export] Instance ext_preorder : PreOrder ext.
Proof. split; [by intros l p n|]. intros l1 l2 l3 H1 H2 p n H. by apply H2, H1. Qed.

Lemma lookup_node_range l p n : lookup_node l p = Some n -> 0 < p <= Z.of_nat (length l).
Proof. unfold lookup_node. destruct (Z.leb_spec p 0); [done|]. intros ?%lookup_lt_Some. lia. Qed.

Lemma lookup_node_new l n : lookup_node (l ++ [n]) (Z.of_nat (length l) + 1) = Some n.
Proof.
  unfold lookup_node. destruct (Z.leb_spec (Z.of_nat (length l) + 1) 0); [lia|].
  rewrite lookup_app_r by lia. by replace (_ - _)%nat with 0%nat by lia.
Qed.

Lemma ext_new l n : ext l (l ++ [n]).
Proof.
  intros p x H. pose proof (lookup_node_range _ _ _ H). unfold lookup_node in *.
  destruct (p <=? 0); [done|]. by apply lookup_app_l_Some.
Qed.

Lemma new_node_run n m l : new_node n (ShMem m l) = Ok (Z.of_nat (length l) + 1) (ShMem m (l ++ [n])).
Proof. done. Qed.

(** The line with NULs at [ends]. *)
Definition zeros (ends : list Z) (m : Z -> Z) : Z -> Z :=
  foldl (fun m e x => if x =? e then 0 else m x) m ends.

Lemma zeros_at ends m' x : zeros ends m' x = if bool_decide (x ∈ ends) then 0 else m' x.
Proof.
  unfold zeros. revert m'. induction ends as [|e ends IH]; intros m'; cbn [foldl]; [done|].
  rewrite IH. destruct (Z.eqb_spec x e) as [->|Hne]; repeat case_bool_decide; set_solver.
Qed.

Lemma term_args_run l argv eargv k : forall m',
  (forall i, (i < k)%nat -> exists q, argv !! i = Some q /\ q <> 0) -> argv !! k = Some 0 ->
  (k < length eargv)%nat ->
  term_args argv eargv (ShMem m' l) = Ok tt (ShMem (zeros (take k eargv) m') l).
Proof.
  revert argv eargv. induction k as [|k IH]; intros [|q argv] [|e eargv] m' Hq Hk Hl; try done; try (cbn in Hl; lia).
  - cbn in Hk. by simplify_eq.
  - destruct (Hq 0%nat ltac:(lia)) as (q' & Hq' & Hne). cbn in Hq'. simplify_eq. cbn [term_args].
    destruct (Z.eqb_spec q' 0); [done|]. erewrite bind_run by reflexivity. cbn [sm_line sm_nodes].
    rewrite IH; [done| |done|cbn in Hl; lia]. intros i Hi. exact (Hq (S i) ltac:(lia)).
Qed.

(** ** Tokens *)

(** The line is at [a]. *)
Section line.
Context (m : Z -> Z) (a es : Z).

(** The characters from [s] to the end of the line are [r]. *)
Record from (s : Z) (r : list Z) : Prop := {
  fr_end : s + Z.of_nat (length r) = es;
  fr_pos : a <= s;
  fr_nul : m es = 0;
  fr_char i c : r !! i = Some c -> m (s + Z.of_nat i) = c /\ c <> 0
}.

Lemma from_cons s c r : from s (c :: r) -> m s = c /\ c <> 0 /\ s < es /\ from (s + 1) r.
Proof.
  intros [He Hp Hn Hc]. cbn [length] in He. destruct (Hc 0%nat c eq_refl) as [E Hc0].
  rewrite Z.add_0_r in E. split_and!; [done|done|lia|]. constructor; [lia|lia|done|].
  intros i x Hx. destruct (Hc (S i) x Hx) as [E' ?]. split; [|done]. rewrite <- E'. f_equal. lia.
Qed.

Lemma from_nil s : from s [] -> s = es /\ m s = 0.
Proof. intros [He _ Hn _]. cbn in He. rewrite Z.add_0_r in He. by subst. Qed.

(** The characters that pass a test, and what follows. *)
Lemma skip_cons test s c r : from s (c :: r) ->
  skip m es test s = if test c then skip m es test (s + 1) else s.
Proof.
  intros (E & _ & Hlt & _)%from_cons. unfold skip.
  replace (Z.to_nat (es - s)) with (S (Z.to_nat (es - (s + 1)))) by lia. cbn [advance].
  destruct (Z.ltb_spec s es); [|lia]. rewrite E. by destruct (test c).
Qed.

Lemma skip_nil test s : from s [] -> skip m es test s = s.
Proof. intros [-> _]%from_nil. unfold skip. by rewrite Z.sub_diag. Qed.

Lemma skip_ws_from s r : from s r -> from (skip m es is_ws s) (Sh.skip_ws r).
Proof.
  revert s. induction r as [|c r IH]; intros s Hs; cbn [Sh.skip_ws].
  - by rewrite skip_nil.
  - rewrite (skip_cons _ _ _ _ Hs). unfold is_ws. destruct (Sh.mem c whitespace); [|done].
    apply IH, (from_cons _ _ _ Hs).
Qed.

(** A word of the line: its first character at [q], the character after it at
    [eq], which is not of a word or is the end of the line. *)
Record word_at (q eq : Z) (w : list Z) : Prop := {
  wd_end : eq = q + Z.of_nat (length w);
  wd_pos : a <= q;
  wd_le : eq <= es;
  wd_stop : eq = es \/ word_char (m eq) = false;
  wd_char i c : w !! i = Some c -> m (q + Z.of_nat i) = c /\ c <> 0 /\ word_char c = true
}.

Lemma scan_word_from s r : from s r ->
  let '(w, r') := scan_word r in
  skip m es word_char s = s + Z.of_nat (length w) /\ from (s + Z.of_nat (length w)) r' /\
  word_at s (s + Z.of_nat (length w)) w.
Proof.
  revert s. induction r as [|c r IH]; intros s Hs; cbn [scan_word].
  - rewrite skip_nil by done. cbn. rewrite Z.add_0_r. split_and!; [done..|].
    pose proof (fr_pos _ _ Hs). apply from_nil in Hs as [-> _]. constructor; cbn; try lia; try done.
  - rewrite (skip_cons _ _ _ _ Hs). pose proof (fr_pos _ _ Hs).
    pose proof (from_cons _ _ _ Hs) as (E & Hc & Hlt & Hs'). destruct (word_char c) eqn:Ew.
    + specialize (IH _ Hs'). destruct (scan_word r) as [w r']. destruct IH as (E1 & H2 & [_ _ H3 H4 H5]).
      cbn [length]. replace (s + Z.of_nat (S (length w))) with (s + 1 + Z.of_nat (length w)) by lia.
      split_and!; [done..|]. constructor; cbn [length]; [lia|lia|done|done|].
      intros [|i] x Hx; cbn in Hx; [simplify_eq; by rewrite Z.add_0_r|].
      replace (s + Z.of_nat (S i)) with (s + 1 + Z.of_nat i) by lia. by apply H5.
    + cbn. rewrite Z.add_0_r. split_and!; [done..|]. constructor; cbn; try lia; try done. right. by rewrite E.
Qed.

Lemma gettoken_from s r : from s r ->
  let '(tok, w, r') := Sh.gettoken r in
  exists q eq s', gettoken m es s = (tok, q, eq, s') /\ from s' r' /\ (tok = CH_A -> word_at q eq w).
Proof.
  intros Hs%skip_ws_from. unfold Sh.gettoken, gettoken. set (s1 := skip m es is_ws s) in *.
  destruct (Sh.skip_ws r) as [|c r1] eqn:Er.
  { pose proof (from_nil _ Hs) as [E1 E2]. rewrite E2. cbn [Z.eqb]. eexists _, _, _. split; [done|].
    split; [by apply (skip_ws_from s1 [])|done]. }
  pose proof (from_cons _ _ _ Hs) as (E & Hc & Hlt & Hs'). rewrite E.
  destruct (Z.eqb_spec c 0) as [|_]; [done|].
  destruct (Sh.mem c [BAR; LPAR; RPAR; SEMI; AMP; LT]) eqn:Em.
  { eexists _, _, _. split; [done|]. split; [by apply skip_ws_from|]. intros ->. done. }
  destruct (Z.eqb_spec c GT) as [->|Hgt].
  - destruct r1 as [|c' r2].
    + pose proof (from_nil _ Hs') as [E1 E2]. rewrite E2. cbn [Z.eqb GT]. eexists _, _, _. split; [done|].
      split; [by apply (skip_ws_from (s1 + 1) [])|done].
    + pose proof (from_cons _ _ _ Hs') as (E1 & _ & _ & Hs2). rewrite E1.
      replace (s1 + 1 + 1) with (s1 + 2) in Hs2 by lia.
      destruct (c' =? GT); (eexists _, _, _; split; [done|]; split; [by apply skip_ws_from|done]).
  - pose proof (scan_word_from _ _ Hs) as Hw. destruct (scan_word (c :: r1)) as [w r'].
    destruct Hw as (Ek & Hr & Hw). rewrite Ek. eexists _, _, _. split; [done|].
    split; [by apply skip_ws_from|done].
Qed.

Lemma peek_from s r toks : from s r ->
  let '(b, r') := Sh.peek r toks in
  exists s', peek m es s toks = (b, s') /\ from s' r'.
Proof.
  intros Hs%skip_ws_from. unfold Sh.peek, peek. set (s1 := skip m es is_ws s) in *.
  destruct (Sh.skip_ws r) as [|c r1] eqn:Er; exists s1.
  - pose proof (from_nil _ Hs) as [E1 E2]. by rewrite E2.
  - pose proof (from_cons _ _ _ Hs) as (E & Hc & _ & _). rewrite E. destruct (Z.eqb_spec c 0); done.
Qed.

(** ** Trees *)

(** An execcmd of the words [ws], whose ends are [ends]. *)
Definition args_ok (argv eargv : list Z) (ws : list (list Z)) (ends : list Z) : Prop :=
  length argv = Z.to_nat MAXARGS /\ length eargv = Z.to_nat MAXARGS /\ ends = take (length ws) eargv /\
  forall i w, ws !! i = Some w ->
    exists q eq, argv !! i = Some q /\ eargv !! i = Some eq /\ word_at q eq w.

(** The structure at [p] is the command [c]; [ends] are the ends of its words. *)
Fixpoint rep (l : list node) (p : Z) (c : cmd) (ends : list Z) : Prop :=
  match c with
  | EXEC ws => exists argv eargv,
      lookup_node l p = Some (NEXEC argv eargv) /\ args_ok argv eargv ws ends /\
      argv !! length ws = Some 0
  | REDIR c w mode fd => exists p' q eq ends',
      lookup_node l p = Some (NREDIR p' q eq mode fd) /\ p' < p /\ word_at q eq w /\
      rep l p' c ends' /\ ends = ends' ++ [eq]
  | PIPE c1 c2 => exists p1 p2 ends1 ends2,
      lookup_node l p = Some (NPIPE p1 p2) /\ p1 < p /\ p2 < p /\
      rep l p1 c1 ends1 /\ rep l p2 c2 ends2 /\ ends = ends1 ++ ends2
  | LIST c1 c2 => exists p1 p2 ends1 ends2,
      lookup_node l p = Some (NLIST p1 p2) /\ p1 < p /\ p2 < p /\
      rep l p1 c1 ends1 /\ rep l p2 c2 ends2 /\ ends = ends1 ++ ends2
  | BACK c => exists p',
      lookup_node l p = Some (NBACK p') /\ p' < p /\ rep l p' c ends
  end.

Lemma rep_range l p c ends : rep l p c ends -> 0 < p <= Z.of_nat (length l).
Proof.
  destruct c; cbn [rep]; [intros (? & ? & H & _)|intros (? & ? & ? & ? & H & _)..|intros (? & H & _)];
    by apply lookup_node_range in H.
Qed.

Lemma rep_ext l l' p c ends : ext l l' -> rep l p c ends -> rep l' p c ends.
Proof.
  intros He. revert p ends.
  induction c as [ws|c IH w mode fd|c1 IH1 c2 IH2|c1 IH1 c2 IH2|c IH]; intros p ends; cbn [rep].
  - intros (argv & eargv & H & ?). exists argv, eargv. split; [by apply He|done].
  - intros (p' & q & eq & ends' & H & ? & ? & ? & ?). exists p', q, eq, ends'. split_and!; auto.
  - intros (p1 & p2 & e1 & e2 & H & ? & ? & ? & ? & ?). exists p1, p2, e1, e2. split_and!; auto.
  - intros (p1 & p2 & e1 & e2 & H & ? & ? & ? & ? & ?). exists p1, p2, e1, e2. split_and!; auto.
  - intros (p' & H & ? & ?). exists p'. split_and!; auto.
Qed.

(** Redirections [rs] around the structure [base], the last at [p]. *)
Inductive chain (l : list node) (base : Z) : Z -> list redir -> list Z -> Prop :=
| chain_nil : chain l base base [] []
| chain_snoc p p' q eq w mode fd rs ends :
    chain l base p rs ends ->
    lookup_node l p' = Some (NREDIR p q eq mode fd) -> p < p' -> word_at q eq w ->
    chain l base p' (rs ++ [(w, mode, fd)]) (ends ++ [eq]).

Lemma chain_rep l base p rs ends c ends0 :
  chain l base p rs ends -> rep l base c ends0 -> rep l p (foldl add_redir c rs) (ends0 ++ ends).
Proof.
  intros Hc Hb. induction Hc as [|p p' q eq w mode fd rs ends Hc IH Hl Hlt Hw]; [by rewrite app_nil_r|].
  rewrite foldl_app. cbn [foldl add_redir rep]. exists p, q, eq, (ends0 ++ ends).
  split_and!; [done..|]. by rewrite app_assoc.
Qed.

Lemma chain_le l base p rs ends : chain l base p rs ends -> base <= p.
Proof. induction 1; lia. Qed.

(** A chain does not depend on what the structure inside holds. *)
Lemma chain_keep l l' base p rs ends :
  (forall x n, x <> base -> lookup_node l x = Some n -> lookup_node l' x = Some n) ->
  chain l base p rs ends -> chain l' base p rs ends.
Proof.
  intros Hk Hc. induction Hc as [|p p' q eq w mode fd rs ends Hc IH Hl Hlt Hw]; [constructor|].
  pose proof (chain_le _ _ _ _ _ Hc). econstructor; [done| |done|done]. apply Hk; [lia|done].
Qed.

Lemma chain_ext l l' base p rs ends : ext l l' -> chain l base p rs ends -> chain l' base p rs ends.
Proof. intros He. apply chain_keep. auto. Qed.

(** ** The parser *)

Abbreviation st l := (ShMem m l).

(** A token that is looked at first is one of those looked for. *)
Lemma redir_token r : (Sh.peek r [LT; GT]).1 = true ->
  let '(tok, _, _) := Sh.gettoken (Sh.peek r [LT; GT]).2 in tok = LT \/ tok = GT \/ tok = PLUS.
Proof.
  rewrite peek_snd. unfold Sh.peek, Sh.gettoken. rewrite skip_ws_idem.
  destruct (Sh.skip_ws r) as [|c r1]; [done|]. cbn [fst]. intros Hc%bool_decide_eq_true.
  assert (c = LT \/ c = GT) as [-> | ->] by (set_unfold; tauto); [by left|].
  change (Sh.mem GT _) with false. cbn [Z.eqb GT Pos.eqb]. destruct r1 as [|c' r2]; [auto|].
  destruct (c' =? GT); auto.
Qed.

Lemma parseredirs_rep fuel : forall l base p rs0 ends0 s r,
  chain l base p rs0 ends0 -> 0 < p <= Z.of_nat (length l) -> from s r ->
  match Sh.parseredirs fuel r with
  | Good rs rest => exists p' s' l' ends,
      parseredirs es fuel p s (st l) = Ok (p', s') (st l') /\ ext l l' /\ from s' rest /\
      0 < p' <= Z.of_nat (length l') /\ chain l' base p' (rs0 ++ rs) (ends0 ++ ends)
  | Bad e => parseredirs es fuel p s (st l) = Panic e
  | Fuel => True
  end.
Proof.
  induction fuel as [|fuel IH]; intros l base p rs0 ends0 s r Hc Hp Hs; [done|].
  cbn [Sh.parseredirs parseredirs]. erewrite bind_run by reflexivity. cbn [sm_line].
  pose proof (redir_token r) as Ht. pose proof (peek_from s r [LT; GT] Hs) as Hk.
  destruct (Sh.peek r [LT; GT]) as [b r1]. destruct Hk as (s1 & -> & Hs1). cbn [fst snd] in Ht.
  destruct b.
  2:{ exists p, s1, l, []. rewrite !app_nil_r. split_and!; try done; lia. }
  specialize (Ht eq_refl). pose proof (gettoken_from s1 r1 Hs1) as Hk.
  destruct (Sh.gettoken r1) as [[tok w1] r2]. destruct Hk as (q1 & eq1 & s2 & -> & Hs2 & _).
  pose proof (gettoken_from s2 r2 Hs2) as Hk.
  destruct (Sh.gettoken r2) as [[tok2 w] r3]. destruct Hk as (q & eq & s3 & -> & Hs3 & Hw).
  destruct (Z.eqb_spec tok2 CH_A) as [E|E]; cbn [negb]; [|done].
  set (mode := if tok =? LT then O_RDONLY else O_WRONLY .| O_CREATE).
  set (fd := if tok =? LT then 0 else 1).
  erewrite (bind_run _ _ _ (Z.of_nat (length l) + 1) (st (l ++ [NREDIR p q eq mode fd])))
    by (destruct Ht as [-> |[-> | ->]]; reflexivity).
  assert (chain (l ++ [NREDIR p q eq mode fd]) base (Z.of_nat (length l) + 1)
    (rs0 ++ [(w, mode, fd)]) (ends0 ++ [eq])) as Hc'.
  { econstructor; [by eapply chain_ext, Hc; apply ext_new|apply lookup_node_new|lia|by apply Hw]. }
  specialize (IH _ _ _ _ _ s3 r3 Hc' ltac:(rewrite length_app; cbn; lia) Hs3).
  destruct (Sh.parseredirs fuel r3) as [rs rest|e|]; cbn [pbind]; [|done..].
  destruct IH as (p' & s' & l' & ends & E' & He & Hf & Hp' & Hc2). exists p', s', l', (eq :: ends).
  split_and!; [done|by etransitivity; [apply ext_new|]|done|lia|lia|].
  rewrite <- !app_assoc in Hc2. cbn [app] in Hc2. subst mode fd. by destruct (tok =? LT).
Qed.

Definition node_set (l : list node) (p : Z) (n : node) : list node := <[Z.to_nat (p - 1) := n]> l.

Lemma lookup_node_set l p n n' x :
  lookup_node l p = Some n ->
  lookup_node (node_set l p n') x = if x =? p then Some n' else lookup_node l x.
Proof.
  intros H. pose proof (lookup_node_range _ _ _ H). unfold lookup_node, node_set in *.
  destruct (Z.leb_spec p 0), (Z.leb_spec x 0), (Z.eqb_spec x p); try lia; try done.
  - subst. apply list_lookup_insert_eq. by apply lookup_lt_Some in H.
  - apply list_lookup_insert_ne. lia.
Qed.

Lemma set_arg_run l e argv eargv argc q eq :
  lookup_node l e = Some (NEXEC argv eargv) -> argc < MAXARGS ->
  set_arg e argc q eq (st l) =
  Ok tt (st (node_set l e (NEXEC (<[Z.to_nat argc := q]> argv) (<[Z.to_nat argc := eq]> eargv)))).
Proof.
  intros H Ha. unfold set_arg, node_at. erewrite bind_run; [|erewrite bind_run by reflexivity; cbn; by rewrite H].
  cbv iota. by destruct (Z.ltb_spec argc MAXARGS); [|lia].
Qed.

Lemma args_snoc argv eargv ws ends q eq w :
  args_ok argv eargv ws ends -> Z.of_nat (length ws) < MAXARGS -> word_at q eq w ->
  args_ok (<[length ws := q]> argv) (<[length ws := eq]> eargv) (ws ++ [w]) (ends ++ [eq]).
Proof.
  intros (Ha & He & -> & Hw) Hlt Hq. unfold args_ok. rewrite !length_insert.
  split_and!; [done|done| |].
  - rewrite length_app. cbn [length]. rewrite Nat.add_1_r.
    rewrite (take_S_r _ _ eq) by (apply list_lookup_insert_eq; lia). by rewrite take_insert_ge by lia.
  - intros i x Hx. destruct (decide (i = length ws)) as [->|Hne].
    + rewrite lookup_app_r, Nat.sub_diag in Hx by done. injection Hx as <-. exists q, eq.
      rewrite !list_lookup_insert_eq by lia. done.
    + rewrite !list_lookup_insert_ne by done. apply Hw. rewrite lookup_app_l in Hx; [done|].
      apply lookup_lt_Some in Hx. rewrite length_app in Hx. cbn in Hx. lia.
Qed.

(** The null pointers after the last argument. *)
Lemma args_end argv eargv ws ends :
  args_ok argv eargv ws ends -> Z.of_nat (length ws) < MAXARGS ->
  args_ok (<[length ws := 0]> argv) (<[length ws := 0]> eargv) ws ends.
Proof.
  intros (Ha & He & -> & Hw) Hlt. unfold args_ok. rewrite !length_insert, take_insert_ge by lia.
  split_and!; [done..|]. intros i x Hx. pose proof (lookup_lt_Some _ _ _ Hx).
  rewrite !list_lookup_insert_ne by lia. by apply Hw.
Qed.

Lemma parseargs_rep fuel : forall l e argv eargv p ws0 ends0 rs0 endsr0 s r,
  lookup_node l e = Some (NEXEC argv eargv) -> args_ok argv eargv ws0 ends0 ->
  Z.of_nat (length ws0) < MAXARGS -> chain l e p rs0 endsr0 -> 0 < p <= Z.of_nat (length l) -> from s r ->
  match Sh.parseargs fuel (Z.of_nat (length ws0)) r with
  | Good (ws, rs) rest => exists p' s' l' argv' eargv' ends endsr,
      parseargs es fuel e (Z.of_nat (length ws0)) p s (st l) =
        Ok (Z.of_nat (length (ws0 ++ ws)), p', s') (st l') /\
      (forall x n, x <> e -> lookup_node l x = Some n -> lookup_node l' x = Some n) /\ from s' rest /\
      lookup_node l' e = Some (NEXEC argv' eargv') /\ args_ok argv' eargv' (ws0 ++ ws) ends /\
      Z.of_nat (length (ws0 ++ ws)) < MAXARGS /\ chain l' e p' (rs0 ++ rs) endsr
  | Bad msg => parseargs es fuel e (Z.of_nat (length ws0)) p s (st l) = Panic msg
  | Fuel => True
  end.
Proof.
  induction fuel as [|fuel IH]; intros l e argv eargv p ws0 ends0 rs0 endsr0 s r He Ha Hlt Hc Hp Hs; [done|].
  cbn [Sh.parseargs parseargs]. erewrite bind_run by reflexivity. cbn [sm_line].
  pose proof (peek_from s r [BAR; RPAR; AMP; SEMI] Hs) as Hk.
  destruct (Sh.peek r [BAR; RPAR; AMP; SEMI]) as [b r1]. destruct Hk as (s1 & -> & Hs1).
  destruct b; [by exists p, s1, l, argv, eargv, ends0, endsr0; rewrite !app_nil_r|].
  pose proof (gettoken_from s1 r1 Hs1) as Hk.
  destruct (Sh.gettoken r1) as [[tok w] r2]. destruct Hk as (q & eq & s2 & -> & Hs2 & Hw).
  destruct (tok =? 0); [by exists p, s2, l, argv, eargv, ends0, endsr0; rewrite !app_nil_r|].
  destruct (Z.eqb_spec tok CH_A) as [E|E]; cbn [negb]; [|done].
  erewrite bind_run by by apply set_arg_run. rewrite Nat2Z.id.
  destruct (Z.leb_spec MAXARGS (Z.of_nat (length ws0) + 1)) as [|Hlt']; [done|].
  set (n1 := NEXEC _ _). assert (lookup_node (node_set l e n1) e = Some n1) as He1
    by (rewrite (lookup_node_set _ _ _ _ _ He), Z.eqb_refl; done).
  assert (forall x n, x <> e -> lookup_node l x = Some n -> lookup_node (node_set l e n1) x = Some n) as Hk1.
  { intros x n Hx Hn. rewrite (lookup_node_set _ _ _ _ _ He). by destruct (Z.eqb_spec x e). }
  pose proof (parseredirs_rep fuel (node_set l e n1) e p rs0 endsr0 s2 r2 (chain_keep _ _ _ _ _ _ Hk1 Hc)
    ltac:(unfold node_set; rewrite length_insert; lia) Hs2) as Hr.
  destruct (Sh.parseredirs fuel r2) as [rs1 r3|msg|]; cbn [pbind]; [|by erewrite bind_Panic|done].
  destruct Hr as (p1 & s3 & l2 & er & Er & Hx2 & Hs3 & Hp1 & Hc2). erewrite bind_run by exact Er.
  pose proof (args_snoc _ _ _ _ q eq w Ha Hlt (Hw E)) as Ha2.
  specialize (IH l2 e _ _ p1 _ _ _ _ s3 r3 (Hx2 _ _ He1) Ha2 ltac:(rewrite length_app; cbn; lia) Hc2 Hp1 Hs3).
  replace (Z.of_nat (length (ws0 ++ [w]))) with (Z.of_nat (length ws0) + 1) in IH by (rewrite length_app; cbn; lia).
  destruct (Sh.parseargs fuel _ r3) as [[ws rs] rest|msg|]; cbn [pbind]; [|done..].
  destruct IH as (p' & s' & l' & a' & ea' & ends & endsr & E' & Hk' & Hs' & He' & Ha' & Hl' & Hc').
  rewrite <- !app_assoc in *. exists p', s', l', a', ea', ends, endsr. split_and!; try done.
  intros x n Hx Hn. apply Hk', Hx2, Hk1; done.
Qed.

(** A function of the parser does what the one of Sh.v does. *)
Definition parses (l : list node) (x : res shmem (Z * Z)) (r : parse cmd) : Prop :=
  match r with
  | Good c rest => exists p s l' ends, x = Ok (p, s) (st l') /\ ext l l' /\ from s rest /\ rep l' p c ends
  | Bad e => x = Panic e
  | Fuel => True
  end.

Lemma parses_Good l p s l' ends c rest :
  ext l l' -> from s rest -> rep l' p c ends -> parses l (Ok (p, s) (st l')) (Good c rest).
Proof. intros. by exists p, s, l', ends. Qed.

Lemma parses_bind l (f : M shmem (Z * Z)) (g : Z * Z -> M shmem (Z * Z)) r k :
  parses l (f (st l)) r ->
  (forall p s l' ends c rest, ext l l' -> from s rest -> rep l' p c ends -> parses l' (g (p, s) (st l')) (k c rest)) ->
  parses l ((f ≫= g) (st l)) (pbind r k).
Proof.
  intros Hf Hg. destruct r as [c rest|e|]; cbn [pbind parses] in *; [|by erewrite bind_Panic|done].
  destruct Hf as (p & s & l' & ends & E & He & Hs & Hr). erewrite bind_run by exact E.
  specialize (Hg p s l' ends c rest He Hs Hr). destruct (k c rest) as [c' rest'|e|]; [|done..].
  destruct Hg as (p' & s' & l2 & ends' & E' & He' & Hs' & Hr'). exists p', s', l2, ends'.
  split; [done|]. split; [by etransitivity|done].
Qed.

(** [parseredirs] around a whole command. *)
Lemma parseredirs_parses fuel l p c ends s r :
  rep l p c ends -> from s r ->
  parses l (parseredirs es fuel p s (st l)) (pbind (Sh.parseredirs fuel r) (fun rs s => Good (foldl add_redir c rs) s)).
Proof.
  intros Hr Hs. pose proof (parseredirs_rep fuel l p p [] [] s r (chain_nil l p) (rep_range _ _ _ _ Hr) Hs) as H.
  destruct (Sh.parseredirs fuel r) as [rs rest|e|]; cbn [pbind]; [|done..].
  destruct H as (p' & s' & l' & ends' & -> & He & Hs' & _ & Hc).
  eapply parses_Good; [done..|]. eapply chain_rep; [exact Hc|by eapply rep_ext].
Qed.

Ltac peek_at Hs := match goal with
  | |- context [Sh.peek ?r ?toks] =>
      let b := fresh "b" in let r1 := fresh "r" in let s1 := fresh "s" in let E := fresh "E" in
      let H := fresh "Hs" in
      pose proof (peek_from _ r toks Hs) as H; destruct (Sh.peek r toks) as [b r1];
      destruct H as (s1 & E & H); rewrite ?E; destruct b; cbn [negb]
  end.
Ltac token_at Hs := match goal with
  | |- context [Sh.gettoken ?r] =>
      let tok := fresh "tok" in let w := fresh "w" in let r1 := fresh "r" in let q := fresh "q" in
      let eq := fresh "eq" in let s1 := fresh "s" in let E := fresh "E" in let H := fresh "Ht" in
      pose proof (gettoken_from _ r Hs) as H; destruct (Sh.gettoken r) as [[tok w] r1];
      destruct H as (q & eq & s1 & E & H & _); rewrite ?E
  end.

Lemma parseback_parses fuel : forall l p c ends s r,
  rep l p c ends -> from s r -> parses l (parseback es fuel p s (st l)) (Sh.parseback fuel c r).
Proof.
  induction fuel as [|fuel IH]; intros l p c ends s r Hr Hs; [done|].
  cbn [Sh.parseback parseback]. erewrite bind_run by reflexivity. cbn [sm_line].
  peek_at Hs; [|by eapply parses_Good]. token_at Hs0. erewrite bind_run by apply new_node_run.
  assert (rep (l ++ [NBACK p]) (Z.of_nat (length l) + 1) (BACK c) ends) as Hr'.
  { exists p. split; [apply lookup_node_new|]. pose proof (rep_range _ _ _ _ Hr). split; [lia|].
    eapply rep_ext, Hr. apply ext_new. }
  specialize (IH _ _ _ _ s1 r1 Hr' Ht). destruct (Sh.parseback fuel (BACK c) r1) as [c' rest|e|]; [|done..].
  destruct IH as (p' & s' & l' & ends' & -> & He & ? & ?). eapply parses_Good; [|done..].
  by etransitivity; [apply ext_new|].
Qed.

(** The commands and redirections of an execcmd. *)
Lemma parseexec_parses fuel l s r :
  from s r ->
  parses l ((e ← execcmd; '(ret, s) ← parseredirs es fuel e s;
             '(argc, ret, s) ← parseargs es fuel e 0 ret s; set_arg e argc 0 0;; mret (ret, s)) (st l))
    (pbind (Sh.parseredirs fuel r) (fun l1 s => pbind (Sh.parseargs fuel 0 s) (fun '(ws, l2) s =>
       Good (foldl add_redir (EXEC ws) (l1 ++ l2)) s))).
Proof.
  intros Hs. set (n0 := NEXEC (replicate (Z.to_nat MAXARGS) 0) (replicate (Z.to_nat MAXARGS) 0)).
  set (e := Z.of_nat (length l) + 1). erewrite (bind_run execcmd) by apply new_node_run. fold e n0.
  assert (lookup_node (l ++ [n0]) e = Some n0) as He by apply lookup_node_new.
  pose proof (parseredirs_rep fuel (l ++ [n0]) e e [] [] s r (chain_nil _ _) (lookup_node_range _ _ _ He) Hs) as H1.
  destruct (Sh.parseredirs fuel r) as [l1 r1|msg|]; cbn [pbind]; [|by erewrite bind_Panic|done].
  destruct H1 as (p1 & s1 & l' & ends1 & E1 & Hx1 & Hs1 & Hp1 & Hc1). erewrite bind_run by exact E1. cbv beta iota.
  pose proof (parseargs_rep fuel l' e _ _ p1 [] [] _ _ s1 r1 (Hx1 _ _ He) ltac:(by split_and!) eq_refl Hc1 Hp1 Hs1) as H2.
  cbn [length app] in H2. change (Z.of_nat 0) with 0 in H2. destruct (Sh.parseargs fuel 0 r1) as [[ws l2] r2|msg|]; cbn [pbind];
    [|by erewrite bind_Panic|done].
  destruct H2 as (p2 & s2 & l'' & argv & eargv & ends & endsr & E2 & Hk & Hs2 & He2 & Ha & Hlt & Hc2).
  erewrite bind_run by exact E2. cbv beta iota. erewrite bind_run by by apply set_arg_run. rewrite Nat2Z.id. cbv beta iota.
  set (n1 := NEXEC _ _). eapply (parses_Good _ p2); [|exact Hs2|].
  - intros x n Hn. pose proof (lookup_node_range _ _ _ Hn). rewrite (lookup_node_set _ _ _ _ _ He2).
    destruct (Z.eqb_spec x e) as [->|]; [lia|]. by apply Hk, Hx1, ext_new.
  - eapply chain_rep; [eapply chain_keep, Hc2|].
    + intros x n Hx Hn. rewrite (lookup_node_set _ _ _ _ _ He2). by destruct (Z.eqb_spec x e).
    + exists (<[length ws := 0]> argv), (<[length ws := 0]> eargv).
      rewrite (lookup_node_set _ _ _ _ _ He2), Z.eqb_refl. split; [done|]. split; [by apply args_end|].
      apply list_lookup_insert_eq. destruct Ha as (-> & _). lia.
Qed.

(** Two commands that have been parsed, joined by a new structure. *)
Lemma parses_join l p1 c1 ends1 p2 c2 ends2 s rest (n : node) c :
  rep l p1 c1 ends1 -> rep l p2 c2 ends2 -> from s rest ->
  (n = NPIPE p1 p2 /\ c = PIPE c1 c2 \/ n = NLIST p1 p2 /\ c = LIST c1 c2) ->
  parses l ((cmd ← new_node n; mret (cmd, s)) (st l)) (Good c rest).
Proof.
  intros H1 H2 Hs Hn. erewrite bind_run by apply new_node_run.
  pose proof (rep_range _ _ _ _ H1). pose proof (rep_range _ _ _ _ H2).
  eapply parses_Good; [apply ext_new|exact Hs|].
  pose proof (rep_ext _ _ _ _ _ (ext_new l n) H1). pose proof (rep_ext _ _ _ _ _ (ext_new l n) H2).
  pose proof (lookup_node_new l n) as Hl.
  destruct Hn as [[-> ->]|[-> ->]]; exists p1, p2, ends1, ends2; split_and!; try done; lia.
Qed.

Lemma parse_parses fuel :
  (forall l s r, from s r -> parses l (parseline es fuel s (st l)) (Sh.parseline fuel r)) /\
  (forall l s r, from s r -> parses l (parsepipe es fuel s (st l)) (Sh.parsepipe fuel r)) /\
  (forall l s r, from s r -> parses l (parseexec es fuel s (st l)) (Sh.parseexec fuel r)) /\
  (forall l s r, from s r -> parses l (parseblock es fuel s (st l)) (Sh.parseblock fuel r)).
Proof.
  induction fuel as [|fuel (IHl & IHp & IHe & IHb)]; [done|].
  split_and!; intros l s r Hs; cbn [Sh.parseline parseline Sh.parsepipe parsepipe Sh.parseexec parseexec
    Sh.parseblock parseblock].
  - apply parses_bind; [by apply IHp|]. intros p1 s1 l1 e1 c1 r1 Hx1 Hs1 Hr1.
    apply parses_bind; [by eapply parseback_parses|]. intros p2 s2 l2 e2 c2 r2 Hx2 Hs2 Hr2.
    erewrite bind_run by reflexivity. cbn [sm_line]. peek_at Hs2; [|by eapply parses_Good].
    token_at Hs0. apply parses_bind; [by apply IHl|]. intros p3 s5 l3 e3 c3 r5 Hx3 Hs5 Hr3.
    eapply parses_join; [by eapply rep_ext|done|done|by right].
  - apply parses_bind; [by apply IHe|]. intros p1 s1 l1 e1 c1 r1 Hx1 Hs1 Hr1.
    erewrite bind_run by reflexivity. cbn [sm_line]. peek_at Hs1; [|by eapply parses_Good].
    token_at Hs0. apply parses_bind; [by apply IHp|]. intros p3 s5 l3 e3 c3 r5 Hx3 Hs5 Hr3.
    eapply parses_join; [by eapply rep_ext|done|done|by left].
  - erewrite bind_run by reflexivity. cbn [sm_line]. peek_at Hs; [by apply IHb|]. by apply parseexec_parses.
  - erewrite bind_run by reflexivity. cbn [sm_line]. peek_at Hs; [|done]. token_at Hs0.
    apply parses_bind; [by apply IHl|]. intros p3 s5 l3 e3 c3 r5 Hx3 Hs5 Hr3.
    peek_at Hs5; [|done]. token_at Hs1. by eapply parseredirs_parses.
Qed.

(** ** The ends of the words *)

Hypothesis Ha : 0 < a.

Lemma args_ok_run l argv eargv ws ends m' :
  args_ok argv eargv ws ends -> argv !! length ws = Some 0 ->
  term_args argv eargv (ShMem m' l) = Ok tt (ShMem (zeros ends m') l).
Proof.
  intros (H1 & H2 & -> & H3) H0. apply term_args_run; [|done|].
  - intros i Hi. apply lookup_lt_is_Some in Hi as [w Hw]. destruct (H3 i w Hw) as (q & eq & Hq & _ & Hwd).
    exists q. split; [done|]. pose proof (wd_pos _ _ _ Hwd). lia.
  - apply lookup_lt_Some in H0. lia.
Qed.

Lemma nulterminate_run l fuel : forall p c ends m',
  rep l p c ends -> p < Z.of_nat fuel ->
  nulterminate fuel p (ShMem m' l) = Ok p (ShMem (zeros ends m') l).
Proof.
  induction fuel as [|fuel IH]; intros p c ends m' Hr Hf; pose proof (rep_range _ _ _ _ Hr) as Hp; [lia|].
  cbn [nulterminate]. destruct (Z.eqb_spec p 0); [lia|].
  assert (forall n, lookup_node l p = Some n -> node_at p (ShMem m' l) = Ok n (ShMem m' l)) as Hn.
  { intros n' E. unfold node_at. erewrite bind_run by reflexivity. cbn [sm_nodes]. by rewrite E. }
  destruct c as [ws|c w mode fd|c1 c2|c1 c2|c]; cbn [rep] in Hr.
  1: destruct Hr as (argv & eargv & El & Hok & H0).
  2: destruct Hr as (p' & q & eq & ends' & El & Hlt & Hw & Hr & ->).
  3, 4: destruct Hr as (p1 & p2 & e1 & e2 & El & Hl1 & Hl2 & H1 & H2 & ->).
  5: destruct Hr as (p' & El & Hlt & Hr).
  all: erewrite bind_run by eauto; cbv iota; erewrite bind_run; [reflexivity|]; unfold zeros; rewrite ?foldl_app.
  - by eapply args_ok_run.
  - by erewrite bind_run by (eapply IH; [done|lia]).
  - by do 2 erewrite bind_run by (eapply IH; [done|lia]).
  - by do 2 erewrite bind_run by (eapply IH; [done|lia]).
  - by erewrite bind_run by (eapply IH; [done|lia]).
Qed.

(** Where a word ends there is no character of another. *)
Definition stop (e : Z) : Prop := e = es \/ word_char (m e) = false.

Lemma rep_ends l p c ends : rep l p c ends -> Forall (fun e => stop e /\ a <= e <= es) ends.
Proof.
  assert (forall q eq w, word_at q eq w -> stop eq /\ a <= eq <= es) as Hw
    by (intros q eq w [-> ? ? Hs _]; split; [exact Hs|lia]).
  revert p ends. induction c as [ws|c IH w mode fd|c1 IH1 c2 IH2|c1 IH1 c2 IH2|c IH]; intros p ends; cbn [rep].
  - intros (argv & eargv & _ & (_ & He & -> & Hok) & _). apply Forall_lookup. intros i x [Hx Hi]%lookup_take_Some.
    apply lookup_lt_is_Some in Hi as [w Hi]. destruct (Hok i w Hi) as (q & eq & _ & Heq & Hwd). simplify_eq. eauto.
  - intros (p' & q & eq & ends' & _ & _ & Hwd & Hr & ->). apply Forall_app. split; [eauto|]. constructor; eauto.
  - intros (p1 & p2 & e1 & e2 & _ & _ & _ & H1 & H2 & ->). apply Forall_app. eauto.
  - intros (p1 & p2 & e1 & e2 & _ & _ & _ & H1 & H2 & ->). apply Forall_app. eauto.
  - intros (p' & _ & _ & Hr). eauto.
Qed.

Section reading.
Context (all : list Z) (n : nat).
Hypothesis Hstop : Forall (fun e => stop e /\ a <= e <= es) all.
Hypothesis Hn : es - a < Z.of_nat n.

Lemma str_at_cstr m' q w k : cstr m' q w -> (length w < k)%nat -> str_at k m' q = w.
Proof.
  intros [Hb Hz]. revert q k Hb. induction w as [|c w IH]; intros q [|k] Hb Hk; cbn in *; try lia.
  - by destruct Hb as [-> _].
  - destruct Hb as [-> Hb]. apply Forall_cons_1 in Hz as [Hc Hz]. destruct (Z.eqb_spec c 0); [done|].
    f_equal. apply IH; [done|done|lia].
Qed.

(** Every word is the string at its first character. *)
Lemma word_read q eq w : word_at q eq w -> eq ∈ all -> str_at n (zeros all m) q = w.
Proof.
  intros Hw Hin. pose proof (wd_end _ _ _ Hw). pose proof (wd_pos _ _ _ Hw). pose proof (wd_le _ _ _ Hw).
  apply str_at_cstr; [|lia]. split.
  - apply bytes_at_lookup. intros i c Hi. rewrite zeros_at.
    destruct (decide (i < length w)%nat) as [Hlt|Hge].
    + rewrite lookup_app_l in Hi by done. destruct (wd_char _ _ _ Hw i c Hi) as (E & _ & Hc).
      rewrite bool_decide_eq_false_2; [done|]. intros Hx. rewrite Forall_forall in Hstop.
      destruct (Hstop _ Hx) as [[Hs|Hs] _]; [lia|]. by rewrite E, Hc in Hs.
    + rewrite lookup_app_r in Hi by lia. apply list_lookup_singleton_Some in Hi as [Hi <-].
      replace (q + Z.of_nat i) with eq by lia. by rewrite bool_decide_eq_true_2.
  - apply Forall_lookup. intros i c Hi. apply (wd_char _ _ _ Hw i c Hi).
Qed.

Lemma args_read argv eargv ws ends :
  args_ok argv eargv ws ends -> argv !! length ws = Some 0 -> ends ⊆ all ->
  args_at n (zeros all m) argv = ws.
Proof.
  intros (_ & _ & -> & Hok). revert argv eargv Hok.
  induction ws as [|w ws IH]; intros argv eargv Hok H0 Hsub; destruct argv as [|q argv]; try done; cbn [args_at].
  - cbn in H0. by simplify_eq.
  - destruct (Hok 0%nat w eq_refl) as (q' & eq & Hq & He & Hw). cbn in Hq. simplify_eq.
    pose proof (wd_pos _ _ _ Hw). destruct (Z.eqb_spec q' 0); [lia|].
    destruct eargv as [|e eargv]; [done|]. cbn in He. simplify_eq. cbn [length take] in Hsub. f_equal.
    + apply (word_read q' eq w Hw). set_solver.
    + eapply (IH argv eargv); [|done|set_solver]. intros i x Hx. exact (Hok (S i) x Hx).
Qed.

Lemma cmd_read l fuel : forall p c ends,
  rep l p c ends -> ends ⊆ all -> p < Z.of_nat fuel ->
  cmd_at fuel n (ShMem (zeros all m) l) p = Some c.
Proof.
  induction fuel as [|fuel IH]; intros p c ends Hr Hsub Hf; pose proof (rep_range _ _ _ _ Hr) as Hp; [lia|].
  cbn [cmd_at sm_nodes sm_line]. destruct c as [ws|c w mode fd|c1 c2|c1 c2|c]; cbn [rep] in Hr.
  - destruct Hr as (argv & eargv & -> & Hok & H0). by erewrite args_read.
  - destruct Hr as (p' & q & eq & ends' & -> & Hlt & Hw & Hr & ->). erewrite IH; [|done|set_solver|lia].
    cbn. erewrite word_read; [done..|set_solver].
  - destruct Hr as (p1 & p2 & e1 & e2 & -> & Hl1 & Hl2 & H1 & H2 & ->). erewrite IH; [|done|set_solver|lia].
    cbn. erewrite IH; [done|done|set_solver|lia].
  - destruct Hr as (p1 & p2 & e1 & e2 & -> & Hl1 & Hl2 & H1 & H2 & ->). erewrite IH; [|done|set_solver|lia].
    cbn. erewrite IH; [done|done|set_solver|lia].
  - destruct Hr as (p' & -> & Hlt & Hr). by erewrite IH; [|done|set_solver|lia].
Qed.

End reading.

End line.

(** ** The command line *)

Lemma cstr_from m a line : cstr m a line -> from m a (a + Z.of_nat (length line)) a line.
Proof.
  intros [Hb Hz]. rewrite bytes_at_lookup in Hb. constructor; [done|lia| |].
  - apply Hb. by rewrite lookup_app_r, Nat.sub_diag by done.
  - intros i c Hi. unfold no_nul in Hz. rewrite Forall_lookup in Hz. split; [|by apply (Hz i)]. apply Hb. by apply lookup_app_l_Some.
Qed.

(** C21: the parser of the shell, in memory.  For every line that is a string at
    [a], [parsecmd] ends.  Either it returns a structure from which [runcmd] reads
    exactly the command that Sh.v finds in the line, each word being a string
    of its own: the NULs are stored in the line only, behind words, and cut
    none; the other structures of the heap are as they were.  Or it panics with the
    message that Sh.v gives. *)
Theorem parsecmd_memory m l n a line :
  0 < a -> cstr m a line -> (length line < n)%nat ->
  match Sh.parsecmd line with
  | Good c _ => exists p m' l',
      parsecmd n a (ShMem m l) = Ok p (ShMem m' l') /\
      cmd_at (S (length l')) n (ShMem m' l') p = Some c /\ ext l l' /\
      forall x, m' x = m x \/ m' x = 0 /\ a <= x <= a + Z.of_nat (length line)
  | Bad msg => parsecmd n a (ShMem m l) = Panic msg
  | Fuel => False
  end.
Proof.
  intros Ha Hc Hn. pose proof (cstr_from _ _ _ Hc) as Hf. set (es := a + Z.of_nat (length line)) in *.
  destruct (parse_parses m a es (4 * length line + 8)) as (Hp & _). specialize (Hp l a line Hf).
  assert (Sh.parsecmd line <> Fuel) as Htot by (destruct (parsecmd_total line) as [[? ->]|[? ->]]; done).
  assert (forall k, parsecmd n a (ShMem m l) = k <->
    ('(cmd, s) ← parseline es (4 * length line + 8) a;
     m ← gets sm_line; let '(_, s) := peek m es s [] in
     if negb (s =? es) then panic "syntax" else l ← gets sm_nodes; nulterminate (S (length l)) cmd) (ShMem m l) = k) as Hrun.
  { intros k. unfold parsecmd. erewrite bind_run by reflexivity. cbn [sm_line].
    rewrite (strlen_spec n a line m Hc Hn). erewrite bind_run by reflexivity. by rewrite Nat2Z.id. }
  unfold Sh.parsecmd, parse_fuel in *. destruct (Sh.parseline _ line) as [c rest|msg|]; cbn [pbind parses] in *; [| |done].
  2:{ apply Hrun. by erewrite bind_Panic. }
  destruct Hp as (p & s & l' & ends & E & Hx & Hs & Hr).
  assert (forall k, parsecmd n a (ShMem m l) = k <-> (let '(_, s) := peek m es s [] in
     if negb (s =? es) then panic "syntax" else l ← gets sm_nodes; nulterminate (S (length l)) p) (ShMem m l') = k) as Hrun'.
  { intros k. rewrite Hrun. erewrite bind_run by exact E. cbv beta iota. by erewrite bind_run by reflexivity. }
  pose proof (peek_from m a es s rest [] Hs) as Hk. destruct (Sh.peek rest []) as [b rest'].
  destruct Hk as (s' & Ek & Hs'). cbn [snd]. rewrite Ek in Hrun'. destruct rest' as [|c0 rest'].
  - apply from_nil in Hs' as [-> _]. rewrite Z.eqb_refl in Hrun'. cbn [negb] in Hrun'.
    pose proof (rep_range _ _ _ _ _ _ _ Hr). pose proof (rep_ends _ _ _ _ _ _ _ Hr) as He.
    exists p, (zeros ends m), l'. split_and!; [| |done|].
    + apply Hrun'. erewrite bind_run by reflexivity. apply (nulterminate_run m a es Ha l' _ p c ends m Hr).
      cbn [sm_nodes]. lia.
    + apply (cmd_read m a es Ha ends n He ltac:(subst es; lia) l' _ p c ends Hr); [done|lia].
    + intros x. rewrite zeros_at. destruct (bool_decide_reflect (x ∈ ends)) as [Hin|]; [right|by left]. split; [done|].
      rewrite Forall_forall in He. by apply He.
  - apply Hrun'. apply from_cons in Hs' as (_ & _ & Hlt & _). destruct (Z.eqb_spec s' es); [lia|done].
Qed.

(** "a b>c|(d;e)&" at address 100. *)
Definition example_line : list Z := [97; 32; 98; 62; 99; 124; 40; 100; 59; 101; 41; 38; 10].
Definition example_buf : Z -> Z := fun x => if x <? 100 then 0 else (example_line ++ replicate 90 0).[x - 100].

Lemma parsecmd_memory_witness :
  exists p m' l', parsecmd 100 100 (ShMem example_buf []) = Ok p (ShMem m' l') /\
    cmd_at (S (length l')) 100 (ShMem m' l') p =
      Some (BACK (PIPE (REDIR (EXEC [[97]; [98]]) [99] 513 1) (LIST (EXEC [[100]]) (EXEC [[101]])))).
Proof.
  pose proof (parsecmd_memory example_buf [] 100 100 example_line ltac:(lia)) as H.
  assert (Sh.parsecmd example_line =
    Good (BACK (PIPE (REDIR (EXEC [[97]; [98]]) [99] 513 1) (LIST (EXEC [[100]]) (EXEC [[101]])))) []) as E
    by (vm_compute; reflexivity).
  rewrite E in H. destruct H as (p & m' & l' & E' & Hc & _).
  - split; [lazy; by repeat split|]. by repeat (apply List.Forall_cons; [discriminate|]).
  - cbn; lia.
  - exists p, m', l'. split; [exact E'|exact Hc].
Defined.
