(* ===== verification/VmThms.v ===== *)
(** Theorems about vm.c: what the processor sees of the page tables.

    An address space is a page directory and its tables, pages the allocator has
    handed out.  [tab] and [pte_of] read it as the processor does; the
    invariant [space] says that the tables are distinct pages that are not free;
    [extends] is what any sequence of the operations below does to everything
    else: free pages are taken, and the pages that are neither free nor part of
    the address space keep their contents. *)

From stdpp Require Import prelude strings functions gmap list.
From S2P Require Import Prelude Param CString Kalloc Vm.

(** ** Entries *)

Lemma land_low a f : a mod PGSIZE = 0 -> 0 <= f < PGSIZE -> a .& f = 0.
Proof.
  intros Ha Hf. unfold PGSIZE in *.
  assert (f = f .& Z.ones 12) as -> by (rewrite Z.land_ones by lia; symmetry; apply Z.mod_small; done).
  rewrite Z.land_assoc, <- Z.land_assoc, (Z.land_comm f), Z.land_assoc, Z.land_ones by lia.
  change (2 ^ 12) with 4096. by rewrite Ha.
Qed.

Lemma lor_low a f : a mod PGSIZE = 0 -> 0 <= f < PGSIZE -> a .| f = a + f.
Proof. intros Ha Hf. pose proof (Z.add_lor_land a f). rewrite (land_low a f Ha Hf) in *. lia. Qed.

Lemma aligned_range a : is_u32 a -> a mod PGSIZE = 0 -> a + PGSIZE <= 4294967296.
Proof. intros Ha Hm. apply Z.mod_divide in Hm as [i ->]; [|done]. unfold PGSIZE in *. lia. Qed.

Lemma PTE_ADDR_div w : PTE_ADDR w = w / PGSIZE * PGSIZE.
Proof. exact (page_round_down w). Qed.
Lemma PTE_FLAGS_mod w : PTE_FLAGS w = w mod PGSIZE.
Proof. unfold PTE_FLAGS. change 4095 with (Z.ones 12). by rewrite Z.land_ones by lia. Qed.

(** An entry made of a page and flags. *)
Lemma PTE_ADDR_lor a f : a mod PGSIZE = 0 -> 0 <= f < PGSIZE -> PTE_ADDR (a .| f) = a.
Proof.
  intros Ha Hf. rewrite lor_low, PTE_ADDR_div by done. apply Z.mod_divide in Ha as [i ->]; [|done].
  rewrite Z.div_add_l by done. rewrite (Z.div_small f) by done. lia.
Qed.
Lemma PTE_FLAGS_lor a f : a mod PGSIZE = 0 -> 0 <= f < PGSIZE -> PTE_FLAGS (a .| f) = f.
Proof.
  intros Ha Hf. rewrite lor_low, PTE_FLAGS_mod by done. apply Z.mod_divide in Ha as [i ->]; [|done].
  rewrite Z.add_comm, Z_mod_plus_full. by apply Z.mod_small.
Qed.

Definition present (w : Z) : bool := ctrue (w .& PTE_P).

Lemma present_odd w : present w = Z.odd w.
Proof.
  unfold present, PTE_P, ctrue. change 1 with (Z.ones 1) at 1. rewrite Z.land_ones by lia.
  change (2 ^ 1) with 2. rewrite Zmod_odd. by destruct (Z.odd w).
Qed.

Lemma present_lor a f : present (a .| f) = (present a || present f)%bool.
Proof. by rewrite !present_odd, <- !Z.bit0_odd, Z.lor_spec. Qed.

Lemma flags_range f : 0 <= f < PGSIZE -> 0 <= f .| PTE_P < PGSIZE.
Proof.
  intros Hf. unfold PGSIZE, PTE_P in *. split; [apply Z.lor_nonneg; lia|].
  assert (f .| 1 <= f + 1) by (pose proof (Z.add_lor_land f 1); pose proof (Z.land_nonneg f 1); lia).
  destruct (decide (f = 4095)) as [->|]; [done|lia].
Qed.

Lemma flags_present w : present w = true -> PTE_FLAGS w .| PTE_P = PTE_FLAGS w.
Proof.
  intros Hw. apply Z.bits_inj'. intros n Hn. rewrite Z.lor_spec. unfold PTE_P.
  destruct (decide (n = 0)) as [->|].
  - rewrite orb_true_r. unfold PTE_FLAGS. rewrite Z.land_spec, Z.bit0_odd, <- present_odd, Hw. done.
  - change 1 with (2 ^ 0). rewrite Z.pow2_bits_false by lia. by rewrite orb_false_r.
Qed.

(** ** Directories and tables *)

Lemma PDX_range va : 0 <= PDX va < 1024.
Proof. unfold PDX. change 1023 with (Z.ones 10). rewrite Z.land_ones by lia. apply Z.mod_pos_bound. lia. Qed.
Lemma PTX_range va : 0 <= PTX va < 1024.
Proof. unfold PTX. change 1023 with (Z.ones 10). rewrite Z.land_ones by lia. apply Z.mod_pos_bound. lia. Qed.

Lemma PDX_div va : is_u32 va -> PDX va = va / 4194304.
Proof.
  intros Hv. unfold PDX, PDXSHIFT. change 1023 with (Z.ones 10).
  rewrite Z.land_ones, Z.shiftr_div_pow2 by lia. change (2 ^ 22) with 4194304. apply Z.mod_small.
  split; [apply Z.div_pos; lia|]. apply Z.div_lt_upper_bound; lia.
Qed.
Lemma PTX_div va : PTX va = (va / PGSIZE) mod 1024.
Proof.
  unfold PTX, PTXSHIFT. change 1023 with (Z.ones 10).
  by rewrite Z.land_ones, Z.shiftr_div_pow2 by lia.
Qed.

(** Two addresses of one page, and of two. *)
Lemma same_page va va' : is_u32 va -> is_u32 va' ->
  (PDX va = PDX va' /\ PTX va = PTX va') <-> va / PGSIZE = va' / PGSIZE.
Proof.
  intros H1 H2. rewrite !PDX_div, !PTX_div by done. unfold PGSIZE. change 4194304 with (4096 * 1024).
  rewrite <- !Z.div_div by lia.
  pose proof (Z.div_mod (va / 4096) 1024). pose proof (Z.div_mod (va' / 4096) 1024). split.
  - intros []. lia.
  - intros E. by rewrite E.
Qed.

(** The table of directory entry [d], and the entry of an address; 0 without a
    table. *)
Definition tab (m : mem) (pgdir d : Z) : option Z :=
  let pde := load_long (pgdir + 4 * d) m in
  if present pde then Some (p2v (PTE_ADDR pde)) else None.
Definition pte_of (m : mem) (pgdir va : Z) : Z :=
  match tab m pgdir (PDX va) with
  | Some t => load_long (t + 4 * PTX va) m
  | None => 0
  end.

Lemma hw_walk_pte m pgdir va :
  hw_walk m pgdir va = if present (pte_of m pgdir va) then Some (pte_of m pgdir va) else None.
Proof. unfold hw_walk, pte_of, tab, present. by destruct (ctrue _). Qed.

Lemma pte_of_page m pgdir va va' :
  is_u32 va -> is_u32 va' -> va / PGSIZE = va' / PGSIZE -> pte_of m pgdir va = pte_of m pgdir va'.
Proof. intros H1 H2 H. apply same_page in H as [E1 E2]; try done. unfold pte_of. by rewrite E1, E2. Qed.

Abbreviation in_page w x := (w <= x < w + PGSIZE).

Section spaces.
Context (end_ : Z).

(** A page directory [pgdir] and its tables beside the free pages [l]. *)
Record space (k : kmem) (l : list Z) (pgdir : Z) : Prop := {
  sp_rep : kmem_rep end_ k l;
  sp_dir : page_ok end_ pgdir;
  sp_dir_used : pgdir ∉ l;
  sp_tab d t : 0 <= d < 1024 -> tab (pages k) pgdir d = Some t ->
    page_ok end_ t /\ (t ∉ l) /\ t <> pgdir;
  sp_inj d d' t : 0 <= d < 1024 -> 0 <= d' < 1024 -> tab (pages k) pgdir d = Some t ->
    tab (pages k) pgdir d' = Some t -> d = d'
}.

(** Pages that are neither free nor part of the address space. *)
Record outside (k : kmem) (l : list Z) (pgdir w : Z) : Prop := {
  out_page : page_ok end_ w;
  out_used : w ∉ l;
  out_dir : w <> pgdir;
  out_tab d : 0 <= d < 1024 -> tab (pages k) pgdir d <> Some w
}.

Record extends (k : kmem) (l : list Z) (pgdir : Z) (k' : kmem) (l' : list Z) : Prop := {
  ex_space : space k' l' pgdir;
  ex_free : exists used, l = used ++ l';
  ex_out w : outside k l pgdir w -> outside k' l' pgdir w;
  ex_same w x : outside k l pgdir w -> in_page w x -> pages k' x = pages k x
}.

Lemma extends_refl k l pgdir : space k l pgdir -> extends k l pgdir k l.
Proof. intros H. split; [done|by exists []|done|done]. Qed.

Lemma extends_trans k l pgdir k1 l1 k2 l2 :
  extends k l pgdir k1 l1 -> extends k1 l1 pgdir k2 l2 -> extends k l pgdir k2 l2.
Proof.
  intros [S1 (u1 & ->) O1 M1] [S2 (u2 & ->) O2 M2]. split; [done| | |].
  - exists (u1 ++ u2). by rewrite app_assoc.
  - intros w Hw. by apply O2, O1.
  - intros w x Hw Hx. rewrite (M2 w) by (try done; by apply O1). by apply (M1 w).
Qed.

(** A store into page [v] does not change what is loaded from another page. *)
Lemma load_apart v w a (m m' : mem) :
  page_ok end_ v -> page_ok end_ w -> v <> w -> w <= a -> a + 4 <= w + PGSIZE ->
  (forall x, ~ in_page v x -> m' x = m x) -> load_long a m' = load_long a m.
Proof.
  intros Hv Hw Hne H1 H2 Hm. apply load_long_ext. intros x Hx. apply Hm.
  destruct (pages_apart end_ v w Hv Hw Hne); lia.
Qed.

Lemma kmem_rep_ext u f m m' l :
  kmem_rep end_ (KMem u f m) l -> (forall v x, v ∈ l -> v <= x < v + 4 -> m' x = m x) ->
  kmem_rep end_ (KMem u f m') l.
Proof.
  intros [H1 H2 H3] Hm. split; [|done|done]. cbn in *. eapply free_list_ext; [|exact H1].
  intros v x Hv Hx. symmetry. by apply (Hm v).
Qed.

(** *** The walk *)

Lemma walk_present k pgdir va alloc t :
  tab (pages k) pgdir (PDX va) = Some t -> walkpgdir pgdir va alloc k = Ok (Some (t + 4 * PTX va)) k.
Proof.
  unfold tab, walkpgdir, lw, gets, mbind, M_bind, present. destruct (ctrue _); [|done]. by intros [= <-].
Qed.

Lemma walk_absent k pgdir va :
  tab (pages k) pgdir (PDX va) = None -> walkpgdir pgdir va false k = Ok None k.
Proof. unfold tab, walkpgdir, lw, gets, mbind, M_bind, present. by destruct (ctrue _). Qed.

(** The memory after a new table [v] has been entered. *)
Definition new_table (m : mem) (pgdir va v : Z) : mem :=
  store_long (pgdir + 4 * PDX va) (v2p v .| PTE_P .| PTE_W .| PTE_U) (memset v 0 PGSIZE m).

Lemma walk_alloc k l pgdir va :
  kmem_rep end_ k l -> tab (pages k) pgdir (PDX va) = None ->
  walkpgdir pgdir va true k =
    match l with
    | [] => Ok None k
    | v :: _ => Ok (Some (v + 4 * PTX va))
        (KMem (use_lock k) (load_long v (pages k)) (new_table (pages k) pgdir va v))
    end.
Proof.
  intros R. unfold tab, walkpgdir, lw, mbind, M_bind, gets, present. destruct (ctrue _); [done|]. intros _.
  cbn [negb]. destruct (kalloc_spec end_ k l R) as [-> Hl]. destruct l as [|v l]; [done|].
  destruct Hl as (H0 & _). assert ((v =? 0) = false) as -> by by apply Z.eqb_neq. reflexivity.
Qed.

Lemma v2p_page v : page_ok end_ v -> v2p v = v - KERNBASE.
Proof. intros [_ _ Hv]. unfold v2p, KERNBASE, PHYSTOP in *. rewrite u32_small by lia. done. Qed.

Lemma page_entry v f :
  page_ok end_ v -> 0 <= f < PGSIZE ->
  is_u32 (v2p v .| f) /\ p2v (PTE_ADDR (v2p v .| f)) = v /\ PTE_FLAGS (v2p v .| f) = f /\
  present (v2p v .| f) = present f.
Proof.
  intros Hv Hf. rewrite (v2p_page v Hv). destruct Hv as [Ha _ Ht].
  assert ((v - KERNBASE) mod PGSIZE = 0) as Hm.
  { rewrite Zminus_mod, Ha. done. }
  rewrite PTE_ADDR_lor, PTE_FLAGS_lor by done. split_and!.
  - rewrite lor_low by done. unfold KERNBASE, PHYSTOP, PGSIZE in *. lia.
  - rewrite lor_low by done. unfold KERNBASE, PHYSTOP, PGSIZE in *. lia.
  - unfold p2v. rewrite u32_small by (unfold KERNBASE, PHYSTOP in *; lia). lia.
  - done.
  - rewrite present_lor. rewrite (present_odd (v - KERNBASE)). apply Z.mod_divide in Hm as [i ->]; [|done].
    change PGSIZE with (2 * 2048). rewrite Z.mul_assoc, (Z.mul_comm i), <- Z.mul_assoc, Z.odd_mul. done.
Qed.

Lemma new_table_out m pgdir va v x :
  ~ in_page v x -> ~ pgdir + 4 * PDX va <= x < pgdir + 4 * PDX va + 4 -> new_table m pgdir va v x = m x.
Proof.
  intros Hv Hx. unfold new_table. rewrite store_long_ne by done.
  rewrite memset_spec by done. by rewrite decide_False.
Qed.

Lemma new_table_dir_out m pgdir va v x :
  ~ in_page v x -> ~ in_page pgdir x -> new_table m pgdir va v x = m x.
Proof.
  intros Hv Hx. apply new_table_out; [done|]. pose proof (PDX_range va). unfold PGSIZE in *. lia.
Qed.

Lemma new_table_zero m pgdir va v x :
  page_ok end_ pgdir -> page_ok end_ v -> v <> pgdir -> in_page v x -> new_table m pgdir va v x = 0.
Proof.
  intros Hd Hv Hne Hx. unfold new_table. pose proof (PDX_range va). rewrite store_long_ne.
  - rewrite memset_spec by done. by rewrite decide_True.
  - destruct (pages_apart end_ v pgdir Hv Hd Hne); unfold PGSIZE in *; lia.
Qed.

Lemma new_table_tab m pgdir va v d :
  page_ok end_ pgdir -> page_ok end_ v -> v <> pgdir -> 0 <= d < 1024 ->
  tab (new_table m pgdir va v) pgdir d = if decide (d = PDX va) then Some v else tab m pgdir d.
Proof.
  intros Hd Hv Hne Hr. unfold tab. case_decide as E.
  - subst d. unfold new_table at 1 2. rewrite <- !Z.lor_assoc.
    change (PTE_P .| (PTE_W .| PTE_U)) with 7.
    destruct (page_entry v 7 Hv ltac:(unfold PGSIZE; lia)) as (H1 & H2 & _ & H4).
    rewrite load_store_long, H4 by done. cbn. by rewrite H2.
  - assert (load_long (pgdir + 4 * d) (new_table m pgdir va v) = load_long (pgdir + 4 * d) m) as ->; [|done].
    apply load_long_ext. intros x Hx. pose proof (PDX_range va). apply new_table_out; [|lia].
    destruct (pages_apart end_ v pgdir Hv Hd Hne); unfold PGSIZE in *; lia.
Qed.

Lemma load_zero a (m : mem) : (forall x, a <= x < a + 4 -> m x = 0) -> load_long a m = 0.
Proof. intros H. unfold load_long. by rewrite !H by lia. Qed.

Section table.
Context (k : kmem) (v : Z) (l : list Z) (pgdir va : Z).
Context (S : space k (v :: l) pgdir) (N : tab (pages k) pgdir (PDX va) = None).
#[local] Abbreviation k' :=
  (KMem (use_lock k) (load_long v (pages k)) (new_table (pages k) pgdir va v)).

Lemma nt_facts : page_ok end_ v /\ v <> pgdir /\ (v ∉ l) /\ page_ok end_ pgdir.
Proof.
  destruct S as [[_ Hp Hn] Hd Hu _ _]. apply Forall_cons in Hp as [Hv _]. apply NoDup_cons in Hn as [Hn _].
  apply not_elem_of_cons in Hu as [Hne _]. split_and!; congruence || done.
Qed.

Lemma nt_rep : kmem_rep end_ k' l.
Proof.
  destruct nt_facts as (Hv & Hne & Hn & Hd). destruct (kalloc_spec end_ k (v :: l) (sp_rep _ _ _ S)) as (_ & _ & _ & R).
  eapply kmem_rep_ext; [exact R|]. intros w x Hw Hx.
  assert (page_ok end_ w) as Hpw.
  { pose proof (km_pages _ _ _ R) as Hf. rewrite Forall_forall in Hf. auto. }
  assert (w <> pgdir) as Hwd.
  { intros ->. apply (sp_dir_used _ _ _ S). by right. }
  apply new_table_dir_out.
  - destruct (pages_apart end_ v w Hv Hpw); [congruence|..]; unfold PGSIZE in *; lia.
  - destruct (pages_apart end_ pgdir w Hd Hpw); [congruence|..]; unfold PGSIZE in *; lia.
Qed.

Lemma nt_tab d : 0 <= d < 1024 ->
  tab (pages k') pgdir d = if decide (d = PDX va) then Some v else tab (pages k) pgdir d.
Proof. destruct nt_facts as (Hv & Hne & Hn & Hd). by apply new_table_tab. Qed.

Lemma nt_space : space k' l pgdir.
Proof.
  destruct nt_facts as (Hv & Hne & Hn & Hd). split; [apply nt_rep|done| | |].
  - intros H. apply (sp_dir_used _ _ _ S). by right.
  - intros d t Hr. rewrite nt_tab by done. case_decide; [by intros [= <-]|]. intros Ht.
    destruct (sp_tab _ _ _ S d t Hr Ht) as (H1 & H2 & H3). apply not_elem_of_cons in H2 as [_ H2]. done.
  - intros d d' t Hr Hr'. rewrite !nt_tab by done. repeat case_decide; intros H1 H2; try congruence.
    + injection H1 as <-. destruct (sp_tab _ _ _ S d' v Hr' H2) as (_ & Hx & _).
      apply not_elem_of_cons in Hx as [Hx _]. done.
    + injection H2 as <-. destruct (sp_tab _ _ _ S d v Hr H1) as (_ & Hx & _).
      apply not_elem_of_cons in Hx as [Hx _]. done.
    + by apply (sp_inj _ _ _ S d d' t).
Qed.

Lemma nt_pte va' : pte_of (pages k') pgdir va' = pte_of (pages k) pgdir va'.
Proof.
  destruct nt_facts as (Hv & Hne & Hn & Hd). unfold pte_of. pose proof (PTX_range va').
  rewrite nt_tab by apply PDX_range. case_decide as E.
  - rewrite E, N. apply load_zero. intros x Hx. apply new_table_zero; try done. unfold PGSIZE. lia.
  - destruct (tab (pages k) pgdir (PDX va')) as [t|] eqn:Et; [|done].
    destruct (sp_tab _ _ _ S _ t (PDX_range va') Et) as (H1 & H2 & H3).
    apply not_elem_of_cons in H2 as [H2 _]. apply load_long_ext. intros x Hx.
    apply new_table_dir_out.
    + destruct (pages_apart end_ v t Hv H1); [congruence|..]; unfold PGSIZE in *; lia.
    + destruct (pages_apart end_ pgdir t Hd H1); [congruence|..]; unfold PGSIZE in *; lia.
Qed.

Lemma nt_extends : extends k (v :: l) pgdir k' l.
Proof.
  destruct nt_facts as (Hv & Hne & Hn & Hd). split; [apply nt_space|by exists [v]| |].
  - intros w [H1 H2 H3 H4]. apply not_elem_of_cons in H2 as [H2 H2']. split; try done.
    intros d Hr. rewrite nt_tab by done. case_decide; [congruence|by apply H4].
  - intros w x [H1 H2 H3 H4] Hx. apply not_elem_of_cons in H2 as [H2 _]. apply new_table_dir_out.
    + destruct (pages_apart end_ v w Hv H1); [congruence|..]; unfold PGSIZE in *; lia.
    + destruct (pages_apart end_ pgdir w Hd H1); [congruence|..]; unfold PGSIZE in *; lia.
Qed.
End table.

(** The walk with allocation, when there is a page for the table. *)
Lemma walk_ok k l pgdir va :
  space k l pgdir -> (tab (pages k) pgdir (PDX va) = None -> l <> []) ->
  exists t k' l', walkpgdir pgdir va true k = Ok (Some (t + 4 * PTX va)) k' /\
    extends k l pgdir k' l' /\ tab (pages k') pgdir (PDX va) = Some t /\
    (forall va', pte_of (pages k') pgdir va' = pte_of (pages k) pgdir va') /\
    length l' = match tab (pages k) pgdir (PDX va) with Some _ => length l | None => (length l - 1)%nat end.
Proof.
  intros S Hl. destruct (tab (pages k) pgdir (PDX va)) as [t|] eqn:E.
  - exists t, k, l. rewrite (walk_present _ _ _ _ t) by done. split_and!; try done. by apply extends_refl.
  - destruct l as [|v l]; [by destruct Hl|].
    exists v, (KMem (use_lock k) (load_long v (pages k)) (new_table (pages k) pgdir va v)), l.
    rewrite (walk_alloc _ (v :: l)) by (done || apply S). split_and!; [done| | | |cbn; lia].
    + by apply nt_extends.
    + rewrite (nt_tab k v l pgdir va S) by apply PDX_range. by rewrite decide_True.
    + intros va'. by apply (nt_pte k v l).
Qed.

(** *** Storing an entry *)

Section store.
Context (k : kmem) (l : list Z) (pgdir va t w : Z).
Context (S : space k l pgdir) (T : tab (pages k) pgdir (PDX va) = Some t) (Hw : is_u32 w).
#[local] Abbreviation k' :=
  (KMem (use_lock k) (freelist k) (store_long (t + 4 * PTX va) w (pages k))).

Lemma se_facts : page_ok end_ t /\ (t ∉ l) /\ t <> pgdir.
Proof. exact (sp_tab _ _ _ S _ t (PDX_range va) T). Qed.

Lemma se_out x : ~ in_page t x -> pages k' x = pages k x.
Proof. intros Hx. pose proof (PTX_range va). apply store_long_ne. unfold PGSIZE in *. lia. Qed.

Lemma se_tab d : 0 <= d < 1024 -> tab (pages k') pgdir d = tab (pages k) pgdir d.
Proof.
  intros Hd. destruct se_facts as (Ht & _ & Hne). unfold tab.
  rewrite (load_apart t pgdir _ (pages k) (pages k')); try done.
  - apply S.
  - lia.
  - unfold PGSIZE. lia.
  - apply se_out.
Qed.

Lemma se_space : space k' l pgdir.
Proof.
  destruct se_facts as (Ht & Hl & Hne). split; [|apply S|apply S| |].
  - destruct (sp_rep _ _ _ S) as [H1 H2 H3]. split; [|done|done]. cbn.
    eapply free_list_ext; [|exact H1]. intros v x Hv Hx. symmetry. apply se_out.
    rewrite Forall_forall in H2. specialize (H2 _ Hv).
    destruct (pages_apart end_ t v Ht H2); [congruence|..]; unfold PGSIZE in *; lia.
  - intros d t' Hr. rewrite se_tab by done. by apply (sp_tab _ _ _ S).
  - intros d d' t' Hr Hr'. rewrite !se_tab by done. by apply (sp_inj _ _ _ S).
Qed.

Lemma se_pte va' : is_u32 va -> is_u32 va' ->
  pte_of (pages k') pgdir va' = if decide (va' / PGSIZE = va / PGSIZE) then w else pte_of (pages k) pgdir va'.
Proof.
  intros Hva Hva'. destruct se_facts as (Ht & Hl & Hne). unfold pte_of. rewrite se_tab by apply PDX_range.
  pose proof (PTX_range va) as R. pose proof (PTX_range va') as R'.
  case_decide as E.
  - apply same_page in E as [E1 E2]; try done. rewrite E1, T, E2. by apply load_store_long.
  - rewrite <- (same_page va' va) in E by done.
    destruct (tab (pages k) pgdir (PDX va')) as [t'|] eqn:Et; [|done].
    destruct (decide (t' = t)) as [->|Hn].
    + assert (PDX va' = PDX va) as Ed by (apply (sp_inj _ _ _ S _ _ t); try done; apply PDX_range).
      apply load_long_ext. intros x Hx. apply store_long_ne.
      assert (PTX va' <> PTX va) by tauto. lia.
    + destruct (sp_tab _ _ _ S _ t' (PDX_range va') Et) as (H1 & _).
      apply (load_apart t t'); try done; [lia|unfold PGSIZE; lia|apply se_out].
Qed.

Lemma se_extends : extends k l pgdir k' l.
Proof.
  destruct se_facts as (Ht & Hl & Hne). split; [apply se_space|by exists []| |].
  - intros v [H1 H2 H3 H4]. split; try done. intros d Hr. rewrite se_tab by done. by apply H4.
  - intros v x [H1 H2 H3 H4] Hx. apply se_out.
    assert (t <> v) as Hn by (intros ->; by apply (H4 (PDX va) (PDX_range va))).
    destruct (pages_apart end_ t v Ht H1 Hn); unfold PGSIZE in *; lia.
Qed.
End store.

(** *** mappages *)

(** The directory entries the [n] pages from [a] lie under. *)
Definition ndirs (a : Z) (n : nat) : Z :=
  match n with
  | O => 0
  | S n' => (a + Z.of_nat n' * PGSIZE) / 4194304 - a / 4194304 + 1
  end.

(** How many of their tables may have to be made. *)
Definition needs (k : kmem) (pgdir a : Z) (n : nat) : Z :=
  match tab (pages k) pgdir (PDX a) with Some _ => ndirs a n - 1 | None => ndirs a n end.

Lemma ndirs_step a n :
  0 <= a -> ndirs (a + PGSIZE) n <= ndirs a (S n) - (if decide ((a + PGSIZE) / 4194304 = a / 4194304) then 0 else 1).
Proof.
  intros Ha. unfold ndirs. destruct n as [|n].
  - change (Z.of_nat 0) with 0. rewrite Z.mul_0_l, Z.add_0_r. case_decide; lia.
  - replace (a + PGSIZE + Z.of_nat n * PGSIZE) with (a + Z.of_nat (S n) * PGSIZE) by lia.
    case_decide as E; [lia|].
    assert (a / 4194304 <= (a + PGSIZE) / 4194304) by (apply Z.div_le_mono; unfold PGSIZE; lia). lia.
Qed.

(** The entries the loop writes. *)
Definition mapped (a pa perm : Z) (n : nat) (va : Z) : option Z :=
  if decide (a <= va < a + Z.of_nat n * PGSIZE)
  then Some (u32 (pa + (va - a) / PGSIZE * PGSIZE) .| perm .| PTE_P) else None.

Lemma mapped_S a pa perm n va :
  a mod PGSIZE = 0 -> is_u32 va ->
  mapped a pa perm (S n) va =
    if decide (va / PGSIZE = a / PGSIZE) then Some (u32 pa .| perm .| PTE_P)
    else mapped (a + PGSIZE) (u32 (pa + PGSIZE)) perm n va.
Proof.
  intros Ha Hva. apply Z.mod_divide in Ha as [i ->]; [|done]. rewrite Z.div_mul by done.
  unfold mapped. pose proof (Z.div_mod va PGSIZE ltac:(done)) as Hd.
  pose proof (Z.mod_pos_bound va PGSIZE ltac:(done)) as Hm. unfold PGSIZE in *.
  destruct (decide (va / 4096 = i)) as [E|E].
  - rewrite decide_True by lia. do 3 f_equal. rewrite Z.div_small by lia. f_equal. lia.
  - destruct (decide (i * 4096 + 4096 <= va < i * 4096 + 4096 + Z.of_nat n * 4096)) as [H|H].
    + rewrite decide_True by lia. do 3 f_equal. unfold u32. rewrite Zplus_mod_idemp_l. f_equal.
      replace (va - i * 4096) with (va - (i * 4096 + 4096) + 1 * 4096) by lia.
      rewrite Z.div_add by lia. lia.
    + rewrite decide_False; [done|]. lia.
Qed.

Lemma page_step a va : a mod PGSIZE = 0 -> a + PGSIZE <= va -> va / PGSIZE <> a / PGSIZE.
Proof.
  intros Ha Hv. apply Z.mod_divide in Ha as [i ->]; [|done]. rewrite Z.div_mul by done. intros E.
  pose proof (Z.div_mod va PGSIZE ltac:(done)). pose proof (Z.mod_pos_bound va PGSIZE ltac:(done)).
  unfold PGSIZE in *. lia.
Qed.

(** One step of the loop. *)
Lemma map_page k l pgdir a w :
  space k l pgdir -> is_u32 a -> is_u32 w -> present (pte_of (pages k) pgdir a) = false ->
  (tab (pages k) pgdir (PDX a) = None -> l <> []) ->
  exists pte k1 k2 l', walkpgdir pgdir a true k = Ok (Some pte) k1 /\
    ctrue (load_long pte (pages k1) .& PTE_P) = false /\ sw pte w k1 = Ok tt k2 /\
    extends k l pgdir k2 l' /\ is_Some (tab (pages k2) pgdir (PDX a)) /\
    (forall va, is_u32 va -> pte_of (pages k2) pgdir va =
      if decide (va / PGSIZE = a / PGSIZE) then w else pte_of (pages k) pgdir va) /\
    length l' = match tab (pages k) pgdir (PDX a) with Some _ => length l | None => (length l - 1)%nat end.
Proof.
  intros Sp Ha Hw Hn Hl. destruct (walk_ok k l pgdir a Sp Hl) as (t & k1 & l' & Hwalk & Hex & Ht & Hpte & Hlen).
  assert (pte_of (pages k1) pgdir a = load_long (t + 4 * PTX a) (pages k1)) as Ep by (unfold pte_of; by rewrite Ht).
  eexists _, k1, (KMem (use_lock k1) (freelist k1) (store_long (t + 4 * PTX a) w (pages k1))), l'.
  split; [exact Hwalk|]. split; [rewrite <- Ep, Hpte; exact Hn|]. split; [reflexivity|].
  pose proof (ex_space _ _ _ _ _ Hex) as S1. split_and!.
  - eapply extends_trans; [exact Hex|]. by apply se_extends.
  - rewrite (se_tab k1 l' pgdir a t w S1 Ht) by apply PDX_range. by exists t.
  - intros va Hva. rewrite (se_pte k1 l' pgdir a t w S1 Ht Hw va Ha Hva). by rewrite Hpte.
  - exact Hlen.
Qed.

Lemma needs_step k k2 pgdir a n (l l' : list Z) :
  0 <= a -> a + Z.of_nat (S n) * PGSIZE <= 4294967296 -> is_Some (tab (pages k2) pgdir (PDX a)) ->
  needs k pgdir a (S n) <= Z.of_nat (length l) ->
  length l' = match tab (pages k) pgdir (PDX a) with Some _ => length l | None => (length l - 1)%nat end ->
  needs k2 pgdir (a + PGSIZE) n <= Z.of_nat (length l') /\
  Z.of_nat (length l) - Z.of_nat (length l') + Z.max 0 (needs k2 pgdir (a + PGSIZE) n) <= needs k pgdir a (S n).
Proof.
  intros Ha Hr [t Ht] Hl El. pose proof (ndirs_step a n Ha) as Hn. unfold needs in *.
  assert (1 <= ndirs a (S n)) as H1.
  { unfold ndirs. assert (a / 4194304 <= (a + Z.of_nat n * PGSIZE) / 4194304); [|lia].
    apply Z.div_le_mono; unfold PGSIZE; lia. }
  destruct n as [|n].
  { change (ndirs (a + PGSIZE) 0) with 0 in *. destruct (tab (pages k) _ _), (tab (pages k2) _ (PDX (a + PGSIZE)));
      rewrite ?El; lia. }
  destruct (decide ((a + PGSIZE) / 4194304 = a / 4194304)) as [E|E].
  - assert (PDX (a + PGSIZE) = PDX a) as ->.
    { rewrite !PDX_div; [done|..]; unfold PGSIZE in *; lia. }
    rewrite Ht. destruct (tab (pages k) _ _); rewrite ?El; lia.
  - destruct (tab (pages k) _ _), (tab (pages k2) _ (PDX (a + PGSIZE))); rewrite ?El; lia.
Qed.

Lemma aligned_add a : a mod PGSIZE = 0 -> (a + PGSIZE) mod PGSIZE = 0.
Proof. intros Ha. rewrite Zplus_mod, Ha. done. Qed.
Lemma aligned_u32 a : a mod PGSIZE = 0 -> u32 a mod PGSIZE = 0.
Proof.
  intros Ha. unfold u32. change 4294967296 with (PGSIZE * 1048576). rewrite Z.rem_mul_r by done.
  rewrite Ha, Z.add_0_l, Z.mul_comm. apply Z_mod_mult.
Qed.

Lemma entry_range pa perm : is_u32 pa -> pa mod PGSIZE = 0 -> 0 <= perm < PGSIZE -> is_u32 (pa .| perm .| PTE_P).
Proof.
  intros Hp Ha Hf. rewrite <- Z.lor_assoc. pose proof (flags_range perm Hf). rewrite lor_low by done.
  pose proof (aligned_range pa Hp Ha). unfold PGSIZE in *. lia.
Qed.

(** [mappages_loop] maps the pages when they are not mapped and there are pages
    for the tables. *)
Lemma mappages_loop_ok n a pa perm k l pgdir :
  space k l pgdir -> a mod PGSIZE = 0 -> 0 <= a -> a + Z.of_nat n * PGSIZE <= 4294967296 ->
  is_u32 pa -> pa mod PGSIZE = 0 -> 0 <= perm < PGSIZE ->
  (forall va, a <= va < a + Z.of_nat n * PGSIZE -> present (pte_of (pages k) pgdir va) = false) ->
  needs k pgdir a n <= Z.of_nat (length l) ->
  exists k' l', mappages_loop n pgdir a pa perm k = Ok 0 k' /\ extends k l pgdir k' l' /\
    Z.of_nat (length l) - Z.of_nat (length l') <= Z.max 0 (needs k pgdir a n) /\
    (forall va, is_u32 va ->
      pte_of (pages k') pgdir va = default (pte_of (pages k) pgdir va) (mapped a pa perm n va)).
Proof.
  revert a pa k l. induction n as [|n IH]; intros a pa k l Sp Ha H0 Hr Hpa Hpm Hperm Hfree Hl.
  { exists k, l. split; [done|]. split; [by apply extends_refl|]. split; [lia|]. intros va Hva.
    unfold mapped. rewrite decide_False by lia. done. }
  assert (1 <= ndirs a (S n)) as Hnd.
  { unfold ndirs. assert (a / 4194304 <= (a + Z.of_nat n * PGSIZE) / 4194304); [|lia].
    apply Z.div_le_mono; unfold PGSIZE; lia. }
  destruct (map_page k l pgdir a (pa .| perm .| PTE_P) Sp) as (pte & k1 & k2 & l1 & E1 & E2 & E3 & Hex & Htab & Hpte & Hlen).
  { unfold PGSIZE in *. lia. }
  { by apply entry_range. }
  { apply Hfree. unfold PGSIZE in *. lia. }
  { intros E ->. unfold needs in Hl. rewrite E in Hl. cbn [length] in Hl. lia. }
  destruct (needs_step k k2 pgdir a n l l1 H0 Hr Htab Hl Hlen) as [Hl1 Hcount].
  destruct (IH (a + PGSIZE) (u32 (pa + PGSIZE)) k2 l1) as (k3 & l3 & E4 & Hex3 & Hc3 & Hpte3).
  { apply Hex. }
  { by apply aligned_add. }
  { unfold PGSIZE. lia. }
  { lia. }
  { apply u32_range. }
  { by apply aligned_u32, aligned_add. }
  { done. }
  { intros va Hva. rewrite Hpte by (unfold PGSIZE in *; lia). rewrite decide_False by (apply page_step; [done|lia]).
    apply Hfree. unfold PGSIZE in *. lia. }
  { done. }
  exists k3, l3. split; [|split; [by eapply extends_trans|split; [lia|]]].
  - cbn [mappages_loop]. rewrite (bind_run _ _ _ _ _ E1). unfold lw, gets. unfold mbind at 1, M_bind at 1.
    rewrite E2. rewrite (bind_run _ _ _ _ _ E3).
    destruct n as [|n]; [exact E4|]. rewrite (u32_small (a + PGSIZE)) by (unfold PGSIZE in *; lia). exact E4.
  - intros va Hva. rewrite Hpte3, Hpte by done. rewrite (mapped_S a) by done.
    case_decide as E; [|done]. rewrite (u32_small pa) by done.
    unfold mapped. rewrite decide_False; [done|]. intros Hx. apply (page_step a va Ha); [lia|done].
Qed.

Lemma round_down_aligned a : a mod PGSIZE = 0 -> PGROUNDDOWN a = a.
Proof.
  intros Ha. unfold PGROUNDDOWN. rewrite page_round_down. apply Z.mod_divide in Ha as [i ->]; [|done].
  by rewrite Z.div_mul by done.
Qed.

Lemma round_down_range va n :
  va mod PGSIZE = 0 -> 0 < n -> PGROUNDDOWN (va + n * PGSIZE - 1) = va + (n - 1) * PGSIZE.
Proof.
  intros Ha Hn. unfold PGROUNDDOWN. rewrite page_round_down. apply Z.mod_divide in Ha as [i ->]; [|done].
  replace (i * PGSIZE + n * PGSIZE - 1) with ((i + n - 1) * PGSIZE + (PGSIZE - 1)) by lia.
  rewrite Z.div_add_l by done. rewrite (Z.div_small (PGSIZE - 1)) by (unfold PGSIZE; lia). lia.
Qed.

(** [mappages] on whole pages. *)
Lemma mappages_pages pgdir va n pa perm :
  va mod PGSIZE = 0 -> 0 <= va -> 0 < n -> va + n * PGSIZE <= 4294967296 ->
  mappages pgdir va (n * PGSIZE) pa perm = mappages_loop (Z.to_nat n) pgdir va pa perm.
Proof.
  intros Ha H0 Hn Hr. unfold mappages. rewrite (round_down_aligned va) by done.
  rewrite (u32_small (va + _ - 1)) by (unfold PGSIZE in *; lia).
  rewrite round_down_range by done. rewrite u32_small by (unfold PGSIZE in *; lia).
  replace (va + (n - 1) * PGSIZE - va) with ((n - 1) * PGSIZE) by lia. rewrite Z.div_mul by done.
  do 2 f_equal. lia.
Qed.

Lemma needs_le k pgdir a n : needs k pgdir a n <= ndirs a n.
Proof. unfold needs. destruct (tab _ _ _); lia. Qed.

(** Everything the new address space [pgdir] leaves alone, seen from the free
    pages [l0] and the memory [k0] before it was made. *)
Record beside (k0 : kmem) (l0 : list Z) (k : kmem) (l : list Z) (pgdir : Z) : Prop := {
  be_space : space k l pgdir;
  be_free : exists used, l0 = used ++ l;
  be_fresh : pgdir ∈ l0;
  be_out w : page_ok end_ w -> w ∉ l0 -> outside k l pgdir w;
  be_same w x : page_ok end_ w -> w ∉ l0 -> in_page w x -> pages k x = pages k0 x
}.

Lemma beside_extends k0 l0 k l pgdir k' l' :
  beside k0 l0 k l pgdir -> extends k l pgdir k' l' -> beside k0 l0 k' l' pgdir.
Proof.
  intros [B1 (u & B2) B3 B4 B5] [E1 (u' & E2) E3 E4]. split; [done| |done| |].
  - exists (u ++ u'). by rewrite <- app_assoc, <- E2.
  - intros w H1 H2. by apply E3, B4.
  - intros w x H1 H2 Hx. rewrite (E4 w) by (auto; by apply B4). by apply (B5 w).
Qed.

(** A page directory of zeros. *)
Lemma fresh_dir k v l :
  kmem_rep end_ k (v :: l) ->
  let k' := KMem (use_lock k) (load_long v (pages k)) (memset v 0 PGSIZE (pages k)) in
  beside k (v :: l) k' l v /\ forall va, pte_of (pages k') v va = 0.
Proof.
  intros R k'. pose proof R as [_ Hp Hn]. apply Forall_cons in Hp as [Hv Hp]. apply NoDup_cons in Hn as [Hn Hnd].
  destruct (kalloc_spec end_ k (v :: l) R) as (_ & _ & _ & R').
  assert (forall x, ~ in_page v x -> pages k' x = pages k x) as Hout.
  { intros x Hx. cbn. rewrite memset_spec by done. by rewrite decide_False. }
  assert (forall d, 0 <= d < 1024 -> tab (pages k') v d = None) as Ht.
  { intros d Hd. unfold tab. rewrite load_zero; [done|]. intros x Hx. cbn. rewrite memset_spec by done.
    rewrite decide_True by (unfold PGSIZE; lia). done. }
  split; [|intros va; unfold pte_of; by rewrite Ht by apply PDX_range].
  split.
  - split; [|done|done| |].
    + eapply kmem_rep_ext; [exact R'|]. intros w x Hw Hx. apply Hout. rewrite Forall_forall in Hp.
      destruct (pages_apart end_ v w Hv (Hp _ Hw)); [congruence|..]; unfold PGSIZE in *; lia.
    + intros d t Hd. by rewrite Ht by done.
    + intros d d' t Hd _. by rewrite Ht by done.
  - by exists [v].
  - by left.
  - intros w H1 H2. apply not_elem_of_cons in H2 as [H2 H3]. split; try done. intros d Hd. by rewrite Ht.
  - intros w x H1 H2 Hx. apply not_elem_of_cons in H2 as [H2 H3]. apply Hout.
    destruct (pages_apart end_ v w Hv H1); [congruence|..]; unfold PGSIZE in *; lia.
Qed.

(** *** setupkvm *)

Section kvm.
Context (data_ : Z) (Hda : data_ mod PGSIZE = 0) (Hdr : KERNLINK < data_ < KERNBASE + PHYSTOP).

(** A line of [kmap] as pages. *)
Definition kmap_ok (k : Z * Z * Z * Z) : Prop :=
  let '(virt, ps, pe, perm) := k in
  virt mod PGSIZE = 0 /\ KERNBASE <= virt /\ is_u32 ps /\ ps mod PGSIZE = 0 /\ (perm = 0 \/ perm = PTE_W) /\
  u32 (pe - ps) mod PGSIZE = 0 /\ 0 < u32 (pe - ps) /\ virt + u32 (pe - ps) <= 4294967296.

(** The pages of a line, and what it maps an address to. *)
Definition kpages (k : Z * Z * Z * Z) : nat :=
  let '(_, ps, pe, _) := k in Z.to_nat (u32 (pe - ps) / PGSIZE).
Definition kfind (k : Z * Z * Z * Z) (va : Z) : option Z :=
  let '(virt, ps, _, perm) := k in mapped virt ps perm (kpages k) va.
Definition kvirt (k : Z * Z * Z * Z) : Z := let '(virt, _, _, _) := k in virt.

Fixpoint kfinds (ks : list (Z * Z * Z * Z)) (va : Z) : option Z :=
  match ks with
  | [] => None
  | k :: ks => match kfind k va with Some w => Some w | None => kfinds ks va end
  end.

(** The lines are disjoint and in order. *)
Fixpoint ordered (lo : Z) (ks : list (Z * Z * Z * Z)) : Prop :=
  match ks with
  | [] => True
  | k :: ks => lo <= kvirt k /\ ordered (kvirt k + Z.of_nat (kpages k) * PGSIZE) ks
  end.

Fixpoint ktables (ks : list (Z * Z * Z * Z)) : Z :=
  match ks with [] => 0 | k :: ks => ndirs (kvirt k) (kpages k) + ktables ks end.

Lemma ndirs_nonneg a n : 0 <= a -> 0 <= ndirs a n.
Proof.
  intros Ha. unfold ndirs. destruct n as [|n]; [done|].
  assert (a / 4194304 <= (a + Z.of_nat n * PGSIZE) / 4194304); [|lia]. apply Z.div_le_mono; unfold PGSIZE; lia.
Qed.

Lemma ktables_nonneg ks : Forall kmap_ok ks -> 0 <= ktables ks.
Proof.
  induction 1 as [|k ks Hk _ IH]; cbn; [done|].
  assert (0 <= ndirs (kvirt k) (kpages k)); [|lia]. apply ndirs_nonneg.
  destruct k as [[[virt ps] pe] perm]. cbn. destruct Hk as (_ & Hv & _). unfold KERNBASE in Hv. lia.
Qed.

Lemma kfinds_low lo ks va : ordered lo ks -> va < lo -> kfinds ks va = None.
Proof.
  revert lo. induction ks as [|k ks IH]; intros lo Ho Hva; cbn; [done|]. destruct Ho as [H1 H2].
  destruct k as [[[virt ps] pe] perm]. cbn [kfind kvirt] in *. unfold mapped at 1.
  rewrite decide_False by lia. eapply IH; [exact H2|]. unfold PGSIZE. lia.
Qed.

Lemma setupkvm_loop_ok ks lo k l pgdir :
  space k l pgdir -> Forall kmap_ok ks -> ordered lo ks ->
  (forall va, is_u32 va -> lo <= va -> present (pte_of (pages k) pgdir va) = false) ->
  ktables ks <= Z.of_nat (length l) ->
  exists k' l', setupkvm_loop pgdir ks k = Ok pgdir k' /\ extends k l pgdir k' l' /\
    Z.of_nat (length l) - Z.of_nat (length l') <= ktables ks /\
    (forall va, is_u32 va -> pte_of (pages k') pgdir va = default (pte_of (pages k) pgdir va) (kfinds ks va)).
Proof.
  revert lo k l. induction ks as [|kl ks IH]; intros lo k l Sp Hok Ho Hn Hl.
  { exists k, l. split; [done|]. split; [by apply extends_refl|]. split; [cbn; lia|done]. }
  apply Forall_cons in Hok as [Hk Hok]. cbn [ordered ktables kfinds] in *.
  pose proof (ktables_nonneg ks Hok) as Hnn. destruct Ho as [Ho1 Ho2].
  destruct kl as [[[virt ps] pe] perm]. destruct Hk as (Hv1 & Hv2 & Hp1 & Hp2 & Hperm & Hs1 & Hs2 & Hs3).
  cbn [kvirt kpages kfind] in *. set (n := u32 (pe - ps) / PGSIZE) in *.
  apply Z.mod_divide in Hs1 as [m Hm]; [|done]. assert (n = m) as Enm by (unfold n; rewrite Hm; by apply Z.div_mul).
  assert (0 < n) as Hn0 by (unfold PGSIZE in *; lia).
  assert (virt + Z.of_nat (Z.to_nat n) * PGSIZE <= 4294967296) as Hr by (rewrite Z2Nat.id by lia; lia).
  assert (0 <= virt) as Hv0 by (unfold KERNBASE in *; lia).
  destruct (mappages_loop_ok (Z.to_nat n) virt ps perm k l pgdir) as (k1 & l1 & E1 & Hex & Hc & Hpte); try done.
  { destruct Hperm as [-> | ->]; unfold PGSIZE, PTE_W; lia. }
  { intros va Hva. apply Hn; lia. }
  { pose proof (needs_le k pgdir virt (Z.to_nat n)). lia. }
  destruct (IH (virt + Z.of_nat (Z.to_nat n) * PGSIZE) k1 l1) as (k2 & l2 & E2 & Hex2 & Hc2 & Hpte2); try done.
  { apply Hex. }
  { intros va Hva Hlo. rewrite Hpte by done. unfold mapped. rewrite decide_False by lia. apply Hn; [done|lia]. }
  { pose proof (needs_le k pgdir virt (Z.to_nat n)). pose proof (ndirs_nonneg virt (Z.to_nat n) Hv0). lia. }
  exists k2, l2. split; [|split; [by eapply extends_trans|split]].
  - cbn [setupkvm_loop]. rewrite Hm, <- Enm, mappages_pages by (try done; lia).
    by rewrite (bind_run _ _ _ _ _ E1).
  - pose proof (needs_le k pgdir virt (Z.to_nat n)). pose proof (ndirs_nonneg virt (Z.to_nat n) Hv0). lia.
  - intros va Hva. rewrite Hpte2, Hpte by done.
    destruct (mapped virt ps perm (Z.to_nat n) va) as [w|] eqn:Em; [|done]. cbn.
    unfold mapped in Em. case_decide as Hin; [|done].
    by rewrite (kfinds_low _ _ va Ho2) by lia.
Qed.

Lemma data_mod : (data_ - KERNBASE) mod PGSIZE = 0.
Proof. rewrite Zminus_mod, Hda. done. Qed.

Lemma kmap_all_ok : Forall kmap_ok (kmap data_).
Proof.
  pose proof data_mod as Hm. assert (v2p data_ = data_ - KERNBASE) as Ed.
  { unfold v2p. apply u32_small. unfold KERNLINK, EXTMEM, KERNBASE, PHYSTOP in *. lia. }
  assert (u32 (data_ - KERNBASE - v2p KERNLINK) = data_ - KERNLINK) as E1.
  { change (v2p KERNLINK) with EXTMEM. unfold KERNLINK, EXTMEM, KERNBASE, PHYSTOP in *. rewrite u32_small; lia. }
  assert (u32 (PHYSTOP - (data_ - KERNBASE)) = KERNBASE + PHYSTOP - data_) as E2.
  { unfold KERNLINK, EXTMEM, KERNBASE, PHYSTOP in *. rewrite u32_small; lia. }
  assert ((KERNBASE + PHYSTOP - data_) mod PGSIZE = 0) as E3 by (by rewrite Zminus_mod, Hda).
  assert ((data_ - KERNLINK) mod PGSIZE = 0) as E4 by (by rewrite Zminus_mod, Hda).
  unfold kmap. rewrite Ed. repeat (apply Forall_cons; split); [..|by apply Forall_nil]; unfold kmap_ok.
  - by split_and!; try right.
  - rewrite E1. split_and!; try done; [by left|..]; unfold KERNLINK, EXTMEM, KERNBASE, PHYSTOP in *; lia.
  - rewrite E2. split_and!; try done; try (by right); unfold KERNLINK, EXTMEM, KERNBASE, PHYSTOP in *; lia.
  - by split_and!; try right.
Qed.

Lemma kpages_size virt ps pe perm :
  kmap_ok (virt, ps, pe, perm) -> Z.of_nat (kpages (virt, ps, pe, perm)) * PGSIZE = u32 (pe - ps).
Proof.
  intros (_ & _ & _ & _ & _ & Hs & H0 & _). cbn [kpages]. apply Z.mod_divide in Hs as [m Hs]; [|done].
  rewrite Hs in *. rewrite Z.div_mul by done. unfold PGSIZE in *. lia.
Qed.

Lemma kmap_ordered : ordered KERNBASE (kmap data_).
Proof.
  pose proof kmap_all_ok as Hok. unfold kmap in *. apply Forall_cons in Hok as [H1 Hok].
  apply Forall_cons in Hok as [H2 Hok]. apply Forall_cons in Hok as [H3 Hok]. apply Forall_cons in Hok as [H4 _].
  cbn [ordered kvirt]. rewrite (kpages_size _ _ _ _ H1), (kpages_size _ _ _ _ H2), (kpages_size _ _ _ _ H3).
  assert (v2p data_ = data_ - KERNBASE) as ->.
  { unfold v2p. apply u32_small. unfold KERNLINK, EXTMEM, KERNBASE, PHYSTOP in *. lia. }
  change (v2p KERNLINK) with EXTMEM. unfold KERNLINK, EXTMEM, KERNBASE, PHYSTOP, DEVSPACE in *.
  rewrite !u32_small by lia. lia.
Qed.

Lemma ndirs_bound a n lo hi :
  0 <= lo <= a -> a + Z.of_nat n * PGSIZE <= hi -> ndirs a n <= hi / 4194304 - lo / 4194304 + 1.
Proof.
  intros Ha Hn. unfold ndirs. destruct n as [|n].
  - assert (lo / 4194304 <= hi / 4194304); [|lia]. apply Z.div_le_mono; unfold PGSIZE in *; lia.
  - assert (lo / 4194304 <= a / 4194304) by (apply Z.div_le_mono; lia).
    assert ((a + Z.of_nat n * PGSIZE) / 4194304 <= hi / 4194304); [|lia].
    apply Z.div_le_mono; unfold PGSIZE in *; lia.
Qed.

Lemma kmap_tables : ktables (kmap data_) <= 124.
Proof.
  pose proof kmap_all_ok as Hok. unfold kmap in *. apply Forall_cons in Hok as [H1 Hok].
  apply Forall_cons in Hok as [H2 Hok]. apply Forall_cons in Hok as [H3 Hok]. apply Forall_cons in Hok as [H4 _].
  assert (v2p data_ = data_ - KERNBASE) as Ed.
  { unfold v2p. apply u32_small. unfold KERNLINK, EXTMEM, KERNBASE, PHYSTOP in *. lia. }
  rewrite Ed in *. change (v2p KERNLINK) with EXTMEM in *. cbn [ktables kvirt].
  match goal with |- ?a + (?b + (?c + (?d + 0))) <= _ =>
    assert (a <= 1 /\ b <= 57 /\ c <= 57 /\ d <= 9); [|lia] end.
  split_and!.
  - apply (ndirs_bound _ _ KERNBASE (KERNBASE + EXTMEM)); [unfold KERNBASE; lia|].
    rewrite (kpages_size _ _ _ _ H1). unfold KERNBASE. vm_compute. discriminate.
  - apply (ndirs_bound _ _ KERNBASE (KERNBASE + PHYSTOP)); [unfold KERNLINK, EXTMEM, KERNBASE; lia|].
    rewrite (kpages_size _ _ _ _ H2). unfold KERNLINK, EXTMEM, KERNBASE, PHYSTOP in *. rewrite u32_small; lia.
  - apply (ndirs_bound _ _ KERNBASE (KERNBASE + PHYSTOP)); [unfold KERNLINK, EXTMEM, KERNBASE in *; lia|].
    rewrite (kpages_size _ _ _ _ H3). unfold KERNLINK, EXTMEM, KERNBASE, PHYSTOP in *. rewrite u32_small; lia.
  - apply (ndirs_bound _ _ DEVSPACE 4294967296); [unfold DEVSPACE; lia|].
    rewrite (kpages_size _ _ _ _ H4). vm_compute. discriminate.
Qed.

(** [setupkvm] with enough free pages: a new address space with the kernel's
    lines and no user pages. *)
Lemma setupkvm_ok k l :
  kmem_rep end_ k l -> 125 <= Z.of_nat (length l) ->
  exists pgdir k' l', setupkvm data_ k = Ok pgdir k' /\ pgdir <> 0 /\ beside k l k' l' pgdir /\
    Z.of_nat (length l) - Z.of_nat (length l') <= 125 /\
    (forall va, is_u32 va -> pte_of (pages k') pgdir va = default 0 (kfinds (kmap data_) va)).
Proof.
  intros R Hl. destruct l as [|v l]; [cbn in Hl; lia|]. destruct (kalloc_spec end_ k (v :: l) R) as (E & H0 & _).
  destruct (fresh_dir k v l R) as [Hbe Hz]. set (k1 := KMem _ _ _) in Hbe, Hz. cbn [length] in Hl.
  destruct (setupkvm_loop_ok (kmap data_) KERNBASE k1 l v) as (k2 & l2 & E2 & Hex & Hc & Hpte).
  - apply Hbe.
  - apply kmap_all_ok.
  - apply kmap_ordered.
  - intros va _ _. by rewrite Hz.
  - pose proof kmap_tables. lia.
  - exists v, k2, l2. split; [|split; [done|split; [by eapply beside_extends|split]]].
    + unfold setupkvm. rewrite (bind_run _ _ _ _ _ E).
      assert ((v =? 0) = false) as -> by by apply Z.eqb_neq. exact E2.
    + pose proof kmap_tables. cbn [length]. lia.
    + intros va Hva. rewrite Hpte by done. by rewrite Hz.
Qed.

Lemma kmap_user va : 0 <= va < KERNBASE -> kfinds (kmap data_) va = None.
Proof. intros Hva. apply (kfinds_low KERNBASE); [apply kmap_ordered|lia]. Qed.
End kvm.

(** *** copyuvm *)

(** A page is taken off the free list and filled. *)
Lemma take_extends k v l pgdir m' :
  space k (v :: l) pgdir -> (forall x, ~ in_page v x -> m' x = pages k x) ->
  let k' := KMem (use_lock k) (load_long v (pages k)) m' in
  extends k (v :: l) pgdir k' l /\ outside k' l pgdir v /\
  (forall va, pte_of m' pgdir va = pte_of (pages k) pgdir va).
Proof.
  intros S Hm k'. pose proof S as [R Hd Hu Ht Hi]. pose proof R as [_ Hp Hn].
  apply Forall_cons in Hp as [Hv Hp]. apply NoDup_cons in Hn as [Hn _].
  apply not_elem_of_cons in Hu as [Hne Hu].
  destruct (kalloc_spec end_ k (v :: l) R) as (_ & _ & _ & R').
  assert (forall w x, page_ok end_ w -> w <> v -> in_page w x -> m' x = pages k x) as Hsame.
  { intros w x Hw Hwv Hx. apply Hm. destruct (pages_apart end_ v w Hv Hw); [congruence|..]; unfold PGSIZE in *; lia. }
  assert (forall d, 0 <= d < 1024 -> tab m' pgdir d = tab (pages k) pgdir d) as Htab.
  { intros d Hr. unfold tab. rewrite (load_long_ext (pgdir + 4 * d) m' (pages k)); [done|].
    intros x Hx. apply (Hsame pgdir); [done|congruence|unfold PGSIZE; lia]. }
  assert (space k' l pgdir) as S'.
  { split; [|done|done| |].
    - eapply kmem_rep_ext; [exact R'|]. intros w x Hw Hx. rewrite Forall_forall in Hp.
      apply (Hsame w); [auto|congruence|unfold PGSIZE; lia].
    - intros d t Hr. cbn. rewrite Htab by done. intros E. destruct (Ht d t Hr E) as (H1 & H2 & H3).
      apply not_elem_of_cons in H2 as [_ H2]. done.
    - intros d d' t Hr Hr'. cbn. rewrite !Htab by done. by apply Hi. }
  split_and!.
  - split; [done|by exists [v]| |].
    + intros w [H1 H2 H3 H4]. apply not_elem_of_cons in H2 as [H2 H2']. split; try done.
      intros d Hr. cbn. rewrite Htab by done. by apply H4.
    + intros w x [H1 H2 H3 H4] Hx. apply not_elem_of_cons in H2 as [H2 _]. by apply (Hsame w).
  - split; [done|done|congruence|]. intros d Hr E. cbn in E. rewrite Htab in E by done.
    destruct (Ht d v Hr E) as (_ & H & _). apply not_elem_of_cons in H as [H _]. done.
  - intros va. unfold pte_of. rewrite Htab by apply PDX_range.
    destruct (tab (pages k) pgdir (PDX va)) as [t|] eqn:E; [|done].
    destruct (Ht _ t (PDX_range va) E) as (H1 & H2 & H3). apply not_elem_of_cons in H2 as [H2 _].
    pose proof (PTX_range va). apply load_long_ext. intros x Hx. apply (Hsame t); [done|done|unfold PGSIZE; lia].
Qed.

(** *** allocuvm *)

(** A zeroed page is taken and mapped at [a]. *)
Lemma alloc_page k v l pgdir a :
  space k (v :: l) pgdir -> a mod PGSIZE = 0 -> 0 <= a -> a + PGSIZE <= KERNBASE ->
  pte_of (pages k) pgdir a = 0 -> 1 <= Z.of_nat (length l) ->
  let k1 := KMem (use_lock k) (load_long v (pages k)) (memset v 0 PGSIZE (pages k)) in
  exists k2 l2, mappages pgdir a PGSIZE (v2p v) (PTE_W .| PTE_U) k1 = Ok 0 k2 /\
    extends k (v :: l) pgdir k2 l2 /\ outside k2 l2 pgdir v /\ Z.of_nat (length l) - 1 <= Z.of_nat (length l2) /\
    (forall x, in_page v x -> pages k2 x = 0) /\
    (forall va, is_u32 va -> pte_of (pages k2) pgdir va =
      if decide (va / PGSIZE = a / PGSIZE) then v2p v .| 7 else pte_of (pages k) pgdir va).
Proof.
  intros Sp Ha H0 Hk Hz Hl k1.
  destruct (take_extends k v l pgdir (pages k1) Sp) as (Hex1 & Hout1 & Hpte1).
  { intros x Hx. cbn [pages k1]. rewrite memset_spec by done. by rewrite decide_False. }
  change (KMem (use_lock k) (load_long v (pages k)) (pages k1)) with k1 in *.
  assert (page_ok end_ v) as Hv by apply Hout1.
  assert (v2p v mod PGSIZE = 0) as Hva.
  { rewrite (v2p_page v Hv), Zminus_mod. by rewrite (pg_aligned _ _ Hv). }
  pose proof (needs_le k1 pgdir a 1) as Hnl. unfold ndirs in Hnl. change (Z.of_nat 0) with 0 in Hnl.
  rewrite Z.mul_0_l, Z.add_0_r in Hnl.
  destruct (mappages_loop_ok 1 a (v2p v) 6 k1 l pgdir) as (k2 & l2 & Em & Hex2 & Hc & Hpte2);
    [apply Hex1|done|done|unfold KERNBASE, PGSIZE in *; lia|apply u32_range|done|unfold PGSIZE; lia| |lia|].
  { intros va Hva'. rewrite Hpte1. rewrite (pte_of_page _ _ va a), Hz; [done|..]; try (unfold KERNBASE, PGSIZE in *; lia).
    symmetry. apply Z.mod_divide in Ha as [i ->]; [|done]. rewrite Z.div_mul by done.
    apply Z.div_unique with (va - i * PGSIZE); unfold PGSIZE in *; lia. }
  exists k2, l2. split_and!; [|by eapply extends_trans|by apply (ex_out _ _ _ _ _ Hex2)|lia| |].
  - pose proof (mappages_pages pgdir a 1 (v2p v) 6 Ha) as Emp.
    rewrite Z.mul_1_l in Emp. change (PTE_W .| PTE_U) with 6.
    rewrite Emp by (unfold KERNBASE, PGSIZE in *; lia). exact Em.
  - intros x Hx. rewrite (ex_same _ _ _ _ _ Hex2 v) by done.
    cbn [pages k1]. by rewrite memset_spec, decide_True by done.
  - intros va Hva'. rewrite Hpte2 by done. rewrite mapped_S by done.
    case_decide; cbn [default from_option id].
    + rewrite (u32_small (v2p v)) by apply u32_range. by rewrite <- Z.lor_assoc.
    + unfold mapped. rewrite decide_False by lia. apply Hpte1.
Qed.

(** The pages from [a] to [b] are zeroed pages of [l0] for the user. *)
Record zeroed (l0 : list Z) (k : kmem) (l : list Z) (pgdir a b : Z) : Prop := {
  ze_page va : a <= va < b -> exists f, f ∈ l0 /\ outside k l pgdir f /\
    (forall x, in_page f x -> pages k x = 0) /\ pte_of (pages k) pgdir va = v2p f .| 7
}.

Lemma zeroed_extends l0 k l pgdir a b k' l' :
  zeroed l0 k l pgdir a b -> extends k l pgdir k' l' ->
  (forall va, a <= va < b -> pte_of (pages k') pgdir va = pte_of (pages k) pgdir va) ->
  zeroed l0 k' l' pgdir a b.
Proof.
  intros [Z] E Hp. split. intros va Hva. destruct (Z va Hva) as (f & Hf & Ho & H0 & Hpte).
  exists f. split_and!; [done|by apply (ex_out _ _ _ _ _ E)| |by rewrite Hp].
  intros x Hx. rewrite (ex_same _ _ _ _ _ E f) by done. by apply H0.
Qed.

Lemma other_page a va :
  a mod PGSIZE = 0 -> 0 <= va -> va < a \/ a + PGSIZE <= va -> va / PGSIZE <> a / PGSIZE.
Proof.
  intros Ha H0 [Hl|Hl] E; [|by apply (page_step a va Ha)].
  apply Z.mod_divide in Ha as [i ->]; [|done]. rewrite Z.div_mul in E by done.
  pose proof (Z.div_mod va PGSIZE ltac:(done)). pose proof (Z.mod_pos_bound va PGSIZE ltac:(done)).
  unfold PGSIZE in *. lia.
Qed.

Lemma this_page a va : a mod PGSIZE = 0 -> a <= va < a + PGSIZE -> va / PGSIZE = a / PGSIZE.
Proof.
  intros Ha Hv. apply Z.mod_divide in Ha as [i ->]; [|done]. rewrite Z.div_mul by done. symmetry.
  apply Z.div_unique with (va - i * PGSIZE); unfold PGSIZE in *; lia.
Qed.

Lemma zeroed_step l0 k v l pgdir a b k2 l2 :
  zeroed l0 k (v :: l) pgdir b a -> a mod PGSIZE = 0 -> 0 <= b <= a -> a + PGSIZE <= KERNBASE ->
  v ∈ l0 -> extends k (v :: l) pgdir k2 l2 -> outside k2 l2 pgdir v ->
  (forall x, in_page v x -> pages k2 x = 0) ->
  (forall va, is_u32 va -> pte_of (pages k2) pgdir va =
    if decide (va / PGSIZE = a / PGSIZE) then v2p v .| 7 else pte_of (pages k) pgdir va) ->
  zeroed l0 k2 l2 pgdir b (a + PGSIZE).
Proof.
  intros Hzd Ha Hb Hak Hv Hex Hout H0 Hpte. split. intros va Hva. destruct (decide (va < a)) as [Hva'|Hva'].
  - assert (zeroed l0 k2 l2 pgdir b a) as [Z2]; [|apply Z2; lia].
    eapply zeroed_extends; [exact Hzd|exact Hex|]. intros va' Hv'.
    rewrite Hpte by (unfold KERNBASE, PGSIZE in *; lia).
    rewrite decide_False by (apply other_page; [done|lia|left; lia]). done.
  - exists v. split_and!; [done|done|done|].
    rewrite Hpte by (unfold KERNBASE, PGSIZE in *; lia). rewrite decide_True; [done|].
    apply this_page; [done|lia].
Qed.

Lemma alloc_loop l0 b oldsz newsz fuel a k l pgdir :
  space k l pgdir -> (exists used, l0 = used ++ l) -> zeroed l0 k l pgdir b a ->
  a mod PGSIZE = 0 -> 0 <= b <= a -> newsz < KERNBASE -> a < newsz + PGSIZE ->
  (forall va, is_u32 va -> a <= va < newsz -> pte_of (pages k) pgdir va = 0) ->
  2 * (newsz - a + PGSIZE) <= Z.of_nat (length l) * PGSIZE -> newsz - a + PGSIZE <= Z.of_nat fuel * PGSIZE ->
  (0 < fuel)%nat ->
  exists k' l', allocuvm_loop end_ fuel pgdir a oldsz newsz k = Ok newsz k' /\ extends k l pgdir k' l' /\
    zeroed l0 k' l' pgdir b newsz /\
    (forall va, is_u32 va -> ~ a / PGSIZE <= va / PGSIZE <= (newsz - 1) / PGSIZE ->
      pte_of (pages k') pgdir va = pte_of (pages k) pgdir va).
Proof.
  revert a k l. induction fuel as [|fuel IH]; intros a k l Sp Hused Hzd Ha Hb Hnew Han Hz Hl Hf Hf0; [lia|].
  cbn [allocuvm_loop]. destruct (Z.ltb_spec a newsz) as [Hlt|Hge].
  2:{ exists k, l. split; [done|]. split; [by apply extends_refl|]. split; [|done].
      split. intros va Hva. apply (ze_page _ _ _ _ _ _ Hzd). lia. }
  assert (a + PGSIZE <= KERNBASE) as Hak.
  { apply Z.mod_divide in Ha as [i ->]; [|done]. unfold KERNBASE, PGSIZE in *. lia. }
  destruct l as [|v l]; [cbn in Hl; unfold PGSIZE in *; lia|].
  destruct (kalloc_spec end_ k (v :: l) (sp_rep _ _ _ Sp)) as (Ek & Hv0 & _).
  destruct (alloc_page k v l pgdir a Sp Ha ltac:(lia) Hak) as (k2 & l2 & Em & Hex & Hout & Hlen & H0 & Hpte).
  { apply Hz; unfold KERNBASE, PGSIZE in *; lia. }
  { cbn [length] in Hl. unfold PGSIZE in *. lia. }
  destruct (IH (a + PGSIZE) k2 l2) as (k3 & l3 & E3 & Hex3 & Hz3 & Hpte3);
    [apply Hex| | |by apply aligned_add|unfold PGSIZE; lia|done|lia| |cbn [length] in Hl; unfold PGSIZE in *; lia
    |unfold PGSIZE in *; lia|unfold PGSIZE in *; lia|].
  { destruct Hused as [u ->]. destruct (ex_free _ _ _ _ _ Hex) as [u' ->]. exists (u ++ u'). by rewrite <- app_assoc. }
  { eapply zeroed_step; try done. destruct Hused as [u ->]. set_solver. }
  { intros va Hva Hr. rewrite Hpte by done. rewrite decide_False by (apply other_page; [done|lia|right; lia]).
    apply Hz; [done|]. unfold PGSIZE in *. lia. }
  exists k3, l3. split; [|split; [by eapply extends_trans|split; [done|]]].
  - rewrite (bind_run _ _ _ _ _ Ek). assert ((v =? 0) = false) as -> by by apply Z.eqb_neq.
    erewrite bind_run by reflexivity. cbn [use_lock freelist pages].
    rewrite (bind_run _ _ _ _ _ Em). rewrite u32_small by (unfold KERNBASE, PGSIZE in *; lia). exact E3.
  - intros va Hva Hr. rewrite Hpte3 by (try done; rewrite <- (Z.mul_1_l PGSIZE) at 1; rewrite Z.div_add by done; lia).
    rewrite Hpte by done. rewrite decide_False; [done|]. intros E. apply Hr. rewrite E. split; [lia|].
    apply Z.div_le_mono; [done|lia].
Qed.

(** The memory of a process: its first [n] pages are mapped to pages of its own. *)
Record image (k : kmem) (l : list Z) (pgdir n : Z) : Prop := {
  im_space : space k l pgdir;
  im_size : 0 <= n /\ n * PGSIZE <= KERNBASE;
  im_page i : 0 <= i < n -> present (pte_of (pages k) pgdir (i * PGSIZE)) = true;
  im_frame i : 0 <= i < n ->
    page_ok end_ (p2v (PTE_ADDR (pte_of (pages k) pgdir (i * PGSIZE)))) /\
    p2v (PTE_ADDR (pte_of (pages k) pgdir (i * PGSIZE))) ∉ l
}.

(** The page the [i]th page is mapped to. *)
Definition frame (k : kmem) (pgdir i : Z) : Z := p2v (PTE_ADDR (pte_of (pages k) pgdir (i * PGSIZE))).

(** The parent's tables are not touched by making the child's. *)
Lemma parent_pte k0 l0 k l d pgdir va :
  beside k0 l0 k l d -> space k0 l0 pgdir -> pte_of (pages k) pgdir va = pte_of (pages k0) pgdir va /\
    tab (pages k) pgdir (PDX va) = tab (pages k0) pgdir (PDX va).
Proof.
  intros B S. pose proof (PDX_range va). pose proof (PTX_range va).
  assert (tab (pages k) pgdir (PDX va) = tab (pages k0) pgdir (PDX va)) as Ht.
  { unfold tab. rewrite (load_long_ext _ (pages k) (pages k0)); [done|]. intros x Hx.
    apply (be_same _ _ _ _ _ B pgdir); [apply S|apply S|unfold PGSIZE; lia]. }
  split; [|done]. unfold pte_of. rewrite Ht. destruct (tab (pages k0) pgdir (PDX va)) as [t|] eqn:E; [|done].
  destruct (sp_tab _ _ _ S _ t (PDX_range va) E) as (H1 & H2 & _).
  apply load_long_ext. intros x Hx. apply (be_same _ _ _ _ _ B t); [done|done|unfold PGSIZE; lia].
Qed.

Section copy.
Context (k0 : kmem) (l0 : list Z) (pgdir n : Z) (I : image k0 l0 pgdir n).

(** The first pages are copied, to the pages [fs]. *)
Record copied (k : kmem) (l : list Z) (d : Z) (fs : list Z) : Prop := {
  cp_beside : beside k0 l0 k l d;
  cp_pte j f : fs !! j = Some f -> pte_of (pages k) d (Z.of_nat j * PGSIZE) =
    v2p f .| PTE_FLAGS (pte_of (pages k0) pgdir (Z.of_nat j * PGSIZE)) .| PTE_P;
  cp_out f : f ∈ fs -> outside k l d f;
  cp_in f : f ∈ fs -> f ∈ l0;
  cp_data j f x : fs !! j = Some f -> 0 <= x < PGSIZE ->
    pages k (f + x) = pages k0 (frame k0 pgdir (Z.of_nat j) + x);
  cp_nodup : NoDup fs;
  cp_rest va : Z.of_nat (length fs) * PGSIZE <= va < KERNBASE -> pte_of (pages k) d va = 0
}.

Lemma aligned_mul i : (i * PGSIZE) mod PGSIZE = 0.
Proof. apply Z_mod_mult. Qed.

(** Page [i] of the child has become [v]. *)
Lemma copied_step k v l d fs k2 l2 :
  let i := Z.of_nat (length fs) in
  copied k (v :: l) d fs -> i * PGSIZE + PGSIZE <= KERNBASE ->
  extends k (v :: l) d k2 l2 -> outside k2 l2 d v ->
  (forall x, 0 <= x < PGSIZE -> pages k2 (v + x) = pages k0 (frame k0 pgdir i + x)) ->
  (forall va, is_u32 va -> pte_of (pages k2) d va =
    if decide (va / PGSIZE = i) then v2p v .| PTE_FLAGS (pte_of (pages k0) pgdir (i * PGSIZE)) .| PTE_P
    else pte_of (pages k) d va) ->
  copied k2 l2 d (fs ++ [v]).
Proof.
  intros i [B Cp Co Ci Cd Cn Cr] Hik Hex Hv Hdata Hpte. split.
  - by eapply beside_extends.
  - intros j f Hj. pose proof (lookup_lt_Some _ _ _ Hj) as Hjl. rewrite length_app in Hjl. cbn in Hjl.
    rewrite Hpte by (unfold KERNBASE, PGSIZE in *; lia). rewrite Z.div_mul by done.
    apply lookup_app_Some in Hj as [Hj|[Hj1 Hj2]].
    + apply lookup_lt_Some in Hj as Hj'. rewrite decide_False by lia. by apply Cp.
    + apply list_lookup_singleton_Some in Hj2 as [Hj2 <-].
      assert (Z.of_nat j = i) as E by lia. rewrite E. by rewrite decide_True.
  - intros f Hf. apply elem_of_app in Hf as [Hf|Hf]; [by apply (ex_out _ _ _ _ _ Hex), Co|].
    by apply list_elem_of_singleton in Hf as ->.
  - intros f Hf. apply elem_of_app in Hf as [Hf|Hf]; [by apply Ci|].
    apply list_elem_of_singleton in Hf as ->. destruct (be_free _ _ _ _ _ B) as [u ->]. set_solver.
  - intros j f x Hj Hx. apply lookup_app_Some in Hj as [Hj|[Hj1 Hj2]].
    + rewrite (ex_same _ _ _ _ _ Hex f); [by apply Cd| |unfold PGSIZE in *; lia].
      apply Co. by eapply list_elem_of_lookup_2.
    + apply list_lookup_singleton_Some in Hj2 as [Hj2 <-].
      assert (Z.of_nat j = i) as -> by lia. by apply Hdata.
  - apply NoDup_app. split; [done|]. split; [|apply NoDup_singleton].
    intros f Hf Hf'. apply list_elem_of_singleton in Hf' as ->.
    pose proof (out_used _ _ _ _ (Co _ Hf)) as Hu. apply not_elem_of_cons in Hu as [Hu _]. done.
  - intros va Hva'. rewrite length_app in Hva'. cbn in Hva'.
    rewrite Hpte by (unfold KERNBASE, PGSIZE in *; lia). rewrite decide_False.
    + apply Cr. unfold PGSIZE in *. lia.
    + intros E. pose proof (Z.div_mod va PGSIZE ltac:(done)). pose proof (Z.mod_pos_bound va PGSIZE ltac:(done)).
      unfold PGSIZE in *. lia.
Qed.

(** The parent's entry, as the loop reads it. *)
Lemma parent_entry k l d i :
  beside k0 l0 k l d -> 0 <= i < n ->
  exists t, tab (pages k) pgdir (PDX (i * PGSIZE)) = Some t /\
    load_long (t + 4 * PTX (i * PGSIZE)) (pages k) = pte_of (pages k0) pgdir (i * PGSIZE).
Proof.
  intros B Hi. destruct (parent_pte k0 l0 k l d pgdir (i * PGSIZE) B (im_space _ _ _ _ I)) as [Ep Et].
  pose proof (im_page _ _ _ _ I i Hi) as Hpres. unfold pte_of in Ep at 1.
  destruct (tab (pages k) pgdir (PDX (i * PGSIZE))) as [t|]; [by exists t|]. rewrite <- Ep in Hpres. done.
Qed.

(** A page for the copy is filled and mapped. *)
Lemma copy_map k v l d i :
  beside k0 l0 k (v :: l) d -> 0 <= i < n -> 1 <= Z.of_nat (length l) ->
  (forall va, i * PGSIZE <= va < KERNBASE -> pte_of (pages k) d va = 0) ->
  let w := pte_of (pages k0) pgdir (i * PGSIZE) in
  let k1 := KMem (use_lock k) (load_long v (pages k)) (memmove v (p2v (PTE_ADDR w)) PGSIZE (pages k)) in
  exists k2 l2, mappages d (i * PGSIZE) PGSIZE (v2p v) (PTE_FLAGS w) k1 = Ok 0 k2 /\
    extends k (v :: l) d k2 l2 /\ outside k2 l2 d v /\ Z.of_nat (length l) - 1 <= Z.of_nat (length l2) /\
    (forall x, 0 <= x < PGSIZE -> pages k2 (v + x) = pages k0 (frame k0 pgdir i + x)) /\
    (forall va, is_u32 va -> pte_of (pages k2) d va =
      if decide (va / PGSIZE = i) then v2p v .| PTE_FLAGS w .| PTE_P else pte_of (pages k) d va).
Proof.
  intros B Hi Hl Cr w k1. destruct (im_size _ _ _ _ I) as [_ Hn].
  assert (i * PGSIZE + PGSIZE <= KERNBASE) as Hik by (unfold PGSIZE in *; lia).
  destruct (im_frame _ _ _ _ I i Hi) as [Hf1 Hf2]. fold w in Hf1, Hf2.
  destruct (take_extends k v l d (pages k1) (be_space _ _ _ _ _ B)) as (Hex1 & Hout1 & Hpte1).
  { intros x Hx. cbn [pages k1]. rewrite memmove_spec by done. by rewrite decide_False. }
  change (KMem (use_lock k) (load_long v (pages k)) (pages k1)) with k1 in *.
  assert (page_ok end_ v) as Hv by apply Hout1.
  assert (v2p v mod PGSIZE = 0) as Hva.
  { rewrite (v2p_page v Hv), Zminus_mod. by rewrite (pg_aligned _ _ Hv). }
  pose proof (needs_le k1 d (i * PGSIZE) 1) as Hnl. unfold ndirs in Hnl. change (Z.of_nat 0) with 0 in Hnl.
  rewrite Z.mul_0_l, Z.add_0_r in Hnl.
  destruct (mappages_loop_ok 1 (i * PGSIZE) (v2p v) (PTE_FLAGS w) k1 l d) as (k2 & l2 & Em & Hex2 & Hc & Hpte2);
    [apply Hex1|apply aligned_mul|unfold PGSIZE; lia|unfold KERNBASE, PGSIZE in *; lia|apply u32_range|done| | |lia|].
  { rewrite PTE_FLAGS_mod. apply Z.mod_pos_bound. done. }
  { intros va Hva'. rewrite Hpte1, Cr by lia. done. }
  exists k2, l2. split_and!; [|by eapply extends_trans|by apply (ex_out _ _ _ _ _ Hex2)|lia| |].
  - pose proof (mappages_pages d (i * PGSIZE) 1 (v2p v) (PTE_FLAGS w) (aligned_mul i)) as Emp.
    rewrite Z.mul_1_l in Emp. rewrite Emp by (unfold KERNBASE, PGSIZE in *; lia). exact Em.
  - intros x Hx. rewrite (ex_same _ _ _ _ _ Hex2 v); [|done|unfold PGSIZE in *; lia].
    cbn [pages k1]. rewrite memmove_spec, decide_True by (done || lia). unfold frame. fold w.
    replace (p2v (PTE_ADDR w) + (v + x - v)) with (p2v (PTE_ADDR w) + x) by lia.
    apply (be_same _ _ _ _ _ B (p2v (PTE_ADDR w))); [done|done|lia].
  - intros va Hva'. rewrite Hpte2 by done. rewrite mapped_S by (done || apply aligned_mul).
    rewrite Z.div_mul by done. case_decide; cbn [default from_option id]; [by rewrite (u32_small (v2p v)) by apply u32_range|].
    unfold mapped. rewrite decide_False by lia. apply Hpte1.
Qed.

(** The body of the loop. *)
Lemma copy_page fuel k l d fs sz :
  copied k l d fs -> Z.of_nat (length fs) < n -> Z.of_nat (length fs) * PGSIZE < sz ->
  2 <= Z.of_nat (length l) ->
  exists k' l' f, copied k' l' d (fs ++ [f]) /\ Z.of_nat (length l) - 2 <= Z.of_nat (length l') /\
    copyuvm_loop (S fuel) pgdir d (Z.of_nat (length fs) * PGSIZE) sz k =
    copyuvm_loop fuel pgdir d (Z.of_nat (length (fs ++ [f])) * PGSIZE) sz k'.
Proof.
  intros C Hi Hsz Hl. set (i := Z.of_nat (length fs)) in *. pose proof (cp_beside _ _ _ _ C) as B.
  destruct (im_size _ _ _ _ I) as [_ Hn].
  assert (i * PGSIZE + PGSIZE <= KERNBASE) as Hik by (unfold PGSIZE in *; lia).
  destruct l as [|v l]; [cbn in Hl; lia|]. cbn [length] in Hl.
  destruct (parent_entry k (v :: l) d i B ltac:(lia)) as (t & Ht & Hw).
  destruct (copy_map k v l d i B ltac:(lia) ltac:(lia) (cp_rest _ _ _ _ C))
    as (k2 & l2 & Em & Hex & Hout & Hlen & Hdata & Hpte).
  destruct (kalloc_spec end_ k (v :: l) (sp_rep _ _ _ (be_space _ _ _ _ _ B))) as (Ek & Hv0 & _).
  exists k2, l2, v. split; [by eapply copied_step|]. split; [cbn [length]; lia|].
  cbn [copyuvm_loop]. assert ((i * PGSIZE <? sz) = true) as -> by by apply Z.ltb_lt.
  rewrite (bind_run _ _ _ _ _ (walk_present k pgdir _ false t Ht)).
  unfold lw, gets. unfold mbind at 1, M_bind at 1. rewrite Hw.
  change (ctrue (?w .& PTE_P)) with (present w). rewrite (im_page _ _ _ _ I i ltac:(lia)). cbn [negb].
  rewrite (bind_run _ _ _ _ _ Ek). assert ((v =? 0) = false) as -> by by apply Z.eqb_neq.
  erewrite bind_run by reflexivity. cbn [use_lock freelist pages].
  rewrite (bind_run _ _ _ _ _ Em). cbn [Z.ltb]. rewrite length_app.
  rewrite u32_small by (unfold KERNBASE, PGSIZE in *; lia).
  replace (Z.of_nat (length fs + length [v]) * PGSIZE) with (i * PGSIZE + PGSIZE); [done|].
  cbn [length]. unfold i, PGSIZE. lia.
Qed.

Lemma copy_loop fuel k l d fs sz :
  copied k l d fs -> Z.of_nat (length fs) <= n -> (n - 1) * PGSIZE < sz <= n * PGSIZE ->
  2 * (n - Z.of_nat (length fs)) <= Z.of_nat (length l) -> n - Z.of_nat (length fs) < Z.of_nat fuel ->
  exists k' l' fs', copyuvm_loop fuel pgdir d (Z.of_nat (length fs) * PGSIZE) sz k = Ok true k' /\
    copied k' l' d fs' /\ Z.of_nat (length fs') = n.
Proof.
  revert k l fs. induction fuel as [|fuel IH]; intros k l fs C Hi Hsz Hl Hf; [lia|].
  destruct (decide (Z.of_nat (length fs) = n)) as [E|E].
  - exists k, l, fs. split; [|done]. cbn [copyuvm_loop]. rewrite E.
    assert ((n * PGSIZE <? sz) = false) as -> by (apply Z.ltb_ge; lia). done.
  - destruct (copy_page fuel k l d fs sz C) as (k1 & l1 & f & C1 & Hl1 & ->); [lia|unfold PGSIZE in *; lia|lia|].
    apply (IH k1 l1 (fs ++ [f])); [done|..]; rewrite ?length_app; cbn [length]; lia.
Qed.
End copy.

(** An address of a page that is mapped to [f]. *)
Lemma hw_addr_at m pgdir va w f :
  is_u32 va -> pte_of m pgdir (va / PGSIZE * PGSIZE) = w -> present w = true -> p2v (PTE_ADDR w) = f ->
  hw_walk m pgdir va = Some w /\ hw_addr m pgdir va = Some (f + va mod PGSIZE).
Proof.
  intros Hva Hw Hp Hf. pose proof (Z.div_mod va PGSIZE ltac:(done)). pose proof (Z.mod_pos_bound va PGSIZE ltac:(done)).
  unfold hw_addr. rewrite hw_walk_pte. rewrite (pte_of_page m pgdir va (va / PGSIZE * PGSIZE)); [|done| |].
  - rewrite Hw, Hp, Hf. done.
  - unfold PGSIZE in *. lia.
  - by rewrite Z.div_mul by done.
Qed.

(** The child's address space [d] in [k'], made from the parent's [pgdir] in [k]. *)
Record copy_of (k : kmem) (l : list Z) (pgdir : Z) (k' : kmem) (d n : Z) : Prop := {
  co_byte va : 0 <= va < n * PGSIZE -> exists w a w' a',
    hw_walk (pages k) pgdir va = Some w /\ hw_addr (pages k) pgdir va = Some a /\
    hw_walk (pages k') d va = Some w' /\ hw_addr (pages k') d va = Some a' /\
    pages k' a' = pages k a /\ PTE_FLAGS w' = PTE_FLAGS w /\ PGROUNDDOWN a' ∈ l;
  co_apart va va' a : 0 <= va < n * PGSIZE -> 0 <= va' < n * PGSIZE ->
    hw_addr (pages k') d va = Some a -> hw_addr (pages k') d va' = Some a -> va = va';
  co_rest va : n * PGSIZE <= va < KERNBASE -> hw_walk (pages k') d va = None;
  co_same w x : page_ok end_ w -> w ∉ l -> in_page w x -> pages k' x = pages k x
}.

Lemma copied_frame k l pgdir n k' l' d fs va :
  image k l pgdir n -> copied k l pgdir k' l' d fs -> Z.of_nat (length fs) = n -> 0 <= va < n * PGSIZE ->
  exists f, fs !! Z.to_nat (va / PGSIZE) = Some f /\ page_ok end_ f /\ f ∈ l /\
    let w := pte_of (pages k) pgdir (va / PGSIZE * PGSIZE) in
    let w' := v2p f .| PTE_FLAGS w .| PTE_P in
    present w = true /\ PTE_FLAGS w' = PTE_FLAGS w /\ hw_walk (pages k') d va = Some w' /\
    hw_addr (pages k') d va = Some (f + va mod PGSIZE).
Proof.
  intros I C Hlen Hva. destruct (im_size _ _ _ _ I) as [_ Hn].
  assert (0 <= va / PGSIZE < n) as Hi.
  { split; [apply Z.div_pos; unfold PGSIZE; lia|]. apply Z.div_lt_upper_bound; unfold PGSIZE in *; lia. }
  destruct (lookup_lt_is_Some_2 fs (Z.to_nat (va / PGSIZE))) as [f Hf]; [lia|].
  exists f. pose proof (list_elem_of_lookup_2 _ _ _ Hf) as Hin.
  pose proof (out_page _ _ _ _ (cp_out _ _ _ _ _ _ _ C f Hin)) as Hpf.
  pose proof (cp_pte _ _ _ _ _ _ _ C _ f Hf) as Hp. rewrite Z2Nat.id in Hp by lia.
  intros. pose proof (im_page _ _ _ _ I _ Hi) as Hpres. set (w := pte_of (pages k) pgdir (va / PGSIZE * PGSIZE)) in *.
  rewrite <- Z.lor_assoc, (flags_present w Hpres) in *.
  assert (0 <= PTE_FLAGS w < PGSIZE) as Hfl by (rewrite PTE_FLAGS_mod; by apply Z.mod_pos_bound).
  destruct (page_entry f (PTE_FLAGS w) Hpf Hfl) as (_ & E1 & E2 & E3).
  assert (present (PTE_FLAGS w) = true) as Hpf1.
  { rewrite <- (flags_present w Hpres), present_lor. apply orb_true_r. }
  split; [done|]. split; [done|]. split; [by apply (cp_in _ _ _ _ _ _ _ C)|]. cbv zeta.
  rewrite <- ?Z.lor_assoc, ?(flags_present w Hpres). split; [done|]. split; [done|].
  apply hw_addr_at; [unfold KERNBASE, PGSIZE in *; lia|done|by rewrite E3|done].
Qed.

Lemma copied_copy k l pgdir n k' l' d fs :
  image k l pgdir n -> copied k l pgdir k' l' d fs -> Z.of_nat (length fs) = n -> copy_of k l pgdir k' d n.
Proof.
  intros I C Hlen. destruct (im_size _ _ _ _ I) as [_ Hn]. split.
  - intros va Hva. destruct (copied_frame k l pgdir n k' l' d fs va I C Hlen Hva) as (f & Hf & Hpf & Hin & Hpres & Hfl & Hw & Ha).
    set (w := pte_of (pages k) pgdir (va / PGSIZE * PGSIZE)) in *.
    destruct (hw_addr_at (pages k) pgdir va w (p2v (PTE_ADDR w))) as [Hw0 Ha0];
      [unfold KERNBASE, PGSIZE in *; lia|done|done|done|].
    eexists _, _, _, _. split; [exact Hw0|]. split; [exact Ha0|]. split; [exact Hw|]. split; [exact Ha|].
    pose proof (Z.mod_pos_bound va PGSIZE ltac:(done)) as Hm. split_and!; [|done|].
    + rewrite (cp_data _ _ _ _ _ _ _ C _ f _ Hf) by done.
      assert (0 <= va / PGSIZE) by (apply Z.div_pos; unfold PGSIZE; lia). unfold frame. by rewrite Z2Nat.id by lia.
    + unfold PGROUNDDOWN. rewrite page_round_down. pose proof (pg_aligned _ _ Hpf) as Hal.
      apply Z.mod_divide in Hal as [i Ei]; [|done]. rewrite Ei, Z.div_add_l, (Z.div_small (va mod PGSIZE)) by done.
      rewrite Z.add_0_r, <- Ei. done.
  - intros va va' a Hva Hva' Ha Ha'.
    destruct (copied_frame k l pgdir n k' l' d fs va I C Hlen Hva) as (f & Hf & Hpf & _ & _ & _ & _ & E).
    destruct (copied_frame k l pgdir n k' l' d fs va' I C Hlen Hva') as (f' & Hf' & Hpf' & _ & _ & _ & _ & E').
    pose proof (Z.mod_pos_bound va PGSIZE ltac:(done)). pose proof (Z.mod_pos_bound va' PGSIZE ltac:(done)).
    assert (f + va mod PGSIZE = f' + va' mod PGSIZE) as Ef by congruence.
    assert (f = f') as <-.
    { destruct (decide (f = f')) as [|Hne]; [done|]. destruct (pages_apart end_ f f' Hpf Hpf' Hne); lia. }
    pose proof (NoDup_lookup _ _ _ _ (cp_nodup _ _ _ _ _ _ _ C) Hf Hf') as Ei.
    assert (0 <= va / PGSIZE) by (apply Z.div_pos; unfold PGSIZE; lia).
    assert (0 <= va' / PGSIZE) by (apply Z.div_pos; unfold PGSIZE; lia).
    pose proof (Z.div_mod va PGSIZE ltac:(done)) as D. pose proof (Z.div_mod va' PGSIZE ltac:(done)) as D'.
    assert (va / PGSIZE = va' / PGSIZE) as Eq by lia. rewrite Eq in D. lia.
  - intros va Hva. rewrite hw_walk_pte, (cp_rest _ _ _ _ _ _ _ C) by (rewrite Hlen; lia). done.
  - apply (cp_beside _ _ _ _ _ _ _ C).
Qed.

End spaces.

(** C13: [copyuvm], and so [fork], copies the memory of a process.  With a free
    page for every page, table and directory it returns a new address space in
    which every byte of the parent has its value at its address with its
    protection, in freshly allocated pages that no two addresses share; there
    are no other user pages; and no page that was in use has changed, so that
    the parent and every other process keep theirs. *)
Theorem copyuvm_copies end_ data_ k l pgdir sz n :
  data_ mod PGSIZE = 0 -> KERNLINK < data_ < KERNBASE + PHYSTOP ->
  image end_ k l pgdir n -> (n - 1) * PGSIZE < sz <= n * PGSIZE ->
  125 + 2 * n <= Z.of_nat (length l) ->
  exists d k', copyuvm end_ data_ pgdir sz k = Ok d k' /\ d <> 0 /\ copy_of end_ k l pgdir k' d n.
Proof.
  intros Hda Hdr I Hsz Hl. destruct (im_size _ _ _ _ _ I) as [Hn0 Hn].
  destruct (setupkvm_ok end_ data_ Hda Hdr k l) as (d & k1 & l1 & E1 & Hd & B & Hc & Hpte); [apply I|lia|].
  assert (copied end_ k l pgdir k1 l1 d []) as C0.
  { split; [done| | | | | |]; try (intros; set_solver).
    - by apply NoDup_nil.
    - intros va Hva. cbn in Hva. rewrite Hpte by (unfold KERNBASE in *; lia).
      by rewrite (kmap_user data_ Hda Hdr). }
  destruct (copy_loop end_ k l pgdir n I (Z.to_nat (sz / PGSIZE + 2)) k1 l1 d [] sz C0)
    as (k2 & l2 & fs & E2 & C2 & Hfs); [cbn; lia|done|cbn [length]; lia| |].
  { cbn [length]. assert (n - 1 <= sz / PGSIZE) by (apply Z.div_le_lower_bound; unfold PGSIZE in *; lia). lia. }
  exists d, k2. split; [|split; [done|by eapply copied_copy]].
  unfold copyuvm. rewrite (bind_run _ _ _ _ _ E1). assert ((d =? 0) = false) as -> by by apply Z.eqb_neq.
  cbn [length] in E2. change (Z.of_nat 0 * PGSIZE) with 0 in E2. by rewrite (bind_run _ _ _ _ _ E2).
Qed.

Lemma PGROUNDUP_page sz :
  0 <= sz -> sz + PGSIZE <= 4294967296 -> PGROUNDUP sz mod PGSIZE = 0 /\ sz <= PGROUNDUP sz < sz + PGSIZE.
Proof.
  intros H0 H1. rewrite PGROUNDUP_spec by lia. split; [apply Z_mod_mult|].
  pose proof (Z.div_mod (sz + PGSIZE - 1) PGSIZE ltac:(done)).
  pose proof (Z.mod_pos_bound (sz + PGSIZE - 1) PGSIZE ltac:(done)). unfold PGSIZE in *. lia.
Qed.

(** What the processor sees at a zeroed address. *)
Lemma zeroed_addr end_ l0 k l pgdir a b va :
  zeroed end_ l0 k l pgdir a b -> 0 <= a -> b <= KERNBASE -> a <= va < b ->
  exists w x, hw_walk (pages k) pgdir va = Some w /\ PTE_FLAGS w = 7 /\ hw_addr (pages k) pgdir va = Some x /\
    pages k x = 0 /\ PGROUNDDOWN x ∈ l0.
Proof.
  intros Hz Ha Hb Hva. destruct (ze_page _ _ _ _ _ _ _ Hz va Hva) as (f & Hf & Ho & H0 & Hp).
  pose proof (out_page _ _ _ _ _ Ho) as Hpf.
  destruct (page_entry end_ f 7 Hpf ltac:(unfold PGSIZE; lia)) as (_ & E1 & E2 & E3).
  destruct (hw_addr_at (pages k) pgdir va (v2p f .| 7) f) as [Hw Haddr].
  - unfold KERNBASE in *. lia.
  - rewrite <- Hp. apply pte_of_page; [..|by rewrite Z.div_mul by done].
    + pose proof (Z.div_mod va PGSIZE ltac:(done)). pose proof (Z.mod_pos_bound va PGSIZE ltac:(done)).
      unfold KERNBASE, PGSIZE in *. lia.
    + unfold KERNBASE in *. lia.
  - by rewrite E3.
  - done.
  - pose proof (Z.mod_pos_bound va PGSIZE ltac:(done)).
    eexists _, _. split_and!; [exact Hw|done|exact Haddr|apply H0; lia|].
    unfold PGROUNDDOWN. rewrite page_round_down. pose proof (pg_aligned _ _ Hpf) as Hal.
    apply Z.mod_divide in Hal as [i Ei]; [|done]. rewrite Ei, Z.div_add_l, (Z.div_small (va mod PGSIZE)) by done.
    rewrite Z.add_0_r, <- Ei. done.
Qed.

(** C31: [allocuvm] grows a process: with free pages for the new pages and
    their tables it returns the new size, and every new address reads as zero
    from a page that was free, writable and for the user; every mapping of
    another page, and every page in use, is as it was. *)
Theorem allocuvm_grows end_ k l pgdir oldsz newsz :
  space end_ k l pgdir -> 0 <= oldsz <= newsz -> newsz < KERNBASE ->
  (forall va, PGROUNDUP oldsz <= va < newsz -> pte_of (pages k) pgdir va = 0) ->
  2 * (newsz - oldsz + 2 * PGSIZE) <= Z.of_nat (length l) * PGSIZE ->
  exists k' l', allocuvm end_ pgdir oldsz newsz k = Ok newsz k' /\ extends end_ k l pgdir k' l' /\
    (forall va, PGROUNDUP oldsz <= va < newsz -> exists w x, hw_walk (pages k') pgdir va = Some w /\
      PTE_FLAGS w = 7 /\ hw_addr (pages k') pgdir va = Some x /\ pages k' x = 0 /\ PGROUNDDOWN x ∈ l) /\
    (forall va, is_u32 va -> ~ PGROUNDUP oldsz / PGSIZE <= va / PGSIZE <= (newsz - 1) / PGSIZE ->
      hw_walk (pages k') pgdir va = hw_walk (pages k) pgdir va).
Proof.
  intros Sp Hsz Hk Hz Hl. destruct (PGROUNDUP_page oldsz) as [Ha Hr]; [lia|unfold KERNBASE, PGSIZE in *; lia|].
  set (a := PGROUNDUP oldsz) in *.
  destruct (alloc_loop end_ l a oldsz newsz (Z.to_nat ((newsz - a) / PGSIZE + 2)) a k l pgdir)
    as (k' & l' & E & Hex & Hzd & Hpte).
  - done.
  - by exists [].
  - split. intros va Hva. lia.
  - done.
  - unfold PGSIZE in *. lia.
  - done.
  - lia.
  - intros va _ Hva. by apply Hz.
  - unfold PGSIZE in *. lia.
  - pose proof (Z.div_mod (newsz - a) PGSIZE ltac:(done)). pose proof (Z.mod_pos_bound (newsz - a) PGSIZE ltac:(done)).
    unfold PGSIZE in *. lia.
  - assert (-1 <= (newsz - a) / PGSIZE) by (apply Z.div_le_lower_bound; unfold PGSIZE in *; lia). lia.
  - exists k', l'. split_and!; [|done| |].
    + unfold allocuvm. assert ((KERNBASE <=? newsz) = false) as -> by (apply Z.leb_gt; lia).
      assert ((newsz <? oldsz) = false) as -> by (apply Z.ltb_ge; lia). exact E.
    + intros va Hva. apply (zeroed_addr end_ l k' l' pgdir a newsz); try done; lia.
    + intros va Hva Hn. rewrite !hw_walk_pte. by rewrite Hpte.
Qed.

(** [allocuvm] ignores that [mappages] fails: with one free page left and no
    table for the new page it takes the page, returns the new size as if it had
    succeeded, and the new address is not mapped. *)
Theorem allocuvm_lost_page end_ k v pgdir oldsz newsz :
  space end_ k [v] pgdir -> 0 <= oldsz -> PGROUNDUP oldsz < newsz <= PGROUNDUP oldsz + PGSIZE -> newsz < KERNBASE ->
  oldsz + PGSIZE < 4294967296 ->
  tab (pages k) pgdir (PDX (PGROUNDUP oldsz)) = None ->
  exists k', allocuvm end_ pgdir oldsz newsz k = Ok newsz k' /\ kmem_rep end_ k' [] /\
    hw_walk (pages k') pgdir (PGROUNDUP oldsz) = None.
Proof.
  intros Sp H0 Hn Hk Hold Ht. destruct (PGROUNDUP_page oldsz) as [Ha Hr]; [lia|unfold KERNBASE, PGSIZE in *; lia|].
  set (a := PGROUNDUP oldsz) in *.
  destruct (kalloc_spec end_ k [v] (sp_rep _ _ _ _ Sp)) as (Ek & Hv0 & _).
  set (m1 := memset v 0 PGSIZE (pages k)).
  destruct (take_extends end_ k v [] pgdir m1 Sp) as (Hex & _ & Hpte).
  { intros x Hx. unfold m1. rewrite memset_spec by done. by rewrite decide_False. }
  set (k1 := KMem (use_lock k) (load_long v (pages k)) m1) in *.
  assert (tab (pages k1) pgdir (PDX a) = None) as Ht1.
  { destruct (tab (pages k1) pgdir (PDX a)) as [t|] eqn:E; [|done]. exfalso.
    unfold tab in Ht, E. cbn [pages k1] in E. rewrite (load_long_ext _ m1 (pages k)) in E.
    - by destruct (present _).
    - intros x Hx. unfold m1. rewrite memset_spec by done. rewrite decide_False; [done|].
      pose proof (PDX_range a). destruct Sp as [[_ Hp _] Hd Hu _ _]. apply Forall_cons in Hp as [Hv _].
      apply not_elem_of_cons in Hu as [Hu _].
      destruct (pages_apart end_ v pgdir Hv Hd); [congruence|..]; unfold PGSIZE in *; lia. }
  assert (mappages_loop (Z.to_nat 1) pgdir a (v2p v) (PTE_W .| PTE_U) k1 = Ok (-1) k1) as Emap.
  { change (Z.to_nat 1) with 1%nat. cbn [mappages_loop].
    by rewrite (bind_run _ _ _ _ _ (walk_alloc end_ k1 [] pgdir a (sp_rep _ _ _ _ (ex_space _ _ _ _ _ _ Hex)) Ht1)). }
  exists k1. split_and!; [|apply Hex|].
  - unfold allocuvm. assert ((KERNBASE <=? newsz) = false) as -> by (apply Z.leb_gt; lia).
    assert ((newsz <? oldsz) = false) as -> by (apply Z.ltb_ge; lia). fold a.
    assert (1 <= (newsz - a) / PGSIZE + 2) as Hf.
    { assert (0 <= (newsz - a) / PGSIZE) by (apply Z.div_pos; unfold PGSIZE; lia). lia. }
    destruct (Z.to_nat ((newsz - a) / PGSIZE + 2)) as [|fuel] eqn:Ef; [lia|].
    assert (0 < fuel)%nat as Hf0.
    { assert (0 <= (newsz - a) / PGSIZE) by (apply Z.div_pos; unfold PGSIZE; lia). lia. }
    cbn [allocuvm_loop]. assert ((a <? newsz) = true) as -> by (apply Z.ltb_lt; lia).
    rewrite (bind_run _ _ _ _ _ Ek). assert ((v =? 0) = false) as -> by by apply Z.eqb_neq.
    erewrite bind_run by reflexivity. change (KMem _ _ _) with k1.
    pose proof (mappages_pages pgdir a 1 (v2p v) (PTE_W .| PTE_U) Ha) as Emp. rewrite Z.mul_1_l in Emp.
    rewrite Emp by (unfold KERNBASE, PGSIZE in *; lia). rewrite (bind_run _ _ _ _ _ Emap).
    destruct fuel as [|fuel]; [lia|]. cbn [allocuvm_loop]. rewrite u32_small by (unfold KERNBASE, PGSIZE in *; lia).
    assert ((a + PGSIZE <? newsz) = false) as -> by (apply Z.ltb_ge; lia). done.
  - rewrite hw_walk_pte. unfold pte_of. by rewrite Ht1.
Qed.

(** ** An example *)

(** A memory in which the pages [l] are linked into a free list. *)
Fixpoint link (l : list Z) : mem :=
  match l with
  | [] => fun _ => 0
  | v :: l => store_long v (hd 0 l) (link l)
  end.

Lemma link_out l x : (forall v, v ∈ l -> ~ v <= x < v + 4) -> link l x = 0.
Proof.
  induction l as [|v l IH]; intros H; cbn [link]; [done|].
  rewrite store_long_ne by (apply H; left). apply IH. intros w Hw. apply H. by right.
Qed.

Lemma link_ok end_ l : Forall (page_ok end_) l -> NoDup l -> free_list (link l) (hd 0 l) l.
Proof.
  induction l as [|v l IH]; intros Hp Hn; [done|]. apply Forall_cons in Hp as [Hv Hp].
  apply NoDup_cons in Hn as [Hn Hnd]. cbn [hd link free_list]. split; [done|].
  rewrite load_store_long.
  - eapply free_list_ext; [|by apply IH]. intros w x Hw Hx. symmetry. apply store_long_ne.
    rewrite Forall_forall in Hp. destruct (pages_apart end_ v w Hv (Hp _ Hw)); [congruence|..]; unfold PGSIZE in *; lia.
  - destruct l as [|w l]; cbn; [lia|]. apply Forall_cons in Hp as [Hw _]. by apply (page_ok_range end_).
Qed.

(** A process of one page: directory, table and page, before 130 free pages. *)
Definition demo_dir : Z := 2151677952.
Definition demo_tab : Z := demo_dir + PGSIZE.
Definition demo_page : Z := demo_dir + 2 * PGSIZE.
Definition demo_free : list Z := page_seq (demo_dir + 3 * PGSIZE) 130.
Definition demo_mem : kmem := KMem 1 (hd 0 demo_free)
  (store_long demo_dir (v2p demo_tab .| 7) (store_long demo_tab (v2p demo_page .| 7) (link demo_free))).

Lemma demo_page_ok i : 0 <= i < 1000 -> page_ok KERNBASE (demo_dir + i * PGSIZE).
Proof.
  intros Hi. split.
  - change demo_dir with (525312 * PGSIZE). rewrite <- Z.mul_add_distr_r. apply Z_mod_mult.
  - unfold demo_dir, KERNBASE, PGSIZE. lia.
  - unfold demo_dir, KERNBASE, PHYSTOP, PGSIZE. lia.
Qed.

Lemma demo_free_in v : v ∈ demo_free -> exists i, 3 <= i < 133 /\ v = demo_dir + i * PGSIZE.
Proof. intros Hv. apply elem_of_page_seq in Hv as (i & Hi & ->). exists (i + 3). lia. Qed.

Lemma demo_rep : kmem_rep KERNBASE demo_mem demo_free.
Proof.
  assert (Forall (page_ok KERNBASE) demo_free) as Hp.
  { apply Forall_forall. intros v Hv. apply demo_free_in in Hv as (i & Hi & ->). apply demo_page_ok. lia. }
  assert (NoDup demo_free) as Hn.
  { apply NoDup_fmap_2_strong; [intros; unfold PGSIZE in *; lia|apply NoDup_seq]. }
  split; [|done|done]. cbn [demo_mem pages freelist]. eapply free_list_ext; [|by apply (link_ok KERNBASE)].
  intros v x Hv Hx. apply demo_free_in in Hv as (i & Hi & ->).
  rewrite !store_long_ne; [done|..]; unfold demo_tab, demo_dir, PGSIZE in *; lia.
Qed.

Lemma demo_tabs d : 0 <= d < 1024 ->
  tab (pages demo_mem) demo_dir d = if decide (d = 0) then Some demo_tab else None.
Proof.
  intros Hd. case_decide as E.
  - subst d. unfold tab. cbn [pages demo_mem]. change (demo_dir + 4 * 0) with demo_dir.
    rewrite load_store_long by (vm_compute; split; discriminate || done). vm_compute. reflexivity.
  - unfold tab. rewrite load_zero; [done|]. intros x Hx. cbn [pages demo_mem].
    rewrite !store_long_ne by (unfold demo_tab, demo_dir, PGSIZE in *; lia).
    apply link_out. intros v Hv. apply demo_free_in in Hv as (i & Hi & ->). unfold demo_dir, PGSIZE in *. lia.
Qed.

Lemma demo_image : image KERNBASE demo_mem demo_free demo_dir 1.
Proof.
  assert (forall i, 0 <= i < 3 -> demo_dir + i * PGSIZE ∉ demo_free) as Hnot.
  { intros i Hi Hv. apply demo_free_in in Hv as (j & Hj & E). unfold PGSIZE in *. lia. }
  assert (pte_of (pages demo_mem) demo_dir (0 * PGSIZE) = v2p demo_page .| 7) as Ep.
  { unfold pte_of. rewrite demo_tabs by apply PDX_range. change (PDX (0 * PGSIZE)) with 0. rewrite decide_True by done.
    change (PTX (0 * PGSIZE)) with 0. change (demo_tab + 4 * 0) with demo_tab. cbn [pages demo_mem].
    rewrite (load_long_ext _ _ (store_long demo_tab (v2p demo_page .| 7) (link demo_free))).
    - apply load_store_long. vm_compute. split; discriminate || done.
    - intros x Hx. apply store_long_ne. unfold demo_tab, demo_dir, PGSIZE in *. lia. }
  split.
  - split; [apply demo_rep| | | |].
    + exact (demo_page_ok 0 ltac:(lia)).
    + exact (Hnot 0 ltac:(lia)).
    + intros d t Hd. rewrite demo_tabs by done. case_decide; [|done]. intros [= <-].
      split_and!; [exact (demo_page_ok 1 ltac:(lia))|exact (Hnot 1 ltac:(lia))|done].
    + intros d d' t Hd Hd'. rewrite !demo_tabs by done. repeat case_decide; congruence.
  - unfold PGSIZE, KERNBASE. lia.
  - intros i Hi. assert (i = 0) as -> by lia. rewrite Ep. reflexivity.
  - intros i Hi. assert (i = 0) as -> by lia. rewrite Ep.
    change (p2v (PTE_ADDR (v2p demo_page .| 7))) with demo_page.
    split; [exact (demo_page_ok 2 ltac:(lia))|exact (Hnot 2 ltac:(lia))].
Qed.

Lemma copyuvm_copies_witness :
  exists d k', copyuvm KERNBASE 2149580800 demo_dir 4096 demo_mem = Ok d k' /\ d <> 0 /\
    copy_of KERNBASE demo_mem demo_free demo_dir k' d 1.
Proof.
  apply (copyuvm_copies KERNBASE 2149580800 demo_mem demo_free demo_dir 4096 1).
  - reflexivity.
  - unfold KERNLINK, EXTMEM, KERNBASE, PHYSTOP. lia.
  - exact demo_image.
  - unfold PGSIZE. lia.
  - vm_compute. discriminate.
Defined.

Lemma demo_rest va : 4096 <= va < 4194304 -> pte_of (pages demo_mem) demo_dir va = 0.
Proof.
  intros Hva. unfold pte_of. rewrite demo_tabs by apply PDX_range. case_decide; [|done].
  pose proof (PTX_range va) as Hr. assert (PTX va <> 0) as Hne.
  { rewrite PTX_div. rewrite Z.mod_small; [|split; [apply Z.div_pos; unfold PGSIZE; lia|]].
    - assert (1 <= va / PGSIZE) by (apply Z.div_le_lower_bound; unfold PGSIZE; lia). lia.
    - apply Z.div_lt_upper_bound; unfold PGSIZE; lia. }
  apply load_zero. intros x Hx. cbn [pages demo_mem].
  rewrite !store_long_ne by (unfold demo_tab, demo_dir, PGSIZE in *; lia).
  apply link_out. intros v Hv. apply demo_free_in in Hv as (i & Hi & ->). unfold demo_tab, demo_dir, PGSIZE in *. lia.
Qed.

Lemma allocuvm_grows_witness :
  exists k' l', allocuvm KERNBASE demo_dir 4096 12345 demo_mem = Ok 12345 k' /\
    extends KERNBASE demo_mem demo_free demo_dir k' l'.
Proof.
  destruct (allocuvm_grows KERNBASE demo_mem demo_free demo_dir 4096 12345) as (k' & l' & E & Hex & _).
  - exact (im_space _ _ _ _ _ demo_image).
  - lia.
  - unfold KERNBASE. lia.
  - change (PGROUNDUP 4096) with 4096. intros va Hva. apply demo_rest. lia.
  - vm_compute. discriminate.
  - exists k', l'. exact (conj E Hex).
Defined.

(** An empty directory and one free page. *)
Definition bare_mem : kmem := KMem 1 demo_tab (fun _ => 0).

Lemma bare_tab d : tab (pages bare_mem) demo_dir d = None.
Proof. reflexivity. Qed.

Lemma bare_space : space KERNBASE bare_mem [demo_tab] demo_dir.
Proof.
  split; [split| | | |].
  - split; [done|]. reflexivity.
  - apply Forall_singleton. exact (demo_page_ok 1 ltac:(lia)).
  - apply NoDup_singleton.
  - exact (demo_page_ok 0 ltac:(lia)).
  - intros H. apply list_elem_of_singleton in H. done.
  - intros d t _. by rewrite bare_tab.
  - intros d d' t _ _. by rewrite bare_tab.
Qed.

Lemma allocuvm_lost_page_witness :
  exists k', allocuvm KERNBASE demo_dir 0 4096 bare_mem = Ok 4096 k' /\ kmem_rep KERNBASE k' [] /\
    hw_walk (pages k') demo_dir 0 = None.
Proof.
  apply (allocuvm_lost_page KERNBASE bare_mem demo_tab demo_dir 0 4096).
  - exact bare_space.
  - lia.
  - vm_compute. split; [reflexivity|discriminate].
  - unfold KERNBASE. lia.
  - unfold PGSIZE. lia.
  - apply bare_tab.
Defined.

(** ** Descriptors *)

Lemma base_fields b : is_u32 b ->
  b .& 65535 + (((b >> 16) .& 255) << 16) + ((b >> 24) << 24) = b.
Proof.
  intros Hb. change 65535 with (Z.ones 16). change 255 with (Z.ones 8).
  rewrite !Z.land_ones, !Z.shiftl_mul_pow2, !Z.shiftr_div_pow2 by lia.
  change (2 ^ 16) with 65536. change (2 ^ 8) with 256. change (2 ^ 24) with 16777216.
  Z.to_euclidean_division_equations. lia.
Qed.

(** The processor reads from a descriptor what was put into it: the base, the
    limit, up to the end of its page for [SEG], and the handler of a gate. *)
Theorem descriptors_decode type base lim dpl istrap sel off :
  is_u32 base -> is_u32 lim -> is_u32 off ->
  seg_base (SEG type base lim dpl) = base /\
  seg_limit (SEG type base lim dpl) = 4096 * (lim / 4096) + 4095 /\
  (lim < 1048576 -> seg_base (SEG16 type base lim dpl) = base /\ seg_limit (SEG16 type base lim dpl) = lim) /\
  gate_offset (SETGATE istrap sel off dpl) = off.
Proof.
  intros Hb Hl Ho. split_and!; [apply (base_fields base Hb)| |intros Hl'; split; [apply (base_fields base Hb)|]|];
    unfold seg_limit, gate_offset; cbn [SEG SEG16 SETGATE lim_15_0 lim_19_16 sd_g off_15_0 off_31_16 ctrue];
    change (ctrue 1) with true; change (ctrue 0) with false; cbv iota;
    change 65535 with (Z.ones 16); change 15 with (Z.ones 4);
    rewrite ?Z.land_ones, ?Z.shiftl_mul_pow2, ?Z.shiftr_div_pow2 by lia;
    change (2 ^ 16) with 65536; change (2 ^ 12) with 4096; change (2 ^ 4) with 16;
    try change (2 ^ 28) with 268435456; Z.to_euclidean_division_equations; lia.
Qed.

(** After [switchuvm] the task register finds the task state, which gives the
    processor the kernel stack of the process for the next trap. *)
Theorem load_tss_ok ts kstack gdt m :
  is_u32 ts -> length gdt = Z.to_nat NSEGS ->
  let '(gdt', m') := load_tss ts kstack gdt m in
  (exists d, gdt' !! Z.to_nat SEG_TSS = Some d /\ seg_base d = ts /\ seg_limit d = sizeof_taskstate - 1 /\
    sd_s d = 0 /\ sd_p d = 1) /\
  (forall i, i <> Z.to_nat SEG_TSS -> gdt' !! i = gdt !! i) /\
  load_long (ts + 4) m' = u32 (kstack + KSTACKSIZE) /\ m' (ts + 8) = SEG_KDATA << 3 /\
  forall x, x < ts + 4 \/ ts + 10 <= x -> m' x = m x.
Proof.
  intros Ht Hg. cbv beta iota zeta delta [load_tss]. split_and!.
  - eexists. split; [apply list_lookup_insert_eq; rewrite Hg; vm_compute; lia|].
    split; [exact (base_fields ts Ht)|]. vm_compute. done.
  - intros i Hi. by apply list_lookup_insert_ne.
  - apply load_store_long, u32_range.
  - rewrite store_long_ne by lia. rewrite fn_lookup_insert_ne, fn_lookup_insert by lia. done.
  - intros x Hx. rewrite store_long_ne by lia. by rewrite !fn_lookup_insert_ne by lia.
Qed.
