(* ===== verification/VmFree.v ===== *)
(** Theorems about vm.c: what is given back.

    [uspace] says that an address space owns its pages: the tables and the user
    pages are distinct pages of the allocator that are not free.  [freevm] then
    returns every one of them to the free list, once, and touches no other
    page. *)

From stdpp Require Import prelude strings functions gmap list.
From S2P Require Import Prelude Param CString Kalloc Vm VmThms.

(** The page an entry maps, where the kernel sees it. *)
Definition pframe (w : Z) : Z := p2v (PTE_ADDR w).

Section free.
Context (end_ : Z).

(** A user page of the address space, at [va]. *)
Definition upage (k : kmem) (pgdir va v : Z) : Prop :=
  0 <= va < KERNBASE /\ present (pte_of (pages k) pgdir va) = true /\ v = pframe (pte_of (pages k) pgdir va).

Record uspace (k : kmem) (l : list Z) (pgdir : Z) : Prop := {
  us_space : space end_ k l pgdir;
  us_out va v : upage k pgdir va v -> outside end_ k l pgdir v;
  us_low va v : upage k pgdir va v -> v <> KERNBASE;   (* physical address 0 *)
  us_inj va va' v : upage k pgdir va v -> upage k pgdir va' v -> va / PGSIZE = va' / PGSIZE
}.

(** *** Freeing a page outside the tables *)

Section kfree_out.
Context (k : kmem) (l : list Z) (pgdir v : Z).
Context (S : space end_ k l pgdir) (O : outside end_ k l pgdir v).

Lemma kfree_out :
  exists k', kfree end_ v k = Ok tt k' /\ space end_ k' (v :: l) pgdir /\ use_lock k' = use_lock k /\
    (forall x, ~ in_page v x -> pages k' x = pages k x) /\
    (forall d, 0 <= d < 1024 -> tab (pages k') pgdir d = tab (pages k) pgdir d) /\
    (forall va, pte_of (pages k') pgdir va = pte_of (pages k) pgdir va).
Proof.
  destruct O as [Hv Hl Hd Ht]. destruct (kfree_spec end_ v k l) as (k' & E & R & U & Hout & _);
    [apply S|done|done|].
  assert (forall d, 0 <= d < 1024 -> tab (pages k') pgdir d = tab (pages k) pgdir d) as Htab.
  { intros d Hr. unfold tab. rewrite (load_apart end_ v pgdir _ (pages k) (pages k')); try done;
      [apply S|lia|unfold PGSIZE; lia]. }
  exists k'. split_and!; try done.
  - split; [done|apply S| | |].
    + apply not_elem_of_cons. split; [done|apply S].
    + intros d t Hr. rewrite Htab by done. intros E1. destruct (sp_tab _ _ _ _ S d t Hr E1) as (H1 & H2 & H3).
      split_and!; [done| |done]. apply not_elem_of_cons. split; [|done]. intros ->. by apply (Ht d).
    + intros d d' t Hr Hr'. rewrite !Htab by done. by apply (sp_inj _ _ _ _ S).
  - intros va. unfold pte_of. rewrite Htab by apply PDX_range. pose proof (PTX_range va).
    destruct (tab (pages k) pgdir (PDX va)) as [t|] eqn:Et; [|done].
    destruct (sp_tab _ _ _ _ S _ t (PDX_range va) Et) as (H1 & H2 & H3).
    apply (load_apart end_ v t); try done; [|lia|unfold PGSIZE; lia].
    intros ->. by apply (Ht (PDX va) (PDX_range va)).
Qed.
End kfree_out.

(** What is outside stays there, but for the page that was freed. *)
Lemma outside_freed k l pgdir k' v w :
  outside end_ k l pgdir w -> w <> v ->
  (forall d, 0 <= d < 1024 -> tab (pages k') pgdir d = tab (pages k) pgdir d) ->
  outside end_ k' (v :: l) pgdir w.
Proof.
  intros [H1 H2 H3 H4] Hne Ht. split; [done|by apply not_elem_of_cons|done|].
  intros d Hd. rewrite Ht by done. by apply H4.
Qed.

(** A page that is not one of the user pages is freed. *)
Lemma uspace_kfree k l pgdir v :
  uspace k l pgdir -> outside end_ k l pgdir v -> (forall va, ~ upage k pgdir va v) ->
  exists k', kfree end_ v k = Ok tt k' /\ uspace k' (v :: l) pgdir /\ use_lock k' = use_lock k /\
    (forall x, ~ in_page v x -> pages k' x = pages k x) /\
    (forall d, 0 <= d < 1024 -> tab (pages k') pgdir d = tab (pages k) pgdir d) /\
    (forall va w, upage k' pgdir va w <-> upage k pgdir va w).
Proof.
  intros U O Hn. destruct (kfree_out k l pgdir v (us_space _ _ _ U) O) as (k' & E & S & Eu & Ho & Ht & Hp).
  assert (forall va w, upage k' pgdir va w <-> upage k pgdir va w) as Hu.
  { intros va w. unfold upage. by rewrite Hp. }
  exists k'. split_and!; try done. split; [done| | |].
  - intros va w Hw%Hu. eapply outside_freed; [by eapply (us_out _ _ _ U)| |done].
    intros ->. by apply (Hn va).
  - intros va w Hw%Hu. by eapply (us_low _ _ _ U).
  - intros va va' w H1%Hu H2%Hu. by eapply (us_inj _ _ _ U).
Qed.

(** *** deallocuvm *)

(** One user page is freed and its entry cleared. *)
Lemma free_page k l pgdir a t :
  uspace k l pgdir -> a mod PGSIZE = 0 -> 0 <= a < KERNBASE -> tab (pages k) pgdir (PDX a) = Some t ->
  present (pte_of (pages k) pgdir a) = true ->
  let v := pframe (pte_of (pages k) pgdir a) in
  exists k1 k', kfree end_ v k = Ok tt k1 /\ sw (t + 4 * PTX a) 0 k1 = Ok tt k' /\
    uspace k' (v :: l) pgdir /\ use_lock k' = use_lock k /\
    (forall d, 0 <= d < 1024 -> tab (pages k') pgdir d = tab (pages k) pgdir d) /\
    (forall va, is_u32 va -> pte_of (pages k') pgdir va =
      if decide (va / PGSIZE = a / PGSIZE) then 0 else pte_of (pages k) pgdir va) /\
    (forall w x, page_ok end_ w -> w <> v -> w <> t -> in_page w x -> pages k' x = pages k x).
Proof.
  intros U Ha Hr Ht Hp v.
  assert (upage k pgdir a v) as Hv by done.
  pose proof (us_out _ _ _ U a v Hv) as O.
  destruct (kfree_out k l pgdir v (us_space _ _ _ U) O) as (k1 & E & S & Eu & Ho & Htab & Hpte).
  assert (tab (pages k1) pgdir (PDX a) = Some t) as Ht1 by (by rewrite Htab by apply PDX_range).
  set (k' := KMem (use_lock k1) (freelist k1) (store_long (t + 4 * PTX a) 0 (pages k1))).
  assert (is_u32 a) as Ha32 by (unfold KERNBASE in *; lia).
  assert (forall d, 0 <= d < 1024 -> tab (pages k') pgdir d = tab (pages k) pgdir d) as Htab'.
  { intros d Hd. unfold k'. rewrite (se_tab end_ k1 (v :: l) pgdir a t 0 S Ht1) by done. by apply Htab. }
  assert (forall va, is_u32 va -> pte_of (pages k') pgdir va =
      if decide (va / PGSIZE = a / PGSIZE) then 0 else pte_of (pages k) pgdir va) as Hpte'.
  { intros va Hva. unfold k'. rewrite (se_pte end_ k1 (v :: l) pgdir a t 0 S Ht1) by done.
    by rewrite Hpte. }
  assert (forall va w, upage k' pgdir va w -> upage k pgdir va w /\ va / PGSIZE <> a / PGSIZE) as Hup.
  { intros va w (H1 & H2 & ->). rewrite Hpte' in H2 |- * by (unfold KERNBASE in *; lia).
    case_decide; [done|]. split; [|done]. by split. }
  exists k1, k'. split_and!; try done.
  - split; [by apply (se_space end_ k1 (v :: l) pgdir a t 0 S Ht1)| | |].
    + intros va w [Hw Hne]%Hup. eapply outside_freed; [by eapply (us_out _ _ _ U)| |done].
      intros ->. apply Hne. by eapply (us_inj _ _ _ U).
    + intros va w [Hw _]%Hup. by eapply (us_low _ _ _ U).
    + intros va va' w [H1 _]%Hup [H2 _]%Hup. by eapply (us_inj _ _ _ U).
  - intros w x Hw Hwv Hwt Hx.
    destruct (sp_tab _ _ _ _ S _ t (PDX_range a) Ht1) as (Hpt & _ & _). pose proof (PTX_range a).
    unfold k'. cbn. rewrite store_long_ne.
    + apply Ho. destruct (pages_apart end_ v w); [apply O|done|congruence|..]; unfold PGSIZE in *; lia.
    + destruct (pages_apart end_ t w Hpt Hw); [congruence|..]; unfold PGSIZE in *; lia.
Qed.

(** The user pages from [a] up to [oldsz] are given back. *)
Record dealloced (k : kmem) (l : list Z) (pgdir a oldsz : Z) (k' : kmem) (l' : list Z) : Prop := {
  da_space : uspace k' l' pgdir;
  da_lock : use_lock k' = use_lock k;
  da_tab d : 0 <= d < 1024 -> tab (pages k') pgdir d = tab (pages k) pgdir d;
  da_free v : v ∈ l' <-> v ∈ l \/ exists va, a <= va < oldsz /\ upage k pgdir va v;
  da_same w x : page_ok end_ w -> w ∉ l' -> (forall d, 0 <= d < 1024 -> tab (pages k) pgdir d <> Some w) ->
    in_page w x -> pages k' x = pages k x
}.

Lemma dealloced_refl k l pgdir a oldsz :
  uspace k l pgdir -> (forall va v, a <= va < oldsz -> ~ upage k pgdir va v) ->
  dealloced k l pgdir a oldsz k l.
Proof. intros U Hn. split; try done. intros v. naive_solver. Qed.

(** Addresses before [b] have no page. *)
Lemma dealloced_skip k l pgdir a b oldsz k' l' :
  a <= b -> (forall va v, a <= va < b -> ~ upage k pgdir va v) ->
  dealloced k l pgdir b oldsz k' l' -> dealloced k l pgdir a oldsz k' l'.
Proof.
  intros Hab Hn [D1 D2 D3 D4 D5]. split; try done. intros v. rewrite D4. split.
  - intros [?|(va & ? & ?)]; [by left|]. right. exists va. split; [lia|done].
  - intros [?|(va & ? & Hu)]; [by left|]. right. exists va. split; [|done].
    destruct (decide (va < b)); [|lia]. exfalso. apply (Hn va v); [lia|done].
Qed.

Lemma in_page_of a va : a mod PGSIZE = 0 -> va / PGSIZE = a / PGSIZE <-> a <= va < a + PGSIZE.
Proof.
  intros Ha. apply Z.mod_divide in Ha as [i ->]; [|done]. rewrite Z.div_mul by done.
  pose proof (Z.div_mod va PGSIZE ltac:(done)). pose proof (Z.mod_pos_bound va PGSIZE ltac:(done)).
  unfold PGSIZE in *. split; [lia|]. intros. lia.
Qed.

(** A page is freed, then the rest. *)
Lemma dealloced_step k l pgdir a oldsz t k1 k2 k' l' :
  uspace k l pgdir -> a mod PGSIZE = 0 -> 0 <= a < oldsz -> oldsz mod PGSIZE = 0 -> oldsz <= KERNBASE ->
  tab (pages k) pgdir (PDX a) = Some t -> present (pte_of (pages k) pgdir a) = true ->
  let v := pframe (pte_of (pages k) pgdir a) in
  kfree end_ v k = Ok tt k1 -> sw (t + 4 * PTX a) 0 k1 = Ok tt k2 ->
  dealloced k2 (v :: l) pgdir (a + PGSIZE) oldsz k' l' -> dealloced k l pgdir a oldsz k' l'.
Proof.
  intros U Ha Hr Ho Hk Ht Hp v E1 E2 [D1 D2 D3 D4 D5].
  destruct (free_page k l pgdir a t U Ha ltac:(lia) Ht Hp) as (k1' & k2' & E1' & E2' & U2 & L2 & T2 & P2 & M2).
  fold v in E1', U2, M2. rewrite E1 in E1'. injection E1' as <-. rewrite E2 in E2'. injection E2' as <-.
  assert (forall va w, 0 <= va < KERNBASE -> va / PGSIZE <> a / PGSIZE ->
    upage k2 pgdir va w <-> upage k pgdir va w) as Hu.
  { intros va w Hva Hne. unfold upage. rewrite P2 by (unfold KERNBASE in *; lia). by rewrite decide_False. }
  assert (forall va w, va / PGSIZE = a / PGSIZE -> upage k pgdir va w -> w = v) as Hsame.
  { intros va w Hva (Hr' & _ & ->). unfold v. f_equal.
    apply pte_of_page; unfold KERNBASE in *; lia || done. }
  split; [done|congruence| | |].
  - intros d Hd. rewrite D3 by done. by apply T2.
  - intros w. rewrite D4, elem_of_cons. split.
    + intros [[->|?]|(va & Hva & Hw)]; [|by left|].
      * right. exists a. split; [lia|]. split; [lia|done].
      * right. exists va. split; [unfold PGSIZE in *; lia|]. apply Hu in Hw; [done|..].
        { unfold PGSIZE in *. lia. }
        apply page_step; [done|lia].
    + intros [?|(va & Hva & Hw)]; [by left; right|].
      destruct (decide (va / PGSIZE = a / PGSIZE)) as [E|E]; [left; left; by eapply Hsame|].
      right. exists va. pose proof E as E'. rewrite in_page_of in E' by done.
      split; [lia|]. apply Hu; [lia|done|done].
  - intros w x Hw Hl Hnt Hx. rewrite (D5 w x Hw Hl) by (try done; intros d Hd; rewrite T2 by done; auto).
    apply (M2 w); [done| | |done].
    + intros ->. apply Hl. rewrite D4. left. left.
    + intros ->. by apply (Hnt (PDX a) (PDX_range a)).
Qed.

Lemma same_dir a va :
  is_u32 a -> is_u32 va -> a mod 4194304 = 0 -> a <= va < a + 4194304 -> PDX va = PDX a.
Proof.
  intros H1 H2 Ha Hva. rewrite !PDX_div by done. apply Z.mod_divide in Ha as [i ->]; [|done].
  rewrite Z.div_mul by done. symmetry. apply (Z.div_unique _ _ _ (va - i * 4194304)); lia.
Qed.

Lemma next_dir a :
  is_u32 (a + PGSIZE) -> 0 <= a -> a mod PGSIZE = 0 ->
  (a + PGSIZE) mod 4194304 = 0 \/ PDX (a + PGSIZE) = PDX a.
Proof.
  intros H1 H0 Ha. rewrite !PDX_div by (unfold PGSIZE in *; lia).
  apply Z.mod_divide in Ha as [i ->]; [|done]. unfold PGSIZE in *.
  pose proof (Z.div_mod (i * 4096) 4194304 ltac:(lia)).
  pose proof (Z.mod_pos_bound (i * 4096) 4194304 ltac:(lia)).
  set (q := i * 4096 / 4194304) in *. set (r := (i * 4096) mod 4194304) in *.
  destruct (decide (r = 4190208)) as [E|E].
  - left. replace (i * 4096 + 4096) with ((q + 1) * 4194304) by lia. by rewrite Z_mod_mult.
  - right. symmetry. apply (Z.div_unique _ _ _ (r + 4096)); lia.
Qed.

Lemma dealloc_loop_ok fuel pgdir a oldsz k l :
  uspace k l pgdir -> a mod PGSIZE = 0 -> 0 <= a <= KERNBASE + 4194304 ->
  oldsz mod PGSIZE = 0 -> oldsz <= KERNBASE -> oldsz - a <= (Z.of_nat fuel - 1) * PGSIZE -> (0 < fuel)%nat ->
  a mod 4194304 = 0 \/ is_Some (tab (pages k) pgdir (PDX a)) ->
  exists k' l', deallocuvm_loop end_ fuel pgdir a oldsz k = Ok tt k' /\
    dealloced k l pgdir a oldsz k' l'.
Proof.
  revert a k l. induction fuel as [|fuel IH]; intros a k l U Ha Hr Ho Hk Hf H0 Hd; [lia|].
  cbn [deallocuvm_loop]. destruct (Z.ltb_spec a oldsz) as [Hlt|Hge]; cycle 1.
  { exists k, l. split; [done|]. apply dealloced_refl; [done|]. lia. }
  assert (is_u32 a) as Ha32 by (unfold KERNBASE in *; lia).
  assert ((0 < fuel)%nat) as Hfuel.
  { destruct fuel; [|lia]. unfold PGSIZE in *. lia. }
  destruct (tab (pages k) pgdir (PDX a)) as [t|] eqn:Et.
  - rewrite (bind_run _ _ _ _ _ (walk_present k pgdir a false t Et)).
    assert (u32 (a + PGSIZE) = a + PGSIZE) as -> by (apply u32_small; unfold KERNBASE, PGSIZE in *; lia).
    assert (load_long (t + 4 * PTX a) (pages k) = pte_of (pages k) pgdir a) as Ew
      by (unfold pte_of; by rewrite Et).
    rewrite (bind_run (lw (t + 4 * PTX a)) _ k _ k eq_refl). rewrite Ew.
    assert ((a + PGSIZE) mod 4194304 = 0 \/ PDX (a + PGSIZE) = PDX a) as Hnext
      by (apply next_dir; unfold KERNBASE, PGSIZE in *; lia || done).
    change (ctrue (pte_of (pages k) pgdir a .& PTE_P)) with (present (pte_of (pages k) pgdir a)).
    destruct (present (pte_of (pages k) pgdir a)) eqn:Hp.
    + destruct (free_page k l pgdir a t U Ha) as (k1 & k2 & E1 & E2 & U2 & _ & T2 & _); [lia|done..|].
      assert ((PTE_ADDR (pte_of (pages k) pgdir a) =? 0) = false) as Hz.
      { apply Z.eqb_neq. intros E. apply (us_low _ _ _ U a (pframe (pte_of (pages k) pgdir a))).
        - split; [lia|done].
        - unfold pframe. by rewrite E. }
      rewrite Hz. destruct (IH (a + PGSIZE) k2 _ U2) as (k' & l' & E & D); try done.
      { by apply aligned_add. }
      { unfold KERNBASE, PGSIZE in *. lia. }
      { unfold PGSIZE in *. lia. }
      { destruct Hnext as [?| ->]; [by left|right]. rewrite T2 by apply PDX_range. by exists t. }
      exists k', l'. split; [|exact (dealloced_step k l pgdir a oldsz t k1 k2 k' l' U Ha ltac:(lia) Ho Hk Et Hp E1 E2 D)].
      erewrite bind_run; [exact E|]. erewrite bind_run; [exact E2|]. exact E1.
    + destruct (IH (a + PGSIZE) k l U) as (k' & l' & E & D); try done.
      { by apply aligned_add. }
      { unfold KERNBASE, PGSIZE in *. lia. }
      { unfold PGSIZE in *. lia. }
      { destruct Hnext as [?| ->]; [by left|right]. by exists t. }
      exists k', l'. split; [by rewrite (bind_run (mret tt) _ k tt k eq_refl)|].
      apply (dealloced_skip _ _ _ _ (a + PGSIZE)); [unfold PGSIZE; lia| |done].
      intros va v Hva (H1 & H2 & _). rewrite (pte_of_page _ _ va a) in H2;
        [congruence|unfold KERNBASE in *; lia|done|by apply in_page_of].
  - destruct Hd as [Hd|[t Hd]]; [|congruence].
    rewrite (bind_run _ _ _ _ _ (walk_absent k pgdir a Et)).
    assert (u32 (u32 (a + (NPTENTRIES - 1) * PGSIZE) + PGSIZE) = a + 4194304) as ->.
    { unfold NPTENTRIES, KERNBASE, PGSIZE in *. rewrite (u32_small (a + _)) by lia. rewrite u32_small; lia. }
    destruct (IH (a + 4194304) k l U) as (k' & l' & E & D); try done.
    { change 4194304 with (1024 * PGSIZE). by rewrite Z_mod_plus_full. }
    { unfold KERNBASE in *. lia. }
    { unfold PGSIZE in *. lia. }
    { left. replace (a + 4194304) with (a + 1 * 4194304) by lia. by rewrite Z_mod_plus_full. }
    exists k', l'. split; [done|]. apply (dealloced_skip _ _ _ _ (a + 4194304)); [lia| |done].
    intros va v Hva (H1 & H2 & _). unfold pte_of in H2.
    rewrite (same_dir a va), Et in H2; [done|done|unfold KERNBASE in *; lia|done|done].
Qed.

(** The whole of user memory. *)
Lemma dealloc_all pgdir k l :
  uspace k l pgdir ->
  exists k' l', deallocuvm end_ pgdir KERNBASE 0 k = Ok 0 k' /\ dealloced k l pgdir 0 KERNBASE k' l'.
Proof.
  intros U. unfold deallocuvm. change (KERNBASE <=? 0) with false. cbv iota zeta.
  change (PGROUNDUP 0) with 0. remember (Z.to_nat ((KERNBASE - 0) / PGSIZE + 2)) as fuel eqn:Ef.
  assert (Z.of_nat fuel = 524290) as Hf by (rewrite Ef, Z2Nat.id by done; reflexivity). clear Ef.
  destruct (dealloc_loop_ok fuel pgdir 0 KERNBASE k l U) as (k1 & l1 & E1 & D).
  { reflexivity. } { unfold KERNBASE. lia. } { reflexivity. } { lia. }
  { rewrite Hf. unfold KERNBASE, PGSIZE. lia. } { lia. } { by left. }
  exists k1, l1. split; [|exact D]. rewrite (bind_run _ _ _ _ _ E1). reflexivity.
Qed.

(** *** The tables *)

Lemma free_tabs ds k l pgdir :
  kmem_rep end_ k l -> page_ok end_ pgdir -> pgdir ∉ l -> NoDup ds ->
  (forall d t, d ∈ ds -> tab (pages k) pgdir d = Some t ->
    0 <= d < 1024 /\ page_ok end_ t /\ (t ∉ l) /\ t <> pgdir) ->
  (forall d, d ∈ ds -> 0 <= d < 1024) ->
  (forall d d' t, d ∈ ds -> d' ∈ ds -> tab (pages k) pgdir d = Some t ->
    tab (pages k) pgdir d' = Some t -> d = d') ->
  exists k' l', for_each (fun i =>
      w ← lw (pgdir + 4 * i);
      when (ctrue (w .& PTE_P)) (kfree end_ (p2v (PTE_ADDR w)))) ds k = Ok tt k' /\
    kmem_rep end_ k' l' /\ use_lock k' = use_lock k /\ (pgdir ∉ l') /\
    (forall v, v ∈ l' <-> v ∈ l \/ exists d, d ∈ ds /\ tab (pages k) pgdir d = Some v) /\
    (forall w x, page_ok end_ w -> w ∉ l' -> in_page w x -> pages k' x = pages k x).
Proof.
  revert k l. induction ds as [|d ds IH]; intros k l R Hd Hl Hnd Ht Hr Hinj.
  { exists k, l. split_and!; try done. intros v. split; [by left|]. intros [?|(d & Hd' & _)]; [done|].
    by apply not_elem_of_nil in Hd'. }
  apply NoDup_cons in Hnd as [Hdd Hnd]. cbn [for_each].
  assert (exists k1 l1, (w ← lw (pgdir + 4 * d);
      when (ctrue (w .& PTE_P)) (kfree end_ (p2v (PTE_ADDR w)))) k = Ok tt k1 /\
    kmem_rep end_ k1 l1 /\ use_lock k1 = use_lock k /\
    (forall v, v ∈ l1 <-> v ∈ l \/ tab (pages k) pgdir d = Some v) /\
    (forall w x, page_ok end_ w -> w ∉ l1 -> in_page w x -> pages k1 x = pages k x)) as
    (k1 & l1 & E1 & R1 & U1 & F1 & M1).
  { rewrite (bind_run (lw (pgdir + 4 * d)) _ k _ k eq_refl).
    pose proof (Ht d) as Htd. unfold tab in Htd |- *.
    change (ctrue (load_long (pgdir + 4 * d) (pages k) .& PTE_P)) with (present (load_long (pgdir + 4 * d) (pages k))).
    destruct (present _); cycle 1.
    { exists k, l. split_and!; try done. intros v. naive_solver. }
    destruct (Htd _ ltac:(left) eq_refl) as (_ & Hp & Hn & Hne).
    destruct (kfree_spec end_ _ k l R Hp Hn) as (k1 & E & R1 & U1 & M1 & _).
    eexists k1, _. split_and!; [exact E|exact R1|done| |].
    - intros v. rewrite elem_of_cons. naive_solver.
    - intros w x Hw Hwl Hx. apply not_elem_of_cons in Hwl as [Hwv _]. apply M1.
      destruct (pages_apart end_ _ w Hp Hw); [congruence|..]; unfold PGSIZE in *; lia. }
  rewrite (bind_run _ _ _ _ _ E1).
  assert (pgdir ∉ l1) as Hl1.
  { rewrite F1. intros [?|E]; [done|]. by destruct (Ht d pgdir ltac:(left) E) as (_ & _ & _ & ?). }
  assert (forall e, 0 <= e < 1024 -> tab (pages k1) pgdir e = tab (pages k) pgdir e) as Htab.
  { intros e He. unfold tab. rewrite (load_long_ext _ (pages k1) (pages k)); [done|]. intros x Hx.
    apply (M1 pgdir); [done|done|unfold PGSIZE; lia]. }
  destruct (IH k1 l1 R1 Hd Hl1 Hnd) as (k' & l' & E & R' & U' & Hp' & F' & M').
  { intros e t He Et. assert (0 <= e < 1024) as Her by (apply Hr; by right).
    rewrite Htab in Et by done. destruct (Ht e t ltac:(by right) Et) as (_ & H1 & H2 & H3).
    split_and!; try done; [lia|lia|]. rewrite F1. intros [?|E]; [done|].
    apply Hdd. rewrite (Hinj d e t); [done|left|by right|done|done]. }
  { intros e He. apply Hr. by right. }
  { intros e e' t He He' Et Et'. rewrite Htab in Et, Et' by (apply Hr; by right).
    apply (Hinj e e' t); [by right|by right|done|done]. }
  exists k', l'. split_and!; try done; [congruence| |].
  - intros v. rewrite F', F1. split.
    + intros [[?|?]|(e & He & Et)]; [by left|right; exists d; split; [left|done]|].
      right. exists e. rewrite Htab in Et by (apply Hr; by right). split; [by right|done].
    + intros [?|(e & He & Et)]; [by left; left|]. apply elem_of_cons in He as [->|He]; [by left; right|].
      right. exists e. rewrite Htab by (apply Hr; by right). done.
  - intros w x Hw Hwl Hx. rewrite (M' w x Hw Hwl Hx). apply (M1 w); [done| |done].
    intros Hin. apply Hwl. rewrite F'. by left.
Qed.

(** The pages of an address space. *)
Definition space_page (k : kmem) (pgdir v : Z) : Prop :=
  v = pgdir \/ (exists d, 0 <= d < 1024 /\ tab (pages k) pgdir d = Some v) \/ exists va, upage k pgdir va v.

(** [freevm] gives back the directory, the tables and the user pages: the free
    list, which names no page twice, grows by exactly these, and every page
    that is not free afterwards keeps its contents. *)
Lemma freevm_run k l pgdir :
  uspace k l pgdir ->
  exists k' l', freevm end_ pgdir k = Ok tt k' /\ kmem_rep end_ k' l' /\ use_lock k' = use_lock k /\
    (forall v, v ∈ l' <-> v ∈ l \/ space_page k pgdir v) /\
    (forall w x, page_ok end_ w -> w ∉ l' -> in_page w x -> pages k' x = pages k x).
Proof.
  intros U. pose proof (us_space _ _ _ U) as Sp. pose proof (sp_dir _ _ _ _ Sp) as Hd.
  destruct (dealloc_all pgdir k l U) as (k1 & l1 & E1 & D).
  destruct D as [U1 L1 T1 F1 M1]. pose proof (us_space _ _ _ U1) as Sp1.
  assert (forall d, d ∈ upto NPDENTRIES <-> 0 <= d < 1024) as Hup by (intros d; apply elem_of_upto).
  destruct (free_tabs (upto NPDENTRIES) k1 l1 pgdir) as (k2 & l2 & E2 & R2 & L2 & Hp2 & F2 & M2).
  { apply Sp1. } { done. } { apply Sp1. } { apply NoDup_upto. }
  { intros d t Hdd Et. apply Hup in Hdd. by pose proof (sp_tab _ _ _ _ Sp1 d t Hdd Et). }
  { intros d. apply Hup. }
  { intros d d' t Hx%Hup Hy%Hup. by apply (sp_inj _ _ _ _ Sp1). }
  destruct (kfree_spec end_ pgdir k2 l2 R2 Hd Hp2) as (k3 & E3 & R3 & L3 & M3 & _).
  exists k3, (pgdir :: l2). split_and!; [|done|congruence| |].
  - unfold freevm. assert ((pgdir =? 0) = false) as ->.
    { apply Z.eqb_neq. by apply (page_ok_range end_). }
    erewrite bind_run; [erewrite bind_run; [exact E3|exact E2]|].
    exact E1.
  - intros v. unfold space_page. rewrite elem_of_cons, F2, F1. split.
    + intros [->|[[?|(va & ? & Hu)]|(d & Hdd & Et)]]; [tauto|tauto|by right; right; right; eauto|].
      apply Hup in Hdd. rewrite T1 in Et by done. right. right. left. eauto.
    + intros [?|[->|[(d & Hdd & Et)|(va & Hu)]]]; [tauto|tauto| |].
      * right. right. exists d. rewrite Hup, T1 by done. done.
      * right. left. right. exists va. split; [apply Hu|done].
  - intros w x Hw Hl Hx. apply not_elem_of_cons in Hl as [Hne Hl].
    assert (w ∉ l1) as Hl1 by (intros Hin; apply Hl; rewrite F2; by left).
    rewrite M3. 2:{ destruct (pages_apart end_ pgdir w Hd Hw); [congruence|..]; unfold PGSIZE in *; lia. }
    rewrite (M2 w x Hw Hl Hx). apply (M1 w); [done|done| |done].
    intros d Hdd Et. apply Hl. rewrite F2. right. exists d. rewrite Hup, T1 by done. done.
Qed.

Lemma space_page_used k l pgdir v : uspace k l pgdir -> space_page k pgdir v -> v ∉ l.
Proof.
  intros U. pose proof (us_space _ _ _ U) as Sp. intros [->|[(d & Hd & E)|(va & Hu)]].
  - apply Sp.
  - apply (sp_tab _ _ _ _ Sp d v Hd E).
  - apply (us_out _ _ _ U va v Hu).
Qed.

(** C19: freevm() neither panics nor leaks: for an address space whose
    directory, tables and user pages are distinct pages that are not free, it
    returns, and the free list grows by exactly the pages of the address space,
    each of them once.  Every other page in use keeps its contents. *)
Theorem freevm_reclaims k l pgdir :
  uspace k l pgdir ->
  exists k' l' ps, freevm end_ pgdir k = Ok tt k' /\ kmem_rep end_ k' l' /\
    l' ≡ₚ ps ++ l /\ NoDup ps /\ (forall v, v ∈ ps <-> space_page k pgdir v) /\
    (forall w x, page_ok end_ w -> w ∉ l -> ~ space_page k pgdir w -> in_page w x -> pages k' x = pages k x).
Proof.
  intros U. destruct (freevm_run k l pgdir U) as (k' & l' & E & R & _ & F & M).
  pose proof (km_nodup _ _ _ R) as Hn. pose proof (km_nodup _ _ _ (sp_rep _ _ _ _ (us_space _ _ _ U))) as Hnl.
  exists k', l', (filter (fun v => v ∉ l) l').
  assert (forall v, v ∈ filter (fun v => v ∉ l) l' <-> space_page k pgdir v) as Hps.
  { intros v. rewrite list_elem_of_filter, F. pose proof (space_page_used k l pgdir v U). tauto. }
  split_and!; [done|done| |by apply NoDup_filter|done|].
  - apply NoDup_Permutation; [done| |].
    + apply NoDup_app. split_and!; [by apply NoDup_filter| |done].
      intros v Hv. by apply list_elem_of_filter in Hv as [? _].
    + intros v. rewrite elem_of_app, Hps, F. tauto.
  - intros w x Hw Hl Hs. apply (M w x Hw). rewrite F. tauto.
Qed.

End free.
