(* ===== verification/WaitThms.v ===== *)
(** [exit] and [wait] on the kernel's own memory: the parent is woken, and its
    next scan frees the child's entry, kernel stack and address space. *)

From stdpp Require Import prelude strings functions gmap list.
From S2P Require Import Prelude Param BlockCache CString Kalloc Vm Proc ProcInv ProcThms.
From S2P Require Import TxDisk Fs FsThms Console File Syscall VmThms VmFree.

(** The page allocator of a kernel state. *)
Definition kmem_of {T} (s : pstate (fsys T krest)) : kmem := k_kmem (fs_rest (penv s)).

(** The memory of a process beside the free pages [l]: its address space, and
    its kernel stack, which is a page of neither. *)
Record owns_mem (end_ : Z) (k : kmem) (l : list Z) (z : proc) : Prop := {
  ow_space : uspace end_ k l (p_pgdir z);
  ow_stack : outside end_ k l (p_pgdir z) (p_kstack z);
  ow_apart va : ~ upage k (p_pgdir z) va (p_kstack z)
}.

(** The pages of a process. *)
Definition proc_page (k : kmem) (z : proc) (v : Z) : Prop :=
  v = p_kstack z \/ space_page k (p_pgdir z) v.

(** The free list grows by exactly the pages of [z], and every page that is
    still in use keeps its contents. *)
Definition gives_back (end_ : Z) (k : kmem) (z : proc) (k' : kmem) : Prop :=
  exists l l', kmem_rep end_ k l /\ kmem_rep end_ k' l' /\
    (forall v, v ∈ l' <-> v ∈ l \/ proc_page k z v) /\
    (forall w x, page_ok end_ w -> w ∉ l' -> in_page w x -> pages k' x = pages k x).

(** [kfree] of the stack and [freevm], as [wait] calls them. *)
Lemma free_proc end_ k l z :
  owns_mem end_ k l z ->
  exists k1 k2, kfree end_ (p_kstack z) k = Ok tt k1 /\ freevm end_ (p_pgdir z) k1 = Ok tt k2 /\
    gives_back end_ k z k2.
Proof.
  intros [U O Hn].
  destruct (uspace_kfree end_ k l (p_pgdir z) (p_kstack z) U O Hn) as (k1 & E1 & U1 & _ & M1 & T1 & P1).
  destruct (freevm_run end_ k1 (p_kstack z :: l) (p_pgdir z) U1) as (k2 & l2 & E2 & R2 & _ & F2 & M2).
  exists k1, k2. split_and!; [done..|]. exists l, l2. split_and!; [apply U|done| |].
  - intros v. rewrite F2, elem_of_cons. unfold proc_page, space_page. setoid_rewrite P1. split.
    + intros [[?|?]|[?|[(d & Hd & Et)|?]]]; [tauto..| |tauto]. rewrite T1 in Et by done. eauto 10.
    + intros [?|[?|[?|[(d & Hd & Et)|?]]]]; [tauto..| |tauto]. rewrite <- T1 in Et by done. eauto 10.
  - intros w x Hw Hl Hx. rewrite (M2 w x Hw Hl Hx). apply M1.
    assert (w <> p_kstack z) as Hne by (intros ->; apply Hl, F2; left; left).
    destruct (pages_apart end_ (p_kstack z) w); [apply O|done|congruence|..]; unfold PGSIZE in *; lia.
Qed.

Section kernel.
Context {T : Type} `{Disk T} (end_ data_ : Z) (initcode : list Z) (devsw : Z -> devops (fsys T krest)).
#[local] Instance wait_env : ProcEnv (fsys T krest) := kernel_env end_ data_ initcode devsw.

Lemma onkmem_Ok {A} (m : M kmem A) (s : fsys T krest) a k :
  m (k_kmem (fs_rest s)) = Ok a k ->
  onkmem m s = Ok a (FSys (fs_disk s) (fs_icache s) (fs_wakeups s) (File.set_kmem k (fs_rest s))).
Proof. intros E. unfold onkmem, onrest, lift. by rewrite E. Qed.

(** C32: [exit] and [wait] meet.  Once a process has run the critical section of
    [exit], it is a zombie of its parent, and a parent asleep in [wait] is
    runnable.  The next scan of the parent does not sleep: it returns the pid
    of a zombie child, frees the entry of that child, and the kernel stack,
    the directory, the tables and the user pages of the child, and no other
    page, are back on the free list.  The condition is that a zombie child owns
    its memory. *)
Theorem exit_then_wait cur q pc (s s' : pstate (fsys T krest)) :
  procs s !! cur = Some pc -> p_parent pc = Some q -> q <> cur -> exit_end cur s = Ok tt s' ->
  (forall j z, procs s' !! j = Some z -> p_parent z = Some q -> p_state z = ZOMBIE ->
    exists l, owns_mem end_ (kmem_of s') l z) ->
  (exists pc', procs s' !! cur = Some pc' /\ p_state pc' = ZOMBIE /\ p_parent pc' = Some q) /\
  (forall pq, procs s !! q = Some pq -> p_state pq = SLEEPING -> p_chan pq = Some (chan_of q) ->
    exists pq', procs s' !! q = Some pq' /\ p_state pq' = RUNNABLE) /\
  (exists j z s'', procs s' !! j = Some z /\ p_parent z = Some q /\ p_state z = ZOMBIE /\
    wait q s' = Ok (p_pid z) s'' /\ procs s'' = alter reaped j (procs s') /\
    gives_back end_ (kmem_of s') z (kmem_of s'')).
Proof.
  intros Hpc Hpar Hne E Hown.
  destruct (exit_end_wakes cur q pc s s' Hpc Hpar Hne E) as [(pc' & Hpc' & Hz & Hp) Hw].
  split; [by eauto|]. split; [done|].
  destruct (wait_reaps q s' cur pc' Hpc' Hp Hz) as (j & z & Hj & Hjp & Hjz & Hwait).
  destruct (Hown j z Hj Hjp Hjz) as [l Ho].
  destruct (free_proc end_ _ l z Ho) as (k1 & k2 & E1 & E2 & G).
  pose proof (Hwait _ _ (onkmem_Ok (kfree end_ (p_kstack z)) (penv s') tt k1 E1)
    (onkmem_Ok (freevm end_ (p_pgdir z)) (FSys _ _ _ (File.set_kmem k1 (fs_rest (penv s')))) tt k2 E2)) as W.
  eexists j, z, _. split_and!; [done..|exact W|reflexivity|exact G].
Qed.
End kernel.

(** ** An example *)

(** A parent asleep in [wait] and a child with one page of memory. *)
Definition demo_stack : Z := demo_dir + 200 * PGSIZE.
Definition demo_parent : proc :=
  set_chan (Some (chan_of 0)) (set_pid 1 (Proc.set_state SLEEPING proc0)).
Definition demo_child : proc :=
  set_vm 4096 demo_dir (set_kstack demo_stack (set_parent (Some 0%nat) (set_pid 2 (Proc.set_state RUNNING proc0)))).
Definition demo_rest_k : krest := KRest [] ∅ demo_mem [] 1 None 0 0 0 0 0 input0 [].
Definition demo_state : pstate (fsys tdisk krest) :=
  PState [demo_parent; demo_child] 3 (Some 0%nat) (FSys (TDisk ∅ ∅ ∅ ∅ 0 0 0) [] [] demo_rest_k).
Definition demo_exited : pstate (fsys tdisk krest) :=
  PState [Proc.set_state RUNNABLE demo_parent; Proc.set_state ZOMBIE demo_child] 3 (Some 0%nat) (penv demo_state).

Lemma demo_pte va : 0 <= va < KERNBASE ->
  pte_of (pages demo_mem) demo_dir va = if decide (va / PGSIZE = 0) then v2p demo_page .| 7 else 0.
Proof.
  intros Hva. pose proof (Z.div_mod va PGSIZE ltac:(done)) as Hd.
  pose proof (Z.mod_pos_bound va PGSIZE ltac:(done)) as Hm. case_decide as E.
  - rewrite (pte_of_page _ _ va 0); [vm_compute; reflexivity|unfold KERNBASE in *; lia|lia|by rewrite E].
  - destruct (decide (va < 4194304)); [apply demo_rest; unfold PGSIZE in *; lia|].
    unfold pte_of. rewrite demo_tabs by apply PDX_range. rewrite decide_False; [done|].
    rewrite PDX_div by (unfold KERNBASE in *; lia). assert (1 <= va / 4194304); [|lia].
    apply Z.div_le_lower_bound; lia.
Qed.

Lemma demo_upage va v : upage demo_mem demo_dir va v -> va / PGSIZE = 0 /\ v = demo_page.
Proof.
  intros (Hr & Hp & ->). rewrite demo_pte in Hp |- * by done. case_decide; [|done].
  split; [done|]. vm_compute. reflexivity.
Qed.

Lemma demo_outside i : 0 <= i < 1000 -> i <> 0 -> i <> 1 -> ~ 3 <= i < 133 ->
  outside KERNBASE demo_mem demo_free demo_dir (demo_dir + i * PGSIZE).
Proof.
  intros Hi H0 H1 H3. split.
  - by apply demo_page_ok.
  - intros (j & Hj & E)%demo_free_in. unfold PGSIZE in *. lia.
  - unfold PGSIZE in *. lia.
  - intros d Hd. rewrite demo_tabs by done. case_decide; [|done]. intros [= E].
    unfold demo_tab, PGSIZE in *. lia.
Qed.

Lemma demo_owns : owns_mem KERNBASE demo_mem demo_free (Proc.set_state ZOMBIE demo_child).
Proof.
  split.
  - change (p_pgdir _) with demo_dir. split; [apply demo_image| | |].
    + intros va v [_ ->]%demo_upage. apply (demo_outside 2); lia.
    + intros va v [_ ->]%demo_upage. vm_compute. discriminate.
    + intros va va' v [-> _]%demo_upage [-> _]%demo_upage. reflexivity.
  - apply (demo_outside 200); lia.
  - intros va [_ E]%demo_upage. vm_compute in E. discriminate.
Qed.

Lemma exit_then_wait_witness :
  exists j z s'', procs demo_exited !! j = Some z /\
    wait (H:=kernel_env KERNBASE 2149580800 [] no_devs) 0 demo_exited = Ok (p_pid z) s'' /\
    gives_back KERNBASE demo_mem z (kmem_of s'').
Proof.
  destruct (exit_then_wait KERNBASE 2149580800 [] no_devs 1 0 demo_child demo_state demo_exited)
    as (_ & _ & j & z & s'' & Hj & _ & _ & Hw & _ & G).
  - reflexivity.
  - reflexivity.
  - lia.
  - reflexivity.
  - intros j z Hj _ Hz. exists demo_free. destruct j as [|[|j]]; [..|discriminate Hj].
    + injection Hj as <-. discriminate Hz.
    + injection Hj as <-. exact demo_owns.
  - exists j, z, s''. split; [exact Hj|]. split; [exact Hw|exact G].
Defined.

Lemma freevm_reclaims_witness :
  exists k' l' ps, freevm KERNBASE demo_dir demo_mem = Ok tt k' /\ l' ≡ₚ ps ++ demo_free /\
    demo_page ∈ ps /\ demo_dir ∈ ps /\ demo_tab ∈ ps.
Proof.
  destruct (freevm_reclaims KERNBASE demo_mem demo_free demo_dir) as (k' & l' & ps & E & _ & Hp & _ & H & _).
  { exact (ow_space _ _ _ _ demo_owns). }
  exists k', l', ps. split; [exact E|]. split; [exact Hp|]. split; [|split]; apply (proj2 (H _)).
  - right. right. exists 0. unfold upage. rewrite (demo_pte 0) by (unfold KERNBASE; lia).
    split; [unfold KERNBASE; lia|]. split; vm_compute; reflexivity.
  - left. reflexivity.
  - right. left. exists 0. split; [lia|]. rewrite demo_tabs by lia. reflexivity.
Defined.
