(* ===== verification/IdeThms.v ===== *)
(** Theorems about ide.c: what the disk is told, and the queue of requests. *)

From stdpp Require Import prelude strings gmap list.
From S2P Require Import Prelude Param Hw Ide.

(** ** Waiting for the disk *)

Definition ready (r : Z) : bool := u8 r .& (IDE_BSY .| IDE_DRDY) =? IDE_DRDY.

(** The disk is busy for a while, then ready with status [r]. *)
Record waits (h : hw) (busy : list Z) (r : Z) (rest : list Z) : Prop := {
  wt_in : hw_in h = busy ++ r :: rest;
  wt_busy : Forall (fun b => ready b = false) busy;
  wt_ready : ready r = true
}.

(** The state after events and answers. *)
Definition after (h : hw) (ins : list Z) (ev : list event) : hw := with_in ins (with_trace (hw_trace h ++ ev) h).

Lemma after_after h ins ins' ev ev' : after (after h ins ev) ins' ev' = after h ins' (ev ++ ev').
Proof. unfold after. cbn. by rewrite <- app_assoc. Qed.

Lemma inb_run port v ins h : hw_in h = v :: ins -> inb port h = Ok (u8 v) (after h ins [Inb port (u8 v)]).
Proof. intros E. unfold inb, answer, mbind, M_bind. rewrite E. done. Qed.

Lemma outb_run port v h : outb port v h = Ok tt (after h (hw_in h) [Outb port (u8 v)]).
Proof. by destruct h. Qed.

Lemma outsl_run port ws h : outsl port ws h = Ok tt (after h (hw_in h) (Outl port <$> ws)).
Proof.
  revert h. induction ws as [|w ws IH]; intros h; unfold outsl in *; cbn [for_each].
  - unfold after. cbn. rewrite app_nil_r. by destruct h.
  - erewrite bind_run; [|reflexivity]. rewrite IH. unfold after. cbn. by rewrite <- app_assoc.
Qed.

Lemma insl_run port ws ins h :
  hw_in h = ws ++ ins -> insl port (length ws) h = Ok (u32 <$> ws) (after h ins ((Inl port ∘ u32) <$> ws)).
Proof.
  revert h. induction ws as [|w ws IH]; intros h E; cbn [insl length].
  - cbn in E. unfold after. cbn. rewrite app_nil_r, <- E. by destruct h.
  - unfold answer, mbind, M_bind. rewrite E. cbn [app]. unfold emit, modify.
    rewrite IH by reflexivity. unfold after. cbn. by rewrite <- app_assoc.
Qed.

Lemma idewait_loop_run busy r rest fuel h :
  waits h busy r rest -> (length busy < fuel)%nat ->
  exists ev, idewait_loop fuel h = Ok (u8 r) (after h rest ev) /\ Forall (fun e => exists v, e = Inb 503 v) ev.
Proof.
  revert fuel h. induction busy as [|b busy IH]; intros fuel h [E Hb Hr] Hf; (destruct fuel as [|fuel]; [cbn in Hf; lia|]);
    cbn [idewait_loop]; cbn [app] in E; rewrite (bind_run _ _ _ _ _ (inb_run 503 _ _ h E)).
  - unfold ready in Hr. rewrite Hr. eexists. split; [reflexivity|]. repeat constructor. by eexists.
  - apply Forall_cons in Hb as [Hb1 Hb]. unfold ready in Hb1. rewrite Hb1.
    destruct (IH fuel (after h (busy ++ r :: rest) [Inb 503 (u8 b)])) as (ev & Hrun & Hev); [by split|cbn in Hf; lia|].
    exists (Inb 503 (u8 b) :: ev). rewrite Hrun, after_after. split; [done|]. constructor; [by eexists|done].
Qed.

Lemma idewait_run checkerr busy r rest h :
  waits h busy r rest ->
  exists ev, idewait checkerr h =
      Ok (if (checkerr && ctrue (u8 r .& (IDE_DF .| IDE_ERR)))%bool then -1 else 0) (after h rest ev) /\
    Forall (fun e => exists v, e = Inb 503 v) ev.
Proof.
  intros W. destruct (idewait_loop_run busy r rest (length (hw_in h)) h W) as (ev & Hrun & Hev).
  { rewrite (wt_in _ _ _ _ W), length_app. cbn. lia. }
  exists ev. split; [|done]. unfold idewait. erewrite bind_run; [|reflexivity]. by rewrite (bind_run _ _ _ _ _ Hrun).
Qed.

(** ** The command *)

Lemma last_out_reads port t v :
  Forall (fun e => exists w, e = Inb 503 w) t ->
  foldl (fun v e => match e with Outb p w => if p =? port then w else v | _ => v end) v t = v.
Proof. induction 1 as [|e t [w ->] _ IH]; [done|exact IH]. Qed.

Lemma last_out_words port p ws v :
  foldl (fun v e => match e with Outb p w => if p =? port then w else v | _ => v end) v (Outl p <$> ws) = v.
Proof. induction ws as [|w ws IH]; [done|exact IH]. Qed.

Lemma out_words_app t1 t2 : out_words (t1 ++ t2) = out_words t1 ++ out_words t2.
Proof. unfold out_words. apply omap_app. Qed.

Lemma out_words_reads t : Forall (fun e => exists w, e = Inb 503 w) t -> out_words t = [].
Proof. unfold out_words. induction 1 as [|e t [w ->] _ IH]; [done|exact IH]. Qed.

Lemma out_words_words ws : out_words (Outl 496 <$> ws) = ws.
Proof. unfold out_words. induction ws as [|w ws IH]; [done|]. cbn. by rewrite IH. Qed.

(** The byte of port 0x1f6. *)
Lemma drive_byte d x :
  let v := u8 (224 .| ((d .& 1) << 4) .| (x .& 15)) in v .& 15 = x .& 15 /\ (v >> 4) .& 1 = d .& 1.
Proof.
  change 1 with (Z.ones 1). change 15 with (Z.ones 4). rewrite !Z.land_ones by lia.
  change (2 ^ 1) with 2. change (2 ^ 4) with 16.
  pose proof (Z.mod_pos_bound d 2 ltac:(lia)) as Hd. pose proof (Z.mod_pos_bound x 16 ltac:(lia)) as Hx.
  generalize dependent (d mod 2). intros a Ha. generalize dependent (x mod 16). intros b Hb.
  assert (a = 0 \/ a = 1) as Ea by lia.
  assert (b = 0 \/ b = 1 \/ b = 2 \/ b = 3 \/ b = 4 \/ b = 5 \/ b = 6 \/ b = 7 \/ b = 8 \/ b = 9 \/ b = 10 \/
    b = 11 \/ b = 12 \/ b = 13 \/ b = 14 \/ b = 15) as Eb by lia.
  destruct Ea as [-> | ->]; repeat destruct Eb as [-> |Eb]; try (subst b); vm_compute; done.
Qed.

(** The four parts of a sector number. *)
Lemma sector_parts s :
  u8 (s .& 255) + (u8 ((s >> 8) .& 255) << 8) + (u8 ((s >> 16) .& 255) << 16) + (((s >> 24) .& 15) << 24) =
  s mod 2 ^ 28.
Proof.
  change 255 with (Z.ones 8). change 15 with (Z.ones 4). rewrite !Z.land_ones by lia. unfold u8.
  change (2 ^ 8) with 256. change (2 ^ 4) with 16. rewrite !Zmod_mod, !Z.shiftl_mul_pow2, !Z.shiftr_div_pow2 by lia.
  change (2 ^ 28) with (256 * (256 * (256 * 16))). rewrite !Z.rem_mul_r by lia.
  rewrite !Z.div_div by lia. change (2 ^ 8) with 256. change (2 ^ 16) with (256 * 256).
  change (2 ^ 24) with (256 * 256 * 256). lia.
Qed.

(** What the buffer asks for. *)
Definition asks (x : ibuf) : command :=
  let w := ctrue (ib_flags x .& B_DIRTY) in
  Command w (ib_dev x .& 1) (ib_sector x mod 2 ^ 28) (if w then ib_data x else []).

Definition is_read (e : event) : Prop := exists v, e = Inb 503 v.

(** [idestart] tells the disk what the buffer asks for. *)
Lemma idestart_hw_run x busy r rest h :
  waits h busy r rest ->
  exists ev, idestart_hw x h = Ok tt (after h rest ev) /\ decode ev = asks x.
Proof.
  intros W. destruct (idewait_run false busy r rest h W) as (ev & Hrun & Hev). cbn [andb] in Hrun.
  unfold idestart_hw. rewrite (bind_run _ _ _ _ _ Hrun).
  do 6 (erewrite bind_run; [|apply outb_run]). rewrite !after_after. cbn [hw_in after with_in with_trace].
  unfold asks. destruct (ctrue (ib_flags x .& B_DIRTY)).
  - erewrite bind_run; [|apply outb_run]. rewrite outsl_run, !after_after. eexists. split; [reflexivity|].
    unfold decode. rewrite !out_words_app, out_words_words, (out_words_reads _ Hev).
    unfold last_out. rewrite !foldl_app, !last_out_words. rewrite !(fun port v => last_out_reads port ev v Hev). cbn -[u8 Z.land Z.shiftl Z.shiftr Z.pow].
    destruct (drive_byte (ib_dev x) (ib_sector x >> 24)) as [-> ->]. by rewrite sector_parts.
  - rewrite outb_run, !after_after. eexists. split; [reflexivity|].
    unfold decode. rewrite !out_words_app, (out_words_reads _ Hev).
    unfold last_out. rewrite !foldl_app. rewrite !(fun port v => last_out_reads port ev v Hev). cbn -[u8 Z.land Z.shiftl Z.shiftr Z.pow].
    destruct (drive_byte (ib_dev x) (ib_sector x >> 24)) as [-> ->]. by rewrite sector_parts.
Qed.

(** ** The queue *)

(** A disk with its contents by drive and sector, and the command it is
    working on. *)
Record dsys := DSys {
  ds_ide : ide;
  ds_disk : Z * Z -> list Z;
  ds_cmd : option command
}.

(** The answers of the disk to the next call. *)
Definition feed (ins : list Z) (s : ide) : ide :=
  Ide (with_in ins (ide_hw s)) (ide_bufs s) (idequeue s) (ide_wakeups s).

(** The accesses of a call, and the command in them. *)
Definition new_events (s s' : ide) : list event :=
  drop (length (hw_trace (ide_hw s))) (hw_trace (ide_hw s')).

Definition soon_ready (ins : list Z) : Prop :=
  exists busy r, ins = busy ++ [r] /\ Forall (fun b => ready b = false) busy /\ ready r = true.

(** The disk has done a command. *)
Definition perform (c : command) (D : Z * Z -> list Z) : Z * Z -> list Z :=
  if cm_write c then fun p => if decide (p = (cm_drive c, cm_sector c)) then cm_words c else D p else D.

(** What it answers a read with: ready without error, then the sector. *)
Definition answers (c : command) (D : Z * Z -> list Z) (ins : list Z) : Prop :=
  if cm_write c then ins = []
  else exists busy r, ins = busy ++ r :: D (cm_drive c, cm_sector c) /\
    Forall (fun b => ready b = false) busy /\ ready r = true /\ ctrue (u8 r .& (IDE_DF .| IDE_ERR)) = false.

(** The buffer has work for the disk, which exists. *)
Definition wants (x : ibuf) : bool := negb (ib_flags x .& (B_VALID .| B_DIRTY) =? B_VALID).
Definition may_ask (h : hw) (x : ibuf) : Prop :=
  ctrue (ib_flags x .& B_BUSY) = true /\ wants x = true /\ (ib_dev x = 0 \/ havedisk1 h <> 0) /\
  length (ib_data x) = 128%nat.

(** A process calls [iderw], or the disk finishes its command and interrupts. *)
Inductive ide_step : dsys -> dsys -> Prop :=
| St_request b x s D c ins s' :
    ide_bufs s !! b = Some x -> may_ask (ide_hw s) x -> b ∉ idequeue s ->
    (if decide (idequeue s = []) then soon_ready ins else ins = []) ->
    iderw b (feed ins s) = Sleep (ChBuf (Z.of_nat b)) s' ->
    ide_step (DSys s D c)
      (DSys s' D (if decide (idequeue s = []) then Some (decode (new_events s s')) else c))
| St_complete s D c ins1 ins2 s' :
    answers c D ins1 -> (if decide (tail (idequeue s) = []) then ins2 = [] else soon_ready ins2) ->
    ideintr (feed (ins1 ++ ins2) s) = Ok tt s' ->
    ide_step (DSys s D (Some c))
      (DSys s' (perform c D) (if decide (tail (idequeue s) = []) then None else Some (decode (new_events s s')))).

(** The disk works on the request at the front of the queue. *)
Record ds_inv (t : dsys) : Prop := {
  di_nodup : NoDup (idequeue (ds_ide t));
  di_bufs b : b ∈ idequeue (ds_ide t) ->
    exists x, ide_bufs (ds_ide t) !! b = Some x /\ wants x = true /\ length (ib_data x) = 128%nat;
  di_cmd : ds_cmd t = (x ← head (idequeue (ds_ide t)) ≫= fun b => ide_bufs (ds_ide t) !! b; Some (asks x));
  di_sectors p : length (ds_disk t p) = 128%nat
}.

Lemma new_events_after s h' bufs q w ins ev :
  h' = after (ide_hw s) ins ev -> new_events s (Ide h' bufs q w) = ev.
Proof. intros ->. unfold new_events. cbn. by rewrite drop_app_length. Qed.

Lemma wants_sleeps x : wants x = true -> (ib_flags x .& (B_VALID .| B_DIRTY) =? B_VALID) = false.
Proof. unfold wants. by destruct (_ =? _). Qed.

(** [iderw] queues the request, and starts the disk when it is idle. *)
Lemma iderw_run s b x ins :
  ide_bufs s !! b = Some x -> may_ask (ide_hw s) x ->
  (if decide (idequeue s = []) then soon_ready ins else ins = []) ->
  exists ev, iderw b (feed ins s) = Sleep (ChBuf (Z.of_nat b))
      (Ide (after (ide_hw s) [] ev) (ide_bufs s) (idequeue s ++ [b]) (ide_wakeups s)) /\
    (idequeue s = [] -> decode ev = asks x).
Proof.
  intros Hb (Hbusy & Hw & Hdev & _) Hins. unfold iderw.
  assert (get_ibuf b (feed ins s) = Ok x (feed ins s)) as Hget.
  { unfold get_ibuf, get, mbind, M_bind. cbn. by rewrite Hb. }
  rewrite (bind_run _ _ _ _ _ Hget). erewrite bind_run; [|reflexivity].
  rewrite Hbusy. cbn [negb]. rewrite (wants_sleeps x Hw).
  assert ((negb (ib_dev x =? 0) && (havedisk1 (ide_hw (feed ins s)) =? 0))%bool = false) as ->.
  { cbn. destruct Hdev as [-> |Hd]; [done|]. apply Z.eqb_neq in Hd. rewrite Hd. apply andb_false_r. }
  erewrite bind_run; [|reflexivity]. cbn [feed idequeue ide_hw ide_bufs ide_wakeups].
  case_decide as Eq.
  - rewrite bool_decide_eq_true_2 by done. destruct Hins as (busy & r & -> & H1 & H2).
    destruct (idestart_hw_run x busy r [] (with_in (busy ++ [r]) (ide_hw s))) as (ev & Hrun & Hdec); [by split|].
    exists ev. split; [|done]. cbn [when]. unfold idestart, iderw_wait, get_ibuf, get, onhw, lift, mbind, M_bind.
    cbn -[idestart_hw Z.land Z.lor]. rewrite Hb. cbn -[idestart_hw Z.land Z.lor]. rewrite Hrun.
    cbn -[Z.land Z.lor]. rewrite Hb. cbn -[Z.land Z.lor]. rewrite (wants_sleeps x Hw). reflexivity.
  - rewrite bool_decide_eq_false_2 by done. subst ins. exists []. split; [|done]. cbn [when].
    unfold iderw_wait, get_ibuf, get, mbind, M_bind. cbn -[Z.land Z.lor]. rewrite Hb. cbn -[Z.land Z.lor].
    rewrite (wants_sleeps x Hw). unfold after. rewrite app_nil_r. by destruct (ide_hw s).
Qed.

(** Reading does not change what the disk is told. *)
Definition is_in (e : event) : Prop := match e with Inb _ _ | Inl _ _ => True | _ => False end.

Lemma decode_reads t1 t2 : Forall is_in t1 -> decode (t1 ++ t2) = decode t2.
Proof.
  intros H. assert (forall port, last_out port (t1 ++ t2) = last_out port t2) as Hl.
  { intros port. unfold last_out. rewrite foldl_app. f_equal.
    induction H as [|e t He _ IH]; [done|]. cbn. by destruct e. }
  assert (out_words (t1 ++ t2) = out_words t2) as Hw.
  { rewrite out_words_app. assert (out_words t1 = []) as ->; [|done]. clear Hl.
    induction H as [|e t He _ IH]; [done|]. destruct e; try done; exact IH. }
  unfold decode. by rewrite !Hl, Hw.
Qed.

(** The buffer after its command. *)
Definition served (x : ibuf) (D : Z * Z -> list Z) : ibuf :=
  IBuf ((ib_flags x .| B_VALID) .& Z.lnot B_DIRTY) (ib_dev x) (ib_sector x)
    (if ctrue (ib_flags x .& B_DIRTY) then ib_data x
     else u32 <$> D (ib_dev x .& 1, ib_sector x mod 2 ^ 28)).

(** The part of [ideintr] that takes the data from the disk. *)
Lemma fetch_run x D ins1 ins2 s :
  answers (asks x) D ins1 -> length (D (ib_dev x .& 1, ib_sector x mod 2 ^ 28)) = 128%nat ->
  exists ev,
    (if ctrue (ib_flags x .& B_DIRTY) then mret (ib_data x)
     else r ← onhw (idewait true); if 0 <=? r then onhw (insl 496 128) else mret (ib_data x))
    (feed (ins1 ++ ins2) s) =
    Ok (ib_data (served x D)) (Ide (after (ide_hw s) ins2 ev) (ide_bufs s) (idequeue s) (ide_wakeups s)) /\
    Forall is_in ev.
Proof.
  intros Ha Hl. unfold answers, asks in Ha. cbn in Ha. unfold served. cbn [ib_data].
  destruct (ctrue (ib_flags x .& B_DIRTY)).
  - subst ins1. exists []. split; [|done]. unfold after. rewrite app_nil_r. destruct s as [[] ? ? ?]. reflexivity.
  - destruct Ha as (busy & r & -> & H1 & H2 & H3). set (ws := D _) in *.
    destruct (idewait_run true busy r (ws ++ ins2) (with_in ((busy ++ r :: ws) ++ ins2) (ide_hw s))) as (ev & Hrun & Hev).
    { split; [|done|done]. cbn. by rewrite <- app_assoc. }
    rewrite H3 in Hrun. cbn [andb] in Hrun. exists (ev ++ ((Inl 496 ∘ u32) <$> ws)). split.
    + unfold onhw, lift, mbind, M_bind. cbn [feed ide_hw]. rewrite Hrun. cbn [Z.leb].
      cbn [ide_hw]. pose proof (insl_run 496 ws ins2 (after (ide_hw s) (ws ++ ins2) ev) eq_refl) as E.
      rewrite Hl in E. change (after (with_in ?i ?h) ?j ?e) with (after h j e). change (0 <=? 0) with true. cbv beta iota. cbn [ide_hw]. rewrite E, after_after. done.
    + apply Forall_app. split; [|by apply Forall_fmap, Forall_true].
      eapply Forall_impl; [exact Hev|]. by intros e [v ->].
Qed.

(** [ideintr] serves the request at the front and starts the next. *)
Lemma ideintr_run s b q x D ins1 ins2 :
  idequeue s = b :: q -> ide_bufs s !! b = Some x -> answers (asks x) D ins1 ->
  length (D (ib_dev x .& 1, ib_sector x mod 2 ^ 28)) = 128%nat ->
  (if decide (q = []) then ins2 = [] else soon_ready ins2) ->
  (forall n, n ∈ q -> n <> b /\ is_Some (ide_bufs s !! n)) ->
  exists ev, ideintr (feed (ins1 ++ ins2) s) =
      Ok tt (Ide (after (ide_hw s) [] ev) (<[b := served x D]> (ide_bufs s)) q
               (ide_wakeups s ++ [ChBuf (Z.of_nat b)])) /\
    (forall n y, head q = Some n -> ide_bufs s !! n = Some y -> decode ev = asks y).
Proof.
  intros Hq Hb Ha Hl Hins Hn. set (s1 := Ide (ide_hw s) (ide_bufs s) q (ide_wakeups s)).
  destruct (fetch_run x D ins1 ins2 s1 Ha Hl) as (ev1 & Hfetch & Hev1).
  unfold ideintr. erewrite bind_run; [|reflexivity]. cbn [feed idequeue]. rewrite Hq.
  erewrite bind_run; [|reflexivity]. cbn [feed ide_hw ide_bufs idequeue ide_wakeups].
  erewrite bind_run; [|unfold get_ibuf, get, mbind, M_bind; cbn; rewrite Hb; reflexivity].
  change (Ide (with_in (ins1 ++ ins2) (ide_hw s)) (ide_bufs s) q (ide_wakeups s)) with (feed (ins1 ++ ins2) s1).
  rewrite (bind_run _ _ _ _ _ Hfetch). erewrite bind_run; [|reflexivity]. erewrite bind_run; [|reflexivity].
  cbn [ide_hw ide_bufs idequeue ide_wakeups s1]. fold (served x D).
  change (IBuf _ _ _ (ib_data (served x D))) with (served x D).
  destruct q as [|n q].
  - rewrite decide_True in Hins by done. subst ins2. exists ev1. split; [done|]. intros n y [=].
  - rewrite decide_False in Hins by done. destruct Hins as (busy & r & -> & H1 & H2).
    destruct (Hn n) as [Hne [y Hy]]; [left|].
    destruct (idestart_hw_run y busy r [] (after (ide_hw s) (busy ++ [r]) ev1)) as (ev2 & Hrun & Hdec); [by split|].
    exists (ev1 ++ ev2). split.
    + unfold idestart, get_ibuf, get, onhw, lift, mbind, M_bind. cbn -[idestart_hw].
      rewrite list_lookup_insert_ne by done. rewrite Hy. cbn -[idestart_hw]. rewrite Hrun.
      by rewrite after_after.
    + intros n' y' [= <-] Hy'. rewrite decode_reads by done. congruence.
Qed.

Lemma served_flags x D : ib_flags (served x D) .& (B_VALID .| B_DIRTY) = B_VALID.
Proof.
  cbn [ib_flags served]. unfold B_VALID, B_DIRTY. apply Z.bits_inj'. intros n Hn.
  rewrite !Z.land_spec, !Z.lor_spec, Z.lnot_spec by done.
  change 2 with (2 ^ 1). change 4 with (2 ^ 2). rewrite !Z.pow2_bits_eqb by lia.
  destruct (Z.eqb_spec 1 n), (Z.eqb_spec 2 n), (Z.testbit (ib_flags x) n); subst; done || lia.
Qed.

Lemma ds_inv_start s D : idequeue s = [] -> (forall p, length (D p) = 128%nat) -> ds_inv (DSys s D None).
Proof.
  intros Hq HD. split; cbn; rewrite ?Hq; try done; [apply NoDup_nil; done|]. intros b Hb. by apply not_elem_of_nil in Hb.
Qed.

Lemma ds_inv_request s D c b x ins s' :
  ds_inv (DSys s D c) -> ide_bufs s !! b = Some x -> may_ask (ide_hw s) x -> b ∉ idequeue s ->
  (if decide (idequeue s = []) then soon_ready ins else ins = []) ->
  iderw b (feed ins s) = Sleep (ChBuf (Z.of_nat b)) s' ->
  ds_inv (DSys s' D (if decide (idequeue s = []) then Some (decode (new_events s s')) else c)).
Proof.
  intros [I1 I2 I3 I4] Hb Hm Hnq Hins Hrun. cbn [ds_ide ds_disk ds_cmd] in *.
  destruct (iderw_run s b x ins Hb Hm Hins) as (ev & Hrun' & Hdec). rewrite Hrun' in Hrun. injection Hrun as <-.
  destruct Hm as (_ & Hw & _ & Hlen). split; cbn [ds_ide ds_disk ds_cmd idequeue ide_bufs].
  - apply NoDup_app. split_and!; [done| |apply NoDup_singleton]. intros n Hn Hn'.
    apply list_elem_of_singleton in Hn' as ->. done.
  - intros n Hn. apply elem_of_app in Hn as [Hn|Hn]; [by apply I2|].
    apply list_elem_of_singleton in Hn as ->. by exists x.
  - case_decide as Eq.
    + rewrite Eq. cbn. rewrite Hb. cbn. rewrite (new_events_after _ _ _ _ _ [] ev eq_refl). by rewrite Hdec.
    + rewrite I3. destruct (idequeue s) as [|n q]; [done|]. done.
  - done.
Qed.

(** The request at the front is complete. *)
Lemma ds_inv_complete s D c ins1 ins2 s' :
  ds_inv (DSys s D (Some c)) -> answers c D ins1 ->
  (if decide (tail (idequeue s) = []) then ins2 = [] else soon_ready ins2) ->
  ideintr (feed (ins1 ++ ins2) s) = Ok tt s' ->
  ds_inv (DSys s' (perform c D)
    (if decide (tail (idequeue s) = []) then None else Some (decode (new_events s s')))).
Proof.
  intros [I1 I2 I3 I4] Ha Hins Hrun. cbn [ds_ide ds_disk ds_cmd] in *.
  destruct (idequeue s) as [|b q] eqn:Eq; [done|]. destruct (I2 b) as (x & Hb & Hw & Hlen); [left|].
  cbn in I3. rewrite Hb in I3. cbn in I3. injection I3 as ->. apply NoDup_cons in I1 as [Hnb Hnd].
  assert (forall n, n ∈ q -> n <> b /\ is_Some (ide_bufs s !! n)) as Hn.
  { intros n Hn. split; [congruence|]. destruct (I2 n) as (y & Hy & _); [by right|]. by exists y. }
  destruct (ideintr_run s b q x D ins1 ins2 Eq Hb Ha (I4 _) Hins Hn) as (ev & Hrun' & Hdec).
  rewrite Hrun' in Hrun. injection Hrun as <-. split; cbn [ds_ide ds_disk ds_cmd idequeue ide_bufs tail].
  - done.
  - intros n Hq. destruct (Hn n Hq) as [Hne _]. rewrite list_lookup_insert_ne by done. apply I2. by right.
  - destruct q as [|n q]; [by rewrite decide_True|]. rewrite decide_False by done. cbn [head].
    destruct (Hn n) as [Hne [y Hy]]; [left|]. cbn. rewrite list_lookup_insert_ne, Hy by done. cbn.
    rewrite (new_events_after _ _ _ _ _ [] ev eq_refl). by rewrite (Hdec n y).
  - intros p. unfold perform, asks. cbn [cm_write cm_words]. destruct (ctrue _); [|apply I4].
    destruct (decide (p = _)); [exact Hlen|apply I4].
Qed.

Lemma ds_inv_reach t t' : rtc ide_step t t' -> ds_inv t -> ds_inv t'.
Proof.
  induction 1 as [|t1 t2 t3 Hs _ IH]; [done|]. intros I. apply IH. destruct Hs as [b x s D c ins s' H1 H2 H3 H4 H5|
    s D c ins1 ins2 s' H1 H2 H3].
  - by eapply ds_inv_request.
  - by eapply ds_inv_complete.
Qed.

(** C14: the IDE driver serves its requests in order.  However processes call
    [iderw] and the disk completes commands: the disk is always working on the
    request at the front of the queue, with the drive, the sector and the data of
    its buffer; a further [iderw] queues its buffer and sleeps; and when the disk
    has done the command, [ideintr] returns with that buffer valid and clean, its
    data those of the sector for a read, takes it off the queue, wakes its
    process, whose [iderw] then returns, and starts the next request. *)
Theorem ide_serves s0 D0 t :
  idequeue s0 = [] -> (forall p, length (D0 p) = 128%nat) -> rtc ide_step (DSys s0 D0 None) t ->
  let s := ds_ide t in
  (idequeue s = [] -> ds_cmd t = None) /\
  (forall b x ins, ide_bufs s !! b = Some x -> may_ask (ide_hw s) x ->
     (if decide (idequeue s = []) then soon_ready ins else ins = []) ->
     exists s', iderw b (feed ins s) = Sleep (ChBuf (Z.of_nat b)) s' /\ idequeue s' = idequeue s ++ [b]) /\
  (forall b q, idequeue s = b :: q -> exists x, ide_bufs s !! b = Some x /\ ds_cmd t = Some (asks x) /\
     forall ins1 ins2, answers (asks x) (ds_disk t) ins1 ->
       (if decide (q = []) then ins2 = [] else soon_ready ins2) ->
       exists s', ideintr (feed (ins1 ++ ins2) s) = Ok tt s' /\ idequeue s' = q /\
         ide_bufs s' = <[b := served x (ds_disk t)]> (ide_bufs s) /\
         ide_wakeups s' = ide_wakeups s ++ [ChBuf (Z.of_nat b)] /\ iderw_wait b s' = Ok tt s').
Proof.
  intros Hq HD Hs s. pose proof (ds_inv_reach _ _ Hs (ds_inv_start s0 D0 Hq HD)) as [I1 I2 I3 I4]. fold s in I1, I2, I3.
  split_and!.
  - intros E. rewrite I3, E. done.
  - intros b x ins Hb Hm Hins. destruct (iderw_run s b x ins Hb Hm Hins) as (ev & Hrun & _). by eexists.
  - intros b q Eq. rewrite Eq in I1, I2, I3. destruct (I2 b) as (x & Hb & Hw & Hlen); [left|]. exists x.
    split; [done|]. split; [rewrite I3; cbn; by rewrite Hb|]. intros ins1 ins2 Ha Hins.
    apply NoDup_cons in I1 as [Hnb Hnd].
    destruct (ideintr_run s b q x (ds_disk t) ins1 ins2 Eq Hb Ha (I4 _) Hins) as (ev & Hrun & _).
    { intros n Hn. split; [congruence|]. destruct (I2 n) as (y & Hy & _); [by right|]. by exists y. }
    eexists. split; [exact Hrun|]. cbn [idequeue ide_bufs ide_wakeups]. split_and!; try done.
    unfold iderw_wait, get_ibuf, get, mbind, M_bind. cbn [ide_bufs].
    rewrite list_lookup_insert_eq by (by eapply lookup_lt_Some). cbn [of_option]. unfold mret, M_ret.
    by rewrite (proj2 (Z.eqb_eq _ _) (served_flags x (ds_disk t))).
Qed.

(** Two requests at an idle disk: buffer 1 writes sector 7 of disk 0, and
    buffer 0 reads it. *)
Definition demo_ide : ide :=
  Ide (hw0 []) [IBuf B_BUSY 0 7 (replicate 128 0); IBuf (B_BUSY .| B_DIRTY) 0 7 (replicate 128 5)] [] [].

Lemma ide_serves_witness :
  exists t s', rtc ide_step (DSys demo_ide (fun _ => replicate 128 0) None) t /\
    idequeue (ds_ide t) = [1%nat; 0%nat] /\ ds_cmd t = Some (Command true 0 7 (replicate 128 5)) /\
    ideintr (feed [64] (ds_ide t)) = Ok tt s' /\ idequeue s' = [0%nat] /\ iderw_wait 1 s' = Ok tt s'.
Proof.
  set (D := fun _ : Z * Z => replicate 128 0).
  destruct (iderw_run demo_ide 1 (IBuf (B_BUSY .| B_DIRTY) 0 7 (replicate 128 5)) [64]) as (ev1 & R1 & _);
    [reflexivity|by repeat split; left|rewrite decide_True by done; by exists [], 64|].
  set (s1 := Ide _ _ _ _) in R1.
  assert (ide_step (DSys demo_ide D None) (DSys s1 D (Some (decode (new_events demo_ide s1))))) as S1.
  { apply (St_request 1 (IBuf (B_BUSY .| B_DIRTY) 0 7 (replicate 128 5)) demo_ide D None [64]); try done.
    - by repeat split; left.
    - by apply not_elem_of_nil.
    - rewrite decide_True by done. by exists [], 64. }
  destruct (iderw_run s1 0 (IBuf B_BUSY 0 7 (replicate 128 0)) []) as (ev2 & R2 & _);
    [reflexivity|by repeat split; left|done|].
  set (s2 := Ide _ _ _ _) in R2. set (c := decode (new_events demo_ide s1)) in S1.
  assert (ide_step (DSys s1 D (Some c)) (DSys s2 D (Some c))) as S2.
  { apply (St_request 0 (IBuf B_BUSY 0 7 (replicate 128 0)) s1 D (Some c) []); try done.
    - by repeat split; left.
    - cbn. set_solver. }
  assert (rtc ide_step (DSys demo_ide D None) (DSys s2 D (Some c))) as Hs.
  { eapply rtc_l; [exact S1|]. by apply rtc_once. }
  destruct (ide_serves demo_ide D (DSys s2 D (Some c)) eq_refl) as (_ & _ & Hserve); [done|exact Hs|].
  destruct (Hserve 1%nat [0%nat] eq_refl) as (x & Hx & Hc & Hrun). injection Hx as <-.
  destruct (Hrun [] [64]) as (s3 & R3 & Q3 & _ & _ & W3); [done|rewrite decide_False by done; by exists [], 64|].
  exists (DSys s2 D (Some c)), s3. exact (conj Hs (conj eq_refl (conj Hc (conj R3 (conj Q3 W3))))).
Defined.
