(* ===== verification/Icache.v ===== *)
(** The inode cache of fs.c: its invariant, the number of references it counts
    for an inode, and the effect on both of [iget], [idup], [ilock], [iunlock]
    and [iput]. *)

From stdpp Require Import prelude strings gmap list.
From S2P Require Import Prelude Bytes Param BlockCache Log TxDisk Fs FsAlloc FsFile FsWrite.

(** ** Sums over the cache *)

Definition total (f : inode -> Z) (ic : list inode) : Z := foldr (fun i n => f i + n) 0 ic.

Lemma total_insert f ic k i j :
  ic !! k = Some i -> total f (<[k := j]> ic) = total f ic - f i + f j.
Proof.
  revert k. induction ic as [|h ic IH]; intros [|k] Hk; try done.
  - injection Hk as ->. unfold total. simpl. lia.
  - change (f h + total f (<[k := j]> ic) = f h + total f ic - f i + f j). rewrite (IH k Hk). lia.
Qed.

Lemma total_le f ic k i :
  (forall k i, ic !! k = Some i -> 0 <= f i) -> ic !! k = Some i -> 0 <= f i <= total f ic.
Proof.
  intros Hf. enough (0 <= total f ic /\ (ic !! k = Some i -> f i <= total f ic)) by (intros Hk; specialize (Hf _ _ Hk); naive_solver).
  revert k Hf. induction ic as [|h ic IH]; intros k Hf; [done|]. change (total f (h :: ic)) with (f h + total f ic).
  pose proof (Hf 0%nat h eq_refl). destruct (IH (pred k)) as [H0 H1]; [intros k' j Hj; exact (Hf (S k') j Hj)|].
  split; [lia|]. destruct k as [|k]; [intros [= ->]; lia|]. intros Hk. specialize (H1 Hk). lia.
Qed.

Lemma total_iinit f : f inode0 = 0 -> total f iinit = 0.
Proof.
  intros Hf. unfold iinit. induction (Z.to_nat NINODE) as [|n IH]; [done|].
  change (f inode0 + total f (replicate n inode0) = 0). lia.
Qed.

(** The references to inode [x], and the entries that are not in use. *)
Definition refs (ic : list inode) (x : Z) : Z := total (fun i => if decide (i_inum i = x) then i_ref i else 0) ic.
Definition unused (ic : list inode) : Z := total (fun i => if decide (i_ref i = 0) then 1 else 0) ic.

Lemma unused_pos ic : 0 < unused ic -> exists k i, ic !! k = Some i /\ i_ref i = 0.
Proof.
  induction ic as [|h ic IH]; [done|].
  change (unused (h :: ic)) with ((if decide (i_ref h = 0) then 1 else 0) + unused ic).
  destruct (decide (i_ref h = 0)); intros Hu.
  - by exists 0%nat, h.
  - destruct (IH Hu) as (k & i & Hk & Hi). by exists (S k), i.
Qed.

(** ** The invariant *)

Definition disk_inode (mem : gmap Z block) (x : Z) : dinode := dinode_at (mem !!! IBLOCK x) (dinode_off x).

(** Entry [lk] is locked and no other.  An entry in use belongs to the disk and
    is the only one for its inode, and what was read from the disk agrees with it. *)
Record icache_ok (sb : superblock) (mem : gmap Z block) (lk : option nat) (ic : list inode) : Prop := {
  ic_ref k i : ic !! k = Some i -> 0 <= i_ref i;
  ic_dev k i : ic !! k = Some i -> 0 < i_ref i -> i_dev i = 1 /\ 0 <= i_inum i < sb_ninodes sb;
  ic_flags k i : ic !! k = Some i -> 0 < i_ref i ->
    if decide (lk = Some k) then i_flags i = 3 else i_flags i = 0 \/ i_flags i = I_VALID;
  ic_sync k i : ic !! k = Some i -> 0 < i_ref i -> i_flags i <> 0 -> synced mem i;
  ic_uniq j k a b : ic !! j = Some a -> ic !! k = Some b -> 0 < i_ref a -> 0 < i_ref b ->
    i_inum a = i_inum b -> j = k;
  ic_lock k : lk = Some k -> exists i, ic !! k = Some i /\ 0 < i_ref i
}.

Lemma iinit_ok sb mem : icache_ok sb mem None iinit.
Proof.
  assert (forall k i, iinit !! k = Some i -> i_ref i = 0) as H
    by (intros k i [-> _]%lookup_replicate; done).
  constructor; [intros; repeat match goal with Hk : iinit !! _ = Some _ |- _ => apply H in Hk end; lia..|done].
Qed.

(** Replacing one entry, and the blocks of no other. *)
Lemma icache_ok_update sb mem mem' lk lk' ic k i j :
  icache_ok sb mem lk ic -> ic !! k = Some i -> 0 <= i_ref j ->
  (forall x, x <> k -> lk' = Some x <-> lk = Some x) -> (lk' = Some k -> 0 < i_ref j) ->
  (0 < i_ref j ->
    i_dev j = 1 /\ 0 <= i_inum j < sb_ninodes sb /\
    (if decide (lk' = Some k) then i_flags j = 3 else i_flags j = 0 \/ i_flags j = I_VALID) /\
    (i_flags j <> 0 -> synced mem' j) /\
    (forall x a, x <> k -> ic !! x = Some a -> 0 < i_ref a -> i_inum a <> i_inum j)) ->
  (forall x a, x <> k -> ic !! x = Some a -> 0 < i_ref a -> synced mem a -> synced mem' a) ->
  icache_ok sb mem' lk' (<[k := j]> ic).
Proof.
  intros [Hr Hd Hf Hs Hu Hl] Hk Hj Hlk Hlj Hnew Hsame.
  assert (forall x a, <[k := j]> ic !! x = Some a -> x = k /\ a = j \/ x <> k /\ ic !! x = Some a) as Hin.
  { intros x a [(-> & -> & _)|[Hne Hx]]%list_lookup_insert_Some; eauto. }
  constructor.
  - intros x a [[-> ->]|[_ Hx]]%Hin; eauto.
  - intros x a [[-> ->]|[_ Hx]]%Hin Ha; [|eauto]. destruct (Hnew Ha) as (?&?&_). done.
  - intros x a [[-> ->]|[Hne Hx]]%Hin Ha; [by destruct (Hnew Ha) as (_&_&?&_)|].
    specialize (Hf x a Hx Ha). specialize (Hlk x Hne).
    destruct (decide (lk = Some x)), (decide (lk' = Some x)); tauto.
  - intros x a [[-> ->]|[Hne Hx]]%Hin Ha; [by destruct (Hnew Ha) as (_&_&_&?&_)|eauto].
  - intros x y a b [[-> ->]|[Hx Hxa]]%Hin [[-> ->]|[Hy Hyb]]%Hin Ha Hb E; [done|..].
    + destruct (Hnew Ha) as (_&_&_&_&H). by destruct (H y b Hy Hyb Hb).
    + destruct (Hnew Hb) as (_&_&_&_&H). by destruct (H x a Hx Hxa Ha).
    + by eapply Hu.
  - intros x Hx. destruct (decide (x = k)) as [->|Hne].
    + exists j. split; [apply list_lookup_insert_eq; by eapply lookup_lt_Some|auto].
    + destruct (Hl x) as (a & Ha & Hra); [by apply Hlk|]. exists a. by rewrite list_lookup_insert_ne.
Qed.

Lemma icache_ok_insert sb mem lk lk' ic k i j :
  icache_ok sb mem lk ic -> ic !! k = Some i -> 0 <= i_ref j ->
  (forall x, x <> k -> lk' = Some x <-> lk = Some x) -> (lk' = Some k -> 0 < i_ref j) ->
  (0 < i_ref j ->
    i_dev j = 1 /\ 0 <= i_inum j < sb_ninodes sb /\
    (if decide (lk' = Some k) then i_flags j = 3 else i_flags j = 0 \/ i_flags j = I_VALID) /\
    (i_flags j <> 0 -> synced mem j) /\
    (forall x a, x <> k -> ic !! x = Some a -> 0 < i_ref a -> i_inum a <> i_inum j)) ->
  icache_ok sb mem lk' (<[k := j]> ic).
Proof. intros. by eapply icache_ok_update. Qed.

(** A change of the disk that no entry in use sees. *)
Lemma icache_ok_disk sb mem mem' lk ic :
  icache_ok sb mem lk ic ->
  (forall k a, ic !! k = Some a -> 0 < i_ref a -> disk_inode mem' (i_inum a) = disk_inode mem (i_inum a)) ->
  icache_ok sb mem' lk ic.
Proof.
  intros [Hr Hd Hf Hs Hu Hl] Hm. constructor; try done. intros k a Ha Hra Hfl.
  unfold synced. pose proof (Hm k a Ha Hra) as E. unfold disk_inode in E. rewrite E. by eapply Hs.
Qed.

(** An entry keeps its inode and its lock; its count may change. *)
Lemma icache_ok_ref sb mem lk ic k i r :
  icache_ok sb mem lk ic -> ic !! k = Some i -> 0 < i_ref i -> 0 <= r ->
  (lk = Some k -> 0 < r) -> icache_ok sb mem lk (<[k := set_ref r i]> ic).
Proof.
  intros H Hk Hi Hr Hlr. eapply (icache_ok_insert _ _ lk); [exact H|exact Hk|done..|]. intros _.
  destruct (ic_dev _ _ _ _ H k i Hk Hi). do 2 (split; [done|]).
  split; [exact (ic_flags _ _ _ _ H k i Hk Hi)|]. split; [exact (ic_sync _ _ _ _ H k i Hk Hi)|].
  intros x a Hx Ha Hra E. apply Hx. exact (ic_uniq _ _ _ _ H x k a i Ha Hk Hra Hi E).
Qed.

Lemma refs_insert_ref ic k i r x :
  ic !! k = Some i ->
  refs (<[k := set_ref r i]> ic) x = refs ic x + (if decide (i_inum i = x) then r - i_ref i else 0).
Proof. intros Hk. unfold refs. rewrite (total_insert _ _ _ _ _ Hk). cbn. case_decide; lia. Qed.

Lemma refs_insert_same ic k i j x :
  ic !! k = Some i -> i_inum j = i_inum i -> i_ref j = i_ref i -> refs (<[k := j]> ic) x = refs ic x.
Proof. intros Hk E1 E2. unfold refs. rewrite (total_insert _ _ _ _ _ Hk). rewrite E1, E2. lia. Qed.

Lemma refs_at sb mem lk ic k i :
  icache_ok sb mem lk ic -> ic !! k = Some i -> i_ref i <= refs ic (i_inum i).
Proof.
  intros H Hk. unfold refs. set (f := fun _ => _). assert (f i = i_ref i) as <- by (unfold f; by case_decide).
  apply (total_le f ic k i); [|done]. intros k' a Ha. unfold f. case_decide; [|done]. by eapply ic_ref.
Qed.

(** ** The operations *)

(** The scan of [iget]: the entry of the inode, or else the first one unused. *)
Lemma iget_scan_spec dev inum l : forall k e,
  match iget_scan dev inum l k e with
  | (Some p, _) => exists j i, p = k + Z.of_nat j /\ l !! j = Some i /\ 0 < i_ref i /\ i_inum i = inum
  | (None, r) =>
      (forall j i, l !! j = Some i -> 0 < i_ref i -> i_dev i = dev -> i_inum i <> inum) /\
      match e with
      | Some x => r = Some x
      | None => match r with
                | Some p => exists j i, p = k + Z.of_nat j /\ l !! j = Some i /\ i_ref i = 0
                | None => forall j i, l !! j = Some i -> i_ref i <> 0
                end
      end
  end.
Proof.
  induction l as [|h l IH]; intros k e; cbn [iget_scan].
  { split; [done|]. destruct e; done. }
  destruct (0 <? i_ref h) eqn:E1, (i_dev h =? dev) eqn:E2, (i_inum h =? inum) eqn:E3; cbn [andb];
    try (exists 0%nat, h; split_and!; [lia|done|lia|lia]).
  all: match goal with |- context [iget_scan _ _ _ _ ?e'] => specialize (IH (k + 1) e') end;
    destruct (iget_scan _ _ _ _ _) as [[p|] r];
    [destruct IH as (j & i & -> & Hj & ? & ?); exists (S j), i; split_and!; [lia|done..]|].
  all: destruct IH as [IH1 IH2]; split; [intros [|j] i Hj; [injection Hj as <-; lia|by apply (IH1 j i)]|].
  all: destruct e as [x|]; [done|]; destruct (Z.eqb_spec (i_ref h) 0); [subst r; exists 0%nat, h; split_and!; [lia|done..]|].
  all: destruct r as [p|];
    [destruct IH2 as (j & i & -> & Hj & ?); exists (S j), i; split_and!; [lia|done..]
    |intros [|j] i Hj; [by injection Hj as <-|by apply (IH2 j i)]].
Qed.

Section runs.
Context {D : Type} (out start sz : Z) (wk : list chan) (rest : D) (sb : superblock).
Context (mem : gmap Z block) (lg : gset Z) (lk : option nat) (ic : list inode).
Hypothesis Hic : icache_ok sb mem lk ic.
Abbreviation st := (fstate out start sz wk rest mem ∅ lg).
Abbreviation INT_MAX := 2147483647.

(** A new reference to an inode: one more is counted, the entry [k] is its, and
    an entry is taken for it only if it had none. *)
Record ref_taken (x : Z) (k : nat) (ic' : list inode) : Prop := {
  rt_ok : icache_ok sb mem lk ic';
  rt_refs y : refs ic' y = refs ic y + (if decide (y = x) then 1 else 0);
  rt_entry : exists i j, ic !! k = Some i /\ ic' = <[k := j]> ic /\ i_inum j = x /\ 0 < i_ref j /\
    (0 < i_ref i -> j = set_ref (i_ref i + 1) i) /\
    unused ic' + (if decide (i_ref j = 1) then 1 else 0) = unused ic
}.

Lemma ref_taken_again k i :
  ic !! k = Some i -> 0 < i_ref i -> refs ic (i_inum i) < INT_MAX ->
  s32 (i_ref i + 1) = i_ref i + 1 /\ ref_taken (i_inum i) k (<[k := set_ref (i_ref i + 1) i]> ic).
Proof.
  intros Hk Hi Hm. pose proof (refs_at _ _ _ _ _ _ Hic Hk) as Hle. split; [apply s32_small; lia|]. constructor.
  - by apply icache_ok_ref; try lia.
  - intros y. rewrite (refs_insert_ref _ _ _ _ _ Hk). repeat case_decide; try congruence; lia.
  - exists i, (set_ref (i_ref i + 1) i). cbn [i_inum i_ref set_ref]. split_and!; try done; [lia|].
    unfold unused. rewrite (total_insert _ _ _ _ _ Hk). cbn. repeat case_decide; lia.
Qed.

Lemma ref_taken_new x k i :
  ic !! k = Some i -> i_ref i = 0 -> 0 <= x < sb_ninodes sb ->
  (forall j a, ic !! j = Some a -> 0 < i_ref a -> i_dev a = 1 -> i_inum a <> x) ->
  ref_taken x k (<[k := Inode 1 x 1 0 (i_type i) (i_major i) (i_minor i) (i_nlink i) (i_size i) (i_addrs i)]> ic).
Proof.
  intros Hk Hi Hx Hno. set (j := Inode _ _ _ _ _ _ _ _ _ _).
  assert (lk <> Some k) as Hlk by (intros E; destruct (ic_lock _ _ _ _ Hic k E) as (a & Ha & Hra); simplify_eq; lia).
  constructor.
  - eapply (icache_ok_insert _ _ lk); [exact Hic|exact Hk|done..|]. intros _.
    do 2 (split; [done|]). rewrite decide_False by done. split; [by left|]. split; [done|].
    intros y a _ Ha Hra. apply (Hno y a Ha Hra), (ic_dev _ _ _ _ Hic y a Ha Hra).
  - intros y. unfold refs. rewrite (total_insert _ _ _ _ _ Hk). cbn.
    repeat case_decide; try congruence; lia.
  - exists i, j. split_and!; try done; [lia|]. unfold unused. rewrite (total_insert _ _ _ _ _ Hk). cbn.
    repeat case_decide; try done; lia.
Qed.

Lemma iget_run x :
  0 <= x < sb_ninodes sb -> 0 < unused ic -> refs ic x < INT_MAX ->
  exists k ic', iget ROOTDEV x (st ic) = Ok (Z.of_nat k) (st ic') /\ ref_taken x k ic'.
Proof.
  intros Hx Hu Hm. unfold iget. rewrite (bind_run _ _ _ ic (st ic)) by done. change ROOTDEV with 1.
  pose proof (iget_scan_spec 1 x ic 0 None) as Hs. destruct (iget_scan _ _ _ _ _) as [[p|] r].
  - destruct Hs as (k & i & -> & Hk & Hi & <-). rewrite Z.add_0_l.
    destruct (ref_taken_again k i Hk Hi Hm) as [E Hr]. eexists k, _. split; [|exact Hr].
    erewrite bind_run; [|by apply get_inode_run]. erewrite bind_run; [|apply set_inode_run]. by rewrite E.
  - destruct Hs as [Hno Hs]. destruct r as [p|].
    + destruct Hs as (k & i & -> & Hk & Hi). rewrite Z.add_0_l.
      eexists k, _. split; [|exact (ref_taken_new x k i Hk Hi Hx Hno)].
      erewrite bind_run; [|by apply get_inode_run]. erewrite bind_run; [|apply set_inode_run]. done.
    + destruct (unused_pos ic Hu) as (k & i & Hk & Hi). by destruct (Hs k i Hk).
Qed.

Lemma idup_run k i :
  ic !! k = Some i -> 0 < i_ref i -> refs ic (i_inum i) < INT_MAX ->
  exists ic', idup (Z.of_nat k) (st ic) = Ok (Z.of_nat k) (st ic') /\ ref_taken (i_inum i) k ic'.
Proof.
  intros Hk Hi Hm. destruct (ref_taken_again k i Hk Hi Hm) as [E Hr]. eexists. split; [|exact Hr]. unfold idup.
  erewrite bind_run; [|by apply get_inode_run]. erewrite bind_run; [|apply set_inode_run]. by rewrite E.
Qed.

(** Giving a reference back, when it is not the last one of an inode without links. *)
Lemma iput_run k i :
  ic !! k = Some i -> 0 < i_ref i -> refs ic (i_inum i) <= INT_MAX -> (lk = Some k -> 1 < i_ref i) ->
  (i_flags i <> 0 -> i_nlink i <> 0) ->
  let ic' := <[k := set_ref (i_ref i - 1) i]> ic in
  iput (Z.of_nat k) (st ic) = Ok tt (st ic') /\ icache_ok sb mem lk ic' /\
  (forall y, refs ic' y = refs ic y - (if decide (y = i_inum i) then 1 else 0)) /\
  unused ic' = unused ic + (if decide (i_ref i = 1) then 1 else 0).
Proof.
  intros Hk Hi Hm Hlk Hn ic'. pose proof (refs_at _ _ _ _ _ _ Hic Hk) as Hle. split_and!.
  - assert (((i_ref i =? 1) && ctrue (i_flags i .& I_VALID) && (i_nlink i =? 0))%bool = false) as E.
    { destruct (Z.eqb_spec (i_nlink i) 0) as [E0|]; [|by rewrite andb_false_r].
      assert (i_flags i = 0) as -> by (destruct (decide (i_flags i = 0)); [done|tauto]).
      change (ctrue (0 .& I_VALID)) with false. by rewrite andb_false_r. }
    unfold iput. erewrite bind_run; [|by apply get_inode_run]. rewrite E.
    erewrite bind_run; [|reflexivity]. erewrite bind_run; [|by apply get_inode_run].
    rewrite set_inode_run. unfold ic'. by rewrite s32_small by lia.
  - apply icache_ok_ref; [done..|lia|]. intros E. specialize (Hlk E). lia.
  - intros y. unfold ic'. rewrite (refs_insert_ref _ _ _ _ _ Hk). repeat case_decide; try congruence; lia.
  - unfold ic', unused. rewrite (total_insert _ _ _ _ _ Hk). cbn. repeat case_decide; lia.
Qed.

End runs.

(** *** The lock *)

(** An inode read from the disk and locked. *)
Definition locked_inode (mem : gmap Z block) (i : inode) : inode :=
  load_dinode (disk_inode mem (i_inum i)) (set_flags 3 i).

Lemma locked_synced mem i : synced mem i -> locked_inode mem i = set_flags 3 i.
Proof. unfold synced, locked_inode, disk_inode. intros ->. by destruct i. Qed.

Lemma load_synced mem i j :
  i_inum j = i_inum i -> synced mem (load_dinode (disk_inode mem (i_inum i)) j).
Proof. intros E. unfold synced, disk_inode. cbn [i_inum load_dinode]. rewrite E. by destruct (dinode_at _ _). Qed.

Section locks.
Context {D : Type} (out start sz : Z) (wk : list chan) (rest : D) (sb : superblock).
Context (mem : gmap Z block) (lg : gset Z) (ic : list inode) (k : nat) (i : inode).
Abbreviation st wk := (fstate out start sz wk rest mem ∅ lg).

Lemma ilock_load_run :
  layout sb start mem -> Z.of_nat (size lg) < loglim sz -> icache_ok sb mem None ic ->
  ic !! k = Some i -> 0 < i_ref i -> di_type (disk_inode mem (i_inum i)) <> 0 ->
  ilock (Some (Z.of_nat k)) (st wk ic) = Ok tt (st wk (<[k := locked_inode mem i]> ic)).
Proof.
  intros L Hl Hic Hk Hi Ht. destruct (ic_dev _ _ _ _ Hic k i Hk Hi) as [Hdev Hin].
  assert (forall a b, <[k := b]> (<[k := a]> ic) = <[k := b]> ic) as Hii by (intros; apply list_insert_insert_eq).
  assert (forall a, <[k := a]> ic !! k = Some a) as Hka
    by (intros; apply list_lookup_insert_eq; by eapply lookup_lt_Some).
  unfold ilock. erewrite bind_run; [|by apply get_inode_run]. destruct (Z.ltb_spec (i_ref i) 1); [lia|].
  assert (i_flags i = 0 \/ i_flags i = I_VALID) as Hf
    by (pose proof (ic_flags _ _ _ _ Hic k i Hk Hi) as H'; by rewrite decide_False in H').
  assert (ctrue (i_flags i .& I_BUSY) = false) as -> by (destruct Hf as [-> | ->]; done).
  erewrite bind_run; [|apply set_inode_run]. erewrite bind_run; [|apply get_inode_run, Hka].
  destruct Hf as [Hf|Hf]; rewrite Hf.
  - destruct (IBLOCK_range start sb mem (i_inum i) L Hin) as (Hr & _ & Hd0). pose proof (ly_start _ _ _ L).
    destruct (ly_dom _ _ _ L (IBLOCK (i_inum i))) as [d Hd]; [lia|].
    assert (mem !!! IBLOCK (i_inum i) = d) as Hd' by (by apply lookup_total_correct).
    unfold disk_inode in Ht. rewrite Hd' in Ht.
    cbn [i_flags i_dev i_inum set_flags load_dinode]. change (negb (ctrue ((0 .| I_BUSY) .& I_VALID))) with true.
    unfold when. cbv iota. rewrite Hdev. erewrite bind_run; [|apply bread_run; [lia|set_solver|done|by rewrite size_empty; lia|exact Hd]].
    cbv zeta. erewrite bind_run; [|apply set_inode_run]. cbn [i_inum set_flags load_dinode].
    rewrite Hii. erewrite bind_run; [|apply brelse_run; set_solver].
    erewrite bind_run; [|apply set_inode_run]. rewrite Hii. cbn [i_type load_dinode set_flags].
    rewrite (proj2 (Z.eqb_neq _ _) Ht). unfold locked_inode, disk_inode. by rewrite Hd'.
  - assert (synced mem i) as Hs by (apply (ic_sync _ _ _ _ Hic k i Hk Hi); by rewrite Hf).
    rewrite (locked_synced _ _ Hs). done.
Qed.

Lemma locked_ok :
  icache_ok sb mem None ic -> ic !! k = Some i -> 0 < i_ref i ->
  icache_ok sb mem (Some k) (<[k := locked_inode mem i]> ic).
Proof.
  intros Hic Hk Hi. destruct (ic_dev _ _ _ _ Hic k i Hk Hi) as [Hdev Hin].
  eapply (icache_ok_insert _ _ None); [exact Hic|exact Hk|cbn; lia|intros x Hx; split; congruence|done|].
  intros _. do 2 (split; [done|]). rewrite decide_True by done. split; [done|].
  split; [intros _; by apply load_synced|].
  intros x a Hx Ha Hra E. apply Hx. exact (ic_uniq _ _ _ _ Hic x k a i Ha Hk Hra Hi E).
Qed.

Lemma iunlock_ok_run :
  icache_ok sb mem (Some k) ic -> ic !! k = Some i ->
  iunlock (Some (Z.of_nat k)) (st wk ic) =
    Ok tt (st (wk ++ [ChInode (Z.of_nat k)]) (<[k := set_flags I_VALID i]> ic)) /\
  icache_ok sb mem None (<[k := set_flags I_VALID i]> ic).
Proof.
  intros Hic Hk. destruct (ic_lock _ _ _ _ Hic k eq_refl) as (i' & Hk' & Hi). simplify_eq.
  pose proof (ic_flags _ _ _ _ Hic k i Hk Hi) as Hf. rewrite decide_True in Hf by done.
  destruct (ic_dev _ _ _ _ Hic k i Hk Hi) as [Hdev Hin]. split.
  - unfold iunlock. erewrite bind_run; [|by apply get_inode_run]. rewrite Hf.
    destruct (Z.ltb_spec (i_ref i) 1); [lia|]. change (negb (ctrue (3 .& I_BUSY))) with false. cbn [orb].
    erewrite bind_run; [|apply set_inode_run]. done.
  - eapply (icache_ok_insert _ _ (Some k)); [exact Hic|exact Hk|cbn; lia|intros x Hx; split; congruence|done|].
    intros _. do 2 (split; [done|]). split; [by right|]. split.
    + intros _. apply (ic_sync _ _ _ _ Hic k i Hk Hi). by rewrite Hf.
    + intros x a Hx Ha Hra E. apply Hx. exact (ic_uniq _ _ _ _ Hic x k a i Ha Hk Hra Hi E).
Qed.
End locks.

(** A write through the locked entry keeps the invariant. *)
Lemma icache_ok_written start sb mem ic ip i off bytes mem' i' :
  icache_ok sb mem (Some ip) ic -> ic !! ip = Some i -> written start sb mem i off bytes mem' i' ->
  icache_ok sb mem' (Some ip) (<[ip := i']> ic).
Proof.
  intros Hic Hip W. destruct (ic_lock _ _ _ _ Hic ip eq_refl) as (a & Ha & Hi). simplify_eq.
  destruct (ic_dev _ _ _ _ Hic ip i Hip Hi) as [Hdev Hin].
  pose proof (ic_flags _ _ _ _ Hic ip i Hip Hi) as Hf. rewrite decide_True in Hf by done.
  assert (i_dev i' = 1 /\ i_inum i' = i_inum i /\ i_ref i' = i_ref i /\ i_flags i' = 3) as (E1 & E2 & E3 & E4)
    by (rewrite (wr_inode _ _ _ _ _ _ _ _ W); cbn; by rewrite Hdev, Hf).
  assert (forall x a, x <> ip -> ic !! x = Some a -> 0 < i_ref a -> i_inum a <> i_inum i) as Hne
    by (intros x a Hx Ha Hra E; apply Hx; by eapply (ic_uniq _ _ _ _ Hic)).
  eapply icache_ok_update; [exact Hic|exact Hip|lia|done|lia| |].
  - intros _. rewrite E2. do 2 (split; [done|]). rewrite decide_True by done. split; [done|].
    split; [intros _; apply W|done].
  - intros x a Hx Ha Hra Hs. unfold synced. rewrite (wr_dinode _ _ _ _ _ _ _ _ W); [done| |by eapply Hne].
    by eapply (ic_dev _ _ _ _ Hic).
Qed.
