(* ===== verification/TruncThms.v ===== *)
(** The end of a file: [itrunc] frees the blocks of an inode, and the last
    [iput] of an inode without links frees the inode, on the disk too. *)

From stdpp Require Import prelude strings gmap list.
From S2P Require Import Prelude Bytes Param BlockCache Log LogCrash BioSpec Bio BioOps TxDisk CrashDisk.
From S2P Require Import Fs Dir FsSim FsAlloc FsFile FsWrite FsCheck FsThms Icache.

#[local] Opaque binit small_image small_inode.

(** An inode without blocks is well formed on every disk. *)
Lemma no_blocks_ok sb start mem i :
  i_dev i = 1 -> 0 <= i_inum i < sb_ninodes sb ->
  is_s16 (i_type i) /\ is_s16 (i_major i) /\ is_s16 (i_minor i) /\ is_s16 (i_nlink i) ->
  i_addrs i = replicate 13 0 -> i_size i = 0 -> inode_ok sb start mem i.
Proof.
  intros H1 H2 H3 Ha Hs.
  assert (forall k, slot mem i k = 0) as Hz.
  { intros k. assert (forall j, (replicate 13 0).[j] = 0) as Hr.
    { intros j. rewrite nth_lookup. by destruct (replicate 13 0 !! Z.to_nat j) as [x|] eqn:E;
        [apply lookup_replicate in E as [-> _]|]. }
    unfold slot, indirect. rewrite Ha, !Hr. destruct (k <? NDIRECT), (k =? MAXFILE); done. }
  constructor; try done.
  - by rewrite Ha.
  - intros k _ Hk. by rewrite Hz in Hk.
  - intros j k _ _ Hj. by rewrite Hz in Hj.
  - rewrite Hs. done.
  - intros k Hk Hlt. rewrite Hs in Hlt. unfold BSIZE in Hlt. lia.
Qed.

Section trunc.
Context {D : Type} (out start sz : Z) (wk : list chan) (rest : D) (sb : superblock).
Hypothesis Hout : 1 <= out.
Context (mem0 : gmap Z block) (lg0 : gset Z) (i0 : inode).
Hypothesis L0 : layout sb start mem0.
Hypothesis O0 : inode_ok sb start mem0 i0.
Implicit Types (mem : gmap Z block) (held lg : gset Z) (ic : list inode).
Abbreviation fstate := (fstate out start sz wk rest).
Abbreviation lim := (loglim sz).

(** [itrunc] goes through the slots of the inode in order: the direct blocks,
    the indirect ones, and the indirect block itself.  The disk after the first
    [k] slots. *)
Record freed (k : Z) mem lg : Prop := {
  fr_layout : layout sb start mem;
  fr_used x : 0 <= x < sb_size sb ->
    (used sb mem x = true <->
     used sb mem0 x = true /\ ~ exists j, 0 <= j < k /\ slot mem0 i0 j = x /\ x <> 0);
  fr_same x : x ∉ bitmaps sb -> mem !! x = mem0 !! x;
  fr_log : lg ⊆ bitmaps sb ∪ lg0
}.

Hypothesis Hlim : Z.of_nat (size (bitmaps sb ∪ lg0)) < lim.

Lemma freed_lim k mem lg : freed k mem lg -> Z.of_nat (size lg) < lim.
Proof. intros [_ _ _ Hs]. by eapply size_sub. Qed.

Lemma freed_0 : freed 0 mem0 lg0.
Proof.
  constructor; [done| |done|set_solver]. intros x Hx. split; [|tauto]. intros Hu. split; [done|]. intros (j & ? & _). lia.
Qed.

(** Slots that are empty. *)
Lemma freed_skip k k' mem lg :
  k <= k' -> (forall j, k <= j < k' -> slot mem0 i0 j = 0) -> freed k mem lg -> freed k' mem lg.
Proof.
  intros Hk Hz [L Hu Hs Hl]. constructor; try done. intros x Hx. rewrite (Hu x Hx).
  split; (intros [H1 H2]; split; [done|]; intros (j & Hj & E & Hx0); apply H2; exists j; split; [|done]); [|lia].
  destruct (decide (j < k)); [lia|]. rewrite Hz in E by lia. congruence.
Qed.

Lemma data_not_bitmap x : data_start sb <= x -> x ∉ bitmaps sb.
Proof.
  intros Hx Hin. unfold bitmaps in Hin. rewrite elem_of_list_to_set, list_elem_of_fmap in Hin.
  destruct Hin as (b & -> & Hb%elem_of_upto). pose proof (bitmap_block_range _ _ _ L0 b Hb). lia.
Qed.

(** A slot not yet reached is still in use. *)
Lemma freed_later k j mem lg :
  freed k mem lg -> 0 <= k <= j -> j <= MAXFILE -> slot mem0 i0 j <> 0 ->
  data_start sb <= slot mem0 i0 j < start /\ used sb mem (slot mem0 i0 j) = true.
Proof.
  intros F Hk Hj Hs. destruct (io_slot _ _ _ _ O0 j ltac:(lia) Hs) as [Hr Hu]. split; [done|].
  pose proof (ly_start _ _ _ L0). pose proof (layout_data_pos sb start mem0 L0).
  apply (fr_used _ _ _ F); [lia|]. split; [done|]. intros (j' & Hj' & E & _).
  pose proof (io_inj _ _ _ _ O0 j j' ltac:(lia) ltac:(lia) Hs (eq_sym E)). lia.
Qed.

(** Freeing slot [k]. *)
Lemma free_slot k mem held lg ic :
  freed k mem lg -> 0 <= k <= MAXFILE -> slot mem0 i0 k <> 0 -> holds start sb mem held ->
  exists mem' lg', bfree 1 (slot mem0 i0 k) (fstate mem held lg ic) = Ok tt (fstate mem' held lg' ic) /\
    freed (k + 1) mem' lg'.
Proof.
  intros F Hk Hs Hh. destruct (freed_later k k mem lg F ltac:(lia) ltac:(lia) Hs) as [Hr Hu].
  pose proof (ly_start _ _ _ L0). pose proof (layout_data_pos sb start mem0 L0). pose proof F as [L Hus Hsame Hlg].
  set (b := slot mem0 i0 k) in *. assert (0 <= b < sb_size sb) as Hb by lia.
  pose proof (elem_of_bitmaps sb b Hb) as Hbm. eexists _, _. split.
  - rewrite (bfree_run out start sz wk rest sb Hout) by (try done; by eapply freed_lim). rewrite Hu. reflexivity.
  - constructor.
    + by apply layout_unmark.
    + intros x Hx. rewrite (used_unmark sb start mem L b x Hb). case_decide as E.
      * subst x. split; [done|]. intros [_ Hno]. exfalso. apply Hno. exists k. split; [lia|]. done.
      * rewrite (Hus x Hx). split; (intros [H1 H2]; split; [done|]; intros (j & Hj & Ej & Hx0); apply H2).
        -- exists j. split; [|done]. destruct (decide (j = k)) as [->|]; [by subst|lia].
        -- exists j. split; [lia|done].
    + intros x Hx. unfold unmark. rewrite lookup_insert_ne by (intros E; by rewrite E in Hbm). by apply Hsame.
    + clear -Hlg Hbm. set_solver.
Qed.

(** *** The direct blocks *)

(** The inode when the first [k] of its addresses have been cleared. *)
Definition cleared (k : nat) (i : inode) : inode := set_addrs (replicate k 0 ++ drop k (i_addrs i)) i.

Lemma cleared_addr (k : nat) i : (k < length (i_addrs i))%nat -> (i_addrs (cleared k i)).[Z.of_nat k] = (i_addrs i).[Z.of_nat k].
Proof.
  intros Hk. cbn [i_addrs cleared set_addrs]. rewrite Nat2Z.id, app_nth2; rewrite length_replicate; [|lia].
  rewrite Nat.sub_diag. destruct (lookup_lt_is_Some_2 (i_addrs i) k Hk) as [a Ha].
  rewrite (drop_S _ _ _ Ha). cbn. by rewrite nth_lookup, Ha.
Qed.

Lemma cleared_S (k : nat) i :
  (k < length (i_addrs i))%nat -> set_addrs (<[k := 0]> (i_addrs (cleared k i))) (cleared k i) = cleared (S k) i.
Proof.
  intros Hk. unfold cleared, set_addrs. cbn [i_addrs]. f_equal. rewrite replicate_S_end, <- app_assoc.
  destruct (lookup_lt_is_Some_2 (i_addrs i) k Hk) as [a Ha]. rewrite (drop_S _ _ _ Ha).
  rewrite insert_app_r_alt by (by rewrite length_replicate). by rewrite length_replicate, Nat.sub_diag.
Qed.

Lemma cleared_id (k : nat) i :
  (k < length (i_addrs i))%nat -> (i_addrs i).[Z.of_nat k] = 0 -> cleared (S k) i = cleared k i.
Proof.
  intros Hk Hz. rewrite <- cleared_S by done. rewrite list_insert_id; [by destruct (cleared k i)|].
  rewrite <- cleared_addr in Hz by done. rewrite Nat2Z.id in Hz.
  destruct (lookup_lt_is_Some_2 (i_addrs (cleared k i)) k) as [a Ha].
  - cbn. rewrite length_app, length_replicate, length_drop. lia.
  - rewrite nth_lookup, Ha in Hz. cbn in Hz. by subst.
Qed.

Section cache.
Context (ic : list inode) (ip : nat).
Hypothesis Hip : ic !! ip = Some i0.
Abbreviation with_inode i := (<[ip := i]> ic).

Lemma with_inode_get i : with_inode i !! ip = Some i.
Proof. apply list_lookup_insert_eq. by eapply lookup_lt_Some. Qed.

Lemma slot_direct (k : nat) : (k < 12)%nat -> slot mem0 i0 (Z.of_nat k) = (i_addrs i0).[Z.of_nat k].
Proof. intros Hk. unfold slot, NDIRECT. by destruct (Z.ltb_spec (Z.of_nat k) 12); [|lia]. Qed.

Lemma direct_run :
  exists mem lg,
    for_each (fun k =>
      i ← get_inode (Z.of_nat ip);
      when (ctrue ((i_addrs i).[k]))
        (bfree (i_dev i) ((i_addrs i).[k]);;
         set_inode (Z.of_nat ip) (set_addrs (<[Z.to_nat k := 0]> (i_addrs i)) i))) (upto NDIRECT)
      (fstate mem0 ∅ lg0 ic) = Ok tt (fstate mem ∅ lg (with_inode (cleared 12 i0))) /\
    freed NDIRECT mem lg.
Proof.
  pose proof (io_addrs _ _ _ _ O0) as Hlen.
  set (I := fun (k : nat) s => exists mem lg,
    s = fstate mem ∅ lg (with_inode (cleared k i0)) /\ freed (Z.of_nat k) mem lg).
  match goal with |- context [for_each ?f ?l ?s] => destruct (for_each_inv f I l s) as (s' & E & mem & lg & -> & F) end.
  2:{ exists mem0, lg0. split; [|apply freed_0]. rewrite list_insert_id; [done|]. by destruct i0. }
  2:{ exists mem, lg. split; [exact E|exact F]. }
  intros k z s Hz (mem & lg & -> & F).
  assert (z = Z.of_nat k /\ (k < 12)%nat) as [-> Hk].
  { unfold upto in Hz. rewrite list_lookup_fmap, fmap_Some in Hz. destruct Hz as (x & [-> Hx]%lookup_seq & ->). done. }
  rewrite (bind_run _ _ _ _ _ (get_inode_run _ _ _ _ _ _ _ _ _ _ _ (with_inode_get _))).
  rewrite cleared_addr by lia. change (i_dev (cleared k i0)) with (i_dev i0). rewrite (io_dev _ _ _ _ O0).
  rewrite <- slot_direct by done.
  unfold ctrue. destruct (Z.eqb_spec (slot mem0 i0 (Z.of_nat k)) 0) as [E0|E0]; cbn [negb when].
  - eexists. split; [done|]. exists mem, lg. rewrite cleared_id by (try lia; by rewrite <- slot_direct). split; [done|].
    eapply freed_skip; [|intros j Hj|done]; [lia|]. by replace j with (Z.of_nat k) by lia.
  - destruct (free_slot (Z.of_nat k) mem ∅ lg (with_inode (cleared k i0)) F) as (mem' & lg' & Eb & F');
      [rewrite MAXFILE_eq; lia|done|apply holds_empty|].
    rewrite (bind_run _ _ _ _ _ Eb), set_inode_run, list_insert_insert_eq, Nat2Z.id, cleared_S by lia.
    eexists. split; [done|]. exists mem', lg'. split; [done|]. by replace (Z.of_nat (S k)) with (Z.of_nat k + 1) by lia.
Qed.

(** *** The indirect blocks *)

Lemma slot_indirect j : indirect i0 <> 0 -> 0 <= j < NINDIRECT ->
  slot mem0 i0 (NDIRECT + j) = get_word (mem0 !!! indirect i0) j.
Proof.
  intros Hi Hj. unfold slot. pose proof MAXFILE_eq. unfold NDIRECT, NINDIRECT in *.
  destruct (Z.ltb_spec (12 + j) 12); [lia|]. destruct (Z.eqb_spec (12 + j) MAXFILE) as [E|]; [|].
  - change (BSIZE / 4) with 128 in *. lia.
  - rewrite (proj2 (Z.eqb_neq _ _) Hi). f_equal. lia.
Qed.

Lemma words_run mem lg ic' :
  indirect i0 <> 0 -> freed NDIRECT mem lg ->
  exists mem' lg',
    for_each (fun j => when (ctrue (get_word (mem0 !!! indirect i0) j))
      (bfree 1 (get_word (mem0 !!! indirect i0) j))) (upto NINDIRECT)
      (fstate mem ({[indirect i0]} ∪ ∅) lg ic') = Ok tt (fstate mem' ({[indirect i0]} ∪ ∅) lg' ic') /\
    freed MAXFILE mem' lg'.
Proof.
  intros Hi F.
  set (I := fun (k : nat) s => exists mem lg,
    s = fstate mem ({[indirect i0]} ∪ ∅) lg ic' /\ freed (NDIRECT + Z.of_nat k) mem lg).
  match goal with |- context [for_each ?f ?l ?s] => destruct (for_each_inv f I l s) as (s' & E & mem' & lg' & -> & F') end.
  2:{ exists mem, lg. split; [done|]. by rewrite Z.add_0_r. }
  2:{ exists mem', lg'. split; [exact E|exact F']. }
  clear mem lg F. intros k z s Hz (mem & lg & -> & F).
  assert (z = Z.of_nat k /\ (k < 128)%nat) as [-> Hk].
  { unfold upto in Hz. rewrite list_lookup_fmap, fmap_Some in Hz. destruct Hz as (x & [-> Hx]%lookup_seq & ->). done. }
  pose proof MAXFILE_eq as HM. assert (NINDIRECT = 128 /\ NDIRECT = 12) as [HN HD] by done.
  rewrite <- slot_indirect by (try done; lia).
  unfold ctrue. destruct (Z.eqb_spec (slot mem0 i0 (NDIRECT + Z.of_nat k)) 0) as [E0|E0]; cbn [negb when].
  - eexists. split; [done|]. exists mem, lg. split; [done|].
    eapply freed_skip; [|intros j Hj|done]; [lia|]. by replace j with (NDIRECT + Z.of_nat k) by lia.
  - destruct (free_slot (NDIRECT + Z.of_nat k) mem ({[indirect i0]} ∪ ∅) lg ic' F) as (mem' & lg' & Eb & F');
      [lia|done| |].
    2:{ eexists. split; [exact Eb|]. exists mem', lg'. split; [done|].
        by replace (NDIRECT + Z.of_nat (S k)) with (NDIRECT + Z.of_nat k + 1) by lia. }
    split; [rewrite union_empty_r_L, size_singleton; lia|]. intros b Hb. assert (b = slot mem0 i0 MAXFILE) as ->.
    { change (slot mem0 i0 MAXFILE) with (indirect i0). set_solver. }
    eapply freed_later; [exact F|lia|lia|done].
Qed.

Lemma indirect_run mem lg :
  freed NDIRECT mem lg ->
  exists mem' lg',
    (let i := cleared 12 i0 in
     when (ctrue ((i_addrs i).[NDIRECT]))
       (d ← dio (d_bread (i_dev i) ((i_addrs i).[NDIRECT]));
        for_each (fun j => when (ctrue (get_word d j)) (bfree (i_dev i) (get_word d j))) (upto NINDIRECT);;
        dio (d_brelse ((i_addrs i).[NDIRECT]));;
        bfree (i_dev i) ((i_addrs i).[NDIRECT]);;
        set_inode (Z.of_nat ip) (set_addrs (<[Z.to_nat NDIRECT := 0]> (i_addrs i)) i)))
      (fstate mem ∅ lg (with_inode (cleared 12 i0))) =
      Ok tt (fstate mem' ∅ lg' (with_inode (cleared 13 i0))) /\
    freed (MAXFILE + 1) mem' lg'.
Proof.
  intros F. pose proof (io_addrs _ _ _ _ O0) as Hlen. pose proof MAXFILE_eq as HM. pose proof (ly_start _ _ _ L0).
  assert (NDIRECT = 12) as HD by done. cbv zeta.
  change ((i_addrs (cleared 12 i0)).[NDIRECT]) with ((i_addrs (cleared 12 i0)).[Z.of_nat 12]). rewrite cleared_addr by lia.
  change ((i_addrs i0).[Z.of_nat 12]) with (indirect i0). change (i_dev (cleared 12 i0)) with (i_dev i0).
  rewrite (io_dev _ _ _ _ O0). unfold ctrue at 1. destruct (Z.eqb_spec (indirect i0) 0) as [E0|E0]; cbn [negb when].
  - exists mem, lg. rewrite (cleared_id 12) by (try lia; exact E0). split; [done|].
    eapply freed_skip; [|intros j Hj|exact F]; [lia|]. unfold slot. rewrite E0.
    destruct (Z.ltb_spec j NDIRECT); [lia|]. by destruct (j =? MAXFILE).
  - destruct (freed_later NDIRECT MAXFILE mem lg F ltac:(lia) ltac:(lia) E0) as [Hr _].
    change (slot mem0 i0 MAXFILE) with (indirect i0) in Hr. pose proof (layout_data_pos sb start mem0 L0).
    destruct (ly_dom _ _ _ L0 (indirect i0)) as [d Hd]; [lia|].
    assert (mem !! indirect i0 = Some d) as Hm by (rewrite (fr_same _ _ _ F); [done|apply data_not_bitmap, Hr]).
    erewrite bind_run; [|apply bread_run; [lia|apply not_elem_of_empty|by eapply freed_lim|rewrite size_empty; lia|exact Hm]].
    rewrite <- (lookup_total_correct _ _ _ Hd).
    destruct (words_run mem lg (with_inode (cleared 12 i0)) E0 F) as (mem1 & lg1 & E1 & F1).
    rewrite (bind_run _ _ _ _ _ E1). erewrite bind_run; [|apply brelse_run, not_elem_of_empty].
    destruct (free_slot MAXFILE mem1 ∅ lg1 (with_inode (cleared 12 i0)) F1) as (mem2 & lg2 & E2 & F2);
      [lia|done|apply holds_empty|].
    change (slot mem0 i0 MAXFILE) with (indirect i0) in E2. rewrite (bind_run _ _ _ _ _ E2).
    exists mem2, lg2. split; [|done]. rewrite set_inode_run, list_insert_insert_eq. do 3 f_equal.
    by apply (cleared_S 12); lia.
Qed.

(** *** [itrunc] and [iput] *)

(** An inode without blocks. *)
Definition emptied (i : inode) : inode := set_size 0 (set_addrs (replicate 13 0) i).

Lemma cleared_all : cleared 13 i0 = set_addrs (replicate 13 0) i0.
Proof.
  pose proof (io_addrs _ _ _ _ O0). unfold cleared. rewrite (drop_ge (i_addrs i0)) by lia. by rewrite app_nil_r.
Qed.

Lemma emptied_ok mem mem' i : inode_ok sb start mem i -> inode_ok sb start mem' (emptied i).
Proof. intros [H1 H2 H3 _ _ _ _ _]. by apply no_blocks_ok. Qed.

Lemma itrunc_run :
  exists mem lg, itrunc (Z.of_nat ip) (fstate mem0 ∅ lg0 ic) =
      Ok tt (fstate (updated mem (emptied i0)) ∅ ({[IBLOCK (i_inum i0)]} ∪ lg) (with_inode (emptied i0))) /\
    freed (MAXFILE + 1) mem lg /\ inode_ok sb start mem (emptied i0).
Proof.
  destruct direct_run as (mem1 & lg1 & E1 & F1). destruct (indirect_run mem1 lg1 F1) as (mem & lg & E2 & F2).
  assert (inode_ok sb start mem (emptied i0)) as Oe by by apply (emptied_ok mem0).
  destruct (iupdate_run out start sz wk rest sb Hout mem lg (with_inode (emptied i0)) ip (emptied i0))
    as [E3 _]; [apply F2|done|apply with_inode_get|by eapply freed_lim|].
  exists mem, lg. split; [|done]. unfold itrunc. rewrite (bind_run _ _ _ _ _ E1).
  rewrite (bind_run _ _ _ _ _ (get_inode_run _ _ _ _ _ _ _ _ _ _ _ (with_inode_get _))).
  rewrite (bind_run _ _ _ _ _ E2).
  rewrite (bind_run _ _ _ _ _ (get_inode_run _ _ _ _ _ _ _ _ _ _ _ (with_inode_get _))).
  erewrite bind_run; [|apply set_inode_run]. rewrite list_insert_insert_eq, cleared_all. exact E3.
Qed.

End cache.

End trunc.

(** The inode as the last [iput] leaves it. *)
Definition dead (i : inode) : inode := set_ref 0 (set_flags 0 (set_type 0 (emptied i))).

(** What the disk is when the file [i] is gone: its blocks and its inode are
    free, and nothing else has changed. *)
Record gone (sb : superblock) (start : Z) (mem : gmap Z block) (i : inode) (mem' : gmap Z block) : Prop := {
  gn_layout : layout sb start mem';
  gn_used x : 0 <= x < sb_size sb ->
    (used sb mem' x = true <->
     used sb mem x = true /\ ~ exists k, 0 <= k <= MAXFILE /\ slot mem i k = x /\ x <> 0);
  gn_data x : data_start sb <= x -> mem' !! x = mem !! x;
  gn_inode : disk_inode mem' (i_inum i) = dinode_of (dead i);
  gn_others y : 0 <= y < sb_ninodes sb -> y <> i_inum i -> disk_inode mem' y = disk_inode mem y
}.

Section iput.
Context {D : Type} (out start sz : Z) (wk : list chan) (rest : D) (sb : superblock).
Hypothesis Hout : 1 <= out.
Implicit Types (mem : gmap Z block) (lg : gset Z) (ic : list inode).

Lemma used_updated mem i x :
  layout sb start mem -> inode_ok sb start mem i -> 0 <= x < sb_size sb -> used sb (updated mem i) x = used sb mem x.
Proof.
  intros L O Hx. destruct (IBLOCK_range start sb mem (i_inum i) L (io_inum _ _ _ _ O)) as (_ & Hn & _).
  pose proof (elem_of_bitmaps sb x Hx). unfold used, updated. rewrite lookup_total_insert_ne; [done|]. intros E. by rewrite E in Hn.
Qed.

Lemma data_updated mem i x :
  layout sb start mem -> inode_ok sb start mem i -> data_start sb <= x -> updated mem i !! x = mem !! x.
Proof.
  intros L O Hx. destruct (IBLOCK_range start sb mem (i_inum i) L (io_inum _ _ _ _ O)) as (Hr & _ & Hd).
  unfold updated. by rewrite lookup_insert_ne by lia.
Qed.

(** The log while the blocks and then the inode of a file are freed. *)
Lemma orphan_lim b lg lg1 :
  lg1 ⊆ bitmaps sb ∪ lg -> Z.of_nat (size (bitmaps sb ∪ ({[b]} ∪ lg))) < loglim sz ->
  Z.of_nat (size (bitmaps sb ∪ lg)) < loglim sz /\ Z.of_nat (size lg1) < loglim sz /\
  Z.of_nat (size ({[b]} ∪ lg1)) < loglim sz.
Proof. intros H1 H2. split_and!; (eapply size_sub; [|exact H2]); set_solver. Qed.

(** A file whose last reference goes. *)
Record orphan mem lg ic (ip : nat) (i : inode) : Prop := {
  or_layout : layout sb start mem;
  or_inode : inode_ok sb start mem i;
  or_ip : ic !! ip = Some i;
  or_ref : i_ref i = 1;
  or_flags : i_flags i = I_VALID;
  or_nlink : i_nlink i = 0;
  or_log : Z.of_nat (size (bitmaps sb ∪ ({[IBLOCK (i_inum i)]} ∪ lg))) < loglim sz
}.

(** The two writes of the inode, after its blocks are free. *)
Lemma gone_updated mem i mem1 lg lg1 :
  let i0 := set_flags 3 i in let e := emptied i0 in
  layout sb start mem -> inode_ok sb start mem i0 -> freed start sb mem lg i0 (MAXFILE + 1) mem1 lg1 ->
  inode_ok sb start mem1 e -> layout sb start (updated mem1 e) ->
  inode_ok sb start (updated mem1 e) (set_type 0 e) -> layout sb start (updated (updated mem1 e) (set_type 0 e)) ->
  synced (updated (updated mem1 e) (set_type 0 e)) (set_type 0 e) ->
  (forall j, j <> i_inum i -> disk_inode (updated mem1 e) j = disk_inode mem1 j) ->
  (forall j, j <> i_inum i -> disk_inode (updated (updated mem1 e) (set_type 0 e)) j = disk_inode (updated mem1 e) j) ->
  gone sb start mem i (updated (updated mem1 e) (set_type 0 e)).
Proof.
  intros i0 e L O F Oe L1 Ot L2 Hs H1 H2. pose proof F as [Lf Hu Hsame _]. constructor; [done|..].
  - intros x Hx. rewrite !used_updated by done. rewrite (Hu x Hx).
    split; (intros [Ha Hb]; split; [done|]; intros (j & Hj & E); apply Hb; exists j; split; [lia|exact E]).
  - intros x Hx. rewrite !data_updated by done. apply Hsame. by eapply data_not_bitmap.
  - exact Hs.
  - intros y Hy Hne. rewrite H2, H1 by done. unfold disk_inode.
    destruct (IBLOCK_range start sb mem y L Hy) as (_ & Hn & _). unfold lookup_total, map_lookup_total.
    by rewrite (Hsame _ Hn).
Qed.

Lemma iput_free_run mem lg ic ip i :
  orphan mem lg ic ip i ->
  exists mem' lg', iput (Z.of_nat ip) (fstate out start sz wk rest mem ∅ lg ic) =
      Ok tt (fstate out start sz (wk ++ [ChInode (Z.of_nat ip)]) rest mem' ∅ lg' (<[ip := dead i]> ic)) /\
    gone sb start mem i mem'.
Proof.
  intros [L O Hip Hr Hf Hn Hl]. set (i0 := set_flags 3 i). set (e := emptied i0).
  assert (inode_ok sb start mem i0) as O0 by (destruct O; by constructor).
  assert (forall j, <[ip := j]> ic !! ip = Some j) as Hg
    by (intros; apply list_lookup_insert_eq; by eapply lookup_lt_Some).
  destruct (itrunc_run out start sz wk rest sb Hout mem lg i0 L O0) with (ic := <[ip := i0]> ic) (ip := ip)
    as (mem1 & lg1 & Et & F & Oe); [exact (proj1 (orphan_lim _ _ _ (union_subseteq_r _ _) Hl))|apply Hg|].
  fold e in Et, Oe. rewrite list_insert_insert_eq in Et.
  pose proof (fr_log _ _ _ _ _ _ _ _ F) as Hlg1.
  destruct (orphan_lim (IBLOCK (i_inum i)) lg lg1 Hlg1 Hl) as (Hl0 & Hl1 & Hl2).
  destruct (iupdate_run out start sz wk rest sb Hout mem1 lg1 (<[ip := e]> ic) ip e) as (_ & L1 & O1 & _ & H1);
    [apply F|exact Oe|apply Hg|exact Hl1|].
  assert (inode_ok sb start (updated mem1 e) (set_type 0 e)) as Ot by (destruct O1 as [? ? (?&?&?&?) ?]; constructor; done).
  destruct (iupdate_run out start sz wk rest sb Hout (updated mem1 e) ({[IBLOCK (i_inum i)]} ∪ lg1)
    (<[ip := set_type 0 e]> ic) ip (set_type 0 e)) as (E2 & L2 & O2 & S2 & H2); [exact L1|exact Ot|apply Hg|exact Hl2|].
  eexists _, _. split; [|by eapply gone_updated; [done|done|exact F|..]].
  unfold iput. rewrite (bind_run _ _ _ _ _ (get_inode_run _ _ _ _ _ _ _ _ _ _ _ Hip)).
  rewrite Hr, Hf, Hn. change (ctrue (I_VALID .& I_VALID)) with true. change (ctrue (I_VALID .& I_BUSY)) with false.
  cbn [Z.eqb andb Pos.eqb]. erewrite bind_run.
  2:{ erewrite bind_run; [|apply set_inode_run]. change (I_VALID .| I_BUSY) with 3. fold i0.
      rewrite (bind_run _ _ _ _ _ Et).
      rewrite (bind_run _ _ _ _ _ (get_inode_run _ _ _ _ _ _ _ _ _ _ _ (Hg _))).
      erewrite bind_run; [|apply set_inode_run]. rewrite list_insert_insert_eq, (bind_run _ _ _ _ _ E2).
      rewrite (bind_run _ _ _ _ _ (get_inode_run _ _ _ _ _ _ _ _ _ _ _ (Hg _))).
      erewrite bind_run; [|apply set_inode_run]. rewrite list_insert_insert_eq. reflexivity. }
  match goal with |- (_ ≫= _) ?s = _ =>
    change s with (fstate out start sz (wk ++ [ChInode (Z.of_nat ip)]) rest
      (updated (updated mem1 e) (set_type 0 e)) ∅ ({[IBLOCK (i_inum i)]} ∪ ({[IBLOCK (i_inum i)]} ∪ lg1))
      (<[ip := set_flags 0 (set_type 0 e)]> ic)) end.
  rewrite (bind_run _ _ _ _ _ (get_inode_run _ _ _ _ _ _ _ _ _ _ _ (Hg _))), set_inode_run, list_insert_insert_eq.
  do 3 f_equal. unfold dead, e, i0, emptied, set_ref. cbn. by rewrite Hr.
Qed.

End iput.

(** ** A new inode *)

(** What [ialloc] makes of inode [x]. *)
Definition new_inode (x type : Z) : inode := Inode 1 x 0 0 type 0 0 0 0 (replicate 13 0).

Lemma splice_splice {A} (d : list A) o B C :
  (o + length B <= length d)%nat -> (length C <= length B)%nat ->
  splice (splice d o B) o C = splice d o (C ++ drop (length C) B).
Proof.
  intros HB HC. unfold splice.
  rewrite take_app_length' by (rewrite length_take; lia). rewrite length_app, length_drop.
  replace (length C + (length B - length C))%nat with (length B) by lia.
  rewrite (drop_app_ge (take o d)) by (rewrite length_take; lia). rewrite length_take, Nat.min_l by lia.
  replace (o + length C - o)%nat with (length C) by lia. rewrite drop_app_le by lia. by rewrite <- !app_assoc.
Qed.

Lemma ialloc_block d x type :
  length d = Z.to_nat BSIZE ->
  set_le 2 (splice d (dinode_off x) (replicate (Z.to_nat sizeof_dinode) 0)) (dinode_off x) type =
  splice d (dinode_off x) (dinode_bytes (dinode_of (new_inode x type))).
Proof.
  intros Hd. pose proof (dinode_off_bound x). unfold set_le.
  rewrite splice_splice by (rewrite ?length_replicate, ?length_le_split; unfold sizeof_dinode; lia).
  by rewrite length_le_split.
Qed.

Section ialloc.
Context {D : Type} (out start sz : Z) (wk : list chan) (rest : D) (sb : superblock).
Hypothesis Hout : 1 <= out.
Context (mem : gmap Z block) (lg : gset Z) (ic : list inode) (type : Z).
Hypothesis L : layout sb start mem.
Hypothesis Hlim : Z.of_nat (size lg) < loglim sz.
Abbreviation st := (fstate out start sz wk rest).

Lemma ialloc_loop_run l x post :
  Forall (fun y => 0 <= y < sb_ninodes sb /\ di_type (disk_inode mem y) <> 0) l ->
  0 <= x < sb_ninodes sb -> di_type (disk_inode mem x) = 0 ->
  ialloc_loop 1 type (l ++ x :: post) (st mem ∅ lg ic) =
  iget 1 x (st (updated mem (new_inode x type)) ∅ ({[IBLOCK x]} ∪ lg) ic).
Proof.
  assert (forall y, 0 <= y < sb_ninodes sb -> exists d, IBLOCK y < start /\ 2 <= IBLOCK y /\ mem !! IBLOCK y = Some d /\
    mem !!! IBLOCK y = d /\ length d = Z.to_nat BSIZE) as Hb.
  { intros y Hy. destruct (IBLOCK_range start sb mem y L Hy) as (Hr & _ & Hd0). pose proof (ly_start _ _ _ L).
    destruct (ly_dom _ _ _ L (IBLOCK y)) as [d Hd]; [lia|]. exists d. split_and!; [lia|lia|done|by apply lookup_total_correct|].
    by eapply ly_len. }
  intros Hl Hx Ht. induction Hl as [|y l [Hy Hty] Hl IH]; cbn [app ialloc_loop].
  - destruct (Hb x Hx) as (d & Hs & H2 & Hd & Ed & Hlen). unfold disk_inode in Ht. rewrite Ed in Ht.
    erewrite bind_run; [|apply bread_run; [lia|apply not_elem_of_empty|done|rewrite size_empty; lia|exact Hd]].
    cbv zeta. rewrite (proj2 (Z.eqb_eq _ _) Ht), ialloc_block by done.
    pose proof (dinode_off_bound x). assert (length (dinode_bytes (dinode_of (new_inode x type))) = 64%nat)
      by (by apply length_dinode_bytes).
    rewrite store_run by (first [apply not_elem_of_empty|done|rewrite length_splice; lia]).
    unfold updated. cbn [i_inum new_inode]. by rewrite Ed.
  - destruct (Hb y Hy) as (d & Hs & H2 & Hd & Ed & Hlen). unfold disk_inode in Hty. rewrite Ed in Hty.
    erewrite bind_run; [|apply bread_run; [lia|apply not_elem_of_empty|done|rewrite size_empty; lia|exact Hd]].
    cbv zeta. rewrite (proj2 (Z.eqb_neq _ _) Hty). erewrite bind_run; [|apply brelse_run, not_elem_of_empty]. exact IH.
Qed.

(** [ialloc] takes the least free inode after 0. *)
Lemma ialloc_run x :
  1 <= x < sb_ninodes sb -> di_type (disk_inode mem x) = 0 ->
  (forall y, 1 <= y < x -> di_type (disk_inode mem y) <> 0) ->
  ialloc ROOTDEV type (st mem ∅ lg ic) =
  iget ROOTDEV x (st (updated mem (new_inode x type)) ∅ ({[IBLOCK x]} ∪ lg) ic).
Proof.
  intros Hx Ht Hleast. unfold ialloc. change ROOTDEV with 1.
  erewrite bind_run; [|by apply (readsb_run out start sz wk rest sb); [|apply holds_empty|]].
  assert (Z.add 1 <$> upto (sb_ninodes sb - 1) =
    (Z.add 1 <$> upto (x - 1)) ++ x :: (Z.add 1 <$> (Z.of_nat <$> seq (Z.to_nat x) (Z.to_nat (sb_ninodes sb - 1 - x))))) as ->.
  { unfold upto. replace (Z.to_nat (sb_ninodes sb - 1)) with (Z.to_nat (x - 1) + S (Z.to_nat (sb_ninodes sb - 1 - x)))%nat by lia.
    rewrite seq_app, !fmap_app. cbn [seq fmap list_fmap]. f_equal. f_equal; [lia|]. by replace (S (0 + Z.to_nat (x - 1))) with (Z.to_nat x) by lia. }
  apply ialloc_loop_run; [|lia|done]. apply Forall_fmap, Forall_forall.
  intros y Hy%elem_of_upto. unfold compose. split; [lia|]. apply Hleast. lia.
Qed.

Lemma new_inode_updated x :
  0 <= x < sb_ninodes sb -> is_s16 type ->
  let mem' := updated mem (new_inode x type) in
  layout sb start mem' /\ disk_inode mem' x = dinode_of (new_inode x type) /\
  (forall y, y <> x -> disk_inode mem' y = disk_inode mem y) /\
  (forall b, data_start sb <= b -> mem' !! b = mem !! b).
Proof.
  intros Hx Ht mem'.
  assert (inode_ok sb start mem (new_inode x type)) as O by (apply no_blocks_ok; try done; split_and!; cbn; lia).
  destruct (iupdate_run out start sz wk rest sb Hout mem lg [new_inode x type] 0 (new_inode x type))
    as (_ & L1 & _ & S1 & H1); [done..|].
  split_and!; [exact L1|exact S1|exact H1|]. intros b Hb. by eapply data_updated.
Qed.

End ialloc.

(** ** A file that ends, and the next one *)

Definition iput_op {T D} `{Disk T} (ip : Z) : M (fsys T D) unit :=
  dio d_begin_op;; iput ip;; dio d_end_op.

Definition ialloc_op {T D} `{Disk T} (type : Z) : M (fsys T D) Z :=
  dio d_begin_op;;
  r ← ialloc ROOTDEV type;
  dio d_end_op;;
  mret r.

Lemma iput_op_sim {T D} `{DiskSpec T tdisk} ip :
  msim fs_rep (iput_op (T:=T) (D:=D) ip) (iput_op (T:=tdisk) ip).
Proof. pose proof (iput_sim (T:=T) (D:=D)). unfold iput_op. fs_sim. Qed.

Lemma ialloc_op_sim {T D} `{DiskSpec T tdisk} type :
  msim fs_rep (ialloc_op (T:=T) (D:=D) type) (ialloc_op (T:=tdisk) type).
Proof. pose proof (ialloc_sim (T:=T) (D:=D)). unfold ialloc_op. fs_sim. Qed.

(** The least inode a test holds for. *)
Lemma least_inode (f : Z -> bool) n :
  1 <= n -> f n = true -> exists x, 1 <= x <= n /\ f x = true /\ forall y, 1 <= y < x -> f y = false.
Proof.
  intros Hn. assert (0 <= n) as H0 by lia. revert n H0 Hn. refine (Z_lt_induction _ _). intros n IH Hn Hf.
  destruct (decide (Exists (fun y => 1 <= y /\ f y = true) (upto n))) as [(y & Hy%elem_of_upto & H1 & Hfy)%Exists_exists|Hno].
  - destruct (IH y ltac:(lia) H1 Hfy) as (x & Hx & Hr). exists x. split; [lia|done].
  - exists n. split; [lia|]. split; [done|]. intros y Hy. destruct (f y) eqn:E; [|done]. exfalso. apply Hno.
    apply Exists_exists. exists y. rewrite elem_of_upto. split; [lia|]. split; [lia|done].
Qed.

(** The entries in use are those of inodes that are not free. *)
Definition no_stale (mem : gmap Z block) (ic : list inode) : Prop :=
  forall k a, ic !! k = Some a -> 0 < i_ref a -> di_type (disk_inode mem (i_inum a)) <> 0.

Section reclaim.
Context {D : Type} (start sz : Z) (wk : list chan) (rest : D) (sb : superblock).
Context (mem : gmap Z block) (ic : list inode) (ip : nat) (i : inode).
Hypothesis Ho : orphan start sz sb mem ∅ ic ip i.
Hypothesis Hic : icache_ok sb mem None ic.
Hypothesis Hst : no_stale mem ic.

Lemma reclaim_lim : Z.of_nat (size (∅ : gset Z)) < loglim sz.
Proof. clear Hic Hst. eapply size_sub; [|exact (or_log _ _ _ _ _ _ _ _ Ho)]. set_solver. Qed.

Lemma iput_op_run :
  exists mem', iput_op (Z.of_nat ip) (fstate 0 start sz wk rest mem ∅ ∅ ic) =
      Ok tt (fstate 0 start sz (wk ++ [ChInode (Z.of_nat ip)]) rest mem' ∅ ∅ (<[ip := dead i]> ic)) /\
    gone sb start mem i mem'.
Proof.
  destruct (iput_free_run 1 start sz wk rest sb ltac:(lia) mem ∅ ic ip i Ho) as (mem' & lg' & E & G).
  exists mem'. split; [|done]. unfold iput_op. erewrite bind_run; [|reflexivity].
  change (FSys _ _ _ _) with (fstate 1 start sz wk rest mem ∅ ∅ ic). by rewrite (bind_run _ _ _ _ _ E).
Qed.

(** The cache without the entry of the file. *)
Lemma dead_cache mem' :
  gone sb start mem i mem' ->
  icache_ok sb mem' None (<[ip := dead i]> ic) /\ no_stale mem' (<[ip := dead i]> ic) /\
  0 < unused (<[ip := dead i]> ic).
Proof.
  intros G. pose proof Ho as [_ _ Hip Hr _ _ _].
  assert (icache_ok sb mem None (<[ip := dead i]> ic)) as H1
    by (eapply (icache_ok_insert _ _ None); [exact Hic|exact Hip|done..]).
  assert (forall k a, <[ip := dead i]> ic !! k = Some a -> 0 < i_ref a ->
    disk_inode mem' (i_inum a) = disk_inode mem (i_inum a) /\ ic !! k = Some a) as Hsame.
  { intros k a [(-> & <- & _)|[Hne Ha]]%list_lookup_insert_Some Hra; [done|]. split; [|done].
    apply (gn_others _ _ _ _ _ G); [by apply (ic_dev _ _ _ _ Hic k a Ha Hra)|].
    intros E. apply Hne. symmetry. eapply (ic_uniq _ _ _ _ Hic k ip a i Ha Hip Hra); [lia|done]. }
  split_and!.
  - eapply icache_ok_disk; [exact H1|]. intros k a Ha Hra. by destruct (Hsame k a Ha Hra).
  - intros k a Ha Hra. destruct (Hsame k a Ha Hra) as [-> Ha']. by eapply Hst.
  - assert (forall l : list inode, forall k a, l !! k = Some a -> i_ref a = 0 -> 0 < unused l) as Hpos.
    { intros l k a Ha Hra. unfold unused. set (f := fun _ => _).
      assert (f a = 1) as E by (unfold f; by rewrite decide_True).
      pose proof (total_le f l k a ltac:(intros ? b _; unfold f; case_decide; lia) Ha). lia. }
    eapply (Hpos _ ip (dead i)); [|done]. apply list_lookup_insert_eq. by eapply lookup_lt_Some.
Qed.
End reclaim.

(** [ialloc] in a transaction of its own: the least free inode, empty, with one
    reference. *)
Lemma ialloc_op_run {D} start sz wk (rest : D) sb mem ic type x0 :
  layout sb start mem -> Z.of_nat (size (∅ : gset Z)) < loglim sz -> icache_ok sb mem None ic -> no_stale mem ic ->
  0 < unused ic -> (forall y, refs ic y < 2147483647) -> is_s16 type ->
  1 <= x0 < sb_ninodes sb -> di_type (disk_inode mem x0) = 0 ->
  exists x k mem' ic', ialloc_op type (fstate 0 start sz wk rest mem ∅ ∅ ic) =
      Ok (Z.of_nat k) (fstate 0 start sz wk rest mem' ∅ ∅ ic') /\
    1 <= x <= x0 /\ di_type (disk_inode mem x) = 0 /\ (forall y, 1 <= y < x -> di_type (disk_inode mem y) <> 0) /\
    disk_inode mem' x = dinode_of (new_inode x type) /\ (forall y, y <> x -> disk_inode mem' y = disk_inode mem y) /\
    (forall b, data_start sb <= b -> mem' !! b = mem !! b) /\ ref_taken sb mem' None ic x k ic'.
Proof.
  intros L Hl Hic Hst Hu Hm Ht Hx0 Hfree.
  destruct (least_inode (fun y => di_type (disk_inode mem y) =? 0) x0) as (x & Hx & Ex & Hleast);
    [lia|by apply Z.eqb_eq|]. apply Z.eqb_eq in Ex.
  assert (forall y, 1 <= y < x -> di_type (disk_inode mem y) <> 0) as Hleast'
    by (intros y Hy; apply Z.eqb_neq, Hleast, Hy).
  destruct (new_inode_updated 1 start sz wk rest sb ltac:(lia) mem ∅ type L Hl x ltac:(lia) Ht) as (L' & Hx' & Hoth & Hdat).
  set (mem' := updated mem (new_inode x type)) in *.
  assert (icache_ok sb mem' None ic) as Hic'.
  { eapply icache_ok_disk; [exact Hic|]. intros k a Ha Hra. apply Hoth. intros E. apply (Hst k a Ha Hra). by rewrite E. }
  destruct (iget_run 1 start sz wk rest sb mem' ({[IBLOCK x]} ∪ ∅) None ic Hic' x) as (k & ic' & E & Hr); [lia|done..|].
  exists x, k, mem', ic'. split_and!; try done; [|lia..]. unfold ialloc_op. erewrite bind_run; [|reflexivity].
  change (FSys _ _ _ _) with (fstate 1 start sz wk rest mem ∅ ∅ ic).
  erewrite bind_run; [|rewrite (ialloc_run 1 start sz wk rest sb ltac:(lia) mem ∅ ic type L Hl x); [exact E|lia|done|done]].
  done.
Qed.

(** C7: the end of a file.  On the real stack, the transaction with the last
    [iput] of an inode that no directory names succeeds and leaves on the disk
    exactly its blocks (direct, indirect and the indirect block itself) and its
    inode free, every other block in use and every other inode as they were, and
    the entry of the cache unused.  The inode can then be allocated again: a transaction
    [ialloc] succeeds, takes the least free inode, at most that one, writes it
    to the disk empty and with the type, changes no other inode and no data
    block, and returns an entry with the one reference to it. *)
Theorem file_reclaimed {D} (s : fsys (lstate bcache) D) start sz wk rest sb mem ic (ip : nat) i type :
  fs_rep s (fstate 0 start sz wk rest mem ∅ ∅ ic) -> orphan start sz sb mem ∅ ic ip i ->
  icache_ok sb mem None ic -> no_stale mem ic -> (forall y, refs ic y < 2147483647) ->
  1 <= i_inum i -> is_s16 type ->
  exists s' mem', iput_op (Z.of_nat ip) s = Ok tt s' /\ gone sb start mem i mem' /\
    (forall b, b < start -> memdisk (ls_cache (fs_disk s')) !! b = mem' !! b) /\
    fs_icache s' = <[ip := dead i]> ic /\ icache_ok sb mem' None (fs_icache s') /\
    exists x k s'' mem'', ialloc_op type s' = Ok (Z.of_nat k) s'' /\
      1 <= x <= i_inum i /\ di_type (disk_inode mem' x) = 0 /\
      (forall y, 1 <= y < x -> di_type (disk_inode mem' y) <> 0) /\
      disk_inode mem'' x = dinode_of (new_inode x type) /\
      (forall y, y <> x -> disk_inode mem'' y = disk_inode mem' y) /\
      (forall b, data_start sb <= b -> mem'' !! b = mem' !! b) /\
      (forall b, b < start -> memdisk (ls_cache (fs_disk s'')) !! b = mem'' !! b) /\
      ref_taken sb mem'' None (fs_icache s') x k (fs_icache s'').
Proof.
  intros Hr Ho Hic Hst Hm Hi Ht. pose proof (or_ip _ _ _ _ _ _ _ _ Ho) as Hip.
  destruct (iput_op_run start sz wk rest sb mem ic ip i Ho) as (mem' & E & G).
  destruct (dead_cache start sz sb mem ic ip i Ho Hic Hst mem' G) as (Hic' & Hst' & Hu').
  destruct (msim_Ok _ _ _ _ _ _ _ (iput_op_sim _) Hr E) as (s' & Es & Rs).
  assert (fs_icache s' = <[ip := dead i]> ic) as Eic by (destruct Rs as (_ & -> & _); done).
  assert (forall y, refs (<[ip := dead i]> ic) y < 2147483647) as Hm'.
  { intros y. specialize (Hm y). pose proof (or_ref _ _ _ _ _ _ _ _ Ho). unfold refs in *.
    rewrite (total_insert _ _ _ _ _ Hip). cbn. repeat case_decide; lia. }
  destruct (ialloc_op_run start sz (wk ++ [ChInode (Z.of_nat ip)]) rest sb mem' (<[ip := dead i]> ic) type (i_inum i))
    as (x & k & mem'' & ic'' & E2 & Hx & Hfree & Hleast & Hnew & Hoth & Hdat & Hrt); try done.
  { apply G. }
  { exact (reclaim_lim start sz sb mem ic ip i Ho). }
  { split; [done|]. apply (io_inum _ _ _ _ (or_inode _ _ _ _ _ _ _ _ Ho)). }
  { by rewrite (gn_inode _ _ _ _ _ G). }
  destruct (msim_Ok _ _ _ _ _ _ _ (ialloc_op_sim _) Rs E2) as (s'' & Es2 & Rs2).
  exists s', mem'. rewrite Eic. split_and!; [done..|by intros; eapply fs_rep_disk|done|done|].
  exists x, k, s'', mem''. assert (fs_icache s'' = ic'') as -> by (destruct Rs2 as (_ & -> & _); done).
  split_and!; try done; [lia..|by intros; eapply fs_rep_disk].
Qed.

(** The small image when "a" has lost its name and is still open. *)
Definition open_inode : inode := set_nlink 0 (set_flags I_VALID small_inode).
Definition orphan_image : gmap Z block := updated small_image open_inode.

#[local] Opaque open_inode orphan_image.

Lemma orphan_formatted : formatted small_sb 17 orphan_image.
Proof.
  constructor; [apply layout_b_sound; vm_compute; reflexivity|done|cbn; lia| |vm_compute; reflexivity].
  intros b Hb. assert (forallb (fun b => bool_decide (is_Some (orphan_image !! b))) (upto 48) = true) as Hf
    by (vm_compute; reflexivity).
  pose proof (forallb_upto _ _ Hf b ltac:(cbn in Hb; lia)) as H.
  cbv beta in H. exact (bool_decide_eq_true_1 _ H).
Qed.

Definition open_icache : list inode := <[0%nat := open_inode]> iinit.

Lemma open_entry k a : open_icache !! k = Some a -> 0 < i_ref a -> k = 0%nat /\ a = open_inode.
Proof.
  intros [(-> & <- & _)|[_ [-> _]%lookup_replicate]]%list_lookup_insert_Some Ha; [done|]. done.
Qed.

Lemma open_fields :
  i_ref open_inode = 1 /\ i_flags open_inode = I_VALID /\ i_dev open_inode = 1 /\ i_inum open_inode = 2 /\
  i_nlink open_inode = 0.
Proof. vm_compute. repeat split; reflexivity. Qed.

Lemma open_cache_ok : icache_ok small_sb orphan_image None open_icache.
Proof.
  destruct open_fields as (Hr & Hf & Hd & Hi & _).
  eapply (icache_ok_insert _ _ None _ _ 0%nat inode0); [apply iinit_ok|done|lia|done|done|].
  intros _. rewrite Hd, Hf, Hi. split; [done|]. split; [done|]. split; [by right|]. split.
  - intros _. vm_compute. reflexivity.
  - intros x a _ [-> _]%lookup_replicate Ha. done.
Qed.

Lemma open_orphan : orphan 17 31 small_sb orphan_image ∅ open_icache 0 open_inode.
Proof.
  destruct open_fields as (Hr & Hf & Hd & Hi & Hn).
  constructor; [apply orphan_formatted|apply inode_b_sound; vm_compute; reflexivity|reflexivity|exact Hr|exact Hf|exact Hn|].
  apply Z.ltb_lt. vm_compute. reflexivity.
Qed.

(** Without it the cache is empty. *)
Lemma dead_refs y : refs (<[0%nat := dead open_inode]> open_icache) y = 0.
Proof.
  unfold open_icache, refs. rewrite list_insert_insert_eq, (total_insert _ _ _ inode0) by reflexivity.
  rewrite total_iinit by (by case_decide). change (i_ref (dead open_inode)) with 0. cbn [i_ref inode0].
  repeat case_decide; reflexivity.
Qed.

Lemma file_reclaimed_witness :
  exists (s s' s'' : fsys (lstate bcache) unit) mem' k,
    iput_op 0 s = Ok tt s' /\ gone small_sb 17 orphan_image open_inode mem' /\
    used small_sb orphan_image (slot orphan_image open_inode 1) = true /\
    used small_sb mem' (slot orphan_image open_inode 1) = false /\
    ialloc_op T_FILE s' = Ok k s'' /\ refs (fs_icache s'') 2 = 1.
Proof.
  destruct open_fields as (Hr & Hf & Hd & Hi & Hn).
  destruct (mount_fs small_sb 17 orphan_image open_icache tt orphan_formatted) as (s0 & _ & R).
  assert (forall y, refs open_icache y = if decide (y = 2) then 1 else 0) as Href.
  { intros y. unfold open_icache, refs. rewrite (total_insert _ _ _ inode0) by reflexivity.
    rewrite total_iinit by (by case_decide). rewrite Hr, Hi. cbn. repeat case_decide; lia. }
  destruct (file_reclaimed _ _ _ _ _ _ _ _ _ _ T_FILE R open_orphan open_cache_ok)
    as (s' & mem' & E & G & _ & Eic & _ & x & k & s'' & mem'' & E2 & Hx & Hfr & Hle & _ & _ & _ & _ & Ht).
  - intros j a Ha Hra. destruct (open_entry j a Ha Hra) as [_ ->]. rewrite Hi. vm_compute. discriminate.
  - intros y. rewrite Href. case_decide; lia.
  - lia.
  - unfold T_FILE. lia.
  - assert (x = 2) as ->.
    { destruct (decide (x = 1)) as [->|]; [|lia]. rewrite (gn_others _ _ _ _ _ G) in Hfr by (cbn; lia).
      assert (di_type (disk_inode orphan_image 1) = T_DIR) as E1 by (vm_compute; reflexivity).
      rewrite E1 in Hfr. discriminate Hfr. }
    assert (0 < slot orphan_image open_inode 1 < 48 /\ used small_sb orphan_image (slot orphan_image open_inode 1) = true)
      as [Hs Hu] by (vm_compute; repeat split; reflexivity).
    exists (FSys s0 open_icache [] tt), s', s'', mem', (Z.of_nat k).
    split; [exact E|]. split; [exact G|]. split; [exact Hu|]. split.
    + apply not_true_is_false. intros Hc. apply (gn_used _ _ _ _ _ G) in Hc as [_ Hno]; [|change (sb_size small_sb) with 48; lia].
      apply Hno. exists 1. split; [rewrite MAXFILE_eq; lia|]. split; [reflexivity|lia].
    + split; [exact E2|]. destruct Ht as [_ Hrt _]. rewrite Hrt, Eic, dead_refs. reflexivity.
Defined.
