(* ===== verification/CText.v ===== *)
(** Texts that C code builds in an array: literals copied by [strncpy] and
    numbers written by [itoa] after what is there. *)

From stdpp Require Import prelude strings functions gmap list.
From S2P Require Import Prelude Param CString Vm.

Lemma put_bytes_at l : forall a m x,
  put_bytes a l m x = if decide (a <= x < a + Z.of_nat (length l)) then l.[x - a] else m x.
Proof.
  induction l as [|c l IH]; intros a m x; cbn [put_bytes length].
  - by rewrite decide_False by lia.
  - rewrite IH. destruct (decide (a + 1 <= x < a + 1 + Z.of_nat (length l))) as [H|H].
    + rewrite decide_True by lia. replace (Z.to_nat (x - a)) with (S (Z.to_nat (x - (a + 1)))) by lia. done.
    + destruct (decide (x = a)) as [->|Hne].
      * rewrite ins_eq, decide_True by lia. by replace (Z.to_nat (a - a)) with 0%nat by lia.
      * rewrite ins_ne, decide_False by lia. done.
Qed.

Lemma cname_ext m m' n : forall p q,
  (forall j, 0 <= j < Z.of_nat n -> m (p + j) = m' (q + j)) -> cname m p n = cname m' q n.
Proof.
  induction n as [|n IH]; intros p q Hm; cbn [cname]; [done|].
  pose proof (Hm 0) as H0. rewrite !Z.add_0_r in H0. rewrite H0 by lia.
  destruct (ctrue _); [|done]. f_equal. apply IH. intros j Hj.
  rewrite <- !Z.add_assoc. apply Hm. lia.
Qed.

Lemma cname_cstr m n l : forall p, cstr m p l -> cname m p n = take n l.
Proof.
  revert n. induction l as [|c l IH]; intros [|n] p Hc; cbn [cname take]; try done.
  - apply cstr_nil in Hc. by rewrite Hc.
  - apply cstr_cons in Hc as (-> & Hc0 & Hc). unfold ctrue. rewrite (proj2 (Z.eqb_neq c 0) Hc0).
    cbn [negb]. f_equal. by apply IH.
Qed.

Lemma cstr_list l : no_nul l -> cstr (fun x => l.[x]) 0 l.
Proof.
  intros Hl. split; [|done]. apply bytes_at_lookup. intros i c Hi. rewrite Z.add_0_l, Nat2Z.id.
  apply lookup_app_Some in Hi as [Hi|[Hi1 Hi2]]; [by apply nth_lookup_Some|].
  apply list_lookup_singleton_Some in Hi2 as [_ <-]. by apply nth_overflow.
Qed.

Lemma nth_map_upto (f : Z -> Z) n j : 0 <= j < n -> (f <$> upto n).[j] = f j.
Proof.
  intros Hj. assert ((f <$> upto n) !! Z.to_nat j = Some (f j)) as E.
  { unfold upto. rewrite !list_lookup_fmap, lookup_seq_lt by lia. simpl. do 2 f_equal. lia. }
  by rewrite (nth_lookup_Some _ _ _ _ E).
Qed.

Lemma read_back m l a : cstr m a l -> (fun i => m (a + i)) <$> upto (Z.of_nat (length l)) = l.
Proof.
  intros [Hb _]. apply bytes_at_app in Hb as [Hb _]. rewrite bytes_at_lookup in Hb.
  apply list_eq. intros i. unfold upto. rewrite Nat2Z.id, !list_lookup_fmap.
  destruct (l !! i) as [c|] eqn:E.
  - rewrite lookup_seq_lt by (by eapply lookup_lt_Some). simpl. f_equal. by apply Hb.
  - rewrite lookup_seq_ge by (by apply lookup_ge_None). done.
Qed.

(** [strncpy(buf + strlen(buf), w, n)], the literal [w] being at [lit]. *)
Lemma strncpy_append lit t w n buf :
  bytes_at buf 0 t -> no_nul t -> no_nul w -> Z.of_nat (length w) < n -> Z.of_nat (length t) + n <= lit ->
  cstr (strncpy (Z.of_nat (length t)) lit n (put_bytes lit (w ++ [0]) buf)) 0 (t ++ w).
Proof.
  intros Hb Ht Hw Hn Hr. set (m := put_bytes lit (w ++ [0]) buf).
  assert (forall x, x < lit -> m x = buf x) as Hlow
    by (intros x Hx; unfold m; rewrite put_bytes_at, decide_False by lia; done).
  assert (cstr m lit w) as Hc.
  { split; [|done]. apply bytes_at_lookup. intros i c Hi. unfold m. pose proof (lookup_lt_Some _ _ _ Hi).
    rewrite put_bytes_at, decide_True by lia. replace (Z.to_nat _) with i by lia. by apply nth_lookup_Some. }
  assert (forall x, strncpy (Z.of_nat (length t)) lit n m x =
    if decide (Z.of_nat (length t) <= x < Z.of_nat (length t) + n) then w.[x - Z.of_nat (length t)] else m x) as Hs.
  { intros x. unfold strncpy. rewrite (strncpy_loop_spec _ _ _ w) by (done || (unfold apart; lia)).
    by rewrite Z2Nat.id by lia. }
  split; [|by apply Forall_app]. rewrite <- app_assoc. apply bytes_at_app. split.
  - rewrite bytes_at_lookup in Hb |- *. intros i c Hi. pose proof (lookup_lt_Some _ _ _ Hi).
    rewrite Hs, decide_False, Hlow by lia. by apply Hb.
  - apply bytes_at_lookup. intros i c Hi. pose proof (lookup_lt_Some _ _ _ Hi) as Hl. rewrite length_app in Hl.
    simpl in Hl. rewrite Hs, decide_True by lia. replace (Z.to_nat _) with i by lia.
    apply lookup_app_Some in Hi as [Hi|[Hi1 Hi2]]; [by apply nth_lookup_Some|].
    apply list_lookup_singleton_Some in Hi2 as [_ <-]. by apply nth_overflow.
Qed.

(** [itoa(x, buf + strlen(buf))] *)
Lemma itoa_append t x buf :
  cstr buf 0 t -> 0 <= x < 2 ^ 31 ->
  exists buf', itoa x (Z.of_nat (length t)) buf = Some buf' /\ cstr buf' 0 (t ++ decimal x).
Proof.
  intros [Hb Ht] Hx. destruct (itoa_spec x (Z.of_nat (length t)) buf Hx) as (m & E & [Hm Hn] & Hold).
  exists m. split; [done|]. split; [|by apply Forall_app]. rewrite <- app_assoc. apply bytes_at_app. split; [|done].
  apply bytes_at_app in Hb as [Hb _]. rewrite bytes_at_lookup in Hb |- *. intros i c Hi.
  pose proof (lookup_lt_Some _ _ _ Hi). rewrite Hold by lia. by apply Hb.
Qed.

Lemma decimal_no_nul x : 0 <= x < 2 ^ 31 -> no_nul (decimal x).
Proof. intros Hx. by destruct (itoa_spec x 0 (fun _ => 0) Hx) as (m & _ & [_ Hn] & _). Qed.
