(* ===== verification/DirThms.v ===== *)
(** Directories: the entries the bytes of a directory stand for, what
    [dirlookup] and [dirlink] of fs.c do with them, and the directory that a
    link transaction leaves on the disk. *)

From stdpp Require Import prelude strings gmap list functions.
From S2P Require Import Prelude Bytes Param BlockCache CString Log LogCrash BioSpec Bio BioOps TxDisk CrashDisk.
From S2P Require Import Fs Dir FsSim FsAlloc FsFile FsWrite FsCheck FsThms Icache Vm CText.

#[local] Opaque binit small_image small_inode.

(** ** Names *)

(** The name an array [char name[DIRSIZ]] holds: its bytes up to the first NUL. *)
Definition field (name : list Z) : list Z := cname (fun x => name.[x]) 0 (Z.to_nat DIRSIZ).

Lemma cname_no_nul m n : forall p, no_nul (cname m p n).
Proof.
  induction n as [|n IH]; intros p; cbn [cname]; [constructor|].
  unfold ctrue. destruct (Z.eqb_spec (m p) 0); simpl; constructor; [done|apply IH].
Qed.

Lemma length_cname m n : forall p, (length (cname m p n) <= n)%nat.
Proof.
  induction n as [|n IH]; intros p; cbn [cname]; [done|]. destruct (ctrue _); simpl; [|lia].
  specialize (IH (p + 1)). lia.
Qed.

(** A string is its own name, cut at [DIRSIZ] bytes. *)
Lemma field_str l : no_nul l -> field l = take (Z.to_nat DIRSIZ) l.
Proof. intros Hl. by apply cname_cstr, cstr_list. Qed.

Lemma field_idem name : field (field name) = field name.
Proof. rewrite field_str by apply cname_no_nul. apply take_ge, length_cname. Qed.

(** Only the first [DIRSIZ] bytes count. *)
Lemma field_ext l l' : (forall j, 0 <= j < DIRSIZ -> l.[j] = l'.[j]) -> field l = field l'.
Proof. intros Hl. apply cname_ext. intros j Hj. rewrite Z.add_0_l. apply Hl. unfold DIRSIZ in *. lia. Qed.

(** [namecmp] compares names. *)
Lemma namecmp_field s t : namecmp s t = 0 <-> field s = field t.
Proof.
  unfold namecmp. rewrite strncmp_spec. unfold field.
  rewrite (cname_ext _ (fun x => s.[x]) _ 0 0), (cname_ext _ (fun x => t.[x]) _ 64 0); [done|..];
    intros j Hj; unfold two_strings, DIRSIZ in *.
  - destruct (Z.ltb_spec (64 + j) 64); [lia|]. do 2 f_equal. lia.
  - destruct (Z.ltb_spec (0 + j) 64); [done|lia].
Qed.

(** [strncpy] of [n] bytes from anything that does not overlap. *)
Lemma strncpy_loop_cname n : forall s t m x,
  t + Z.of_nat n <= s -> s <= x < s + Z.of_nat n ->
  strncpy_loop s t n m x = (cname m t n).[x - s].
Proof.
  induction n as [|n IH]; intros s t m x Ht Hx; [lia|]. cbn [strncpy_loop cname].
  unfold ctrue. destruct (Z.eqb_spec (m t) 0) as [E|E]; cbn [negb].
  - rewrite fill0_spec. rewrite nth_overflow by (simpl; lia). case_decide; [done|].
    assert (x = s) as -> by lia. by rewrite fn_lookup_insert.
  - destruct (decide (x = s)) as [->|Hne].
    + rewrite Z.sub_diag. cbn [nth Z.to_nat].
      assert (forall n s t m x, x < s -> strncpy_loop s t n m x = m x) as Hout.
      { clear. induction n as [|n IH]; intros s t m x Hx; cbn [strncpy_loop]; [done|].
        destruct (ctrue _); [rewrite IH by lia|rewrite fill0_spec, decide_False by lia];
          by rewrite fn_lookup_insert_ne by lia. }
      rewrite Hout by lia. by rewrite fn_lookup_insert.
    + rewrite IH by lia. replace (Z.to_nat (x - s)) with (S (Z.to_nat (x - (s + 1)))) by lia. cbn [nth].
      f_equal. apply cname_ext. intros j Hj. by rewrite fn_lookup_insert_ne by lia.
Qed.

Lemma length_strncpy_name name : length (strncpy_name name) = Z.to_nat DIRSIZ.
Proof. unfold strncpy_name. by rewrite length_fmap, length_upto. Qed.

Lemma strncpy_name_field name : field (strncpy_name name) = field name.
Proof.
  rewrite <- (field_idem name). apply field_ext. intros j Hj. unfold strncpy_name.
  rewrite nth_map_upto by done. unfold strncpy, DIRSIZ in *. rewrite strncpy_loop_cname by lia.
  unfold field. replace (64 + j - 64) with j by lia. done.
Qed.

Lemma field_bytes_ok name j : bytes_ok name -> 0 <= (field name).[j] < 256.
Proof.
  intros Hn. destruct (nth_in_or_default (Z.to_nat j) (field name) 0) as [Hin| ->]; [|lia].
  assert (forall n p x, In x (cname (fun x => name.[x]) p n) -> exists q, x = name.[q]) as Hc.
  { clear. induction n as [|n IH]; intros p x Hx; cbn [cname] in Hx; [done|].
    destruct (ctrue _); [|done]. destruct Hx as [<-|Hx]; eauto. }
  destruct (Hc _ _ _ Hin) as [q ->].
  destruct (nth_in_or_default (Z.to_nat q) name 0) as [Hq| ->]; [|lia].
  by apply (proj1 (List.Forall_forall _ _) Hn).
Qed.

Lemma strncpy_name_bytes name : bytes_ok name -> bytes_ok (strncpy_name name).
Proof.
  intros Hn. apply Forall_fmap, Forall_forall. intros j Hj%list_elem_of_In%elem_of_upto. unfold compose, strncpy, DIRSIZ in *.
  rewrite strncpy_loop_cname by lia. rewrite (cname_ext _ (fun x => name.[x]) _ 0 0).
  - apply (field_bytes_ok name (64 + j - 64) Hn).
  - intros x Hx. unfold two_strings. destruct (Z.ltb_spec (0 + x) 64); [done|lia].
Qed.

(** ** Entries *)

Definition dirent_slice (c : list Z) (k : nat) : list Z := slice c (16 * k) 16.

(** The inode number and the name of an entry. *)
Definition dirent_of (de : list Z) : Z * list Z := (dirent_inum de, field (dirent_name de)).

(** The entries in the bytes of a directory. *)
Definition dirents (c : list Z) : list (Z * list Z) :=
  (fun k => dirent_of (dirent_slice c k)) <$> seq 0 (length c / 16).

(** The first entry in use with the name, with its offset. *)
Fixpoint dir_find (name : list Z) (es : list (Z * list Z)) (off : Z) : option (Z * Z) :=
  match es with
  | [] => None
  | (inum, n) :: es =>
      if (negb (inum =? 0) && bool_decide (n = name))%bool then Some (inum, off)
      else dir_find name es (off + sizeof_dirent)
  end.

(** The number of the first free entry, or of the one after the last. *)
Fixpoint dir_free (es : list (Z * list Z)) : nat :=
  match es with
  | [] => 0
  | (inum, _) :: es => if inum =? 0 then 0 else S (dir_free es)
  end.

(** No name is in use twice. *)
Definition dir_unique (es : list (Z * list Z)) : Prop :=
  forall j k x y n, es !! j = Some (x, n) -> es !! k = Some (y, n) -> x <> 0 -> y <> 0 -> j = k.

Lemma length_dirents c : length (dirents c) = (length c / 16)%nat.
Proof. unfold dirents. by rewrite length_fmap, length_seq. Qed.

Lemma lookup_dirents c k :
  (16 * k + 16 <= length c)%nat -> dirents c !! k = Some (dirent_of (dirent_slice c k)).
Proof.
  intros Hk. assert (k < length c / 16)%nat as Hlt by (apply Nat.div_le_lower_bound; lia).
  unfold dirents. by rewrite list_lookup_fmap, lookup_seq_lt by done.
Qed.

Lemma dirents_lookup_ge c k : (length c < 16 * k + 16)%nat -> dirents c !! k = None.
Proof.
  intros Hk. apply lookup_ge_None. rewrite length_dirents. apply Nat.lt_succ_r, Nat.Div0.div_lt_upper_bound. lia.
Qed.

(** [dir_free] is a free entry or the end, and the entries before are in use. *)
Lemma dir_free_le es : (dir_free es <= length es)%nat.
Proof. induction es as [|[x n] es IH]; cbn [dir_free]; [done|]. destruct (x =? 0); simpl; lia. Qed.

Lemma dir_free_entry es x n : es !! dir_free es = Some (x, n) -> x = 0.
Proof.
  induction es as [|[y m] es IH]; cbn [dir_free]; [done|].
  destruct (Z.eqb_spec y 0) as [->|Hy]; [by intros [= <- <-]|done].
Qed.

Lemma dir_find_Some name es : forall off x o,
  dir_find name es off = Some (x, o) ->
  x <> 0 /\ exists k, es !! k = Some (x, name) /\ o = off + 16 * Z.of_nat k.
Proof.
  induction es as [|[y n] es IH]; intros off x o E; [done|]. cbn [dir_find] in E.
  destruct (Z.eqb_spec y 0) as [->|Hy]; cbn [negb andb] in E.
  - destruct (IH _ _ _ E) as (Hx & k & Hk & ->). split; [done|]. exists (S k). split; [done|]. unfold sizeof_dirent. lia.
  - case_bool_decide.
    + simplify_eq. split; [done|]. exists 0%nat. split; [done|lia].
    + destruct (IH _ _ _ E) as (Hx & k & Hk & ->). split; [done|]. exists (S k). split; [done|]. unfold sizeof_dirent. lia.
Qed.

Lemma dir_find_None name es off :
  dir_find name es off = None <-> forall k x, es !! k = Some (x, name) -> x = 0.
Proof.
  revert off. induction es as [|[y n] es IH]; intros off; cbn [dir_find].
  { split; [|done]. intros _ k x. by rewrite lookup_nil. }
  split.
  - intros E [|k] x Hk; cbn in Hk.
    + simplify_eq. rewrite bool_decide_true, andb_true_r in E by done. destruct (Z.eqb_spec x 0); [done|done].
    + destruct (negb (y =? 0) && bool_decide (n = name)); [done|]. by eapply IH.
  - intros Hk. destruct (Z.eqb_spec y 0) as [->|Hy]; cbn [negb andb].
    + apply IH. intros k x. apply (Hk (S k)).
    + rewrite bool_decide_false by (intros ->; by apply Hy, (Hk 0%nat)). apply IH. intros k x. apply (Hk (S k)).
Qed.

(** Entry [k] replaced, or added at the end. *)
Definition dir_set (es : list (Z * list Z)) (k : nat) (e : Z * list Z) : list (Z * list Z) :=
  take k es ++ e :: drop (S k) es.

Lemma lookup_dir_set es k e j :
  (k <= length es)%nat -> dir_set es k e !! j = if decide (j = k) then Some e else es !! j.
Proof.
  intros Hk. unfold dir_set. destruct (decide (j = k)) as [->|Hj].
  - rewrite lookup_app_r by (rewrite length_take; lia).
    by replace (k - length (take k es))%nat with 0%nat by (rewrite length_take; lia).
  - destruct (decide (j < k)%nat).
    + rewrite lookup_app_l by (rewrite length_take; lia). by rewrite lookup_take_lt.
    + rewrite lookup_app_r by (rewrite length_take; lia). rewrite length_take, Nat.min_l by lia.
      destruct (j - k)%nat as [|m] eqn:E; [lia|]. change (drop (S k) es !! m = es !! j). rewrite lookup_drop. f_equal. lia.
Qed.

(** Storing the 16 bytes of an entry. *)
Lemma dirents_store c k de :
  (length c mod 16 = 0)%nat -> (16 * k <= length c)%nat -> length de = 16%nat ->
  dirents (take (16 * k) c ++ de ++ drop (16 * k + 16) c) = dir_set (dirents c) k (dirent_of de).
Proof.
  intros Hm Hk Hde. set (c' := _ ++ _).
  pose proof (Nat.div_mod_eq (length c) 16) as Hq. rewrite Hm, Nat.add_0_r in Hq.
  set (q := (length c / 16)%nat) in *.
  assert (length c' = Nat.max (16 * q) (16 * k + 16)) as Hl
    by (unfold c'; rewrite !length_app, length_take, length_drop; lia).
  assert (forall x : nat, (16 * k <= x < 16 * k + 16)%nat -> c' !! x = de !! (x - 16 * k)%nat) as Hin.
  { intros x Hx. unfold c'. rewrite lookup_app_r; rewrite length_take; [|lia].
    rewrite lookup_app_l by lia. f_equal. lia. }
  assert (forall x : nat, (x < 16 * k \/ 16 * k + 16 <= x)%nat -> c' !! x = c !! x) as Hout.
  { intros x Hx. unfold c'. destruct (decide (x < 16 * k)%nat).
    - rewrite lookup_app_l by (rewrite length_take; lia). by rewrite lookup_take_lt.
    - rewrite lookup_app_r; rewrite length_take; [|lia]. rewrite lookup_app_r by lia.
      rewrite lookup_drop. f_equal. lia. }
  apply list_eq. intros j. rewrite lookup_dir_set by (rewrite length_dirents; fold q; lia).
  destruct (decide (j = k)) as [->|Hj].
  - rewrite lookup_dirents by lia. do 2 f_equal. unfold dirent_slice. apply list_eq. intros x.
    destruct (decide (x < 16)%nat).
    + rewrite lookup_slice, Hin by lia. f_equal. lia.
    + rewrite !lookup_ge_None_2; [done|lia|]. rewrite length_slice; lia.
  - destruct (decide (16 * j + 16 <= 16 * q)%nat).
    + rewrite !lookup_dirents by lia. do 2 f_equal. unfold dirent_slice. apply list_eq. intros x.
      destruct (decide (x < 16)%nat).
      * rewrite !lookup_slice, Hout by lia. done.
      * rewrite !lookup_ge_None_2; [done|..]; rewrite length_slice; lia.
    + rewrite !dirents_lookup_ge by lia. done.
Qed.

Lemma length_dirent_bytes inum name : length (dirent_bytes inum name) = 16%nat.
Proof. unfold dirent_bytes. by rewrite length_app, length_le_split, length_strncpy_name. Qed.

Lemma dirent_bytes_of inum name :
  0 <= inum < 65536 -> dirent_of (dirent_bytes inum name) = (inum, field name).
Proof.
  intros Hi. unfold dirent_of, dirent_bytes, dirent_inum, dirent_name, get_le, slice. f_equal.
  - rewrite drop_0, take_app_length' by (by rewrite length_le_split). rewrite le_combine_split.
    apply Z.mod_small. done.
  - rewrite drop_app_length' by (by rewrite length_le_split).
    rewrite take_ge by (by rewrite length_strncpy_name). apply strncpy_name_field.
Qed.

(** Adding a name that is not there: it is found, and the others as before. *)
Lemma dir_find_link name es x name' : forall off,
  x <> 0 -> dir_find name es off = None ->
  dir_find name' (dir_set es (dir_free es) (x, name)) off =
    if decide (name' = name) then Some (x, off + 16 * Z.of_nat (dir_free es)) else dir_find name' es off.
Proof.
  induction es as [|[y n] es IH]; intros off Hx E; cbn [dir_free dir_find] in *.
  - unfold dir_set. cbn. rewrite (proj2 (Z.eqb_neq x 0) Hx). cbn [negb andb].
    case_decide; [rewrite bool_decide_true by done|by rewrite bool_decide_false by congruence]. do 2 f_equal. lia.
  - destruct (Z.eqb_spec y 0) as [->|Hy].
    + unfold dir_set. cbn [take drop app dir_find]. rewrite (proj2 (Z.eqb_neq x 0) Hx). cbn [negb andb].
      rewrite drop_0. case_decide; [rewrite bool_decide_true by done|by rewrite bool_decide_false by congruence].
      do 2 f_equal. lia.
    + cbn [negb andb] in *. destruct (bool_decide_reflect (n = name)) as [->|Hn]; [done|].
      change (dir_set ((y, n) :: es) (S (dir_free es)) (x, name)) with ((y, n) :: dir_set es (dir_free es) (x, name)).
      cbn [dir_find]. rewrite (proj2 (Z.eqb_neq y 0) Hy). cbn [negb andb]. case_bool_decide.
      * rewrite decide_False by congruence. done.
      * rewrite IH by done. case_decide; [|done]. unfold sizeof_dirent. do 2 f_equal. lia.
Qed.

Lemma dir_unique_link name es x off :
  dir_unique es -> dir_find name es off = None -> dir_unique (dir_set es (dir_free es) (x, name)).
Proof.
  intros Hu E j k y z n. pose proof (proj1 (dir_find_None _ _ _) E). rewrite !lookup_dir_set by apply dir_free_le.
  repeat case_decide; intros; simplify_eq; try done.
  - by exfalso; eauto.
  - by exfalso; eauto.
  - by eapply Hu.
Qed.

(** ** The operations over the abstract disk *)

(** The directory [i] in entry [ip] of the inode cache. *)
Record dir_inode (sb : superblock) (start : Z) (mem : gmap Z block) (ic : list inode) (ip : nat) (i : inode)
    : Prop := {
  di_layout : layout sb start mem;
  di_ok : inode_ok sb start mem i;
  di_ip : ic !! ip = Some i;
  di_dir : i_type i = T_DIR;
  di_mult : i_size i mod sizeof_dirent = 0
}.

Section runs.
Context {D : Type} (out start sz : Z) (wk : list chan) (rest : D) (sb : superblock).
Context (devsw : Z -> devops (fsys tdisk D)).
Context (mem : gmap Z block) (ic : list inode) (lg : gset Z) (ip : nat) (i : inode).
Hypothesis Hd : dir_inode sb start mem ic ip i.
Hypothesis Hlg : Z.of_nat (size lg) < loglim sz.
Abbreviation st := (fstate out start sz wk rest mem ∅ lg ic).
Abbreviation es := (dirents (contents mem i)).

Lemma dir_size : i_size i = 16 * Z.of_nat (length es) /\ i_size i <= 71680.
Proof.
  clear Hlg. rewrite length_dirents, length_file_contents. destruct Hd as [_ O _ _ Hm].
  pose proof (io_size _ _ _ _ O) as Hs. rewrite MAXFILE_eq in Hs. unfold BSIZE, sizeof_dirent in *.
  split; [|lia]. rewrite Nat2Z.inj_div, Z2Nat.id by lia. pose proof (Z_div_mod_eq_full (i_size i) 16). lia.
Qed.

Lemma is_dir_run : is_dir devsw (Z.of_nat ip) st = Ok true st.
Proof.
  unfold is_dir. erewrite bind_run; [|apply get_inode_run, Hd]. by rewrite (di_dir _ _ _ _ _ _ Hd).
Qed.

(** Reading entry [k]. *)
Lemma readi_dirent (k : nat) :
  (k < length es)%nat ->
  exists de, readi devsw (Z.of_nat ip) (16 * Z.of_nat k) sizeof_dirent st = Ok (16, de) st /\
    es !! k = Some (dirent_of de).
Proof.
  intros Hk. destruct dir_size as [Hs Hmax]. pose proof Hd as [L O Hip Ht _].
  exists (dirent_slice (contents mem i) k). unfold sizeof_dirent. split.
  - rewrite (readi_run out start sz wk rest sb devsw mem lg ic ip i) by (try done; try lia; rewrite Ht; discriminate).
    do 2 f_equal; [lia|]. unfold dirent_slice. f_equal; lia.
  - apply lookup_dirents. rewrite length_file_contents. lia.
Qed.

Lemma iget_get dev inum (s : fsys tdisk D) x s' :
  iget dev inum s = Ok x s' -> exists j, get_inode x s' = Ok j s'.
Proof.
  unfold iget. rewrite (bind_run _ _ _ (fs_icache s) s) by done.
  destruct (iget_scan _ _ _ _ _) as [[y|] [z|]]; try done;
    unfold get_inode at 1, mbind, M_bind;
    match goal with |- context [if ?y <? 0 then _ else _] => destruct (Z.ltb_spec y 0); [done|] end;
    match goal with |- context [fs_icache s !! ?k] => destruct (fs_icache s !! k) as [j|] eqn:Ej end;
    try done; cbn; intros [= <- <-];
    unfold get_inode; cbn;
    match goal with |- context [if ?y <? 0 then _ else _] => destruct (Z.ltb_spec y 0); [lia|] end;
    rewrite list_lookup_insert_eq by (by eapply lookup_lt_Some); eauto.
Qed.

Lemma dirlookup_loop_run name n : forall k fuel,
  (k + n = length es)%nat -> (n < fuel)%nat ->
  dirlookup_loop devsw fuel (Z.of_nat ip) (16 * Z.of_nat k) name st =
  match dir_find (field name) (drop k es) (16 * Z.of_nat k) with
  | None => Ok None st
  | Some (inum, off) => (x ← iget ROOTDEV inum; mret (Some (x, off))) st
  end.
Proof.
  destruct dir_size as [Hs Hmax]. pose proof Hd as [L O Hip Ht _].
  induction n as [|n IH]; intros k [|fuel] Hk Hf; try lia; cbn [dirlookup_loop];
    (erewrite bind_run; [|apply get_inode_run, Hip]); rewrite Ht; change (T_DIR =? T_DEV) with false;
    rewrite orb_false_r.
  { destruct (Z.ltb_spec (16 * Z.of_nat k) (i_size i)); [lia|]. by rewrite drop_ge by lia. }
  destruct (Z.ltb_spec (16 * Z.of_nat k) (i_size i)); [|lia].
  destruct (readi_dirent k ltac:(lia)) as (de & Er & Ek).
  erewrite bind_run; [|exact Er]. cbv beta iota. erewrite bind_run; [|apply get_inode_run, Hip].
  change (negb (16 =? sizeof_dirent)) with false. cbv iota. rewrite Ht. change (T_DIR =? T_DEV) with false.
  rewrite (drop_S _ _ _ Ek). unfold dirent_of. cbn [dir_find].
  assert (u32 (16 * Z.of_nat k + sizeof_dirent) = 16 * Z.of_nat (S k)) as -> by
    (unfold sizeof_dirent; rewrite u32_small; lia).
  replace (16 * Z.of_nat k + sizeof_dirent) with (16 * Z.of_nat (S k)) by (unfold sizeof_dirent; lia).
  destruct (Z.eqb_spec (dirent_inum de) 0) as [E0|E0]; cbn [negb andb]; [apply IH; lia|].
  destruct (bool_decide_reflect (field (dirent_name de) = field name)) as [En|En].
  - rewrite (proj2 (Z.eqb_eq _ _) (proj2 (namecmp_field _ _) (eq_sym En))). rewrite (io_dev _ _ _ _ O).
    unfold mbind, M_bind. change ROOTDEV with 1. destruct (iget _ _ _) as [x s'| | |] eqn:Ei; try done.
    destruct (iget_get _ _ _ _ _ Ei) as [j ->]. by rewrite andb_false_r.
  - rewrite (proj2 (Z.eqb_neq _ _)) by (intros E%namecmp_field; congruence). apply IH; lia.
Qed.

(** [dirlookup] finds the first entry in use with the name, and takes a
    reference to its inode. *)
Lemma dirlookup_run name :
  dirlookup devsw (Z.of_nat ip) name st =
  match dir_find (field name) es 0 with
  | None => Ok None st
  | Some (inum, off) => (x ← iget ROOTDEV inum; mret (Some (x, off))) st
  end.
Proof.
  destruct dir_size as [Hs Hmax]. unfold dirlookup. erewrite bind_run; [|apply is_dir_run]. cbn [negb].
  erewrite bind_run; [|apply get_inode_run, Hd].
  rewrite (dirlookup_loop_run name (length es) 0); [by rewrite drop_0|done|].
  unfold dir_fuel. rewrite (di_dir _ _ _ _ _ _ Hd). change (T_DIR =? T_DEV) with false. cbv iota.
  rewrite Hs. unfold sizeof_dirent. rewrite (Z.mul_comm 16), Z.div_mul by lia. lia.
Qed.

Lemma dirlink_loop_run n : forall k fuel,
  (k + n = length es)%nat -> (n < fuel)%nat ->
  dirlink_loop devsw fuel (Z.of_nat ip) (16 * Z.of_nat k) st =
  Ok (16 * Z.of_nat (k + dir_free (drop k es))) st.
Proof.
  destruct dir_size as [Hs Hmax]. pose proof Hd as [L O Hip Ht _].
  induction n as [|n IH]; intros k [|fuel] Hk Hf; try lia; cbn [dirlink_loop];
    (erewrite bind_run; [|apply get_inode_run, Hip]).
  { destruct (Z.ltb_spec (16 * Z.of_nat k) (i_size i)); [lia|]. rewrite drop_ge by lia. cbn. by rewrite Nat.add_0_r. }
  destruct (Z.ltb_spec (16 * Z.of_nat k) (i_size i)); [|lia].
  destruct (readi_dirent k ltac:(lia)) as (de & Er & Ek). erewrite bind_run; [|exact Er]. cbv beta iota.
  change (negb (16 =? sizeof_dirent)) with false. cbv iota. rewrite (drop_S _ _ _ Ek). unfold dirent_of. cbn [dir_free].
  destruct (dirent_inum de =? 0); [by rewrite Nat.add_0_r|].
  replace (16 * Z.of_nat k + sizeof_dirent) with (16 * Z.of_nat (S k)) by (unfold sizeof_dirent; lia).
  rewrite IH by lia. do 2 f_equal. lia.
Qed.

(** Where [dirlink] writes. *)
Definition link_off : Z := 16 * Z.of_nat (dir_free es).

Lemma dirlink_run name inum :
  1 <= out -> dir_find (field name) es 0 = None -> bytes_ok name -> synced mem i ->
  link_off + 16 <= MAXFILE * BSIZE -> pot sb i lg + 1 < loglim sz -> space start sb mem i link_off 16 ->
  exists mem' i' lg',
    dirlink devsw (Z.of_nat ip) name inum st = Ok 0 (fstate out start sz wk rest mem' ∅ lg' (<[ip := i']> ic)) /\
    written start sb mem i link_off (dirent_bytes inum name) mem' i'.
Proof.
  intros Hout Hn Hb Hsy Hmax Hpot Hsp. destruct dir_size as [Hs _]. pose proof Hd as [L O Hip Ht _].
  pose proof (length_dirent_bytes inum name) as Hlen. pose proof (dir_free_le es).
  destruct (writei_run out start sz wk rest sb Hout devsw mem lg ic ip i (dirent_bytes inum name) link_off 16)
    as (mem' & i' & lg' & E & W & _); try done; try (unfold link_off in *; lia).
  - rewrite Ht. discriminate.
  - unfold dirent_bytes. apply Forall_app. split; [apply le_split_ok|by apply strncpy_name_bytes].
  - assert (touched link_off 16 = 1) as ->; [|done]. unfold touched, block_end, link_off, BSIZE.
    change (16 <=? 0) with false. cbv iota. set (f := Z.of_nat _).
    assert (16 * f / 512 = f / 32) as -> by (apply (Z.div_mul_cancel_l f 32 16); lia).
    assert ((16 * f + 16 - 1) / 512 = f / 32) as ->; [|lia].
    symmetry. apply (Z.div_unique _ _ _ (16 * (f mod 32) + 15)); pose proof (Z.mod_pos_bound f 32 ltac:(lia)); [lia|].
    pose proof (Z_div_mod_eq_full f 32). lia.
  - exists mem', i', lg'. rewrite take_ge in W by (rewrite Hlen; lia). split; [|done].
    unfold dirlink. rewrite (bind_run _ _ _ None st) by (by rewrite dirlookup_run, Hn).
    erewrite bind_run; [|apply get_inode_run, Hip].
    rewrite (bind_run _ _ _ link_off st).
    + erewrite bind_run; [|exact E]. done.
    + rewrite (dirlink_loop_run (length es) 0); [by rewrite drop_0|done|].
      rewrite Hs. unfold sizeof_dirent. rewrite (Z.mul_comm 16), Z.div_mul by lia. lia.
Qed.

End runs.

(** ** A link transaction *)

Definition link_op {T D} `{Disk T} (devsw : Z -> devops (fsys T D)) (dp : Z) (name : list Z) (inum : Z)
    : M (fsys T D) Z :=
  dio d_begin_op;;
  r ← dirlink devsw dp name inum;
  dio d_end_op;;
  mret r.

Lemma link_op_sim {T D} `{DiskSpec T tdisk} (devsw : Z -> devops (fsys T D)) devsw' dp name inum :
  (forall major, dev_sim (devsw major) (devsw' major)) ->
  msim fs_rep (link_op devsw dp name inum) (link_op devsw' dp name inum).
Proof. intros Hd. unfold link_op. fs_sim. by apply dirlink_sim. Qed.

(** A directory, locked, in which the log and the disk leave room for an entry. *)
Record linkable (start sz : Z) (sb : superblock) (mem : gmap Z block) (ic : list inode) (ip : nat) (i : inode)
    : Prop := {
  la_dir : dir_inode sb start mem ic ip i;
  la_cache : icache_ok sb mem (Some ip) ic;
  la_max : link_off mem i + 16 <= MAXFILE * BSIZE;
  la_log : pot sb i ∅ + 1 < loglim sz;
  la_space : space start sb mem i (link_off mem i) 16
}.

Section link.
Context {D : Type} (start sz : Z) (wk : list chan) (rest : D) (sb : superblock).
Context (devsw : Z -> devops (fsys tdisk D)).
Context (mem : gmap Z block) (ic : list inode) (ip : nat) (i : inode) (name : list Z).
Hypothesis Hla : linkable start sz sb mem ic ip i.
Abbreviation es := (dirents (contents mem i)).

Lemma link_lim : Z.of_nat (size (∅ : gset Z)) < loglim sz.
Proof. pose proof (la_log _ _ _ _ _ _ _ Hla). pose proof (pot_mono sb i ∅). lia. Qed.

Lemma link_synced : synced mem i /\ 0 < i_ref i.
Proof.
  destruct Hla as [[L O Hip Ht Hm] Hic _ _ _]. destruct (ic_lock _ _ _ _ Hic ip eq_refl) as (a & Ha & Hr). simplify_eq.
  split; [|done]. apply (ic_sync _ _ _ _ Hic ip i Hip Hr).
  pose proof (ic_flags _ _ _ _ Hic ip i Hip Hr) as Hf. rewrite decide_True in Hf by done. by rewrite Hf.
Qed.

Lemma link_op_new inum :
  0 <= inum < 65536 -> bytes_ok name -> dir_find (field name) es 0 = None ->
  exists mem' i', link_op devsw (Z.of_nat ip) name inum (fstate 0 start sz wk rest mem ∅ ∅ ic) =
      Ok 0 (fstate 0 start sz wk rest mem' ∅ ∅ (<[ip := i']> ic)) /\
    written start sb mem i (link_off mem i) (dirent_bytes inum name) mem' i' /\
    dir_inode sb start mem' (<[ip := i']> ic) ip i' /\
    dirents (contents mem' i') = dir_set es (dir_free es) (inum, field name).
Proof.
  intros Hi Hb Hn. destruct link_synced as [Hs _]. pose proof Hla as [Hd _ Hmax Hlog Hsp].
  destruct (dirlink_run 1 start sz wk rest sb devsw mem ic ∅ ip i Hd link_lim name inum)
    as (mem' & i' & lg' & E & W); [done..|].
  edestruct dir_size as [Hsz _]; [exact Hd|]. pose proof Hd as [L O Hip Ht Hm].
  pose proof (length_dirent_bytes inum name) as Hlen. pose proof (dir_free_le es) as Hfree.
  exists mem', i'. split_and!; [|done| |].
  - unfold link_op. erewrite bind_run; [|reflexivity].
    change (FSys _ _ _ _) with (fstate 1 start sz wk rest mem ∅ ∅ ic). erewrite bind_run; [|exact E]. done.
  - destruct W as [L' O' Ei _ _ _ _ _ _ _]. constructor; try done.
    + apply list_lookup_insert_eq. by eapply lookup_lt_Some.
    + by rewrite Ei.
    + rewrite Ei. cbn [i_size set_addrs set_size]. rewrite Hlen. unfold link_off, sizeof_dirent in *.
      apply Z.max_case; [done|]. replace (_ + _) with ((Z.of_nat (dir_free es) + 1) * 16) by lia. apply Z_mod_mult.
  - rewrite (wr_contents _ _ _ _ _ _ _ _ W), Hlen. unfold link_off.
    replace (Z.to_nat (16 * Z.of_nat (dir_free es))) with (16 * dir_free es)%nat by lia.
    assert (length (contents mem i) = length es * 16)%nat as El by (rewrite length_file_contents, Hsz; lia).
    rewrite dirents_store, dirent_bytes_of; [done|done| |lia|done]. rewrite El. apply Nat.Div0.mod_mul.
Qed.

(** A name that is there: a reference is taken and given back. *)
Lemma link_op_exists x off inum :
  dir_find (field name) es 0 = Some (x, off) -> 0 <= x < sb_ninodes sb ->
  di_nlink (disk_inode mem x) <> 0 -> 0 < unused ic -> refs ic x < 2147483647 ->
  exists ic', link_op devsw (Z.of_nat ip) name inum (fstate 0 start sz wk rest mem ∅ ∅ ic) =
      Ok (-1) (fstate 0 start sz wk rest mem ∅ ∅ ic') /\
    icache_ok sb mem (Some ip) ic' /\ forall y, refs ic' y = refs ic y.
Proof.
  intros Hf Hx Hn Hu Hm. destruct link_synced as [_ Hri]. pose proof Hla as [Hd Hic _ _ _].
  destruct (iget_run 1 start sz wk rest sb mem ∅ (Some ip) ic Hic x Hx Hu Hm) as (k & ic1 & E & [Hic1 Hr1 Hen]).
  destruct Hen as (a & j & Ha & Eic & Hj & Hrj & Hold & _).
  assert (ic1 !! k = Some j) as Hk1 by (subst ic1; apply list_lookup_insert_eq; by eapply lookup_lt_Some).
  destruct (iput_run 1 start sz wk rest sb mem ∅ (Some ip) ic1 Hic1 k j Hk1 Hrj) as (E2 & Hic2 & Hr2 & _).
  - rewrite Hr1, Hj, decide_True by done. lia.
  - intros [= <-]. destruct Hd as [_ _ Hip _ _]. simplify_eq. rewrite (Hold Hri). cbn. lia.
  - intros Hfl. pose proof (ic_sync _ _ _ _ Hic1 k j Hk1 Hrj Hfl) as Hs. unfold synced in Hs. rewrite Hj in Hs.
    unfold disk_inode in Hn. by rewrite Hs in Hn.
  - eexists. split_and!; [|exact Hic2|].
    + assert (dirlookup devsw (Z.of_nat ip) name (fstate 1 start sz wk rest mem ∅ ∅ ic) =
        Ok (Some (Z.of_nat k, off)) (fstate 1 start sz wk rest mem ∅ ∅ ic1)) as El.
      { rewrite (dirlookup_run 1 start sz wk rest sb devsw mem ic ∅ ip i Hd link_lim), Hf.
        by rewrite (bind_run _ _ _ _ _ E). }
      unfold link_op. erewrite bind_run; [|reflexivity].
      change (FSys _ _ _ _) with (fstate 1 start sz wk rest mem ∅ ∅ ic).
      erewrite bind_run; [|unfold dirlink; rewrite (bind_run _ _ _ _ _ El); by rewrite (bind_run _ _ _ _ _ E2)].
      done.
    + intros y. rewrite Hr2, Hr1, Hj. case_decide; lia.
Qed.
End link.

(** C6: [dirlink] adds a name to a directory, durably, or refuses.  On the real
    stack, for a locked directory with room for an entry: if the name is not
    there, the transaction returns 0, writes one entry in the first free place,
    and leaves on the disk a directory in which a lookup of the name finds the
    inode, every other name is found where it was, and names stay unique;
    [dirlookup] then returns an entry of the inode cache with one more reference
    to that inode.  If the name is there it returns -1, with the disk and
    the counts of references as they were. *)
Theorem dirlink_durable {D} devsw devsw' (s : fsys (lstate bcache) D) start sz wk rest sb mem ic
    (ip : nat) i name inum :
  (forall major, dev_sim (devsw major) (devsw' major)) ->
  fs_rep s (fstate 0 start sz wk rest mem ∅ ∅ ic) -> linkable start sz sb mem ic ip i ->
  bytes_ok name -> 0 < inum < sb_ninodes sb -> inum < 65536 -> 0 < unused ic ->
  (forall x, refs ic x < 2147483647) ->
  let es := dirents (contents mem i) in
  match dir_find (field name) es 0 with
  | None => exists s' mem' i',
      link_op devsw (Z.of_nat ip) name inum s = Ok 0 s' /\
      written start sb mem i (link_off mem i) (dirent_bytes inum name) mem' i' /\
      fs_rep s' (fstate 0 start sz wk rest mem' ∅ ∅ (<[ip := i']> ic)) /\
      (forall b, b < start -> memdisk (ls_cache (fs_disk s')) !! b = mem' !! b) /\
      let es' := dirents (contents mem' i') in
      (forall n, dir_find n es' 0 =
        if decide (n = field name) then Some (inum, link_off mem i) else dir_find n es 0) /\
      (dir_unique es -> dir_unique es') /\
      exists k s'', dirlookup devsw (Z.of_nat ip) name s' = Ok (Some (Z.of_nat k, link_off mem i)) s'' /\
        ref_taken sb mem' (Some ip) (<[ip := i']> ic) inum k (fs_icache s'')
  | Some (x, _) => 0 <= x < sb_ninodes sb -> di_nlink (disk_inode mem x) <> 0 ->
      exists s' ic', link_op devsw (Z.of_nat ip) name inum s = Ok (-1) s' /\
        fs_rep s' (fstate 0 start sz wk rest mem ∅ ∅ ic') /\
        icache_ok sb mem (Some ip) ic' /\ forall y, refs ic' y = refs ic y
  end.
Proof.
  intros Hd Hr Hla Hb Hi Hi16 Hu Hm es. pose proof (link_op_sim devsw devsw' (Z.of_nat ip) name inum Hd) as Hsim.
  destruct (dir_find (field name) es 0) as [[x off]|] eqn:Ef.
  - intros Hx Hn. destruct (link_op_exists start sz wk rest sb devsw' mem ic ip i name Hla x off inum)
      as (ic' & E & Hic & Href); [done..|].
    destruct (msim_Ok _ _ _ _ _ _ _ Hsim Hr E) as (s' & Es & Rs). eauto 7.
  - destruct (link_op_new start sz wk rest sb devsw' mem ic ip i name Hla inum)
      as (mem' & i' & E & W & Hdir & Hes); [lia|done..|].
    destruct (msim_Ok _ _ _ _ _ _ _ Hsim Hr E) as (s' & Es & Rs). exists s', mem', i'.
    assert (forall n, dir_find n (dirents (contents mem' i')) 0 =
      if decide (n = field name) then Some (inum, link_off mem i) else dir_find n es 0) as Hfind
      by (intros n; rewrite Hes, dir_find_link by (try done; lia); done).
    cbv zeta. split_and!; [done..| |done| |].
    + intros b Hlt. by eapply fs_rep_disk.
    + intros Hun. rewrite Hes. by eapply dir_unique_link.
    + pose proof Hla as [[_ _ Hip _ _] Hic _ _ _]. pose proof (wr_inode _ _ _ _ _ _ _ _ W) as Ei.
      assert (i_inum i' = i_inum i /\ i_ref i' = i_ref i) as [E1 E2] by (by rewrite Ei).
      destruct (iget_run 0 start sz wk rest sb mem' ∅ (Some ip) (<[ip := i']> ic)
        (icache_ok_written _ _ _ _ _ _ _ _ _ _ Hic Hip W) inum) as (k & ic' & Ek & Ht); [lia| |by erewrite refs_insert_same|].
      { unfold unused. rewrite (total_insert _ _ _ _ _ Hip), E2. unfold unused in Hu. lia. }
      assert (dirlookup devsw' (Z.of_nat ip) name (fstate 0 start sz wk rest mem' ∅ ∅ (<[ip := i']> ic)) =
        Ok (Some (Z.of_nat k, link_off mem i)) (fstate 0 start sz wk rest mem' ∅ ∅ ic')) as El.
      { rewrite (dirlookup_run 0 start sz wk rest sb devsw' mem' _ ∅ ip i' Hdir).
        - rewrite Hfind, decide_True by done. by rewrite (bind_run _ _ _ _ _ Ek).
        - by apply (link_lim start sz sb mem ic ip i). }
      destruct (msim_Ok _ _ _ _ _ _ _ (dirlookup_sim devsw devsw' Hd _ _) Rs El) as (s'' & Es'' & Rs'').
      exists k, s''. split; [done|]. destruct Rs'' as (_ & -> & _). exact Ht.
Qed.

(** The root directory of the small image, locked, in the first entry of the cache. *)
Definition root_entry : inode := Inode 1 ROOTINO 1 0 0 0 0 0 0 (replicate 13 0).
Definition root_inode : inode := locked_inode small_image root_entry.
Definition root_icache : list inode := <[0%nat := root_inode]> iinit.

#[local] Opaque root_inode.

Lemma root_entry_ok : icache_ok small_sb small_image None (<[0%nat := root_entry]> iinit).
Proof.
  refine (rt_ok _ _ _ _ _ _ _ (ref_taken_new small_sb small_image None iinit (iinit_ok _ _) ROOTINO 0 inode0 _ _ _ _));
    [done|done|done|]. intros j a [-> _]%lookup_replicate Ha. done.
Qed.

Lemma root_linkable : linkable 17 31 small_sb small_image root_icache 0 root_inode.
Proof.
  constructor.
  - constructor; [exact small_layout|apply inode_b_sound; vm_compute; reflexivity|reflexivity
      |vm_compute; reflexivity|vm_compute; reflexivity].
  - pose proof (locked_ok small_sb small_image _ 0 root_entry root_entry_ok eq_refl eq_refl) as H.
    rewrite list_insert_insert_eq in H. exact H.
  - apply Z.leb_le. vm_compute. reflexivity.
  - apply Z.ltb_lt. vm_compute. reflexivity.
  - right. apply Z.leb_le. vm_compute. reflexivity.
Qed.

Lemma root_refs x : refs root_icache x < 2147483647.
Proof.
  unfold root_icache, refs. rewrite (total_insert _ _ _ inode0) by reflexivity.
  assert (i_ref root_inode = 1) as -> by (vm_compute; reflexivity).
  rewrite total_iinit by (by case_decide). repeat case_decide; cbn; lia.
Qed.

(** The name "b" for inode 2 beside "a": both are then found, and "a" again is refused. *)
Lemma dirlink_durable_witness :
  exists (s s' s'' : fsys (lstate bcache) unit) mem' i',
    link_op no_devs 0 [98] 2 s = Ok 0 s' /\
    dir_find [98] (dirents (contents mem' i')) 0 = Some (2, 48) /\
    dir_find [97] (dirents (contents mem' i')) 0 = Some (2, 32) /\
    link_op no_devs 0 [97] 2 s = Ok (-1) s''.
Proof.
  destruct (mount_fs small_sb 17 small_image root_icache tt small_formatted) as (s0 & _ & R).
  assert (0 < unused root_icache) as Hu by (apply Z.ltb_lt; vm_compute; reflexivity).
  pose proof (fun name => dirlink_durable no_devs no_devs _ _ _ _ _ _ _ _ 0%nat _ name 2 no_devs_sim R root_linkable) as H.
  pose proof (H [98] ltac:(repeat constructor; lia) ltac:(cbn; lia) ltac:(lia) Hu root_refs) as H1.
  pose proof (H [97] ltac:(repeat constructor; lia) ltac:(cbn; lia) ltac:(lia) Hu root_refs) as H2.
  assert (dir_find [98] (dirents (contents small_image root_inode)) 0 = None /\
    dir_find [97] (dirents (contents small_image root_inode)) 0 = Some (2, 32) /\
    link_off small_image root_inode = 48 /\ di_nlink (disk_inode small_image 2) = 1) as (E1 & E2 & E3 & E4)
    by (vm_compute; repeat split; reflexivity).
  change (field [98]) with [98] in H1. change (field [97]) with [97] in H2. cbv zeta in H1, H2.
  rewrite E1 in H1. rewrite E2 in H2.
  destruct H1 as (s' & mem' & i' & L1 & _ & _ & _ & F & _).
  destruct H2 as (s'' & ic' & L2 & _); [cbn; lia|rewrite E4; lia|].
  exists (FSys s0 root_icache [] tt), s', s'', mem', i'.
  split; [exact L1|]. split; [rewrite F, E3; reflexivity|]. split; [rewrite F; exact E2|exact L2].
Defined.
