(* ===== verification/PathThms.v ===== *)
(** Path names: the elements of a path, and what [namei] and [nameiparent] of
    fs.c find by walking the directories of the disk, with the references they
    keep. *)

From stdpp Require Import prelude strings gmap list functions.
From S2P Require Import Prelude Bytes Param BlockCache CString Log LogCrash BioSpec Bio BioOps TxDisk CrashDisk.
From S2P Require Import Fs Dir FsSim FsAlloc FsFile FsWrite FsCheck FsThms Icache Vm CText DirThms.

#[local] Opaque binit small_image small_inode.

(** ** The elements of a path *)

(** The pieces between slashes. *)
Fixpoint pieces (path : list Z) : list (list Z) :=
  match path with
  | [] => [[]]
  | c :: path =>
      if c =? SLASH then [] :: pieces path
      else match pieces path with
           | p :: ps => (c :: p) :: ps
           | [] => [[c]]
           end
  end.

(** The names in a path: its pieces that are not empty, cut at [DIRSIZ] bytes. *)
Definition elements (path : list Z) : list (list Z) :=
  take (Z.to_nat DIRSIZ) <$> filter (fun p => p <> []) (pieces path).

Lemma elements_slash path : elements (SLASH :: path) = elements path.
Proof. done. Qed.

Lemma elements_skip path : elements (skip_slashes path) = elements path.
Proof.
  induction path as [|c path IH]; cbn [skip_slashes]; [done|].
  destruct (Z.eqb_spec c SLASH) as [->|]; [|done]. by rewrite IH, elements_slash.
Qed.

Lemma no_nul_skip path : no_nul path -> no_nul (skip_slashes path).
Proof.
  induction path as [|c path IH]; cbn [skip_slashes]; [done|]. intros H.
  destruct (c =? SLASH); [apply IH; by inversion H|done].
Qed.

Lemma length_skip path : (length (skip_slashes path) <= length path)%nat.
Proof. induction path as [|c path IH]; cbn [skip_slashes length]; [done|]. destruct (c =? SLASH); simpl; lia. Qed.

Lemma skip_head path c rest : skip_slashes path = c :: rest -> c <> SLASH.
Proof.
  induction path as [|x path IH]; cbn [skip_slashes]; [done|].
  destruct (Z.eqb_spec x SLASH); [done|]. by intros [= <- _].
Qed.

(** The scan over one element stops at a slash or at the end. *)
Lemma scan_elem_spec path :
  no_nul path -> let '(s, rest) := scan_elem path in
  path = s ++ rest /\ Forall (fun c => c <> SLASH) s /\ (rest = [] \/ exists rest', rest = SLASH :: rest').
Proof.
  induction 1 as [|c path Hc Hp IH]; cbn [scan_elem]; [by auto|].
  destruct (Z.eqb_spec c SLASH) as [->|Hs]; cbn [orb]; [by eauto|].
  destruct (Z.eqb_spec c 0); [done|]. destruct (scan_elem path) as [s rest]. destruct IH as (-> & Hf & Hr).
  split; [done|]. split; [by constructor|done].
Qed.

Lemma pieces_app s rest :
  Forall (fun c => c <> SLASH) s -> rest = [] \/ (exists rest', rest = SLASH :: rest') ->
  filter (fun p => p <> []) (pieces (s ++ rest)) =
    (if decide (s = []) then [] else [s]) ++ filter (fun p => p <> []) (pieces rest).
Proof.
  intros Hs Hr. destruct (decide (s = [])) as [->|Hne]; [done|].
  assert (exists ps, pieces rest = [] :: ps) as [ps Hps] by (destruct Hr as [->|[r ->]]; cbn; eauto).
  assert (forall l, Forall (fun c => c <> SLASH) l -> pieces (l ++ rest) = l :: ps) as Hl.
  { induction 1 as [|c l Hc Hl IH]; [done|]. cbn [app pieces]. rewrite (proj2 (Z.eqb_neq _ _) Hc), IH. done. }
  rewrite (Hl s Hs), Hps. rewrite filter_cons_True by done. by rewrite filter_cons_False by naive_solver.
Qed.

Lemma elements_scan path c r :
  no_nul path -> skip_slashes path = c :: r ->
  let '(s, rest) := scan_elem (c :: r) in
  elements path = take (Z.to_nat DIRSIZ) s :: elements rest /\ c :: r = s ++ rest /\ s <> [].
Proof.
  intros Hn E. pose proof (no_nul_skip path Hn) as Hn'. rewrite E in Hn'.
  pose proof (scan_elem_spec (c :: r) Hn') as Hs. destruct (scan_elem (c :: r)) as [s rest].
  destruct Hs as (Hsr & Hf & Hr). pose proof (skip_head _ _ _ E) as Hc.
  assert (s <> []) as Hne by (intros ->; destruct Hr as [->|[r' ->]]; simplify_eq/=).
  split; [|done]. rewrite <- elements_skip, E, Hsr. unfold elements. rewrite pieces_app by done.
  by rewrite decide_False.
Qed.

(** A path has no elements when only its end is left after the slashes. *)
Lemma elements_end path : no_nul path -> (is_end (skip_slashes path) = true <-> elements path = []).
Proof.
  intros Hn. destruct (skip_slashes path) as [|c r] eqn:E.
  - split; [|done]. intros _. by rewrite <- elements_skip, E.
  - pose proof (elements_scan path c r Hn E) as Hs. destruct (scan_elem (c :: r)) as [s rest].
    destruct Hs as (-> & _). pose proof (no_nul_skip path Hn) as Hn'. rewrite E in Hn'.
    cbn [is_end]. apply Forall_cons_1 in Hn' as [Hc _]. rewrite (proj2 (Z.eqb_neq _ _) Hc). done.
Qed.

Lemma field_prefix l t : no_nul l -> field (l ++ 0 :: t) = take (Z.to_nat DIRSIZ) l.
Proof.
  intros Hl. apply cname_cstr. split; [|done]. apply bytes_at_lookup. intros i c Hi. rewrite Z.add_0_l, Nat2Z.id.
  apply nth_lookup_Some. change (0 :: t) with ([0] ++ t). rewrite app_assoc.
  by apply lookup_app_l_Some.
Qed.

(** The buffer after an element [s] has been copied. *)
Lemma skipelem_name s name :
  no_nul s -> length name = Z.to_nat DIRSIZ ->
  let name' := if DIRSIZ <=? Z.of_nat (length s) then splice name 0 (take (Z.to_nat DIRSIZ) s)
               else splice name 0 (s ++ [0]) in
  field name' = take (Z.to_nat DIRSIZ) s /\ length name' = Z.to_nat DIRSIZ.
Proof.
  intros Hs Hn. unfold splice. rewrite !take_0. cbn [app]. destruct (Z.leb_spec DIRSIZ (Z.of_nat (length s))) as [Hl|Hl].
  - rewrite drop_ge, app_nil_r by (rewrite length_take, Hn; unfold DIRSIZ in *; lia).
    rewrite field_str by by apply Forall_take. rewrite take_take, length_take, Nat.min_id.
    split; [done|]. unfold DIRSIZ in *. lia.
  - rewrite <- app_assoc. cbn [app]. rewrite field_prefix by done. split; [done|].
    rewrite length_app. cbn [length]. rewrite length_drop, length_app, Hn. unfold DIRSIZ in *. simpl. lia.
Qed.

(** [skipelem] takes the first element off the path. *)
Lemma skipelem_elements path name :
  no_nul path -> length name = Z.to_nat DIRSIZ ->
  match skipelem path name with
  | None => elements path = []
  | Some (path', name') =>
      elements path = field name' :: elements path' /\ no_nul path' /\
      (length path' < length path)%nat /\ length name' = Z.to_nat DIRSIZ /\
      (is_end path' = true <-> elements path' = [])
  end.
Proof.
  intros Hn Hl. unfold skipelem. destruct (is_end (skip_slashes path)) eqn:Ee; [by apply elements_end|].
  destruct (skip_slashes path) as [|c r] eqn:E; [done|]. pose proof (elements_scan path c r Hn E) as Hs.
  pose proof (no_nul_skip path Hn) as Hn'. pose proof (length_skip path) as Hlen. rewrite E in Hn', Hlen.
  destruct (scan_elem (c :: r)) as [s rest]. destruct Hs as (He & Hsr & Hne). rewrite Hsr in Hn', Hlen.
  apply Forall_app in Hn' as [Hs Hrest]. destruct (skipelem_name s name Hs Hl) as [Hf Hln]. cbv zeta in *.
  rewrite length_app in Hlen. pose proof (length_skip rest). assert (0 < length s)%nat by (destruct s; simpl; [done|lia]).
  rewrite Hf, elements_skip. split_and!; [done|by apply no_nul_skip|lia|done|by apply elements_end].
Qed.

(** ** The tree on the disk *)

(** Inode [x] as the disk has it, and the entries in its bytes. *)
Definition inode_on (mem : gmap Z block) (x : Z) : inode :=
  load_dinode (disk_inode mem x) (Inode 1 x 0 0 0 0 0 0 0 []).
Definition entries_of (mem : gmap Z block) (x : Z) : list (Z * list Z) := dirents (contents mem (inode_on mem x)).

Definition linked (mem : gmap Z block) (x : Z) : Prop :=
  di_type (disk_inode mem x) <> 0 /\ di_nlink (disk_inode mem x) <> 0.

(** Every inode with links is well formed, and a directory with links names
    only inodes with links. *)
Record fs_tree (sb : superblock) (start : Z) (mem : gmap Z block) : Prop := {
  ft_layout : layout sb start mem;
  ft_inode x : 0 <= x < sb_ninodes sb -> linked mem x -> inode_ok sb start mem (inode_on mem x);
  ft_mult x : 0 <= x < sb_ninodes sb -> linked mem x -> di_type (disk_inode mem x) = T_DIR ->
    di_size (disk_inode mem x) mod sizeof_dirent = 0;
  ft_entry x k y n : 0 <= x < sb_ninodes sb -> linked mem x -> di_type (disk_inode mem x) = T_DIR ->
    entries_of mem x !! k = Some (y, n) -> y <> 0 -> 0 <= y < sb_ninodes sb /\ linked mem y
}.

(** Where a list of names leads from inode [x]: [Some None] is nowhere, [None] a
    path through a device, whose entries the driver makes up.  With [parent] the
    walk stops before the last name. *)
Fixpoint walk (mem : gmap Z block) (parent : bool) (x : Z) (names : list (list Z)) : option (option Z) :=
  match names with
  | [] => Some (if parent then None else Some x)
  | name :: names =>
      let t := di_type (disk_inode mem x) in
      if t =? T_DIR then
        if (parent && bool_decide (names = []))%bool then Some (Some x)
        else match dir_find name (entries_of mem x) 0 with
             | None => Some None
             | Some (y, _) => walk mem parent y names
             end
      else if t =? T_DEV then None else Some None
  end.

(** ** Walking it *)

Lemma inode_ok_load sb start mem d i j :
  inode_ok sb start mem (load_dinode d i) -> i_dev j = i_dev i -> i_inum j = i_inum i ->
  inode_ok sb start mem (load_dinode d j).
Proof. intros [H1 H2 H3 H4 H5 H6 H7 H8] E1 E2. constructor; cbn in *; rewrite ?E1, ?E2; auto. Qed.

Section walk.
Context {D : Type} (out start sz : Z) (rest : D) (sb : superblock).
Context (devsw : Z -> devops (fsys tdisk D)).
Context (mem : gmap Z block) (lg : gset Z).
Hypothesis Htree : fs_tree sb start mem.
Hypothesis Hlg : Z.of_nat (size lg) < loglim sz.
Abbreviation st wk := (fstate out start sz wk rest mem ∅ lg).
Abbreviation INT_MAX := 2147483647.

Lemma iunlockput_run wk ic k j :
  icache_ok sb mem (Some k) ic -> ic !! k = Some j -> linked mem (i_inum j) -> refs ic (i_inum j) <= INT_MAX ->
  let ic' := <[k := set_ref (i_ref j - 1) (set_flags I_VALID j)]> ic in
  iunlockput (Some (Z.of_nat k)) (st wk ic) = Ok tt (st (wk ++ [ChInode (Z.of_nat k)]) ic') /\
  icache_ok sb mem None ic' /\
  (forall y, refs ic' y = refs ic y - (if decide (y = i_inum j) then 1 else 0)) /\
  unused ic' = unused ic + (if decide (i_ref j = 1) then 1 else 0).
Proof.
  intros Hic Hk [_ Hn] Hm ic'. destruct (ic_lock _ _ _ _ Hic k eq_refl) as (a & Ha & Hj). simplify_eq.
  pose proof (ic_flags _ _ _ _ Hic k j Hk Hj) as Hf. rewrite decide_True in Hf by done.
  assert (synced mem j) as Hs by (apply (ic_sync _ _ _ _ Hic k j Hk Hj); by rewrite Hf).
  destruct (iunlock_ok_run out start sz wk rest sb mem lg ic k j Hic Hk) as [E1 Hic1].
  assert (forall y, refs (<[k := set_flags I_VALID j]> ic) y = refs ic y) as Hr by (intros y; by apply (refs_insert_same _ _ j)).
  destruct (iput_run out start sz (wk ++ [ChInode (Z.of_nat k)]) rest sb mem lg None _ Hic1 k (set_flags I_VALID j))
    as (E2 & Hic2 & Hr2 & Hu2).
  - apply list_lookup_insert_eq. by eapply lookup_lt_Some.
  - done.
  - rewrite Hr. done.
  - done.
  - intros _. cbn [i_nlink set_flags]. unfold disk_inode in Hn. unfold synced in Hs. by rewrite Hs in Hn.
  - rewrite list_insert_insert_eq in *. split_and!; [|done| |].
    + unfold iunlockput. by rewrite (bind_run _ _ _ _ _ E1).
    + intros y. etrans; [exact (Hr2 y)|]. by rewrite Hr.
    + etrans; [exact Hu2|]. f_equal. unfold unused. rewrite (total_insert _ _ _ _ _ Hk). cbn. lia.
Qed.

Section held.
Context (ic0 : list inode).
Hypothesis Hrefs0 : forall y, refs ic0 y + 2 <= INT_MAX.

(** The cache with the references of [ic0] and one to inode [x], in entry [k];
    there is room for another one. *)
Record held (ic : list inode) (k : nat) (x : Z) : Prop := {
  hd_cache : icache_ok sb mem None ic;
  hd_refs y : refs ic y = refs ic0 y + (if decide (y = x) then 1 else 0);
  hd_entry : exists i, ic !! k = Some i /\ i_inum i = x /\ 0 < i_ref i /\
    2 <= unused ic + (if decide (i_ref i = 1) then 1 else 0)
}.

(** The cache with the references of [ic0]. *)
Definition balanced (ic : list inode) : Prop :=
  icache_ok sb mem None ic /\ forall y, refs ic y = refs ic0 y.

(** Locking the inode: it is the one on the disk. *)
Record locked (ic : list inode) (k : nat) (x : Z) (j : inode) : Prop := {
  lo_cache : icache_ok sb mem (Some k) ic;
  lo_ip : ic !! k = Some j;
  lo_inum : i_inum j = x;
  lo_load : exists j0, j = load_dinode (disk_inode mem x) j0 /\ i_dev j0 = 1 /\ i_inum j0 = x;
  lo_refs y : refs ic y = refs ic0 y + (if decide (y = x) then 1 else 0);
  lo_ref : 0 < i_ref j;
  lo_room : 2 <= unused ic + (if decide (i_ref j = 1) then 1 else 0)
}.

Lemma held_lock wk ic k x :
  held ic k x -> linked mem x ->
  exists ic1 j, ilock (Some (Z.of_nat k)) (st wk ic) = Ok tt (st wk ic1) /\ locked ic1 k x j.
Proof.
  intros [Hic Hr (i & Hk & Hx & Hi & Hu)] [Ht _]. subst x. eexists _, (locked_inode mem i).
  split; [by eapply (ilock_load_run _ _ _ _ _ sb); try apply Htree|]. constructor; try done.
  - by apply locked_ok.
  - apply list_lookup_insert_eq. by eapply lookup_lt_Some.
  - exists (set_flags 3 i). split; [done|]. split; [|done]. by apply (ic_dev _ _ _ _ Hic k i Hk Hi).
  - intros y. rewrite <- Hr. by apply (refs_insert_same _ _ i).
  - unfold unused. rewrite (total_insert _ _ _ _ _ Hk). cbn. unfold unused in Hu. lia.
Qed.

(** The inode of a directory, once locked. *)
Lemma locked_dir ic k x j :
  locked ic k x j -> 0 <= x < sb_ninodes sb -> linked mem x -> di_type (disk_inode mem x) = T_DIR ->
  dir_inode sb start mem ic k j /\ dirents (contents mem j) = entries_of mem x.
Proof.
  intros [Hic Hk Hx (j0 & Ej & Hd0 & Hx0) _ _ _] Hr Hl Ht. split.
  - constructor; [apply Htree| |done|by rewrite Ej|rewrite Ej; by apply Htree].
    rewrite Ej. by apply (inode_ok_load _ _ _ _ _ _ (ft_inode _ _ _ Htree x Hr Hl)).
  - by rewrite Ej.
Qed.

(** Unlocking and giving the reference back. *)
Lemma locked_put wk ic k x j :
  locked ic k x j -> linked mem x ->
  exists ic', iunlockput (Some (Z.of_nat k)) (st wk ic) = Ok tt (st (wk ++ [ChInode (Z.of_nat k)]) ic') /\
    balanced ic'.
Proof.
  intros [Hic Hk <- _ Hr _ _] Hl. destruct (iunlockput_run wk ic k j Hic Hk Hl) as (E & Hic' & Hr' & _).
  { rewrite Hr, decide_True by done. specialize (Hrefs0 (i_inum j)). lia. }
  eexists. split; [exact E|]. split; [done|]. intros y. rewrite Hr', Hr. case_decide; lia.
Qed.

(** Unlocking, and keeping it. *)
Lemma locked_keep wk ic k x j :
  locked ic k x j ->
  exists ic', iunlock (Some (Z.of_nat k)) (st wk ic) = Ok tt (st (wk ++ [ChInode (Z.of_nat k)]) ic') /\
    held ic' k x.
Proof.
  intros [Hic Hk Hx _ Hr Hj Hu]. destruct (iunlock_ok_run out start sz wk rest sb mem lg ic k j Hic Hk) as [E Hic'].
  eexists. split; [exact E|]. constructor; [done| |].
  - intros y. rewrite <- Hr. by apply (refs_insert_same _ _ j).
  - exists (set_flags I_VALID j). split; [apply list_lookup_insert_eq; by eapply lookup_lt_Some|].
    split; [done|]. split; [done|]. unfold unused. rewrite (total_insert _ _ _ _ _ Hk). cbn. unfold unused in Hu. lia.
Qed.

(** On to inode [y]: its reference is taken before that of [x] is given back. *)
Lemma locked_next wk ic k x j y :
  locked ic k x j -> linked mem x -> 0 <= y < sb_ninodes sb ->
  exists k' ic1 ic2, iget ROOTDEV y (st wk ic) = Ok (Z.of_nat k') (st wk ic1) /\
    iunlockput (Some (Z.of_nat k)) (st wk ic1) = Ok tt (st (wk ++ [ChInode (Z.of_nat k)]) ic2) /\
    held ic2 k' y.
Proof.
  intros [Hic Hk <- _ Hr Hj Hu] Hl Hy. pose proof (Hrefs0 y) as Hy0. pose proof (Hrefs0 (i_inum j)) as Hj0.
  destruct (iget_run out start sz wk rest sb mem lg (Some k) ic Hic y Hy) as (k' & ic1 & E1 & [Hic1 Hr1 Hen]).
  { case_decide; lia. }
  { rewrite Hr. repeat case_decide; lia. }
  destruct Hen as (a & b & Ha & Eic & Hby & Hb & Hold & Hu1).
  assert (ic1 !! k' = Some b) as Hk' by (subst ic1; apply list_lookup_insert_eq; by eapply lookup_lt_Some).
  assert (exists j1, ic1 !! k = Some j1 /\ i_inum j1 = i_inum j /\
    (if decide (k' = k) then j1 = b /\ b = set_ref (i_ref j + 1) j else j1 = j)) as (j1 & Hk1 & Hx1 & Hcase).
  { destruct (decide (k' = k)) as [->|Hne].
    - simplify_eq. exists b. split; [done|]. by rewrite Hold.
    - exists j. by rewrite Eic, list_lookup_insert_ne. }
  destruct (iunlockput_run wk ic1 k j1 Hic1 Hk1) as (E2 & Hic2 & Hr2 & Hu2); [by rewrite Hx1| |].
  { rewrite Hx1, Hr1, Hr. repeat case_decide; lia. }
  exists k', ic1. eexists. split; [exact E1|]. split; [exact E2|]. rewrite Hx1 in Hr2. constructor; [done| |].
  - intros z. rewrite Hr2, Hr1, Hr. repeat case_decide; lia.
  - destruct (decide (k' = k)) as [->|Hne].
    + destruct Hcase as [-> ->]. eexists. split; [apply list_lookup_insert_eq; by eapply lookup_lt_Some|].
      cbn [i_inum i_ref set_ref set_flags] in *. split; [done|]. split; [lia|]. rewrite Hu2. repeat case_decide; lia.
    + subst j1. exists b. split; [by rewrite list_lookup_insert_ne|]. split; [done|]. split; [done|].
      rewrite Hu2. repeat case_decide; lia.
Qed.

(** The lookup of a name in it. *)
Lemma locked_lookup wk ic k x j name :
  locked ic k x j -> 0 <= x < sb_ninodes sb -> linked mem x -> di_type (disk_inode mem x) = T_DIR ->
  match dir_find (field name) (entries_of mem x) 0 with
  | None => dirlookup devsw (Z.of_nat k) name (st wk ic) = Ok None (st wk ic)
  | Some (y, off) => exists k' ic1 ic2,
      dirlookup devsw (Z.of_nat k) name (st wk ic) = Ok (Some (Z.of_nat k', off)) (st wk ic1) /\
      iunlockput (Some (Z.of_nat k)) (st wk ic1) = Ok tt (st (wk ++ [ChInode (Z.of_nat k)]) ic2) /\
      held ic2 k' y /\ 0 <= y < sb_ninodes sb /\ linked mem y
  end.
Proof.
  intros Hlo Hx Hl Ht. destruct (locked_dir ic k x j Hlo Hx Hl Ht) as [Hdir Hes].
  pose proof (dirlookup_run out start sz wk rest sb devsw mem ic lg k j Hdir Hlg name) as Ed. rewrite Hes in Ed.
  destruct (dir_find (field name) (entries_of mem x) 0) as [[y off]|] eqn:Ef; [|done].
  destruct (dir_find_Some _ _ _ _ _ Ef) as (Hy0 & m & Hm & _).
  destruct (ft_entry _ _ _ Htree x m y _ Hx Hl Ht Hm Hy0) as [Hy Hly].
  destruct (locked_next wk ic k x j y Hlo Hl Hy) as (k' & ic1 & ic2 & Eg & Eu & Hh).
  rewrite (bind_run _ _ _ _ _ Eg) in Ed. by exists k', ic1, ic2.
Qed.

(** What [namex] leaves when the walk ends at [r]. *)
Definition found (r : option Z) (parent : bool) (names : list (list Z)) (p : option Z) (name : list Z)
    (ic : list inode) : Prop :=
  match r with
  | None => p = None /\ balanced ic
  | Some y => exists k, p = Some (Z.of_nat k) /\ held ic k y /\ (parent = true -> exists l, names = l ++ [field name])
  end.

Lemma is_dir_locked wk ic k x j :
  locked ic k x j -> di_type (disk_inode mem x) <> T_DEV ->
  is_dir devsw (Z.of_nat k) (st wk ic) = Ok (di_type (disk_inode mem x) =? T_DIR) (st wk ic).
Proof.
  intros [_ Hk _ (j0 & -> & _) _ _ _] Ht. unfold is_dir. erewrite bind_run; [|by apply get_inode_run].
  cbn [i_type load_dinode]. destruct (_ =? T_DIR); [done|]. unfold IS_DEV_DIR.
  erewrite bind_run; [|by apply get_inode_run]. cbn [i_type load_dinode]. by rewrite (proj2 (Z.eqb_neq _ _) Ht).
Qed.

Lemma found_cons r parent n names p name ic :
  found r parent names p name ic -> found r parent (n :: names) p name ic.
Proof.
  destruct r as [y|]; [|done]. intros (k & Hp & Hh & Hl). exists k. split; [done|]. split; [done|].
  intros Hpar. destruct (Hl Hpar) as [l ->]. by exists (n :: l).
Qed.

(** The end of the path. *)
Lemma namex_end (parent : bool) name x k ic wk r :
  linked mem x -> held ic k x -> Some (if parent then None else Some x) = Some r ->
  exists p name' ic' wk',
    (if parent then iput (Z.of_nat k);; mret (None, name) else mret (Some (Z.of_nat k), name)) (st wk ic) =
      Ok (p, name') (st wk' ic') /\
    found r parent [] p name' ic'.
Proof.
  intros [_ Hnl] Hh [= <-]. destruct parent.
  - destruct Hh as [Hic Hr (i & Hk & <- & Hi & _)]. pose proof (Hrefs0 (i_inum i)) as H0.
    destruct (iput_run out start sz wk rest sb mem lg None ic Hic k i Hk Hi) as (E & Hic' & Hr' & _); [|done| |].
    { rewrite Hr, decide_True by done. lia. }
    { intros Hf. pose proof (ic_sync _ _ _ _ Hic k i Hk Hi Hf) as Hs. unfold synced in Hs.
      unfold disk_inode in Hnl. by rewrite Hs in Hnl. }
    rewrite (bind_run _ _ _ _ _ E). eexists _, _, _, _. split; [done|]. split; [done|]. split; [done|].
    intros y. rewrite Hr', Hr. case_decide; lia.
  - eexists _, _, _, _. split; [done|]. by exists k.
Qed.

Lemma namex_loop_run parent fuel : forall path name x k ic wk r,
  (length path < fuel)%nat -> no_nul path -> length name = Z.to_nat DIRSIZ ->
  0 <= x < sb_ninodes sb -> linked mem x -> held ic k x -> walk mem parent x (elements path) = Some r ->
  exists p name' ic' wk',
    namex_loop devsw fuel (Z.of_nat k) path parent name (st wk ic) = Ok (p, name') (st wk' ic') /\
    found r parent (elements path) p name' ic'.
Proof.
  induction fuel as [|fuel IH]; intros path name x k ic wk r Hfuel Hp Hn Hx Hl Hh Hw; [lia|].
  cbn [namex_loop]. pose proof (skipelem_elements path name Hp Hn) as Hs.
  destruct (skipelem path name) as [[path' name']|].
  2:{ rewrite Hs in *. cbn [walk] in Hw. by eapply namex_end. }
  destruct Hs as (He & Hp' & Hlen & Hn' & Hend). rewrite He in *. cbn [walk] in Hw.
  destruct (held_lock wk ic k x Hh Hl) as (ic1 & j & El & Hlo). rewrite (bind_run _ _ _ _ _ El).
  destruct (Z.eqb_spec (di_type (disk_inode mem x)) T_DIR) as [Ht|Ht].
  - rewrite (bind_run _ _ _ _ _ (is_dir_locked wk ic1 k x j Hlo ltac:(rewrite Ht; discriminate))).
    rewrite Ht. change (negb (T_DIR =? T_DIR)) with false. cbv iota.
    assert (bool_decide (elements path' = []) = is_end path') as Eend
      by (destruct (is_end path') eqn:?; [by apply bool_decide_eq_true, Hend
          |apply bool_decide_eq_false; intros ?%Hend; congruence]).
    rewrite Eend in Hw. destruct (parent && is_end path')%bool eqn:Ep.
    + injection Hw as <-. destruct (locked_keep wk ic1 k x j Hlo) as (ic' & Eu & Hh'). rewrite (bind_run _ _ _ _ _ Eu).
      eexists _, _, _, _. split; [done|]. exists k. split; [done|]. split; [done|]. intros _. exists [].
      apply andb_true_iff in Ep as [_ Ee]. by rewrite (proj1 Hend Ee).
    + pose proof (locked_lookup wk ic1 k x j name' Hlo Hx Hl Ht) as Ed.
      destruct (dir_find (field name') (entries_of mem x) 0) as [[y off]|].
      * destruct Ed as (k' & ic2 & ic3 & Ed & Eu & Hh' & Hy & Hly).
        rewrite (bind_run _ _ _ _ _ Ed). rewrite (bind_run _ _ _ _ _ Eu).
        destruct (IH path' name' y k' ic3 (wk ++ [ChInode (Z.of_nat k)]) r) as (p & n & ic' & wk' & E & Hf); [lia|done..|].
        eexists p, n, ic', wk'. split; [exact E|]. by apply found_cons.
      * injection Hw as <-. rewrite (bind_run _ _ _ _ _ Ed).
        destruct (locked_put wk ic1 k x j Hlo Hl) as (ic' & Eu & Hb). rewrite (bind_run _ _ _ _ _ Eu).
        eexists _, _, _, _. done.
  - destruct (Z.eqb_spec (di_type (disk_inode mem x)) T_DEV) as [|Hdev]; [done|]. injection Hw as <-.
    rewrite (bind_run _ _ _ _ _ (is_dir_locked wk ic1 k x j Hlo Hdev)).
    rewrite (proj2 (Z.eqb_neq _ _) Ht). cbn [negb].
    destruct (locked_put wk ic1 k x j Hlo Hl) as (ic' & Eu & Hb). rewrite (bind_run _ _ _ _ _ Eu).
    eexists _, _, _, _. done.
Qed.

End held.
End walk.

(** ** Path names on the disk *)

(** A mounted file system, with the current directory in entry [cwd] of the
    cache and room in it for two more inodes. *)
Record walkable (start sz : Z) (sb : superblock) (mem : gmap Z block) (lg : gset Z) (ic : list inode) (cwd : nat)
    (c : inode) : Prop := {
  wk_tree : fs_tree sb start mem;
  wk_log : Z.of_nat (size lg) < loglim sz;
  wk_cache : icache_ok sb mem None ic;
  wk_room : 2 <= unused ic;
  wk_refs y : refs ic y + 2 <= 2147483647;
  wk_cwd : ic !! cwd = Some c /\ 0 < i_ref c /\ linked mem (i_inum c);
  wk_root : ROOTINO < sb_ninodes sb /\ linked mem ROOTINO
}.

(** The inode a path starts from. *)
Definition path_start (c : inode) (path : list Z) : Z :=
  if match path with c :: _ => c =? SLASH | [] => false end then ROOTINO else i_inum c.

Lemma ref_taken_held sb mem ic x k ic' :
  2 <= unused ic -> ref_taken sb mem None ic x k ic' -> held sb mem ic ic' k x.
Proof.
  intros Hu [Hic Hr (i & j & Hk & -> & Hx & Hj & _ & Hun)]. constructor; [done..|].
  exists j. split; [apply list_lookup_insert_eq; by eapply lookup_lt_Some|]. split; [done|]. split; [done|]. lia.
Qed.

Lemma namex_run {D} out start sz wk (rest : D) sb devsw mem lg ic cwd c path parent name r :
  walkable start sz sb mem lg ic cwd c -> no_nul path -> length name = Z.to_nat DIRSIZ ->
  walk mem parent (path_start c path) (elements path) = Some r ->
  exists p name' ic' wk',
    namex devsw (Z.of_nat cwd) path parent name (fstate out start sz wk rest mem ∅ lg ic) =
      Ok (p, name') (fstate out start sz wk' rest mem ∅ lg ic') /\
    found sb mem ic r parent (elements path) p name' ic'.
Proof.
  intros [Ht Hlg Hic Hu Hm (Hc & Hrc & Hlc) [Hr0 Hl0]] Hp Hn Hw. unfold namex, path_start in *.
  destruct (match path with [] => false | c :: _ => c =? SLASH end).
  - destruct (iget_run out start sz wk rest sb mem lg None ic Hic ROOTINO) as (k & ic1 & E & Hr);
      [unfold ROOTINO in *; lia|lia|specialize (Hm ROOTINO); lia|].
    rewrite (bind_run _ _ _ _ _ E).
    apply (namex_loop_run out start sz rest sb devsw mem lg Ht Hlg ic Hm parent _ path name ROOTINO k ic1 wk r);
      [lia|done|done| |done|by apply ref_taken_held|done].
    unfold ROOTINO in *. lia.
  - destruct (idup_run out start sz wk rest sb mem lg None ic Hic cwd c Hc Hrc) as (ic1 & E & Hr);
      [specialize (Hm (i_inum c)); lia|].
    rewrite (bind_run _ _ _ _ _ E).
    apply (namex_loop_run out start sz rest sb devsw mem lg Ht Hlg ic Hm parent _ path name (i_inum c) cwd ic1 wk r);
      [lia|done|done| |done|by apply ref_taken_held|done].
    by apply (ic_dev _ _ _ _ Hic cwd c Hc Hrc).
Qed.

(** C5: path resolution.  On the real stack, for a file system whose linked
    inodes form a tree of directories, [namex] (that is [namei], and
    [nameiparent] with [parent]) of any path that does not go through a device
    returns what the walk over the disk finds: the elements of the path, cut at
    [DIRSIZ] bytes and with repeated slashes ignored, looked up one after the
    other from the root or from the current directory.  It never panics, leaves no inode
    locked, and changes nothing on the disk; on failure every inode has
    the references it had, and on success the one returned has one more, in the
    entry returned; [nameiparent] leaves the last element in [name]. *)
Theorem namex_resolves {D} devsw devsw' (s : fsys (lstate bcache) D) out start sz wk rest sb mem lg ic
    (cwd : nat) c path parent name r :
  (forall major, dev_sim (devsw major) (devsw' major)) ->
  fs_rep s (fstate out start sz wk rest mem ∅ lg ic) ->
  walkable start sz sb mem lg ic cwd c -> no_nul path -> length name = Z.to_nat DIRSIZ ->
  walk mem parent (path_start c path) (elements path) = Some r ->
  exists p name' s' wk',
    namex devsw (Z.of_nat cwd) path parent name s = Ok (p, name') s' /\
    fs_rep s' (fstate out start sz wk' rest mem ∅ lg (fs_icache s')) /\
    found sb mem ic r parent (elements path) p name' (fs_icache s').
Proof.
  intros Hd Hr Hk Hp Hn Hw.
  destruct (namex_run out start sz wk rest sb devsw' mem lg ic cwd c path parent name r Hk Hp Hn Hw)
    as (p & name' & ic' & wk' & E & Hf).
  destruct (msim_Ok _ _ _ _ _ _ _ (namex_sim devsw devsw' Hd _ _ _ _) Hr E) as (s' & Es & Rs).
  assert (fs_icache s' = ic') as Ei by (destruct Rs as (_ & -> & _); done).
  exists p, name', s', wk'. rewrite Ei. done.
Qed.

(** ** Deciding that an image is a tree *)

Definition linked_b (mem : gmap Z block) (x : Z) : bool :=
  negb (di_type (disk_inode mem x) =? 0) && negb (di_nlink (disk_inode mem x) =? 0).

Definition fs_tree_b (sb : superblock) (start : Z) (mem : gmap Z block) : bool :=
  layout_b sb start mem &&
  forallb (fun x => negb (linked_b mem x) ||
    (inode_b sb start mem (inode_on mem x) &&
     (negb (di_type (disk_inode mem x) =? T_DIR) ||
      ((di_size (disk_inode mem x) mod sizeof_dirent =? 0) &&
       forallb (fun e => (fst e =? 0) || ((0 <=? fst e) && (fst e <? sb_ninodes sb) && linked_b mem (fst e)))
         (entries_of mem x))))) (upto (sb_ninodes sb)).

Lemma linked_b_spec mem x : linked_b mem x = true <-> linked mem x.
Proof. unfold linked_b, linked. rewrite andb_true_iff, !negb_true_iff, !Z.eqb_neq. done. Qed.

Lemma fs_tree_b_sound sb start mem : fs_tree_b sb start mem = true -> fs_tree sb start mem.
Proof.
  unfold fs_tree_b. rewrite andb_true_iff. intros [HL Hall].
  assert (forall x, 0 <= x < sb_ninodes sb -> linked mem x ->
    inode_b sb start mem (inode_on mem x) = true /\ (di_type (disk_inode mem x) = T_DIR ->
      di_size (disk_inode mem x) mod sizeof_dirent = 0 /\
      forall k y n, entries_of mem x !! k = Some (y, n) -> y <> 0 -> 0 <= y < sb_ninodes sb /\ linked mem y)) as H.
  { intros x Hx Hl%linked_b_spec. pose proof (forallb_upto _ _ Hall x Hx) as Hb. cbv beta in Hb.
    rewrite Hl in Hb. cbn [negb orb] in Hb. apply andb_true_iff in Hb as [H1 H2]. split; [done|]. intros Ht.
    rewrite (proj2 (Z.eqb_eq _ _) Ht) in H2. cbn [negb orb] in H2. apply andb_true_iff in H2 as [H2 H3].
    split; [by apply Z.eqb_eq|]. intros k y n Hk Hy. rewrite forallb_forall in H3.
    specialize (H3 (y, n) (proj1 (list_elem_of_In _ _) (list_elem_of_lookup_2 _ _ _ Hk))). cbn [fst] in H3.
    rewrite (proj2 (Z.eqb_neq _ _) Hy) in H3. cbn [orb] in H3. rewrite !andb_true_iff in H3.
    destruct H3 as [H3 H4]. split; [lia|by apply linked_b_spec]. }
  constructor; [by apply layout_b_sound|..].
  - intros x Hx Hl. by apply inode_b_sound, H.
  - intros x Hx Hl Ht. by apply H.
  - intros x k y n Hx Hl Ht. by apply H.
Qed.

Definition unlocked_icache : list inode := <[0%nat := root_entry]> iinit.

Lemma small_walkable : walkable 17 31 small_sb small_image ∅ unlocked_icache 0 root_entry.
Proof.
  assert (forall x, linked_b small_image x = true -> linked small_image x) as Hb by (intros; by apply linked_b_spec).
  constructor.
  - apply fs_tree_b_sound. vm_compute. reflexivity.
  - rewrite size_empty. done.
  - exact root_entry_ok.
  - apply Z.leb_le. vm_compute. reflexivity.
  - intros y. unfold unlocked_icache, refs.
    rewrite (total_insert _ _ _ inode0) by reflexivity.
    rewrite total_iinit by (by case_decide). cbn. repeat case_decide; lia.
  - split; [done|]. split; [done|]. apply Hb. vm_compute. reflexivity.
  - split; [done|]. apply Hb. vm_compute. reflexivity.
Qed.

(** "//a/" is inode 2; its parent is the root, with "a" in [name]; "/a/b" is
    nowhere, since "a" is a file. *)
Lemma namex_resolves_witness :
  exists (s : fsys (lstate bcache) unit) p1 s1 p2 n2 s2 n1 n3 s3,
    namex no_devs 0 [SLASH; SLASH; 97; SLASH] false name0 s = Ok (Some p1, n1) s1 /\
    refs (fs_icache s1) 2 = 1 /\
    namex no_devs 0 [SLASH; SLASH; 97; SLASH] true name0 s = Ok (Some p2, n2) s2 /\
    refs (fs_icache s2) ROOTINO = 2 /\ field n2 = [97] /\
    namex no_devs 0 [SLASH; 97; SLASH; 98] false name0 s = Ok (None, n3) s3.
Proof.
  destruct (mount_fs small_sb 17 small_image unlocked_icache tt small_formatted) as (s0 & _ & R).
  pose proof (fun path parent r => namex_resolves no_devs no_devs _ _ _ _ _ _ _ _ _ _ 0%nat _ path parent name0 r
    no_devs_sim R small_walkable) as H.
  assert (forall path, forallb (fun c => negb (c =? 0)) path = true -> no_nul path) as Hnn.
  { intros path Hp. rewrite forallb_forall in Hp. apply List.Forall_forall. intros c Hc. specialize (Hp c Hc). lia. }
  assert (refs unlocked_icache 2 = 0 /\ refs unlocked_icache ROOTINO = 1) as [Er1 Er2]
    by (vm_compute; split; reflexivity).
  destruct (H [SLASH; SLASH; 97; SLASH] false (Some 2)) as (p1 & n1 & s1 & wk1 & E1 & _ & F1);
    [by apply Hnn|done|vm_compute; reflexivity|].
  destruct (H [SLASH; SLASH; 97; SLASH] true (Some 1)) as (p2 & n2 & s2 & wk2 & E2 & _ & F2);
    [by apply Hnn|done|vm_compute; reflexivity|].
  destruct (H [SLASH; 97; SLASH; 98] false None) as (p3 & n3 & s3 & wk3 & E3 & _ & F3);
    [by apply Hnn|done|vm_compute; reflexivity|].
  destruct F1 as (k1 & -> & [_ Hr1 _] & _), F2 as (k2 & -> & [_ Hr2 _] & [l El]), F3 as [-> _]; [done|].
  change (elements [SLASH; SLASH; 97; SLASH]) with ([] ++ [[97]]) in El. apply app_inj_tail in El as [_ El].
  exists (FSys s0 unlocked_icache [] tt), (Z.of_nat k1), s1, (Z.of_nat k2), n2, s2, n1, n3, s3.
  split; [exact E1|]. split; [rewrite Hr1, Er1; reflexivity|]. split; [exact E2|].
  split; [rewrite Hr2, Er2; reflexivity|]. split; [done|exact E3].
Defined.
