(* ===== verification/ProcfsThms.v ===== *)
(** What a reader of /proc sees: the entries of the directory, the lookup of a
    name in it, the text of /proc/PID/status, and the overflow of the array
    with a nearly full process table. *)

From stdpp Require Import prelude strings gmap list.
From S2P Require Import Prelude Bytes Param BlockCache CString Pipe Kalloc Vm Proc.
From S2P Require Import CText Log TxDisk Fs Dir DirThms File Syscall Procfs.

(** ** Directory entries in the array *)

(** The inode number and the name of entry [k] of a directory in memory. *)
Definition entry_of (buf : mem) (k : Z) : Z * list Z :=
  (le_combine [buf (16 * k); buf (16 * k + 1)], cname buf (16 * k + 2) (Z.to_nat DIRSIZ)).

Lemma entry_ext buf buf' k :
  (forall x, 16 * k <= x < 16 * k + 16 -> buf x = buf' x) -> entry_of buf k = entry_of buf' k.
Proof.
  intros Hx. unfold entry_of. rewrite !Hx by lia. f_equal. apply cname_ext.
  intros j Hj. apply Hx. unfold DIRSIZ in Hj. lia.
Qed.

Lemma dirent_at inum name k buf :
  length name = Z.to_nat DIRSIZ ->
  entry_of (put_bytes (16 * k) (dirent inum name) buf) k = (u16 inum, field name).
Proof.
  intros Hn. assert (length (dirent inum name) = 16%nat) as Hl
    by (unfold dirent; rewrite length_app, length_le_split, Hn; done).
  unfold entry_of. rewrite !put_bytes_at, Hl, !decide_True by lia. f_equal.
  - replace (16 * k - 16 * k) with 0 by lia. replace (16 * k + 1 - 16 * k) with 1 by lia.
    unfold dirent. change ([(le_split 2 (u16 inum) ++ name).[0]; (le_split 2 (u16 inum) ++ name).[1]])
      with (le_split 2 (u16 inum)).
    rewrite le_combine_split. unfold u16. change (256 ^ Z.of_nat 2) with 65536. apply Z.mod_mod. lia.
  - apply cname_ext. intros j Hj. unfold DIRSIZ in *. rewrite put_bytes_at, Hl, decide_True by lia.
    replace (16 * k + 2 + j - 16 * k) with (2 + j) by lia. rewrite Z.add_0_l. unfold dirent.
    rewrite app_nth2; rewrite length_le_split; [|lia]. f_equal. lia.
Qed.

(** Storing an entry leaves the others. *)
Lemma entry_put_ne de k k' buf :
  length de = 16%nat -> k' <> k -> entry_of (put_bytes (16 * k) de buf) k' = entry_of buf k'.
Proof. intros Hl Hk. apply entry_ext. intros x Hx. rewrite put_bytes_at, Hl, decide_False by lia. done. Qed.

Lemma itoa_name_ok x name :
  0 <= x < 2 ^ 31 ->
  exists name', itoa_name x name = Some name' /\ length name' = Z.to_nat DIRSIZ /\ field name' = decimal x.
Proof.
  intros Hx. destruct (itoa_spec x 0 (fun a => name.[a]) Hx) as (m & E & Hc & _).
  unfold itoa_name. rewrite E. cbn [mbind option_bind]. eexists. split; [done|].
  split; [by rewrite length_fmap, length_upto|]. unfold field.
  pose proof (length_decimal x) as Hd. unfold INT_DIGITS in Hd.
  rewrite <- (take_ge (decimal x) (Z.to_nat DIRSIZ)) by (unfold DIRSIZ; lia).
  rewrite <- (cname_cstr m (Z.to_nat DIRSIZ) (decimal x) 0 Hc).
  apply cname_ext. intros j Hj. apply nth_map_upto. unfold DIRSIZ in *. lia.
Qed.

(** [namecmp] against the name of an entry that was read. *)
Lemma namecmp_entry buf k name :
  no_nul name -> (length name <= Z.to_nat DIRSIZ)%nat ->
  let de : list Z := (fun j => buf (16 * k + j)) <$> upto 16 in
  dirent_inum de = fst (entry_of buf k) /\
  (namecmp name (dirent_name de) = 0 <-> snd (entry_of buf k) = name).
Proof.
  intros Hn Hl de. split.
  { unfold de, entry_of, dirent_inum, get_le, slice. cbn [fst]. f_equal.
    change (take 2 _) with [buf (16 * k + 0); buf (16 * k + 1)]. by rewrite Z.add_0_r. }
  rewrite namecmp_field, field_str, take_ge by done. unfold field.
  rewrite (cname_ext _ buf _ 0 (16 * k + 2)); [split; by intros|].
  intros j Hj. unfold dirent_name, DIRSIZ, slice in *.
  unfold de. change (take _ _) with ((fun j => buf (16 * k + (2 + j))) <$> upto 14).
  rewrite Z.add_0_l, nth_map_upto by lia. f_equal. lia.
Qed.

Section procfs.
Context {T : Type} `{Disk T}.
Abbreviation K := (fsys T krest).
Context (junk : mem) (bstat : M K (Z * Z * Z * Z)).

(** ** The entries of /proc *)

Definition live (ps : list proc) : list proc := filter (fun p => is_state UNUSED p = false) ps.

Definition proc_entry (p : proc) : Z * list Z := (u16 (700 * p_pid p), decimal (p_pid p)).

Definition listing (inum : Z) (ps : list proc) : list (Z * list Z) :=
  [(u16 inum, lit "."); (ROOTINO, lit ".."); (660, lit "blockstat"); (670, lit "inodestat")] ++
  (proc_entry <$> live ps).

Definition pids_ok (ps : list proc) : Prop := Forall (fun p => 0 <= p_pid p < 2 ^ 31) ps.

Lemma put_dirent_run i de buf (s : K) :
  i < 66 -> put_dirent i de buf s = Ok (put_bytes (16 * i) de buf) s.
Proof.
  intros Hi. unfold put_dirent, BUFFSIZE, DIRENTSZ, NPROC.
  destruct (Z.ltb_spec ((2 + 64) * 16) (16 * i + 16)); [lia|done].
Qed.

Lemma live_cons p ps : live (p :: ps) = if is_state UNUSED p then live ps else p :: live ps.
Proof.
  unfold live. rewrite filter_cons. destruct (is_state UNUSED p); [by rewrite decide_False|by rewrite decide_True].
Qed.

Lemma length_dirent inum name : length name = Z.to_nat DIRSIZ -> length (dirent inum name) = 16%nat.
Proof. intros Hn. unfold dirent. by rewrite length_app, length_le_split, Hn. Qed.

Lemma initProc_loop_ok (s : K) ps : forall index name buf,
  pids_ok ps -> 0 <= index -> index + Z.of_nat (length (live ps)) <= 66 ->
  exists buf', initProc_loop ps index name buf s = Ok (index + Z.of_nat (length (live ps)), buf') s /\
    (forall k, k < index -> entry_of buf' k = entry_of buf k) /\
    forall i p, live ps !! i = Some p -> entry_of buf' (index + Z.of_nat i) = proc_entry p.
Proof.
  induction ps as [|p ps IH]; intros index name buf Hp Hi Hl; cbn [initProc_loop].
  { exists buf. by rewrite Z.add_0_r. }
  apply Forall_cons in Hp as [Hpid Hp]. rewrite live_cons in *. destruct (is_state UNUSED p); [by apply IH|].
  destruct (itoa_name_ok (p_pid p) name Hpid) as (name' & E & Hn & Hf). cbn [length] in *.
  rewrite E. cbn [of_option]. erewrite bind_run; [|reflexivity].
  erewrite bind_run; [|apply put_dirent_run; lia].
  set (buf1 := put_bytes _ _ _). destruct (IH (index + 1) name' buf1 Hp) as (buf' & Hrun & Hold & Hnew); [lia..|].
  exists buf'. split_and!.
  - rewrite Hrun. f_equal. f_equal. lia.
  - intros k Hk. rewrite Hold by lia. apply entry_put_ne; [by apply length_dirent|lia].
  - intros [|i] q Hq; simpl in Hq.
    + simplify_eq. rewrite Z.add_0_r, Hold by lia. unfold buf1. rewrite dirent_at by done. by rewrite Hf.
    + replace (index + Z.of_nat (S i)) with (index + 1 + Z.of_nat i) by lia. by apply Hnew.
Qed.

Lemma initProc_loop_overflow (s : K) ps : forall index name buf,
  pids_ok ps -> 0 <= index <= 66 -> 66 < index + Z.of_nat (length (live ps)) ->
  initProc_loop ps index name buf s = Fault "buf overflow".
Proof.
  induction ps as [|p ps IH]; intros index name buf Hp Hi Hl; cbn [initProc_loop]; [cbn in Hl; lia|].
  apply Forall_cons in Hp as [Hpid Hp]. rewrite live_cons in *. destruct (is_state UNUSED p); [by apply IH|].
  destruct (itoa_name_ok (p_pid p) name Hpid) as (name' & E & Hn & Hf). cbn [length] in *.
  rewrite E. cbn [of_option]. erewrite bind_run; [|reflexivity]. destruct (decide (index = 66)) as [->|].
  - unfold put_dirent, mbind, M_bind. by change (BUFFSIZE <? DIRENTSZ * 66 + DIRENTSZ) with true.
  - erewrite bind_run; [|apply put_dirent_run; lia]. apply IH; [done|lia..].
Qed.

(** The array after the four fixed entries, and the directory after them. *)
Definition head_buf (inum : Z) : mem :=
  put_bytes (16 * 3) (dirent 670 (strncpy_name (lit "inodestat")))
  (put_bytes (16 * 2) (dirent 660 (strncpy_name (lit "blockstat")))
  (put_bytes (16 * 1) (dirent ROOTINO (strncpy_name (lit "..")))
  (put_bytes (16 * 0) (dirent inum (strncpy_name (lit "."))) junk))).

Lemma head_entries inum ps i e :
  listing inum ps !! i = Some e -> (i < 4)%nat -> entry_of (head_buf inum) (Z.of_nat i) = e.
Proof.
  intros Hi H4. unfold head_buf.
  do 4 (destruct i as [|i]; [injection Hi as <-; repeat (rewrite entry_put_ne by done); apply dirent_at; done|]).
  lia.
Qed.

Lemma initProc_run ip i (s : K) :
  get_inode ip s = Ok i s ->
  initProc ip junk s =
  ('(index, buf) ← initProc_loop (k_procs (fs_rest s)) 4 (strncpy_name (lit "inodestat")) (head_buf (i_inum i));
   mret (index * DIRENTSZ, buf)) s.
Proof.
  intros Hi. unfold initProc. rewrite (bind_run _ _ _ _ _ Hi).
  do 4 (erewrite bind_run; [|by apply put_dirent_run]).
  erewrite bind_run; [done|]. unfold onrest, lift, gets. by destruct s.
Qed.

Lemma initProc_ok ip i (s : K) :
  get_inode ip s = Ok i s -> pids_ok (k_procs (fs_rest s)) -> (length (live (k_procs (fs_rest s))) <= 62)%nat ->
  let es := listing (i_inum i) (k_procs (fs_rest s)) in
  exists buf, initProc ip junk s = Ok (16 * Z.of_nat (length es), buf) s /\
    forall k e, es !! k = Some e -> entry_of buf (Z.of_nat k) = e.
Proof.
  intros Hi Hp Hl es. rewrite (initProc_run _ _ _ Hi).
  destruct (initProc_loop_ok s (k_procs (fs_rest s)) 4 (strncpy_name (lit "inodestat")) (head_buf (i_inum i)))
    as (buf & Hrun & Hold & Hnew); [done|lia..|].
  exists buf. rewrite (bind_run _ _ _ _ _ Hrun). split.
  - unfold es, listing. rewrite length_app, length_fmap. unfold mret, M_ret, DIRENTSZ. f_equal. f_equal. cbn [length]. lia.
  - intros k e Hk. destruct (decide (k < 4)%nat).
    + rewrite Hold by lia. by eapply head_entries.
    + unfold es, listing in Hk. rewrite lookup_app_r in Hk by (cbn; lia).
      apply list_lookup_fmap_Some in Hk as (p & -> & Hk). cbn [length] in Hk.
      replace (Z.of_nat k) with (4 + Z.of_nat (k - 4)) by lia. by apply Hnew.
Qed.

(** ** Reading and looking up *)

(** A read of /proc records its inode number for the [..] of /proc/PID. *)
Definition visited (i : inode) (s : K) : K :=
  FSys (fs_disk s) (fs_icache s) (fs_wakeups s) (set_curinode (i_inum i) (fs_rest s)).

Definition proc_dir (i : inode) : Prop := i_inum i mod 700 = 19.

Lemma procfsread_fill ip off n i (s : K) :
  get_inode ip s = Ok i s -> proc_dir i ->
  procfsread junk bstat ip off n s =
  ('(size, buf) ← initProc ip junk;
   if off <? size then
     let nr := if n <? size - off then n else size - off in
     if ((off <? 0) || (nr <? 0))%bool then fault "memmove"
     else mret (nr, (fun k => buf (off + k)) <$> upto nr)
   else mret (0, [])) (visited i s).
Proof.
  intros Hi Hd. unfold procfsread. rewrite (bind_run _ _ _ _ _ Hi). rewrite Hd.
  change ((21 <=? 19) && (19 <=? 36))%bool with false. cbv zeta iota.
  unfold procfs_fill. unfold mbind at 1, M_bind at 1. rewrite (bind_run _ _ _ _ _ Hi).
  change (19 =? 19) with true. cbv iota. erewrite bind_run; [|reflexivity]. done.
Qed.

Lemma get_visited ip i (s : K) j : get_inode ip s = Ok i s -> get_inode ip (visited j s) = Ok i (visited j s).
Proof.
  unfold get_inode. destruct (ip <? 0); [done|]. cbn [visited fs_icache].
  destruct (fs_icache s !! Z.to_nat ip); [|done]. intros E. by injection E as ->.
Qed.

Lemma read_entry ip i (s : K) k :
  get_inode ip s = Ok i s -> proc_dir i -> pids_ok (k_procs (fs_rest s)) ->
  (length (live (k_procs (fs_rest s))) <= 62)%nat ->
  let es := listing (i_inum i) (k_procs (fs_rest s)) in
  (k <= length es)%nat ->
  match es !! k with
  | Some e => exists buf, entry_of buf (Z.of_nat k) = e /\
      procfsread junk bstat ip (16 * Z.of_nat k) 16 s =
      Ok (16, (fun j => buf (16 * Z.of_nat k + j)) <$> upto 16) (visited i s)
  | None => procfsread junk bstat ip (16 * Z.of_nat k) 16 s = Ok (0, []) (visited i s)
  end.
Proof.
  intros Hi Hd Hp Hl es Hk. rewrite (procfsread_fill _ _ _ _ _ Hi Hd).
  destruct (initProc_ok ip i (visited i s)) as (buf & Hrun & He); [by apply get_visited|done|done|].
  cbn [visited fs_rest set_curinode k_procs] in Hrun, He. fold es in Hrun, He.
  rewrite (bind_run _ _ _ _ _ Hrun). destruct (es !! k) as [e|] eqn:Ek.
  - exists buf. split; [by apply He|]. apply lookup_lt_Some in Ek.
    destruct (Z.ltb_spec (16 * Z.of_nat k) (16 * Z.of_nat (length es))); [|lia].
    destruct (Z.ltb_spec 16 (16 * Z.of_nat (length es) - 16 * Z.of_nat k)).
    + destruct (Z.ltb_spec (16 * Z.of_nat k) 0); [lia|done].
    + replace (16 * Z.of_nat (length es) - 16 * Z.of_nat k) with 16 by lia.
      destruct (Z.ltb_spec (16 * Z.of_nat k) 0); [lia|done].
  - apply lookup_ge_None in Ek. destruct (Z.ltb_spec (16 * Z.of_nat k) (16 * Z.of_nat (length es))); [lia|done].
Qed.

Context (devsw0 : Z -> devops K).
Abbreviation devsw := (procfsinit junk bstat devsw0).

(** /proc as [dirlookup] finds it: a device inode of the major number PROCFS. *)
Record is_proc (dp : Z) (d : inode) (s : K) : Prop := {
  proc_inode : get_inode dp s = Ok d s;
  proc_type : i_type d = T_DEV;
  proc_major : i_major d = PROCFS;
  proc_inum : proc_dir d;
  proc_pids : pids_ok (k_procs (fs_rest s));
  proc_room : (length (live (k_procs (fs_rest s))) <= 62)%nat
}.

Lemma is_proc_visited dp d s : is_proc dp d s -> is_proc dp d (visited d s).
Proof. intros [H1 H2 H3 H4 H5 H6]. constructor; try done. by apply get_visited. Qed.

(** An entry in use with the name. *)
Definition named (name : list Z) (e : Z * list Z) : Prop := fst e <> 0 /\ snd e = name.
#[global] Instance named_dec name e : Decision (named name e).
Proof. unfold named. apply _. Defined.

(** The inode of an entry that was found: taken from the inode cache, and
    filled by [procfsiread] when the cache did not have it. *)
Definition found (dp dev inum off : Z) : M K (option (Z * Z)) :=
  ip ← iget dev inum;
  i ← get_inode ip;
  (if negb (ctrue (i_flags i .& I_VALID)) then procfsiread dp ip else mret tt);;
  mret (Some (ip, off)).

Definition lookup_result (dp : Z) (d : inode) (k : nat) (o : option (nat * (Z * list Z))) : M K (option (Z * Z)) :=
  match o with
  | Some (j, e) => found dp (i_dev d) (fst e) (16 * Z.of_nat (k + j))
  | None => mret None
  end.

Lemma length_listing inum ps : length (listing inum ps) = (4 + length (live ps))%nat.
Proof. unfold listing. by rewrite length_app, length_fmap. Qed.

Lemma readi_proc dp d s off :
  is_proc dp d s -> 0 <= off < 2 ^ 31 -> readi devsw dp off sizeof_dirent s = procfsread junk bstat dp off 16 s.
Proof.
  intros Hs Ho. unfold readi. rewrite (bind_run _ _ _ _ _ (proc_inode _ _ _ Hs)).
  rewrite (proc_type _ _ _ Hs), (proc_major _ _ _ Hs). cbn -[s32]. rewrite (s32_small off) by lia. done.
Qed.

Lemma lookup_step o dp d k :
  lookup_result dp d (S k) o =
  lookup_result dp d k (prod_map S id <$> o).
Proof. destruct o as [[i e']|]; [|done]. cbn. do 3 f_equal. lia. Qed.

Lemma dirlookup_loop_proc dp d name (fuel : nat) : forall s k,
  is_proc dp d s -> no_nul name -> (length name <= Z.to_nat DIRSIZ)%nat ->
  let es := listing (i_inum d) (k_procs (fs_rest s)) in
  (k <= length es)%nat -> (length es < fuel + k)%nat ->
  dirlookup_loop devsw fuel dp (16 * Z.of_nat k) name s =
  lookup_result dp d k (list_find (named name) (drop k es)) (visited d s).
Proof.
  induction fuel as [|fuel IH]; intros s k Hs Hn Hl es Hk Hf; [lia|]. cbn [dirlookup_loop].
  rewrite (bind_run _ _ _ _ _ (proc_inode _ _ _ Hs)).
  rewrite (proc_type _ _ _ Hs). change (T_DEV =? T_DEV) with true. rewrite orb_true_r.
  pose proof (proc_room _ _ _ Hs) as Hroom. pose proof (length_listing (i_inum d) (k_procs (fs_rest s))) as Hlen.
  fold es in Hlen. unfold mbind at 1, M_bind at 1. rewrite (readi_proc dp d) by (done || lia).
  pose proof (read_entry dp d s k (proc_inode _ _ _ Hs) (proc_inum _ _ _ Hs) (proc_pids _ _ _ Hs) Hroom Hk) as Hr.
  fold es in Hr. pose proof (is_proc_visited _ _ _ Hs) as Hv. destruct (es !! k) as [e|] eqn:Ek.
  - destruct Hr as (buf & He & ->). rewrite (bind_run _ _ _ _ _ (proc_inode _ _ _ Hv)).
    change (16 =? sizeof_dirent) with true. cbn [negb].
    destruct (namecmp_entry buf (Z.of_nat k) name Hn Hl) as [-> Hcmp]. rewrite He in Hcmp. rewrite He.
    rewrite (drop_S _ _ _ Ek). cbn [list_find].
    assert (u32 (16 * Z.of_nat k + sizeof_dirent) = 16 * Z.of_nat (S k)) as ->
      by (unfold sizeof_dirent; rewrite u32_small; lia).
    apply lookup_lt_Some in Ek.
    destruct (decide (named name e)) as [[H0 Hname]|Hnot].
    + rewrite (proj2 (Z.eqb_neq _ _) H0), (proj2 (Z.eqb_eq _ _) (proj2 Hcmp Hname)).
      unfold lookup_result, found. rewrite Nat.add_0_r, (proc_type _ _ _ Hs), (proc_major _ _ _ Hs).
      unfold mbind, M_bind. destruct (iget _ _ _) as [ip s1| | |]; try done.
      destruct (get_inode ip s1) as [i s2| | |]; try done.
      change (T_DEV =? T_DEV) with true. rewrite andb_true_r. by destruct (negb _).
    + rewrite <- lookup_step. assert (length es < fuel + S k)%nat as Hf' by lia.
      rewrite <- (IH (visited d s) (S k) Hv Hn Hl Ek Hf' :
        _ = lookup_result dp d (S k) (list_find (named name) (drop (S k) es)) (visited d s)).
      destruct (Z.eqb_spec (fst e) 0); [done|].
      destruct (Z.eqb_spec (namecmp name (dirent_name ((fun j => buf (16 * Z.of_nat k + j)) <$> upto 16))) 0); [|done].
      unfold named in Hnot. tauto.
  - rewrite Hr. rewrite (bind_run _ _ _ _ _ (proc_inode _ _ _ Hv)).
    change (0 =? sizeof_dirent) with false. cbn [negb]. rewrite (proc_type _ _ _ Hs).
    apply lookup_ge_None in Ek. by rewrite drop_ge by lia.
Qed.

Lemma dirlookup_proc dp d name (s : K) :
  is_proc dp d s -> i_minor d = 0 \/ i_minor d = T_DIR ->
  no_nul name -> (length name <= Z.to_nat DIRSIZ)%nat ->
  dirlookup devsw dp name s =
  lookup_result dp d 0 (list_find (named name) (listing (i_inum d) (k_procs (fs_rest s)))) (visited d s).
Proof.
  intros Hs Hm Hn Hl. pose proof (proc_inode _ _ _ Hs) as Hi. unfold dirlookup.
  assert (is_dir devsw dp s = Ok true s) as Hdir.
  { unfold is_dir. rewrite (bind_run _ _ _ _ _ Hi), (proc_type _ _ _ Hs). cbn. unfold IS_DEV_DIR.
    rewrite (bind_run _ _ _ _ _ Hi), (proc_type _ _ _ Hs), (proc_major _ _ _ Hs).
    change (T_DEV =? T_DEV) with true. cbv iota. erewrite bind_run; [|reflexivity].
    change (dv_isdir (devsw PROCFS)) with (Some (@procfsisdir T)). cbv iota.
    unfold procfsisdir. erewrite bind_run; [|by rewrite (bind_run _ _ _ _ _ Hi)]. by destruct Hm as [-> | ->]. }
  rewrite (bind_run _ _ _ _ _ Hdir). cbn [negb]. rewrite (bind_run _ _ _ _ _ Hi).
  unfold dir_fuel. rewrite (proc_type _ _ _ Hs). change (T_DEV =? T_DEV) with true. cbv iota.
  pose proof (proc_room _ _ _ Hs). pose proof (length_listing (i_inum d) (k_procs (fs_rest s))).
  rewrite <- (drop_0 (listing _ _)). apply (dirlookup_loop_proc dp d name DEV_DIR_FUEL s 0 Hs Hn Hl).
  - lia.
  - unfold DEV_DIR_FUEL. lia.
Qed.

(** ** Texts *)

(** The array begins with the bytes [t], none of them NUL. *)
Definition starts (buf : mem) (t : list Z) : Prop := bytes_at buf 0 t /\ no_nul t.

Lemma cpy_run t w n buf (s : K) :
  starts buf t -> no_nul w -> len w < n -> len t + n <= BUFFSIZE ->
  exists buf', cpy (len t) w n buf s = Ok buf' s /\ cstr buf' 0 (t ++ w).
Proof.
  intros [Hb Ht] Hw Hn Hr. unfold cpy. rewrite (proj2 (Z.ltb_ge _ _) Hr). eexists. split; [done|].
  apply strncpy_append; try done. unfold len, BUFFSIZE, NPROC, DIRENTSZ, LIT in *. lia.
Qed.

Lemma cstr_starts buf t : cstr buf 0 t -> starts buf t.
Proof. intros [Hb Ht]. split; [|done]. by apply bytes_at_app in Hb as [Hb _]. Qed.

Lemma buf_len_run buf t (s : K) : cstr buf 0 t -> len t < BUFFSIZE -> buf_len buf s = Ok (len t) s.
Proof. intros Hc Hl. unfold buf_len. rewrite (strlen_spec _ _ t) by (done || (unfold len in Hl; lia)). done. Qed.

Lemma cat_run t w n buf (s : K) :
  cstr buf 0 t -> no_nul w -> len w < n -> len t + n <= BUFFSIZE ->
  exists buf', cat w n buf s = Ok buf' s /\ cstr buf' 0 (t ++ w).
Proof.
  intros Hc Hw Hn Hr. unfold cat. assert (0 <= len w) by (unfold len; lia).
  rewrite (bind_run _ _ _ _ _ (buf_len_run buf t s Hc ltac:(lia))).
  apply cpy_run; try done. by apply cstr_starts.
Qed.

(** The text of /proc/PID/status. *)
Definition status_text (p : proc) : list Z :=
  lit "Status: " ++ lit (getProcState p) ++ lit " Size: " ++ decimal (p_sz p) ++ NL.

Lemma state_name p : no_nul (lit (getProcState p)) /\ len (lit (getProcState p)) <= 8.
Proof. unfold getProcState, no_nul. destruct (p_state p); (split; [repeat constructor; done|done]). Qed.

Lemma getProc_run q p (s : K) :
  k_procs (fs_rest s) !! q = Some p -> onproc (getProc (Z.of_nat q)) s = Ok q s.
Proof.
  intros Hq. pose proof (lookup_lt_Some _ _ _ Hq). unfold onproc, lift, getProc, get, mbind, M_bind. cbn [procs].
  rewrite (proj2 (Z.leb_le 0 _)), (proj2 (Z.ltb_lt _ _)) by lia. cbn [andb]. rewrite Nat2Z.id.
  by destruct s as [? ? ? []].
Qed.

Lemma proc_at_run q p (s : K) : k_procs (fs_rest s) !! q = Some p -> proc_at q s = Ok p s.
Proof. intros Hq. unfold proc_at, onrest, lift, gets, mbind, M_bind. rewrite Hq. by destruct s as [? ? ? []]. Qed.

Lemma len_app l1 l2 : len (l1 ++ l2) = len l1 + len l2.
Proof. unfold len. rewrite length_app. lia. Qed.

(** One [strncpy(buf + strlen(buf), ...)] of a function that builds a text. *)
Local Ltac cat_step Hc buf Hc' tac :=
  match goal with |- context [(cat ?w ?n ?b ≫= _) ?s] =>
    let R := fresh in
    edestruct (cat_run _ w n b s Hc) as (buf & R & Hc');
      [first [done | by repeat constructor] | tac | rewrite ?len_app; tac | rewrite (bind_run _ _ _ _ _ R); clear R]
  end.

Lemma status_run q p x buf (s : K) :
  k_procs (fs_rest s) !! q = Some p -> 0 <= p_sz p < 2 ^ 31 -> x / 700 = Z.of_nat q ->
  exists buf', status junk x buf s = Ok (len (status_text p), buf') s /\ cstr buf' 0 (status_text p).
Proof.
  intros Hq Hz Hx. unfold status. rewrite Hx, (bind_run _ _ _ _ _ (getProc_run _ _ _ Hq)).
  rewrite (bind_run _ _ _ _ _ (proc_at_run _ _ _ Hq)). cbv zeta. rewrite s32_small by lia.
  destruct (itoa_spec (p_sz p) LIT junk Hz) as (m & -> & Hm & _). cbn [of_option].
  erewrite bind_run; [|reflexivity]. pose proof (length_decimal (p_sz p)) as Hd. unfold INT_DIGITS in Hd.
  rewrite (strlen_spec _ _ _ _ Hm) by lia. erewrite bind_run; [|reflexivity].
  rewrite (read_back _ _ _ Hm : _ <$> upto (Z.of_nat _) = _).
  destruct (state_name p) as [Hn1 Hn2]. pose proof (decimal_no_nul _ Hz) as Hn3.
  assert (len (decimal (p_sz p)) <= 10) as Hd' by (unfold len; lia).
  assert (0 <= len (decimal (p_sz p)) /\ 0 <= len (lit (getProcState p))) as [P1 P2] by (unfold len; lia).
  destruct (cpy_run [] (lit "Status: ") 9 buf s) as (b1 & R1 & C1); [by split; [|constructor]|by repeat constructor|done..|].
  rewrite (bind_run _ _ _ _ _ (R1 : cpy 0 _ (len (lit "Status:  ")) buf s = _)).
  assert (len (lit "Status: ") = 8 /\ len (lit " Size: ") = 7 /\ len NL = 1 /\ BUFFSIZE = 1056) as (L1 & L2 & L3 & L4)
    by (split_and!; done).
  cbn [app] in C1. cat_step C1 b2 C2 lia. cat_step C2 b3 C3 ltac:(change (len (lit " Size:  ")) with 8; lia).
  cat_step C3 b4 C4 lia. cat_step C4 b5 C5 lia.
  rewrite <- !app_assoc in C5. fold (status_text p) in C5.
  exists b5. split; [|done]. erewrite bind_run; [done|]. apply buf_len_run; [done|].
  unfold status_text. rewrite !len_app. lia.
Qed.

(** A read of a file whose text is built from the start of the array. *)
Lemma upto_slice buf t off n :
  cstr buf 0 t -> 0 <= off -> 0 <= n -> off + n <= len t ->
  (fun k => buf (off + k)) <$> upto n = slice t (Z.to_nat off) (Z.to_nat n).
Proof.
  intros Hc Ho Hn Hl. rewrite <- (read_back _ _ _ Hc) at 1. apply list_eq. intros i. unfold slice, len in *.
  destruct (decide (i < Z.to_nat n)%nat) as [Hi|Hi].
  - rewrite lookup_take_lt, lookup_drop by lia. unfold upto.
    rewrite !list_lookup_fmap, !lookup_seq_lt by lia. simpl. do 2 f_equal. lia.
  - rewrite lookup_take_ge by lia. unfold upto. by rewrite !list_lookup_fmap, lookup_seq_ge by lia.
Qed.

Lemma take_length_take (l : list Z) n : take (length (take n l)) l = take n l.
Proof.
  rewrite length_take. destruct (decide (n <= length l)%nat); [f_equal; lia|]. by rewrite !take_ge by lia.
Qed.

Lemma procfsread_status ip i q p off n (s : K) :
  get_inode ip s = Ok i s -> i_inum i = 700 * Z.of_nat q + 10 ->
  k_procs (fs_rest s) !! q = Some p -> 0 <= p_sz p < 2 ^ 31 -> 0 <= off -> 0 <= n ->
  let r := slice (status_text p) (Z.to_nat off) (Z.to_nat n) in
  procfsread junk bstat ip off n s = Ok (len r, r) s.
Proof.
  intros Hi Hin Hq Hz Ho Hn r. unfold procfsread. rewrite (bind_run _ _ _ _ _ Hi), Hin.
  assert ((700 * Z.of_nat q + 10) mod 700 = 10) as -> by (rewrite Z.mul_comm, Z.add_comm, Z.mod_add by lia; done).
  cbv zeta. change ((21 <=? 10) && (10 <=? 36))%bool with false. cbv iota.
  destruct (status_run q p (i_inum i) junk s Hq Hz) as (buf & Hrun & Hc).
  { rewrite Hin, Z.mul_comm, Z.add_comm, Z.div_add by lia. done. }
  unfold procfs_fill. unfold mbind at 1, M_bind at 1. rewrite (bind_run _ _ _ _ _ Hi). cbn [Z.eqb Pos.eqb]. rewrite Hrun.
  assert (len r = Z.min n (len (status_text p) - off) \/ len (status_text p) <= off /\ r = []) as Hr.
  { unfold r, slice, len. destruct (decide (Z.of_nat (length (status_text p)) <= off)).
    - right. split; [done|]. by rewrite drop_ge, take_nil by lia.
    - left. rewrite length_take, length_drop. lia. }
  destruct (Z.ltb_spec off (len (status_text p))) as [Hlt|Hge]; [|destruct Hr as [Hr|[_ ->]]; [|done]].
  - destruct Hr as [Hr|[? _]]; [|lia].
    assert ((if n <? len (status_text p) - off then n else len (status_text p) - off) = len r) as ->
      by (destruct (Z.ltb_spec n (len (status_text p) - off)); lia).
    destruct (Z.ltb_spec off 0), (Z.ltb_spec (len r) 0); cbn [orb]; try lia.
    unfold mret, M_ret. do 2 f_equal. rewrite (upto_slice _ (status_text p)) by (done || lia).
    unfold len. rewrite Nat2Z.id. apply take_length_take.
  - assert (r = []) as ->; [|done]. apply length_zero_iff_nil. unfold len in Hr, Hge. lia.
Qed.

(** ** Theorems *)

(** C26: a lookup in /proc.  With at most 62 processes, [dirlookup] reads the
    directory through [procfsread] and finds a name exactly when it is one of
    [.], [..], [blockstat], [inodestat] and the decimal pids of the processes in
    use, in the order of the table; the inode number of a process is [700*pid]
    cut to 16 bits, and an inode that was not in the cache is filled by
    [procfsiread].  Nothing else changes but the remembered inode number. *)
Theorem procfs_lookup dp d name (s : K) :
  is_proc dp d s -> i_minor d = 0 \/ i_minor d = T_DIR ->
  no_nul name -> (length name <= Z.to_nat DIRSIZ)%nat ->
  dirlookup devsw dp name s =
  lookup_result dp d 0 (list_find (named name) (listing (i_inum d) (k_procs (fs_rest s)))) (visited d s).
Proof. apply dirlookup_proc. Qed.

(** C40: the array of [procfsread] has room for 66 entries, four of them not
    processes: with more than 62 processes any read of /proc, whatever the
    offset and the count, stores beyond the array. *)
Theorem procfs_overflow ip i off n (s : K) :
  get_inode ip s = Ok i s -> proc_dir i -> pids_ok (k_procs (fs_rest s)) ->
  (62 < length (live (k_procs (fs_rest s))))%nat ->
  procfsread junk bstat ip off n s = Fault "buf overflow".
Proof.
  intros Hi Hd Hp Hl. rewrite (procfsread_fill _ _ _ _ _ Hi Hd). unfold mbind at 1, M_bind at 1.
  rewrite (initProc_run _ _ _ (get_visited _ _ _ _ Hi)). unfold mbind at 1, M_bind at 1.
  change (k_procs (fs_rest (visited i s))) with (k_procs (fs_rest s)).
  by rewrite initProc_loop_overflow by (done || lia).
Qed.

(** /proc/PID/status shows the process in slot PID of the process table,
    not the process whose pid is PID: a read at any offset returns the part
    asked for of the state and the size of that slot. *)
Theorem procfs_status_slot ip i q p off n (s : K) :
  get_inode ip s = Ok i s -> i_inum i = 700 * Z.of_nat q + 10 ->
  k_procs (fs_rest s) !! q = Some p -> 0 <= p_sz p < 2 ^ 31 -> 0 <= off -> 0 <= n ->
  let r := slice (status_text p) (Z.to_nat off) (Z.to_nat n) in
  procfsread junk bstat ip off n s = Ok (len r, r) s.
Proof. apply procfsread_status. Qed.

End procfs.

(** A machine with [init] (pid 1) sleeping in slot 0 and a shell (pid 2) running
    in slot 1; inode 0 is /proc, inode 1 is /proc/1/status. *)
Definition demo_procs : list proc :=
  [set_vm 4096 0 (set_pid 1 (set_state SLEEPING proc0)); set_vm 8192 0 (set_pid 2 (set_state RUNNING proc0))] ++
  replicate 62 proc0.

Definition demo_sys (ps : list proc) : fsys tdisk krest :=
  FSys (TDisk ∅ ∅ ∅ ∅ 0 0 0)
    (<[0%nat := Inode 1 19 1 I_VALID T_DEV PROCFS T_DIR 1 0 []]>
     (<[1%nat := Inode 1 710 1 I_VALID T_DEV PROCFS T_FILE 1 0 []]> iinit)) []
    (KRest fileinit ∅ (KMem 0 0 (fun _ => 0)) ps 3 (Some 0%nat) 1 0 0 0 0 Console.input0 []).

Definition no_stat : M (fsys tdisk krest) (Z * Z * Z * Z) := mret (0, 0, 0, 0).
Definition no_devsw : Z -> devops (fsys tdisk krest) := fun _ => DevOps None None None None.

Lemma procfs_lookup_witness :
  exists s', dirlookup (procfsinit (fun _ => 0) no_stat no_devsw) 0 (lit "2") (demo_sys demo_procs) =
    Ok (Some (2, 80)) s' /\ i_inum <$> (fs_icache s' !! 2%nat) = Some 1400.
Proof.
  eexists. erewrite (procfs_lookup (fun _ => 0) no_stat no_devsw 0 (Inode 1 19 1 I_VALID T_DEV PROCFS T_DIR 1 0 [])).
  - split; vm_compute; reflexivity.
  - constructor; try done; [|vm_compute; lia].
    unfold pids_ok. apply Forall_app. split; [repeat constructor; cbn; lia|]. by apply Forall_replicate.
  - by right.
  - by repeat constructor.
  - vm_compute. lia.
Defined.

Definition full_procs : list proc := replicate 64 (set_pid 1 (set_state SLEEPING proc0)).

Lemma procfs_overflow_witness :
  procfsread (fun _ => 0) no_stat 0 0 16 (demo_sys full_procs) = Fault "buf overflow".
Proof.
  apply (procfs_overflow (fun _ => 0) no_stat 0 (Inode 1 19 1 I_VALID T_DEV PROCFS T_DIR 1 0 [])).
  - done.
  - done.
  - apply Forall_replicate. cbn. lia.
  - vm_compute. lia.
Defined.

Lemma procfs_status_slot_witness :
  procfsread (fun _ => 0) no_stat 1 0 100 (demo_sys demo_procs) =
  Ok (27, lit "Status: RUNNING Size: 8192" ++ NL) (demo_sys demo_procs).
Proof.
  apply (procfs_status_slot (fun _ => 0) no_stat 1 (Inode 1 710 1 I_VALID T_DEV PROCFS T_FILE 1 0 []) 1
    (set_vm 8192 0 (set_pid 2 (set_state RUNNING proc0))) 0 100); try done.
Defined.
