(* ===== verification/Umalloc.v ===== *)
(** umalloc.c: the storage allocator of user programs.

    The memory of the process is one byte memory; [base] is the address of the
    static header.  A block is a header of eight bytes, a pointer and a size
    counted in headers, and what follows it; the free blocks are a ring in
    address order that starts at [base].  Pointers compare as unsigned numbers.

    [sbrk] is the system call as the process sees it: it moves the end of the
    memory, up to [top], what the kernel can give. *)

From stdpp Require Import prelude strings functions gmap list sorting.
From S2P Require Import Prelude Param CString Kalloc.

Record heap := Heap {
  h_mem : mem;
  freep : Z;
  brk : Z;
  top : Z
}.

Definition HEADER : Z := 8.   (* sizeof(Header) *)

Section ops.
Context (base : Z).

Definition hptr (p : Z) : M heap Z := gets (fun h => load_long p (h_mem h)).
Definition hsize (p : Z) : M heap Z := gets (fun h => load_long (p + 4) (h_mem h)).
Definition set_hptr (p v : Z) : M heap unit :=
  modify (fun h => Heap (store_long p v (h_mem h)) (freep h) (brk h) (top h)).
Definition set_hsize (p v : Z) : M heap unit :=
  modify (fun h => Heap (store_long (p + 4) v (h_mem h)) (freep h) (brk h) (top h)).
Definition set_freep (p : Z) : M heap unit := modify (fun h => Heap (h_mem h) p (brk h) (top h)).

(** The end of the memory before the call, or -1.  A negative count shrinks the
    memory; when the difference is negative it is a large unsigned size, and
    growproc() keeps the memory as it is. *)
Definition sbrk (n : Z) : M heap Z := fun h =>
  if 0 <? n then
    if top h <? brk h + n then Ok (-1) h else Ok (brk h) (Heap (h_mem h) (freep h) (brk h + n) (top h))
  else if brk h + n <? 0 then Ok (brk h) h
  else if brk h + n =? 0 then Fault "sbrk: no memory left"
  else Ok (brk h) (Heap (h_mem h) (freep h) (brk h + n) (top h)).

(** As many headers as the memory can hold: no ring of blocks is longer. *)
Definition ring_fuel (h : heap) : nat := Z.to_nat (top h / HEADER + 2).

(** The block after which [bp] belongs. *)
Fixpoint free_loop (fuel : nat) (bp p : Z) : M heap Z :=
  match fuel with
  | O => fault "free list"
  | S fuel =>
      q ← hptr p;
      if ((p <? bp) && (bp <? q))%bool then mret p
      else if ((q <=? p) && ((p <? bp) || (bp <? q)))%bool then mret p
      else free_loop fuel bp q
  end.

(** Joining with the block above, and with the block below. *)
Definition join_upper (bp p : Z) : M heap unit :=
  q ← hptr p;
  n ← hsize bp;
  if u32 (bp + HEADER * n) =? q then
    t ← hsize q;
    set_hsize bp (u32 (n + t));;
    r ← hptr q;
    set_hptr bp r
  else set_hptr bp q.

Definition join_lower (bp p : Z) : M heap unit :=
  n ← hsize p;
  if u32 (p + HEADER * n) =? bp then
    t ← hsize bp;
    set_hsize p (u32 (n + t));;
    r ← hptr bp;
    set_hptr p r
  else set_hptr p bp.

Definition free (ap : Z) : M heap unit :=
  let bp := u32 (ap - HEADER) in
  fp ← gets freep;
  fuel ← gets ring_fuel;
  p ← free_loop fuel bp fp;
  join_upper bp p;;
  join_lower bp p;;
  set_freep p.

Definition morecore (nu : Z) : M heap Z :=
  let nu := if nu <? 4096 then 4096 else nu in
  p ← sbrk (s32 (u32 (nu * HEADER)));
  if p =? -1 then mret 0
  else
    set_hsize p nu;;
    free (u32 (p + HEADER));;
    gets freep.

(** The block [p] is large enough: all of it, or its tail. *)
Definition carve (nunits prevp p : Z) : M heap Z :=
  n ← hsize p;
  p ← (if n =? nunits then
         q ← hptr p;
         set_hptr prevp q;;
         mret p
       else
         set_hsize p (u32 (n - nunits));;
         n ← hsize p;
         let p := u32 (p + HEADER * n) in
         set_hsize p nunits;;
         mret p);
  set_freep prevp;;
  mret (u32 (p + HEADER)).

Fixpoint malloc_loop (fuel : nat) (nunits prevp p : Z) : M heap Z :=
  match fuel with
  | O => fault "free list"
  | S fuel =>
      n ← hsize p;
      if nunits <=? n then carve nunits prevp p
      else
        fp ← gets freep;
        if p =? fp then
          p ← morecore nunits;
          if p =? 0 then mret 0
          else
            q ← hptr p;
            malloc_loop fuel nunits p q
        else
          q ← hptr p;
          malloc_loop fuel nunits p q
  end.

Definition units (nbytes : Z) : Z := u32 (u32 (nbytes + HEADER - 1) / HEADER + 1).

Definition malloc (nbytes : Z) : M heap Z :=
  let nunits := units nbytes in
  fp ← gets freep;
  prevp ← (if fp =? 0 then
             set_freep base;;
             set_hptr base base;;
             set_hsize base 0;;
             mret base
           else mret fp);
  fuel ← gets ring_fuel;
  p ← hptr prevp;
  malloc_loop (2 * fuel) nunits prevp p.

End ops.
