(* ===== verification/UmallocThms.v ===== *)
(** The allocator of umalloc.c hands out disjoint blocks: the ring of free
    blocks, what [free] and [malloc] do to it, and the theorem about every
    sequence of calls. *)

From stdpp Require Import prelude strings functions gmap list sorting.
From S2P Require Import Prelude Param CString Kalloc Umalloc.

(** ** Headers in memory *)

Definition ptr (m : mem) (p : Z) : Z := load_long p m.
Definition size (m : mem) (p : Z) : Z := load_long (p + 4) m.

(** [m'] is [m] but for the header at [p]. *)
Definition same_but (p : Z) (m m' : mem) : Prop := forall x, ~ p <= x < p + 8 -> m' x = m x.

Definition hd_apart (p p' : Z) : Prop := p + 8 <= p' \/ p' + 8 <= p.

Lemma same_ptr p p' m m' : same_but p m m' -> hd_apart p p' -> ptr m' p' = ptr m p'.
Proof. intros Hs Ha. apply load_long_ext. intros x Hx. apply Hs. unfold hd_apart in Ha. lia. Qed.
Lemma same_size p p' m m' : same_but p m m' -> hd_apart p p' -> size m' p' = size m p'.
Proof. intros Hs Ha. apply load_long_ext. intros x Hx. apply Hs. unfold hd_apart in Ha. lia. Qed.

Lemma same_but_trans p m1 m2 m3 : same_but p m1 m2 -> same_but p m2 m3 -> same_but p m1 m3.
Proof. intros H1 H2 x Hx. rewrite H2, H1 by done. done. Qed.

Lemma store_ptr p v m : is_u32 v ->
  ptr (store_long p v m) p = v /\ size (store_long p v m) p = size m p /\ same_but p m (store_long p v m).
Proof.
  intros Hv. split_and!; [by apply load_store_long| |].
  - apply load_long_ext. intros x Hx. apply store_long_ne. lia.
  - intros x Hx. apply store_long_ne. lia.
Qed.
Lemma store_size p v m : is_u32 v ->
  size (store_long (p + 4) v m) p = v /\ ptr (store_long (p + 4) v m) p = ptr m p /\
  same_but p m (store_long (p + 4) v m).
Proof.
  intros Hv. split_and!; [by apply load_store_long| |].
  - apply load_long_ext. intros x Hx. apply store_long_ne. lia.
  - intros x Hx. apply store_long_ne. lia.
Qed.

Lemma elem_of_mid {X} (a b : X) l1 l2 : a ∈ l1 ++ l2 -> a ∈ l1 ++ b :: l2.
Proof. rewrite !elem_of_app, elem_of_cons. tauto. Qed.

(** Membership in an explicit list, by the place. *)
Local Ltac in_list := match goal with
  | H : ?x ∈ ?l1 ++ ?l2 |- ?x ∈ ?l1 ++ _ :: ?l2 => exact (elem_of_mid _ _ _ _ H)
  | |- ?x ∈ ?x :: _ => left
  | H : ?x ∈ ?l |- ?x ∈ ?l => exact H
  | |- _ ∈ _ :: _ => right; in_list
  | |- _ ∈ _ ++ _ => apply elem_of_app; first [left; in_list | right; in_list]
  end.

(** ** Rings *)

(** Every node points to the next, and the last one to [z]. *)
Fixpoint path (m : mem) (c : list Z) (z : Z) : Prop :=
  match c with
  | [] => True
  | x :: c => ptr m x = hd z c /\ path m c z
  end.

Lemma path_app m c1 c2 z : path m (c1 ++ c2) z <-> path m c1 (hd z c2) /\ path m c2 z.
Proof.
  induction c1 as [|x c1 IH]; cbn; [tauto|]. rewrite IH. destruct c1; cbn; tauto.
Qed.

Lemma path_ext m m' c z : (forall p, p ∈ c -> ptr m' p = ptr m p) -> path m c z -> path m' c z.
Proof.
  induction c as [|x c IH]; intros Hp; cbn; [done|]. intros [H1 H2]. split; [rewrite Hp; [done|left]|].
  apply IH; [|done]. intros p Hc. apply Hp. by right.
Qed.

(** ** Blocks *)

Abbreviation block := (Z * Z)%type.   (* address and size in units *)
Definition disj (b b' : block) : Prop := b.1 + 8 * b.2 <= b'.1 \/ b'.1 + 8 * b'.2 <= b.1.

(** Blocks in address order between [lo] and [hi]. *)
Fixpoint run (lo : Z) (F : list block) (hi : Z) : Prop :=
  match F with
  | [] => lo <= hi
  | b :: F => lo <= b.1 /\ 1 <= b.2 /\ run (b.1 + 8 * b.2) F hi
  end.

Fixpoint sep (A : list block) : Prop :=
  match A with
  | [] => True
  | b :: A => Forall (disj b) A /\ sep A
  end.

Lemma run_le lo F hi : run lo F hi -> lo <= hi.
Proof. revert lo. induction F as [|b F IH]; cbn; intros lo; [done|]. intros (H1 & H2 & H3%IH). lia. Qed.

Lemma run_app lo F1 F2 hi : run lo (F1 ++ F2) hi <-> exists mid, run lo F1 mid /\ run mid F2 hi.
Proof.
  revert lo. induction F1 as [|b F1 IH]; intros lo; cbn.
  - split; [intros Hr; exists lo; split; [lia|done]|]. intros (mid & Hm & Hr).
    destruct F2; cbn in *; [lia|]. destruct Hr as (? & ? & ?). split_and!; try done; lia.
  - rewrite IH. naive_solver.
Qed.

Lemma run_weaken lo lo' F hi hi' : lo' <= lo -> hi <= hi' -> run lo F hi -> run lo' F hi'.
Proof.
  revert lo lo'. induction F as [|b F IH]; cbn; intros lo lo' Hl Hh; [lia|]. intros (H1 & H2 & H3).
  split_and!; [lia|done|]. by eapply IH.
Qed.

Lemma run_bounds lo F hi b : run lo F hi -> b ∈ F -> lo <= b.1 /\ 1 <= b.2 /\ b.1 + 8 * b.2 <= hi.
Proof.
  revert lo. induction F as [|c F IH]; intros lo Hr Hb; [by apply elem_of_nil in Hb|].
  cbn in Hr. destruct Hr as (H1 & H2 & H3). apply elem_of_cons in Hb as [->|Hb].
  - apply run_le in H3. lia.
  - apply (IH _ H3) in Hb. lia.
Qed.

(** The place of a block disjoint from those of the list. *)
Lemma run_split lo F hi b :
  run lo F hi -> lo <= b.1 -> 1 <= b.2 -> b.1 + 8 * b.2 <= hi -> (forall f, f ∈ F -> disj f b) ->
  exists F1 F2, F = F1 ++ F2 /\ run lo F1 b.1 /\ run (b.1 + 8 * b.2) F2 hi.
Proof.
  revert lo. induction F as [|c F IH]; intros lo Hr Hlo Hb Hhi Hd; cbn in Hr.
  - by exists [], [].
  - destruct Hr as (H1 & H2 & H3). destruct (Hd c) as [Hc|Hc]; [left| |].
    + destruct (IH _ H3 Hc Hb Hhi) as (F1 & F2 & -> & R1 & R2); [intros f Hf; apply Hd; by right|].
      exists (c :: F1), F2. done.
    + exists [], (c :: F). split_and!; try done.
Qed.

Lemma run_length lo F hi : run lo F hi -> 8 * Z.of_nat (length F) <= hi - lo.
Proof. revert lo. induction F as [|b F IH]; cbn -[Z.mul]; intros lo; [lia|]. intros (H1 & H2 & H3%IH). lia. Qed.

(** ** The loop of [free] *)

Section inv.
Context (base : Z).

Lemma free_loop_step fuel bp p h :
  free_loop (S fuel) bp p h =
  if ((p <? bp) && (bp <? ptr (h_mem h) p))%bool then Ok p h
  else if ((ptr (h_mem h) p <=? p) && ((p <? bp) || (bp <? ptr (h_mem h) p)))%bool then Ok p h
  else free_loop fuel bp (ptr (h_mem h) p) h.
Proof.
  cbn [free_loop]. unfold hptr, gets, mbind, M_bind. fold (ptr (h_mem h) p).
  destruct (_ && _)%bool; [done|]. by destruct (_ && _)%bool.
Qed.

(** Below [bp] it walks up to the last block below it. *)
Lemma free_loop_below fuel bp q h F1 : forall x,
  path (h_mem h) (x :: F1.*1) q -> run (x + 1) F1 bp -> bp < q \/ q <= x -> (length F1 < fuel)%nat ->
  free_loop fuel bp x h = Ok (List.last (x :: F1.*1) 0) h.
Proof.
  revert fuel. induction F1 as [|[y s] F1 IH]; intros [|fuel] x Hp Hr Hq Hf; try (cbn in Hf; lia);
    rewrite free_loop_step.
  - destruct Hp as [-> _]. cbn [hd fmap list_fmap List.last]. cbn in Hr.
    destruct (Z.ltb_spec x bp), (Z.ltb_spec bp q), (Z.leb_spec q x); cbn [andb orb]; try done; lia.
  - cbn [fmap list_fmap] in Hp. destruct Hp as [-> Hp]. cbn in Hr. destruct Hr as (H1 & H2 & H3). cbn [hd fst].
    pose proof (run_le _ _ _ H3). cbn [length] in Hf.
    destruct (Z.ltb_spec x bp), (Z.ltb_spec bp y), (Z.leb_spec y x); cbn [andb orb]; try lia.
    rewrite IH; [done|done| |lia|lia]. eapply run_weaken; [| |exact H3]; lia.
Qed.

(** Above [bp] it walks up to the end of the ring and round to [base]. *)
Lemma free_loop_above fuel bp h hi F2 : forall x,
  path (h_mem h) (x :: F2.*1) base -> bp < x -> run (x + 1) F2 hi -> base < bp ->
  free_loop (S (length F2) + fuel) bp x h = free_loop fuel bp base h.
Proof.
  induction F2 as [|[y s] F2 IH]; intros x Hp Hx Hr Hb; cbn [Nat.add length]; rewrite free_loop_step.
  - destruct Hp as [-> _]. cbn [hd fmap list_fmap].
    destruct (Z.ltb_spec x bp), (Z.ltb_spec bp base), (Z.leb_spec base x); cbn [andb orb]; try lia; done.
  - cbn [fmap list_fmap] in Hp. destruct Hp as [-> Hp]. cbn in Hr. destruct Hr as (H1 & H2 & H3). cbn [hd fst].
    destruct (Z.ltb_spec x bp), (Z.ltb_spec bp y), (Z.leb_spec y x); cbn [andb orb]; try lia.
    apply IH; [done|lia| |lia]. eapply run_weaken; [| |exact H3]; lia.
Qed.

Lemma last_app_cons (l1 l2 : list Z) y : List.last (l1 ++ y :: l2) 0 = List.last (y :: l2) 0.
Proof. induction l1 as [|x l1 IH]; [done|]. rewrite <- IH. cbn. by destruct l1. Qed.

(** From any node of the ring, the search ends at the last one below [bp]. *)
Lemma free_loop_ring fuel bp h hi n F1 F2 x :
  path (h_mem h) (base :: (F1 ++ F2).*1) base -> run (base + 8) F1 bp -> run (bp + 8 * n) F2 hi -> 1 <= n ->
  x ∈ base :: (F1 ++ F2).*1 -> (length (F1 ++ F2) + 2 <= fuel)%nat ->
  free_loop fuel bp x h = Ok (List.last (base :: F1.*1) 0) h.
Proof.
  intros Hp R1 R2 Hn Hx Hf. rewrite length_app in Hf. pose proof (run_le _ _ _ R1) as Hb.
  rewrite fmap_app in *. change (base :: F1.*1 ++ F2.*1) with ((base :: F1.*1) ++ F2.*1) in Hp, Hx.
  apply path_app in Hp as [Hp1 Hp2].
  assert (bp < hd base F2.*1 \/ hd base F2.*1 <= base) as Hq.
  { destruct F2 as [|[y s] F2]; cbn in *; lia. }
  assert (forall fuel, (length F1 < fuel)%nat -> free_loop fuel bp base h = Ok (List.last (base :: F1.*1) 0) h) as Hbase.
  { intros f Hlen. eapply free_loop_below; [done| |done|done]. eapply run_weaken; [| |exact R1]; lia. }
  apply elem_of_app in Hx as [[->|Hx]%elem_of_cons|Hx].
  - apply Hbase. lia.
  - apply list_elem_of_split in Hx as (c1 & c2 & E).
    apply fmap_app_inv in E as (Fa & Fb' & -> & E & ->). destruct Fb' as [|[y s] Fb]; [done|].
    cbn [fmap list_fmap] in E. injection E as -> ->. rewrite fmap_app in *. cbn [fmap list_fmap] in *.
    apply run_app in R1 as (mid & R1a & R1b). cbn in R1b. destruct R1b as (H1 & H2 & H3).
    pose proof (run_le _ _ _ R1a). rewrite length_app in Hf. cbn [length] in Hf.
    rewrite app_comm_cons in Hp1 |- *. apply path_app in Hp1 as [_ Hp1]. cbn [fst] in *.
    rewrite last_app_cons. apply (free_loop_below fuel bp (hd base F2.*1)); [done| |lia|lia].
    eapply run_weaken; [| |exact H3]; lia.
  - apply list_elem_of_split in Hx as (c1 & c2 & E).
    apply fmap_app_inv in E as (Fa & Fb' & -> & E & ->). destruct Fb' as [|[y s] Fb]; [done|].
    cbn [fmap list_fmap] in E. injection E as -> ->. rewrite fmap_app in *. cbn [fmap list_fmap] in *.
    apply path_app in Hp2 as [_ Hp2]. apply run_app in R2 as (mid & R2a & R2b). cbn in R2b.
    destruct R2b as (H1 & H2 & H3). pose proof (run_le _ _ _ R2a). rewrite length_app in Hf. cbn [length fst] in *.
    replace fuel with (S (length Fb) + (fuel - S (length Fb)))%nat by lia.
    rewrite (free_loop_above _ bp h hi); [apply Hbase; lia|done|lia| |lia]. eapply run_weaken; [| |exact H3]; lia.
Qed.

(** ** Joining blocks *)

Definition with_mem (m : mem) (h : heap) : heap := Heap m (freep h) (brk h) (top h).

Definition sizes_ok (m : mem) (F : list block) : Prop := Forall (fun b => size m b.1 = b.2) F.

(** The block at [bp] of [n] units before [F2] absorbs a block that follows at once. *)
Definition joined (bp n : Z) (F2 : list block) (n' : Z) (F2' : list block) : Prop :=
  (n' = n /\ F2' = F2) \/ (exists t, F2 = (bp + 8 * n, t) :: F2' /\ n' = n + t).

Lemma join_upper_run bp p n F2 hi h :
  let m := h_mem h in
  path m F2.*1 base -> sizes_ok m F2 -> run (bp + 8 * n) F2 hi -> hi < 2 ^ 31 ->
  ptr m p = hd base F2.*1 -> size m bp = n -> 0 < base < bp -> 1 <= n ->
  exists m' n' F2', join_upper bp p h = Ok tt (with_mem m' h) /\ same_but bp m m' /\
    ptr m' bp = hd base F2'.*1 /\ size m' bp = n' /\ joined bp n F2 n' F2'.
Proof.
  intros m Hp Hs Hr Hhi Hq Hn Hb H1. pose proof (run_le _ _ _ Hr) as Hle.
  unfold join_upper, hptr, hsize, gets, mbind, M_bind, HEADER. fold m (ptr m p) (size m bp).
  rewrite Hq, Hn, u32_small by lia. destruct (Z.eqb_spec (bp + 8 * n) (hd base F2.*1)) as [E|E].
  - destruct F2 as [|[y t] F2]; [cbn in E; lia|]. cbn in E, Hr. subst y. destruct Hr as (_ & Ht & Hr).
    pose proof (run_le _ _ _ Hr) as Hle'. unfold set_hsize, set_hptr, modify. cbn [h_mem fmap list_fmap hd fst]. fold m.
    apply Forall_cons in Hs as [Hs _]. cbn in Hs. fold (size m (bp + 8 * n)). rewrite Hs, u32_small by lia.
    destruct Hp as [Hp1 Hp2].
    destruct (store_size bp (n + t) m) as (S1 & S2 & S3); [lia|]. set (m1 := store_long _ _ _) in *.
    fold (ptr m1 (bp + 8 * n)). rewrite (same_ptr _ _ _ _ S3) by (left; lia). cbn [fst] in Hp1. rewrite Hp1.
    assert (is_u32 (hd base F2.*1)) as Hu.
    { destruct F2 as [|[y t'] F2]; cbn in *; [lia|]. destruct Hr as (? & ? & ?%run_le). lia. }
    destruct (store_ptr bp (hd base F2.*1) m1 Hu) as (P1 & P2 & P3).
    eexists _, (n + t), F2. split; [reflexivity|]. split_and!; [by eapply same_but_trans|done|by etrans; [exact P2|exact S1]|].
    right. by exists t.
  - unfold set_hptr, modify.
    assert (is_u32 (hd base F2.*1)) as Hu.
    { destruct F2 as [|[y t'] F2]; cbn in *; [lia|]. destruct Hr as (? & ? & ?%run_le). lia. }
    destruct (store_ptr bp (hd base F2.*1) m Hu) as (P1 & P2 & P3).
    eexists _, n, F2. split; [reflexivity|]. split_and!; [done|done|by etrans; [exact P2|exact Hn]|]. by left.
Qed.

Lemma join_lower_run bp p t n r h :
  let m := h_mem h in
  size m p = t -> size m bp = n -> ptr m bp = r -> 0 <= t -> 0 <= n -> 0 < p -> p + 8 * t <= bp ->
  bp + 8 * n < 2 ^ 31 -> p + 8 <= bp -> is_u32 r ->
  exists m', join_lower bp p h = Ok tt (with_mem m' h) /\ same_but p m m' /\
    ((p + 8 * t = bp /\ size m' p = t + n /\ ptr m' p = r) \/ (p + 8 * t <> bp /\ size m' p = t /\ ptr m' p = bp)).
Proof.
  intros m Ht Hn Hr H1 H2 H3 H4 H5 H6 H7. unfold join_lower, hptr, hsize, gets, mbind, M_bind, HEADER.
  fold m (size m p). rewrite Ht, u32_small by lia. destruct (Z.eqb_spec (p + 8 * t) bp) as [E|E].
  - fold m (size m bp). rewrite Hn, u32_small by lia. unfold set_hsize, set_hptr, modify.
    cbn [h_mem]. fold m. destruct (store_size p (t + n) m) as (S1 & S2 & S3); [lia|]. set (m1 := store_long _ _ _) in *.
    fold (ptr m1 bp). rewrite (same_ptr _ _ _ _ S3) by (left; lia). rewrite Hr.
    destruct (store_ptr p r m1 H7) as (P1 & P2 & P3). eexists. split; [reflexivity|].
    split; [by eapply same_but_trans|]. left. split_and!; [done|by etrans; [exact P2|exact S1]|done].
  - unfold set_hptr, modify. fold m.
    destruct (store_ptr p bp m) as (P1 & P2 & P3); [lia|]. eexists. split; [reflexivity|]. split; [done|].
    right. split_and!; [done|by etrans; [exact P2|exact Ht]|done].
Qed.

(** ** The invariant *)

(** Free blocks [F] in a ring from [base], blocks [A] handed out. *)
Record heap_ok (h : heap) (F A : list block) : Prop := {
  ok_base : 0 < base;
  ok_top : brk h <= top h < 2 ^ 31;
  ok_path : path (h_mem h) (base :: F.*1) base;
  ok_sizes : sizes_ok (h_mem h) ((base, 0) :: F ++ A);
  ok_run : run (base + 8) F (brk h);
  ok_held : Forall (fun b => base + 8 <= b.1 /\ 1 <= b.2 /\ b.1 + 8 * b.2 <= brk h) A;
  ok_sep : sep A;
  ok_apart : forall f a, f ∈ F -> a ∈ A -> disj f a;
  ok_freep : freep h ∈ base :: F.*1
}.

(** The bytes of the blocks handed out, headers included. *)
Definition held_same (A : list block) (m m' : mem) : Prop :=
  forall b x, b ∈ A -> b.1 <= x < b.1 + 8 * b.2 -> m' x = m x.

Fixpoint total (F : list block) : Z := match F with [] => 0 | b :: F => b.2 + total F end.

Lemma total_app F1 F2 : total (F1 ++ F2) = total F1 + total F2.
Proof. induction F1 as [|b F1 IH]; cbn; [done|]. rewrite IH. lia. Qed.

Lemma sep_mid A1 b A2 : sep (A1 ++ b :: A2) <-> sep (A1 ++ A2) /\ (forall a, a ∈ A1 ++ A2 -> disj b a).
Proof.
  induction A1 as [|c A1 IH]; cbn.
  - rewrite Forall_forall. naive_solver.
  - rewrite IH, !Forall_app, Forall_cons. setoid_rewrite elem_of_cons. unfold disj. split.
    + intros ((H1 & H2 & H3) & H4 & H5). split_and!; try done. intros a [->|Ha]; [lia|by apply H5].
    + intros (((H1 & H2) & H3) & H4). split_and!; try done; [|naive_solver]. specialize (H4 c). naive_solver lia.
Qed.

(** The part of the ring below an address, with its last node [p]. *)
Lemma lower_part F1 bp :
  run (base + 8) F1 bp ->
  exists L p t, (base, 0) :: F1 = L ++ [(p, t)] /\ List.last (base :: F1.*1) 0 = p /\
    0 <= t /\ base <= p /\ p + 8 <= bp /\ p + 8 * t <= bp /\ (forall b, b ∈ L -> b.1 + 8 <= p) /\
    (p = base /\ t = 0 /\ F1 = [] \/
     exists F1', F1 = F1' ++ [(p, t)] /\ L = (base, 0) :: F1' /\ run (base + 8) F1' p /\ 1 <= t).
Proof.
  intros Hr. destruct (decide (F1 = [])) as [->|Hne].
  - exists [], base, 0. cbn in *. split_and!; try done; try lia; [|by left]. intros b Hb. by apply elem_of_nil in Hb.
  - destruct (exists_last Hne) as (F1' & [p t] & ->). exists ((base, 0) :: F1'), p, t.
    apply run_app in Hr as (mid & R1 & R2). cbn in R2. destruct R2 as (H1 & H2 & H3).
    pose proof (run_le _ _ _ R1). split_and!; try done; try lia.
    + rewrite fmap_app. cbn [fmap list_fmap fst]. rewrite app_comm_cons. apply last_app_cons.
    + intros b [->|Hb]%elem_of_cons; cbn; [lia|]. apply (run_bounds _ _ _ _ R1) in Hb. lia.
    + right. exists F1'. split_and!; try done. eapply run_weaken; [| |exact R1]; lia.
Qed.

(** *** [free] *)

Lemma joined_run bp n F2 n' F2' hi :
  joined bp n F2 n' F2' -> 1 <= n -> run (bp + 8 * n) F2 hi ->
  n <= n' /\ run (bp + 8 * n') F2' hi /\ (forall f, f ∈ F2' -> f ∈ F2) /\ n' + total F2' = n + total F2.
Proof.
  intros [[-> ->]|(t & -> & ->)] Hn Hr; [by split_and!|]. cbn in Hr. destruct Hr as (_ & Ht & Hr).
  split_and!; [cbn in Ht; lia| |by right|cbn; lia]. eapply run_weaken; [| |exact Hr]; cbn; lia.
Qed.

Lemma joined_disj bp n F2 n' F2' a :
  joined bp n F2 n' F2' -> 1 <= a.2 -> disj (bp, n) a -> (forall f, f ∈ F2 -> 1 <= f.2 /\ disj f a) -> disj (bp, n') a.
Proof.
  intros [[-> ->]|(t & -> & ->)] Ha Hd Hf; [done|]. destruct (Hf (bp + 8 * n, t)) as [Ht Hd']; [left|].
  unfold disj in *. cbn in *. lia.
Qed.

(** What [free] does to the headers: [bp] is linked in, or joined to its
    neighbours, at its place in the ring. *)
Lemma free_run h F A1 bp n A2 :
  heap_ok h F (A1 ++ (bp, n) :: A2) ->
  exists F1 F2 L p t m1 m2 n' F2',
    F = F1 ++ F2 /\ run (base + 8) F1 bp /\ run (bp + 8 * n) F2 (brk h) /\
    (base, 0) :: F1 = L ++ [(p, t)] /\ joined bp n F2 n' F2' /\
    free (bp + 8) h = Ok tt (Heap m2 p (brk h) (top h)) /\
    same_but bp (h_mem h) m1 /\ same_but p m1 m2 /\ size m1 bp = n' /\ ptr m1 bp = hd base F2'.*1 /\
    ((p + 8 * t = bp /\ size m2 p = t + n' /\ ptr m2 p = hd base F2'.*1) \/
     (p + 8 * t <> bp /\ size m2 p = t /\ ptr m2 p = bp)).
Proof.
  intros [Hb Htop Hp Hs Hr Hh Hsep Hap Hfp]. set (m := h_mem h) in *.
  apply Forall_app in Hh as [_ [(B1 & B2 & B3) _]%Forall_cons]. cbn in B1, B2, B3.
  destruct (run_split _ _ _ (bp, n) Hr B1 B2 B3) as (F1 & F2 & -> & R1 & R2);
    [intros f Hf; apply Hap; [done|in_list]|]. cbn [fst snd] in R1, R2.
  destruct (lower_part F1 bp R1) as (L & p & t & EL & Elast & Ht & Hbp & Hpb & Hptb & HL & _).
  pose proof (run_length _ _ _ Hr) as Hlen.
  assert (size m bp = n /\ size m p = t /\ sizes_ok m F2) as (Sb & Sp & S2).
  { unfold sizes_ok in Hs. rewrite Forall_cons, !Forall_app, Forall_cons in Hs.
    destruct Hs as (S0 & (S1 & S2) & _ & Sb & _). split_and!; try done.
    assert (sizes_ok m ((base, 0) :: F1)) as SL by (by constructor). rewrite EL in SL.
    by apply Forall_app in SL as [_ [SL _]%Forall_cons]. }
  assert (ptr m p = hd base F2.*1 /\ path m F2.*1 base) as [Pp P2].
  { rewrite fmap_app, app_comm_cons in Hp. apply path_app in Hp as [Hp1 Hp2]. split; [|done].
    change (base :: F1.*1) with (((base, 0) :: F1).*1) in Hp1. rewrite EL, fmap_app in Hp1. by apply path_app in Hp1 as [_ [Hp1 _]]. }
  unfold free, HEADER. replace (u32 (bp + 8 - 8)) with bp by (rewrite u32_small; lia).
  unfold gets at 1 2. unfold mbind at 1 2, M_bind at 1 2.
  erewrite bind_run; [|eapply (free_loop_ring _ bp h (brk h) n F1 F2); [exact Hp|exact R1|exact R2|exact B2|exact Hfp|]].
  2:{ unfold ring_fuel, HEADER. pose proof (Z.div_mod (top h) 8). pose proof (Z.mod_pos_bound (top h) 8). lia. }
  rewrite Elast.
  destruct (join_upper_run bp p n F2 (brk h) h) as (m1 & n' & F2' & J1 & M1 & Q1 & Z1 & HJ); try done; try lia.
  destruct (joined_run _ _ _ _ _ _ HJ B2 R2) as (Hn' & R2' & _ & _). pose proof (run_le _ _ _ R2').
  rewrite (bind_run _ _ _ _ _ J1).
  destruct (join_lower_run bp p t n' (hd base F2'.*1) (with_mem m1 h)) as (m2 & J2 & M2 & C2); try done; try lia.
  { cbn [with_mem h_mem]. rewrite (same_size _ _ _ _ M1); [done|]. right. lia. }
  { destruct F2' as [|[y t'] F2']; cbn in *; [lia|]. destruct R2' as (? & ? & ?%run_le). lia. }
  rewrite (bind_run _ _ _ _ _ J2). exists F1, F2, L, p, t, m1, m2, n', F2'. split_and!; done.
Qed.

Lemma far_same bp p m m1 m2 x :
  same_but bp m m1 -> same_but p m1 m2 -> hd_apart bp x -> hd_apart p x -> ptr m2 x = ptr m x /\ size m2 x = size m x.
Proof.
  intros M1 M2 H1 H2. rewrite (same_ptr _ _ _ _ M2), (same_size _ _ _ _ M2) by done.
  by rewrite (same_ptr _ _ _ _ M1), (same_size _ _ _ _ M1).
Qed.

Lemma sizes_far bp p m m1 m2 F :
  same_but bp m m1 -> same_but p m1 m2 -> (forall b, b ∈ F -> hd_apart bp b.1 /\ hd_apart p b.1) ->
  sizes_ok m F -> sizes_ok m2 F.
Proof.
  intros M1 M2 Hf. unfold sizes_ok. rewrite !Forall_forall. intros Hs b Hb. destruct (Hf b Hb) as [H1 H2].
  rewrite (proj2 (far_same _ _ _ _ _ _ M1 M2 H1 H2)). by apply Hs.
Qed.

Lemma path_far bp p m m1 m2 (F : list block) z :
  same_but bp m m1 -> same_but p m1 m2 -> (forall b, b ∈ F -> hd_apart bp b.1 /\ hd_apart p b.1) ->
  path m F.*1 z -> path m2 F.*1 z.
Proof.
  intros M1 M2 Hf. apply path_ext. intros x Hx. apply list_elem_of_fmap in Hx as (b & -> & Hb).
  destruct (Hf b Hb) as [H1 H2]. by apply (far_same _ _ _ _ _ _ M1 M2 H1 H2).
Qed.

(** The free blocks after [free]: the block of [n'] units at [bp], alone or
    joined to the one below it, between [F1] and [F2']. *)
Definition placed (F1 : list block) (bp n' : Z) (F2' F' : list block) : Prop :=
  F' = F1 ++ (bp, n') :: F2' \/
  exists F1' p t, F1 = F1' ++ [(p, t)] /\ p + 8 * t = bp /\ F' = F1' ++ (p, t + n') :: F2'.

Lemma placed_run F1 bp n' F2' F' hi :
  placed F1 bp n' F2' F' -> 1 <= n' -> run (base + 8) F1 bp -> run (bp + 8 * n') F2' hi ->
  run (base + 8) F' hi /\ (exists b, b ∈ F' /\ n' <= b.2) /\ total F' = total F1 + n' + total F2'.
Proof.
  intros [->|(F1' & p & t & -> & E & ->)] Hn R1 R2.
  - split_and!.
    + apply run_app. exists bp. split; [done|]. by cbn.
    + exists (bp, n'). split; [in_list|done].
    + rewrite total_app. cbn. lia.
  - apply run_app in R1 as (mid & R0 & R1). cbn in R1. destruct R1 as (? & ? & ?). split_and!.
    + apply run_app. exists mid. split; [done|]. cbn. split_and!; [done|lia|].
      by replace (p + 8 * (t + n')) with (bp + 8 * n') by lia.
    + exists (p, t + n'). split; [in_list|cbn; lia].
    + rewrite !total_app. cbn. lia.
Qed.

Lemma placed_disj F1 bp n' F2' F' a :
  placed F1 bp n' F2' F' -> 1 <= a.2 -> disj (bp, n') a -> (forall f, f ∈ F1 ++ F2' -> disj f a) ->
  forall f, f ∈ F' -> disj f a.
Proof.
  intros [->|(F1' & p & t & -> & E & ->)] Ha Hd Hf f [Hin|[->|Hin]%elem_of_cons]%elem_of_app; try (apply Hf; in_list).
  - done.
  - assert (disj (p, t) a) as Hd' by (apply Hf; in_list). unfold disj in *. cbn in *. lia.
Qed.

Lemma Forall_mid (P : block -> Prop) A1 b A2 : Forall P (A1 ++ b :: A2) <-> P b /\ Forall P (A1 ++ A2).
Proof. rewrite !Forall_app, Forall_cons. tauto. Qed.

Lemma ring_parts m F1 F2 L p t bp n n' F2' :
  path m (base :: (F1 ++ F2).*1) base -> (base, 0) :: F1 = L ++ [(p, t)] -> joined bp n F2 n' F2' ->
  path m L.*1 p /\ path m F2'.*1 base.
Proof.
  intros Hp EL HJ. rewrite fmap_app in Hp.
  change (base :: F1.*1 ++ F2.*1) with (((base, 0) :: F1).*1 ++ F2.*1) in Hp.
  rewrite EL, fmap_app, <- app_assoc in Hp. apply path_app in Hp as [HL Hp]. split; [done|].
  destruct Hp as [_ Hp]. destruct HJ as [[_ ->]|(u & -> & _)]; [done|]. by destruct Hp.
Qed.

(** The headers [free] writes, of the block and of the free block before it, are
    apart from all others. *)
Lemma free_apart h F1 F2 A1 bp n A2 L p t n' F2' :
  heap_ok h (F1 ++ F2) (A1 ++ (bp, n) :: A2) -> run (base + 8) F1 bp -> run (bp + 8 * n) F2 (brk h) ->
  (base, 0) :: F1 = L ++ [(p, t)] -> joined bp n F2 n' F2' ->
  (forall b, b ∈ L ++ F2' ++ A1 ++ A2 -> hd_apart bp b.1 /\ hd_apart p b.1) /\
  (forall b, b ∈ A1 ++ A2 -> disj (bp, n) b /\ (p + 8 <= b.1 \/ b.1 + 8 * b.2 <= p)).
Proof.
  intros [Hb Htop Hp Hs Hr Hh Hsep Hap Hfp] R1 R2 EL HJ. apply sep_mid in Hsep as [_ Hbd].
  apply Forall_mid in Hh as [(B1 & B2 & B3) Hh]. rewrite Forall_forall in Hh. cbn [fst snd] in B1, B2, B3.
  destruct (joined_run _ _ _ _ _ _ HJ B2 R2) as (Hn' & R2' & Hsub & _).
  destruct (lower_part F1 bp R1) as (L' & p' & t' & EL' & _ & Ht & Hbp & Hpb & Hptb & HL & Hlow).
  rewrite EL in EL'. apply app_inj_tail in EL' as [<- [= <- <-]].
  assert (forall b, b ∈ A1 ++ A2 -> disj (bp, n) b /\ (p + 8 <= b.1 \/ b.1 + 8 * b.2 <= p)) as Hpd.
  { intros b Hin. split; [by apply Hbd|]. pose proof (Hh b Hin).
    destruct Hlow as [(-> & _)|(F1' & -> & _ & _ & Ht1)]; [lia|].
    assert (disj (p, t) b) as Hd by (apply Hap; in_list). unfold disj in Hd. cbn in Hd. lia. }
  split; [|done]. intros b [Hin|[Hin|Hin]%elem_of_app]%elem_of_app; unfold hd_apart.
  - specialize (HL b Hin). lia.
  - apply (run_bounds _ _ _ _ R2') in Hin. lia.
  - specialize (Hh b Hin). specialize (Hpd b Hin). unfold disj in Hpd. cbn in *. lia.
Qed.

(** The headers after [free]. *)
Lemma free_linked h F A1 bp n A2 :
  heap_ok h F (A1 ++ (bp, n) :: A2) ->
  exists F1 F2 n' F2' F' m2 p,
    F = F1 ++ F2 /\ run (base + 8) F1 bp /\ run (bp + 8 * n) F2 (brk h) /\ joined bp n F2 n' F2' /\
    placed F1 bp n' F2' F' /\ free (bp + 8) h = Ok tt (Heap m2 p (brk h) (top h)) /\
    path m2 (base :: F'.*1) base /\ sizes_ok m2 ((base, 0) :: F' ++ A1 ++ A2) /\
    held_same (A1 ++ A2) (h_mem h) m2 /\ p ∈ base :: F'.*1.
Proof.
  intros Hok. destruct (free_run _ _ _ _ _ _ Hok) as
    (F1 & F2 & L & p & t & m1 & m2 & n' & F2' & -> & R1 & R2 & EL & HJ & Hrun & M1 & M2 & Z1 & Q1 & HC).
  destruct (free_apart _ _ _ _ _ _ _ _ _ _ _ _ Hok R1 R2 EL HJ) as [far Hpd].
  destruct Hok as [Hb Htop Hp Hs Hr Hh Hsep Hap Hfp].
  apply Forall_mid in Hh as [(B1 & B2 & B3) Hh]. cbn [fst snd] in B1, B2, B3.
  destruct (joined_run _ _ _ _ _ _ HJ B2 R2) as (Hn' & R2' & Hsub & _).
  destruct (lower_part F1 bp R1) as (L' & p' & t' & EL' & _ & Ht & Hbp & Hpb & Hptb & HL & Hlow).
  rewrite EL in EL'. apply app_inj_tail in EL' as [<- [= <- <-]].
  assert (forall b, b ∈ L -> hd_apart bp b.1 /\ hd_apart p b.1) as farL by (intros b Hin; apply far; in_list).
  assert (forall b, b ∈ F2' -> hd_apart bp b.1 /\ hd_apart p b.1) as far2 by (intros b Hin; apply far; in_list).
  assert (forall b, b ∈ A1 ++ A2 -> hd_apart bp b.1 /\ hd_apart p b.1) as farA
    by (intros b Hin; apply far; rewrite !elem_of_app in *; tauto).
  destruct (ring_parts _ _ _ _ _ _ _ _ _ _ Hp EL HJ) as (PL & P2).
  assert (sizes_ok m2 L /\ sizes_ok m2 F2' /\ sizes_ok m2 (A1 ++ A2)) as (SL & S2 & SA).
  { unfold sizes_ok in Hs. rewrite Forall_cons, (Forall_app _ (F1 ++ F2)), Forall_mid, Forall_app in Hs.
    destruct Hs as (S0 & (S1 & S2) & _ & SA).
    assert (sizes_ok (h_mem h) ((base, 0) :: F1)) as SL by (by constructor). rewrite EL in SL.
    apply Forall_app in SL as [SL _].
    split_and!; (eapply sizes_far; [exact M1|exact M2|done|]); [done| |done].
    rewrite Forall_forall in S2. apply Forall_forall. intros f Hf. apply S2. by apply Hsub. }
  assert (held_same (A1 ++ A2) (h_mem h) m2) as Hheld.
  { intros b x Hin Hx. specialize (Hpd b Hin). unfold disj in Hpd. cbn in Hpd. rewrite M2, M1 by lia. done. }
  destruct HC as [(E & Zp & Qp)|(E & Zp & Qp)].
  - destruct Hlow as [(-> & -> & _)|(F1' & -> & -> & R0 & Ht1)]; [lia|].
    exists (F1' ++ [(p, t)]), F2, n', F2', (F1' ++ (p, t + n') :: F2'), m2, p. split_and!; try done.
    + right. by exists F1', p, t.
    + rewrite fmap_app. change (base :: F1'.*1 ++ ((p, t + n') :: F2').*1) with (((base, 0) :: F1').*1 ++ p :: F2'.*1).
      apply path_app. split; [exact (path_far _ _ _ _ _ _ _ M1 M2 farL PL)|].
      split; [done|exact (path_far _ _ _ _ _ _ _ M1 M2 far2 P2)].
    + unfold sizes_ok in *. rewrite <- app_assoc, app_comm_cons, Forall_app. split; [done|].
      cbn [app]. rewrite Forall_cons, Forall_app. done.
    + rewrite fmap_app. cbn [fmap list_fmap fst]. in_list.
  - exists F1, F2, n', F2', (F1 ++ (bp, n') :: F2'), m2, p. split_and!; try done.
    + by left.
    + rewrite fmap_app. change (base :: F1.*1 ++ ((bp, n') :: F2').*1) with (((base, 0) :: F1).*1 ++ bp :: F2'.*1).
      rewrite EL, fmap_app, <- app_assoc. apply path_app.
      split; [exact (path_far _ _ _ _ _ _ _ M1 M2 farL PL)|]. split; [done|].
      split; [|exact (path_far _ _ _ _ _ _ _ M1 M2 far2 P2)]. rewrite (same_ptr _ _ _ _ M2); [done|]. left. lia.
    + unfold sizes_ok in *. rewrite <- app_assoc, app_comm_cons, EL, <- app_assoc, Forall_app. split; [done|].
      cbn [app]. rewrite !Forall_cons, Forall_app. split_and!; try done. 
      cbn. rewrite (same_size _ _ _ _ M2); [done|]. left. lia.
    + assert ((p, t) ∈ (base, 0) :: F1) as Hin by (rewrite EL; in_list).
      apply (list_elem_of_fmap_2 fst) in Hin. cbn [fmap list_fmap fst] in Hin. rewrite fmap_app.
      apply elem_of_cons in Hin as [->|Hin]; in_list.
Qed.

Lemma free_ok h F A1 bp n A2 :
  heap_ok h F (A1 ++ (bp, n) :: A2) ->
  exists h' F', free (bp + 8) h = Ok tt h' /\ heap_ok h' F' (A1 ++ A2) /\
    held_same (A1 ++ A2) (h_mem h) (h_mem h') /\ brk h' = brk h /\ top h' = top h /\
    (exists b, b ∈ F' /\ n <= b.2) /\ total F' = total F + n.
Proof.
  intros Hok. destruct (free_linked _ _ _ _ _ _ Hok) as
    (F1 & F2 & n' & F2' & F' & m2 & p & -> & R1 & R2 & HJ & HP & Hrun & P' & S' & Hheld & Hp').
  destruct Hok as [Hb Htop Hp Hs Hr Hh Hsep Hap Hfp]. apply sep_mid in Hsep as [Hsep Hbd].
  apply Forall_mid in Hh as [(B1 & B2 & B3) Hh]. cbn [fst snd] in B1, B2, B3.
  destruct (joined_run _ _ _ _ _ _ HJ B2 R2) as (Hn' & R2' & Hsub & Htot).
  destruct (placed_run F1 bp n' F2' F' (brk h) HP) as (R' & (b & Hb1 & Hb2) & Htot'); [lia|done|done|].
  exists (Heap m2 p (brk h) (top h)), F'. split_and!; try done.
  - constructor; try done. intros f a Hf Ha. pose proof Hh as Hh'. rewrite Forall_forall in Hh'.
    destruct (Hh' a Ha) as (_ & Ha1 & _).
    assert (forall f, f ∈ F1 ++ F2 -> disj f a) as Hd by (intros g Hg; apply Hap; [done|in_list]).
    refine (placed_disj F1 bp n' F2' F' a HP Ha1 _ _ f Hf).
    + eapply joined_disj; [exact HJ|done|by apply Hbd|]. intros g Hg.
      split; [by apply (run_bounds _ _ _ _ R2)|apply Hd; in_list].
    + intros g [Hg|Hg]%elem_of_app; apply Hd; apply elem_of_app; [by left|right; by apply Hsub].
  - exists b. split; [done|lia].
  - rewrite total_app. lia.
Qed.

(** *** [malloc] *)

(** The ring from the node after [x] round to [x]. *)
Lemma path_rotate m c1 x c2 z :
  path m (c1 ++ x :: c2) z -> hd x c1 = z -> path m (x :: c2 ++ c1) x.
Proof.
  intros Hp Hz. apply path_app in Hp as [H1 H2]. rewrite app_comm_cons. apply path_app. cbn [hd] in H1.
  by rewrite Hz.
Qed.

Lemma malloc_loop_step fuel nunits prevp p h :
  malloc_loop (S fuel) nunits prevp p h =
  if nunits <=? size (h_mem h) p then carve nunits prevp p h
  else if p =? freep h then
    (p ← morecore nunits; if p =? 0 then mret 0 else q ← hptr p; malloc_loop fuel nunits p q) h
  else malloc_loop fuel nunits p (ptr (h_mem h) p) h.
Proof.
  cbn [malloc_loop]. unfold hsize, hptr, gets. unfold mbind at 1, M_bind at 1. fold (size (h_mem h) p).
  destruct (_ <=? _); [done|]. unfold mbind at 1, M_bind at 1. by destruct (_ =? _).
Qed.

(** The search from [prev] over the nodes [w] that follow it, to [freep]. *)
Lemma malloc_walk nunits h x w : forall prev fuel,
  path (h_mem h) (prev :: w) x -> freep h = x -> x ∉ w ->
  (exists prev' p', prev' ∈ prev :: w /\ p' ∈ w ++ [x] /\ ptr (h_mem h) prev' = p' /\
     nunits <= size (h_mem h) p' /\
     malloc_loop (S (length w) + fuel) nunits prev (ptr (h_mem h) prev) h = carve nunits prev' p' h) \/
  (forall p, p ∈ w ++ [x] -> size (h_mem h) p < nunits) /\
  malloc_loop (S (length w) + fuel) nunits prev (ptr (h_mem h) prev) h =
    (p ← morecore nunits; if p =? 0 then mret 0 else q ← hptr p; malloc_loop fuel nunits p q) h.
Proof.
  induction w as [|y w IH]; intros prev fuel Hp Hx Hw.
  - cbn in Hp. destruct Hp as [Hp _]. rewrite Hp. cbn [length Nat.add]. rewrite malloc_loop_step, Hx, Z.eqb_refl.
    destruct (Z.leb_spec nunits (size (h_mem h) x)).
    + left. exists prev, x. split_and!; try done; in_list.
    + right. split; [|done]. intros p ->%list_elem_of_singleton. lia.
  - destruct Hp as [Hp1 Hp2]. cbn [hd] in Hp1. rewrite Hp1. apply not_elem_of_cons in Hw as [Hxy Hw].
    change (S (length (y :: w)) + fuel)%nat with (S (S (length w) + fuel)). rewrite malloc_loop_step.
    destruct (Z.leb_spec nunits (size (h_mem h) y)).
    + left. exists prev, y. split_and!; try done; in_list.
    + rewrite Hx, (proj2 (Z.eqb_neq y x)) by done.
      destruct (IH y fuel Hp2 Hx Hw) as [(prev' & p' & H1 & H2 & H3 & H4 & H5)|[H1 H2]].
      * left. exists prev', p'. split_and!; try done; cbn [app]; in_list.
      * right. split; [|done]. intros p Hin. cbn [app] in Hin.
        apply elem_of_cons in Hin as [->|Hin]; [lia|by apply H1].
Qed.

(** A node [prev] of the ring and the free block [p] it points to. *)
Lemma ring_pair h F A prev p :
  heap_ok h F A -> prev ∈ base :: F.*1 -> ptr (h_mem h) prev = p -> 1 <= size (h_mem h) p ->
  exists L t s Fb, (base, 0) :: F = L ++ (prev, t) :: (p, s) :: Fb /\ size (h_mem h) p = s /\
    ptr (h_mem h) p = hd base Fb.*1.
Proof.
  intros Hok Hin Hptr Hsz. change (base :: F.*1) with (((base, 0) :: F).*1) in Hin.
  apply list_elem_of_fmap in Hin as ([x t] & -> & Hin). cbn [fst] in Hptr. apply list_elem_of_split in Hin as (L & R & E).
  pose proof (ok_path _ _ _ Hok) as Hp. pose proof (ok_sizes _ _ _ Hok) as Hs. unfold sizes_ok in Hs.
  rewrite app_comm_cons, E in Hs. change (base :: F.*1) with (((base, 0) :: F).*1) in Hp. rewrite E, fmap_app in Hp.
  apply path_app in Hp as [_ [Hp1 Hp2]]. cbn [fst] in Hp1. rewrite Hptr in Hp1.
  rewrite !Forall_app, Forall_cons in Hs. destruct Hs as [(_ & _ & Hs) _].
  destruct R as [|[y s] Fb].
  - cbn in Hp1. rewrite Hp1 in Hsz. pose proof (ok_sizes _ _ _ Hok) as Hs'. apply Forall_cons in Hs' as [Hs' _]. cbn [fst snd] in Hs'. lia.
  - cbn [hd fmap list_fmap fst] in Hp1. rewrite <- Hp1 in *. apply Forall_cons in Hs as [Hs _].
    destruct Hp2 as [Hp2 _]. cbn [fst snd] in Hp2, Hs.
    exists L, t, s, Fb. done.
Qed.

(** The free list around the pair. *)
Lemma pair_run L prev t p s Fb F hi :
  (base, 0) :: F = L ++ (prev, t) :: (p, s) :: Fb -> run (base + 8) F hi ->
  exists F1, F = F1 ++ (p, s) :: Fb /\ (base, 0) :: F1 = L ++ [(prev, t)] /\ run (base + 8) F1 p /\
    1 <= s /\ base + 8 <= p /\ run (p + 8 * s) Fb hi.
Proof.
  intros E Hr. assert (exists F1, F = F1 ++ (p, s) :: Fb /\ (base, 0) :: F1 = L ++ [(prev, t)]) as (F1 & -> & E1).
  { destruct L as [|b L]; cbn in E; simplify_eq E.
    - intros. subst. by exists [].
    - intros. subst. exists (L ++ [(prev, t)]). by rewrite <- app_assoc. }
  exists F1. apply run_app in Hr as (mid & R1 & R2). cbn in R2. destruct R2 as (H1 & H2 & H3).
  pose proof (run_le _ _ _ R1). split_and!; try done; [|lia]. eapply run_weaken; [| |exact R1]; lia.
Qed.

Lemma same_but_refl p m : same_but p m m.
Proof. done. Qed.

(** The ring cut after the node [q]. *)
Lemma ring_iff m F1 R L q t :
  (base, 0) :: F1 = L ++ [(q, t)] ->
  path m (base :: (F1 ++ R).*1) base <-> path m L.*1 q /\ ptr m q = hd base R.*1 /\ path m R.*1 base.
Proof.
  intros EL. rewrite fmap_app. change (base :: F1.*1 ++ R.*1) with (((base, 0) :: F1).*1 ++ R.*1).
  rewrite EL, fmap_app, <- app_assoc, path_app. done.
Qed.

Lemma node_in F1 R L q t : (base, 0) :: F1 = L ++ [(q, t)] -> q ∈ base :: (F1 ++ R).*1.
Proof.
  intros EL. rewrite fmap_app. change (base :: F1.*1 ++ R.*1) with (((base, 0) :: F1).*1 ++ R.*1).
  rewrite EL, !fmap_app. cbn [fmap list_fmap fst]. in_list.
Qed.

Lemma sizes_same m m' X : (forall b, b ∈ X -> size m' b.1 = size m b.1) -> sizes_ok m X -> sizes_ok m' X.
Proof. intros HX. unfold sizes_ok. rewrite !Forall_forall. intros Hs b Hb. rewrite HX by done. by apply Hs. Qed.

(** All of the block is handed out: the ring goes past it. *)
Lemma carve_whole h F A prev p n :
  heap_ok h F A -> prev ∈ base :: F.*1 -> ptr (h_mem h) prev = p -> size (h_mem h) p = n -> 1 <= n ->
  exists h' F', carve n prev p h = Ok (p + 8) h' /\ heap_ok h' F' ((p, n) :: A) /\
    held_same A (h_mem h) (h_mem h') /\ brk h' = brk h /\ top h' = top h /\ total F' + n = total F.
Proof.
  intros Hok Hin Hptr Hsz Hn. destruct (ring_pair _ _ _ _ _ Hok Hin Hptr) as (L & t & s & Fb & E & Es & Ep); [lia|].
  rewrite Hsz in Es. subst s. pose proof Hok as [Hb Htop Hp Hs Hr Hh Hsep Hap Hfp].
  destruct (pair_run _ _ _ _ _ _ _ _ E Hr) as (F1 & -> & EL & R1 & _ & Hbp & R2). pose proof (run_le _ _ _ R2) as Hle.
  destruct (lower_part F1 p R1) as (L' & q & u & EL' & _ & Hu & Hbq & Hqp & _ & HL & Hlow).
  rewrite EL in EL'. apply app_inj_tail in EL' as [<- [= <- <-]].
  assert (is_u32 (hd base Fb.*1)) as H32.
  { destruct Fb as [|[y v] Fb]; cbn in *; [lia|]. destruct R2 as (? & ? & ?%run_le). lia. }
  destruct (store_ptr prev (hd base Fb.*1) (h_mem h) H32) as (Q1 & Q2 & Q3). set (m' := store_long _ _ _) in *.
  assert (forall b, b ∈ L ++ Fb -> hd_apart prev b.1) as far.
  { intros b [Hb'|Hb']%elem_of_app; [apply HL in Hb'|apply (run_bounds _ _ _ _ R2) in Hb']; unfold hd_apart; lia. }
  assert (forall b, b ∈ (p, n) :: A -> prev + 8 <= b.1 \/ b.1 + 8 * b.2 <= prev) as farA.
  { intros b [->|Hin']%elem_of_cons; [cbn; lia|]. pose proof (proj1 (Forall_forall _ _) Hh b Hin') as Hhb. cbn in Hhb.
    destruct Hlow as [(-> & _)|(F1' & -> & _ & _ & Ht1)]; [lia|].
    assert (disj (prev, t) b) as Hd by (apply Hap; in_list). unfold disj in Hd. cbn in Hd. lia. }
  exists (Heap m' prev (brk h) (top h)), (F1 ++ Fb). split_and!; try done.
  - unfold carve, hsize, hptr, gets, mbind, M_bind, HEADER. fold (size (h_mem h) p).
    rewrite Hsz, Z.eqb_refl. fold (ptr (h_mem h) p). rewrite Ep. unfold set_hptr, set_freep, modify, mret, M_ret. rewrite u32_small by lia. done.
  - constructor; cbn [h_mem brk top freep]; try done.
    + apply (ring_iff _ _ _ _ _ _ EL) in Hp as (P1 & _ & P2). destruct P2 as [_ P2]. apply (ring_iff _ _ _ _ _ _ EL).
      split_and!; [|done|]; (eapply path_far; [apply same_but_refl|exact Q3| |done]);
        intros b Hb'; split; apply far; in_list.
    + eapply sizes_same; [|unfold sizes_ok in *; rewrite Forall_cons, Forall_app, Forall_mid in Hs;
        rewrite Forall_cons, Forall_app, Forall_cons; destruct Hs as (? & (? & ?) & ?); done].
      intros b Hb'. rewrite app_comm_cons, app_comm_cons, EL in Hb'. rewrite <- !app_assoc in Hb'.
      apply elem_of_app in Hb' as [Hb'|[->|[Hb'|Hb']%elem_of_app]%elem_of_cons]; [|done| |];
        apply (same_size _ _ _ _ Q3); [apply far; in_list..|]. apply farA in Hb' as Hf.
      pose proof Hh as Hh'. rewrite Forall_forall in Hh'. unfold hd_apart.
      apply elem_of_cons in Hb' as [->|Hb']; [cbn in *; lia|]. apply Hh' in Hb'. lia.
    + apply run_app. exists p. split; [done|]. eapply run_weaken; [| |exact R2]; lia.
    + constructor; [|done]. cbn. lia.
    + cbn [sep]. split; [|done]. apply Forall_forall. intros a Ha. apply Hap; in_list.
    + intros f a Hf [->|Ha]%elem_of_cons; [|apply Hap; in_list].
      apply elem_of_app in Hf as [Hf|Hf];
        [apply (run_bounds _ _ _ _ R1) in Hf|apply (run_bounds _ _ _ _ R2) in Hf]; unfold disj; cbn; lia.
    + by eapply node_in.
  - intros b x Hin' Hx. apply Q3. destruct (farA b); [by right|lia..].
  - rewrite !total_app. cbn. lia.
Qed.

(** The two headers that [carve] writes. *)
Lemma carve_tail_run h prev p s n :
  size (h_mem h) p = s -> 1 <= n < s -> 0 <= p -> p + 8 * s < 4294967296 -> s < 4294967296 ->
  carve n prev p h = Ok (p + 8 * (s - n) + 8)
    (Heap (store_long (p + 8 * (s - n) + 4) n (store_long (p + 4) (s - n) (h_mem h))) prev (brk h) (top h)).
Proof.
  intros Hsz Hn Hp Hps Hs. unfold carve, hsize, gets, mbind, M_bind, HEADER. fold (size (h_mem h) p).
  rewrite Hsz, (proj2 (Z.eqb_neq s n)) by lia. unfold set_hsize, set_freep, modify, mret, M_ret.
  cbn [h_mem freep brk top]. rewrite (u32_small (s - n)) by lia.
  destruct (store_size p (s - n) (h_mem h)) as (Z1 & _); [lia|].
  change (load_long (p + 4) (store_long (p + 4) (s - n) (h_mem h))) with (size (store_long (p + 4) (s - n) (h_mem h)) p).
  rewrite Z1, (u32_small (p + 8 * (s - n))), u32_small by lia. done.
Qed.

(** The tail of the block is handed out, and the rest stays in its place. *)
Lemma carve_tail h F A prev p s n :
  heap_ok h F A -> prev ∈ base :: F.*1 -> ptr (h_mem h) prev = p -> size (h_mem h) p = s -> 1 <= n < s ->
  let a := p + 8 * (s - n) in
  exists h' F', carve n prev p h = Ok (a + 8) h' /\ heap_ok h' F' ((a, n) :: A) /\
    held_same A (h_mem h) (h_mem h') /\ brk h' = brk h /\ top h' = top h /\ total F' + n = total F.
Proof.
  intros Hok Hin Hptr Hsz Hn a. destruct (ring_pair _ _ _ _ _ Hok Hin Hptr) as (L & t & s' & Fb & E & Es & Ep); [lia|].
  rewrite Hsz in Es. subst s'. pose proof Hok as [Hb Htop Hp Hs Hr Hh Hsep Hap Hfp].
  destruct (pair_run _ _ _ _ _ _ _ _ E Hr) as (F1 & -> & EL & R1 & _ & Hbp & R2). pose proof (run_le _ _ _ R2) as Hle.
  destruct (store_size p (s - n) (h_mem h)) as (Z1 & Q1 & M1); [lia|]. set (m1 := store_long _ _ _) in *.
  destruct (store_size a n m1) as (Z2 & Q2 & M2); [lia|]. set (m2 := store_long (a + 4) n m1) in *.
  assert (forall b, b ∈ (base, 0) :: F1 ++ Fb -> hd_apart p b.1 /\ hd_apart a b.1) as far.
  { intros b Hb'. unfold hd_apart, a. apply elem_of_cons in Hb' as [->|[Hb'|Hb']%elem_of_app]; [cbn; lia|..];
      [apply (run_bounds _ _ _ _ R1) in Hb'|apply (run_bounds _ _ _ _ R2) in Hb']; lia. }
  assert (forall b, b ∈ A -> p + 8 * s <= b.1 \/ b.1 + 8 * b.2 <= p) as farA.
  { intros b Hb'. assert (disj (p, s) b) as Hd by (apply Hap; in_list). done. }
  pose proof (proj1 (Forall_forall _ _) Hh) as Hh'. cbn in Hh'.
  exists (Heap m2 prev (brk h) (top h)), (F1 ++ (p, s - n) :: Fb). split_and!; try done.
  - apply carve_tail_run; [done|done|lia..].
  - constructor; cbn [h_mem brk top freep]; try done.
    + eapply path_ext; [|rewrite fmap_app in Hp |- *; exact Hp]. intros x Hx.
      assert (x = p \/ exists b, b ∈ (base, 0) :: F1 ++ Fb /\ x = b.1) as [->|(b & Hb' & ->)].
      { rewrite fmap_app in Hx. apply elem_of_cons in Hx as [->|Hx]; [right; exists (base, 0); split; [left|done]|].
        apply elem_of_app in Hx as [Hx|[->|Hx]%elem_of_cons]; [right|by left|right];
          apply list_elem_of_fmap in Hx as (b & -> & Hx); exists b; (split; [in_list|done]). }
      * rewrite (same_ptr _ _ _ _ M2); [done|]. unfold hd_apart, a. lia.
      * by apply (far_same _ _ _ _ _ _ M1 M2); apply far.
    + unfold sizes_ok in Hs |- *. rewrite Forall_cons, Forall_app, Forall_mid in Hs. destruct Hs as (S0 & (_ & SF) & SA).
      rewrite Forall_cons, Forall_app, Forall_mid, Forall_cons.
      assert (sizes_ok m2 ((base, 0) :: F1 ++ Fb)) as [S0' SF']%Forall_cons
        by (eapply sizes_far; [exact M1|exact M2|exact far|by constructor]).
      split_and!; try done; [cbn [fst snd]; rewrite (same_size _ _ _ _ M2); [done|unfold hd_apart, a; lia]|].
      eapply sizes_far; [exact M1|exact M2| |exact SA].
      intros b Hb'. specialize (farA b Hb'). specialize (Hh' b Hb'). unfold hd_apart, a. lia.
    + apply run_app. exists p. split; [done|]. cbn. split_and!; [lia|lia|]. eapply run_weaken; [| |exact R2]; lia.
    + constructor; [|done]. cbn. unfold a. lia.
    + cbn [sep]. split; [|done]. apply Forall_forall. intros b Hb'. specialize (farA b Hb'). specialize (Hh' b Hb').
      unfold disj, a. cbn. lia.
    + intros f b Hf [->|Hb']%elem_of_cons.
      * unfold disj, a. cbn. apply elem_of_app in Hf as [Hf|[->|Hf]%elem_of_cons];
          [apply (run_bounds _ _ _ _ R1) in Hf| |apply (run_bounds _ _ _ _ R2) in Hf]; cbn; lia.
      * apply elem_of_app in Hf as [Hf|[->|Hf]%elem_of_cons]; [apply Hap; in_list| |apply Hap; in_list].
        specialize (farA b Hb'). unfold disj. cbn. lia.
    + rewrite fmap_app in Hin |- *. done.
  - intros b x Hin' Hx. specialize (farA b Hin'). specialize (Hh' b Hin'). rewrite M2, M1 by (unfold a; lia). done.
  - rewrite !total_app. cbn. lia.
Qed.

Lemma carve_ok h F A prev p n :
  heap_ok h F A -> prev ∈ base :: F.*1 -> ptr (h_mem h) prev = p -> 1 <= n <= size (h_mem h) p ->
  exists a h' F', carve n prev p h = Ok (a + 8) h' /\ heap_ok h' F' ((a, n) :: A) /\
    held_same A (h_mem h) (h_mem h') /\ brk h' = brk h /\ top h' = top h /\ total F' + n = total F.
Proof.
  intros Hok Hin Hptr Hn. destruct (decide (size (h_mem h) p = n)) as [E|E].
  - exists p. apply carve_whole; try done. lia.
  - eexists. apply (carve_tail h F A prev p (size (h_mem h) p) n); try done. lia.
Qed.

(** The units [morecore] asks for. *)
Definition grow (nu : Z) : Z := if nu <? 4096 then 4096 else nu.

Lemma grown_ok h F A n :
  heap_ok h F A -> 1 <= n -> brk h + 8 * n <= top h ->
  heap_ok (Heap (store_long (brk h + 4) n (h_mem h)) (freep h) (brk h + 8 * n) (top h)) F ((brk h, n) :: A).
Proof.
  intros [Hb Htop Hp Hs Hr Hh Hsep Hap Hfp] Hn Hroom. pose proof (run_le _ _ _ Hr) as Hle.
  destruct (store_size (brk h) n (h_mem h)) as (Z1 & Q1 & M1); [lia|]. set (m1 := store_long _ _ _) in *.
  assert (forall b, b ∈ (base, 0) :: F ++ A -> hd_apart (brk h) b.1) as far.
  { intros b Hb'. unfold hd_apart. apply elem_of_cons in Hb' as [->|[Hb'|Hb']%elem_of_app].
    - cbn. lia.
    - apply (run_bounds _ _ _ _ Hr) in Hb'. lia.
    - apply (proj1 (Forall_forall _ _) Hh) in Hb'. lia. }
  constructor; cbn [h_mem brk top freep]; try done; try lia.
  - eapply (path_far _ _ _ _ _ ((base, 0) :: F)); [apply same_but_refl|exact M1| |done].
    intros b Hb'. split; apply far; apply elem_of_cons in Hb' as [->|Hb']; in_list.
  - unfold sizes_ok. rewrite app_comm_cons. apply Forall_mid. split; [done|].
    eapply sizes_same; [|exact Hs]. intros b Hb'. apply (same_size _ _ _ _ M1), far. done.
  - eapply run_weaken; [| |exact Hr]; lia.
  - constructor; [cbn; lia|]. eapply Forall_impl; [exact Hh|]. cbn. lia.
  - cbn [sep]. split; [|done]. eapply Forall_impl; [exact Hh|]. unfold disj. cbn. lia.
  - intros f a Hf [->|Ha]%elem_of_cons; [|by apply Hap].
    apply (run_bounds _ _ _ _ Hr) in Hf. unfold disj. cbn. lia.
Qed.

Lemma morecore_ok h F A nu :
  heap_ok h F A -> 1 <= nu -> 8 * nu < 2 ^ 31 ->
  if top h <? brk h + 8 * grow nu then morecore nu h = Ok 0 h
  else exists h' F', morecore nu h = Ok (freep h') h' /\ heap_ok h' F' A /\ held_same A (h_mem h) (h_mem h') /\
    brk h' = brk h + 8 * grow nu /\ top h' = top h /\ (exists b, b ∈ F' /\ nu <= b.2) /\
    total F' = total F + grow nu.
Proof.
  intros Hok Hn Hnu. assert (1 <= grow nu /\ nu <= grow nu /\ 8 * grow nu < 2 ^ 31) as (G1 & G2 & G3)
    by (unfold grow; destruct (Z.ltb_spec nu 4096); lia).
  pose proof (ok_top _ _ _ Hok) as Htop. pose proof (run_le _ _ _ (ok_run _ _ _ Hok)) as Hle. pose proof (ok_base _ _ _ Hok).
  assert (s32 (u32 (grow nu * HEADER)) = 8 * grow nu) as E32
    by (unfold HEADER; rewrite u32_small, s32_small by lia; lia).
  assert (forall h', sbrk (8 * grow nu) h' = if top h' <? brk h' + 8 * grow nu then Ok (-1) h'
    else Ok (brk h') (Heap (h_mem h') (freep h') (brk h' + 8 * grow nu) (top h'))) as Hsb
    by (intros h'; unfold sbrk; destruct (Z.ltb_spec 0 (8 * grow nu)); [done|lia]).
  unfold morecore. fold (grow nu). cbv zeta. rewrite E32.
  destruct (Z.ltb_spec (top h) (brk h + 8 * grow nu)) as [Hl|Hl].
  { erewrite bind_run; [|rewrite Hsb, (proj2 (Z.ltb_lt _ _) Hl); reflexivity]. done. }
  erewrite bind_run; [|rewrite Hsb, (proj2 (Z.ltb_ge _ _) Hl); reflexivity].
  rewrite (proj2 (Z.eqb_neq (brk h) (-1))) by lia. erewrite bind_run; [|reflexivity].
  cbn [h_mem freep brk top]. unfold HEADER. rewrite u32_small by lia.
  pose proof (grown_ok h F A (grow nu) Hok G1 Hl) as Hok1.
  destruct (free_ok _ _ [] _ _ _ Hok1) as (h' & F' & Hrun & Hok' & Hheld & Hbrk & Htop' & (b & Hb1 & Hb2) & Htot).
  exists h', F'. rewrite (bind_run _ _ _ _ _ Hrun). cbn [app brk top h_mem] in *. split_and!; try done.
  - intros c x Hc Hx. rewrite (Hheld c x) by done. apply store_long_ne.
    pose proof (proj1 (Forall_forall _ _) (ok_held _ _ _ Hok) c Hc) as Hc'. cbn in Hc'. lia.
  - exists b. split; [done|lia].
Qed.

(** *** Whole calls *)

Lemma nodes_NoDup lo F hi : run lo F hi -> NoDup F.*1.
Proof.
  revert lo. induction F as [|b F IH]; intros lo Hr; [constructor|]. cbn in Hr. destruct Hr as (H1 & H2 & H3).
  cbn. constructor; [|by eapply IH]. intros (c & E & Hc)%list_elem_of_fmap. apply (run_bounds _ _ _ _ H3) in Hc. lia.
Qed.

(** The search of [malloc] from [freep]: it ends at a large enough block, or
    has seen that there is none. *)
Lemma malloc_search h F A n fuel :
  heap_ok h F A ->
  let x := freep h in
  (exists prev p, prev ∈ base :: F.*1 /\ ptr (h_mem h) prev = p /\ n <= size (h_mem h) p /\
     malloc_loop (S (length F) + fuel) n x (ptr (h_mem h) x) h = carve n prev p h) \/
  (forall b, b ∈ F -> b.2 < n) /\
  malloc_loop (S (length F) + fuel) n x (ptr (h_mem h) x) h =
    (p ← morecore n; if p =? 0 then mret 0 else q ← hptr p; malloc_loop fuel n p q) h.
Proof.
  intros Hok x. pose proof (ok_freep _ _ _ Hok) as Hx. fold x in Hx. apply list_elem_of_split in Hx as (c1 & c2 & E).
  assert (NoDup (base :: F.*1)) as Hnd.
  { constructor; [|by eapply nodes_NoDup, ok_run]. intros (c & Ec & Hc)%list_elem_of_fmap.
    apply (run_bounds _ _ _ _ (ok_run _ _ _ Hok)) in Hc. lia. }
  pose proof (ok_path _ _ _ Hok) as Hp. rewrite E in Hp, Hnd.
  assert (length (c2 ++ c1) = length F) as Hlen.
  { apply (f_equal length) in E. cbn in E. rewrite length_fmap, !length_app in *. cbn in E. lia. }
  assert (hd x c1 = base) as Hhd by (destruct c1; cbn in *; congruence).
  pose proof (path_rotate _ _ _ _ _ Hp Hhd) as Hrot.
  assert (x ∉ c2 ++ c1) as Hnx.
  { apply NoDup_app in Hnd as (_ & Hd & [Hd2 _]%NoDup_cons). rewrite elem_of_app. intros [?|Hin]; [done|].
    apply (Hd x Hin). left. }
  assert (forall y, y ∈ (c2 ++ c1) ++ [x] <-> y ∈ base :: F.*1) as Hall.
  { intros y. rewrite E, !elem_of_app, !elem_of_cons. rewrite elem_of_nil. tauto. }
  rewrite <- Hlen.
  destruct (malloc_walk n h x (c2 ++ c1) x fuel Hrot eq_refl Hnx) as [(prev & p & H1 & H2 & H3 & H4 & H5)|[H1 H2]].
  - left. exists prev, p. split_and!; try done. apply Hall. apply elem_of_cons in H1 as [->|H1]; in_list.
  - right. split; [|done]. intros b Hb.
    assert (b.1 ∈ (c2 ++ c1) ++ [x]) as Hin by (apply Hall; right; by apply list_elem_of_fmap_2).
    apply H1 in Hin. pose proof (ok_sizes _ _ _ Hok) as Hs. unfold sizes_ok in Hs.
    rewrite Forall_cons, Forall_app, !Forall_forall in Hs. destruct Hs as (_ & Hs & _). rewrite (Hs b Hb) in Hin. done.
Qed.

(** What a call of [malloc] for [n] units does: the block it returns is new,
    or there is neither a block nor memory for one. *)
Definition outcome (h : heap) (F A : list block) (n r : Z) (h' : heap) : Prop :=
  top h' = top h /\ held_same A (h_mem h) (h_mem h') /\
  ((r = 0 /\ h' = h /\ top h < brk h + 8 * grow n /\ forall b, b ∈ F -> b.2 < n) \/
   (exists a F', r = a + 8 /\ heap_ok h' F' ((a, n) :: A) /\
      8 * (total F' + n - total F) = brk h' - brk h)).

Lemma ring_short h F A : heap_ok h F A -> (length F + 2 <= ring_fuel h)%nat.
Proof.
  intros Hok. pose proof (run_length _ _ _ (ok_run _ _ _ Hok)) as Hl. pose proof (ok_top _ _ _ Hok). pose proof (ok_base _ _ _ Hok).
  unfold ring_fuel, HEADER. pose proof (Z.div_mod (top h) 8). pose proof (Z.mod_pos_bound (top h) 8). lia.
Qed.

Lemma freep_nonzero h F A : heap_ok h F A -> freep h <> 0.
Proof.
  intros Hok. pose proof (ok_base _ _ _ Hok). pose proof (ok_freep _ _ _ Hok) as [->|Hx]%elem_of_cons; [lia|].
  apply list_elem_of_fmap in Hx as (c & -> & Hc). apply (run_bounds _ _ _ _ (ok_run _ _ _ Hok)) in Hc. lia.
Qed.

Lemma malloc_loop_ok h F A n :
  heap_ok h F A -> 1 <= n -> 8 * n < 2 ^ 31 ->
  exists r h', malloc_loop (2 * ring_fuel h) n (freep h) (ptr (h_mem h) (freep h)) h = Ok r h' /\ outcome h F A n r h'.
Proof.
  intros Hok Hn Hn31. pose proof (ring_short _ _ _ Hok) as Hf.
  replace (2 * ring_fuel h)%nat with (S (length F) + (2 * ring_fuel h - S (length F)))%nat by lia.
  destruct (malloc_search h F A n (2 * ring_fuel h - S (length F)) Hok)
    as [(prev & p & H1 & H2 & H3 & ->)|[Hsmall ->]].
  { destruct (carve_ok h F A prev p n) as (a & h' & F' & -> & Hok' & Hheld & Hbrk & Htop & Htot); [done..|].
    exists (a + 8), h'. split; [done|]. split_and!; [done|done|]. right. exists a, F'. split_and!; [done..|lia]. }
  pose proof (morecore_ok h F A n Hok Hn Hn31) as Hm.
  destruct (Z.ltb_spec (top h) (brk h + 8 * grow n)) as [Hl|Hl].
  { rewrite (bind_run _ _ _ _ _ Hm). exists 0, h. split; [done|]. split_and!; [done|done|]. by left. }
  destruct Hm as (h1 & F1 & Hrun & Hok1 & Hheld & Hbrk & Htop & (b & Hb1 & Hb2) & Htot).
  rewrite (bind_run _ _ _ _ _ Hrun).
  rewrite (proj2 (Z.eqb_neq _ 0) (freep_nonzero _ _ _ Hok1)). unfold hptr, gets. unfold mbind, M_bind. fold (ptr (h_mem h1) (freep h1)).
  pose proof (ring_short _ _ _ Hok1) as Hf1. assert (ring_fuel h1 = ring_fuel h) as E by (unfold ring_fuel; by rewrite Htop).
  replace (2 * ring_fuel h - S (length F))%nat with (S (length F1) + (2 * ring_fuel h - S (length F) - S (length F1)))%nat by lia.
  destruct (malloc_search h1 F1 A n (2 * ring_fuel h - S (length F) - S (length F1)) Hok1)
    as [(prev & p & H1 & H2 & H3 & ->)|[Hsmall1 _]]; [|specialize (Hsmall1 b Hb1); lia].
  destruct (carve_ok h1 F1 A prev p n) as (a & h' & F' & -> & Hok' & Hheld' & Hbrk' & Htop' & Htot'); [done..|].
  exists (a + 8), h'. split; [done|]. split_and!; [congruence| |].
  - intros c x Hc Hx. rewrite (Hheld' c x), (Hheld c x); done.
  - right. exists a, F'. split_and!; [done..|lia].
Qed.

Lemma units_ok n : 0 <= n <= 2 ^ 31 - 16 -> 1 <= units n /\ n <= 8 * (units n - 1) /\ 8 * units n < 2 ^ 31.
Proof.
  intros Hn. unfold units, HEADER. rewrite (u32_small (n + 8 - 1)) by lia.
  pose proof (Z.div_mod (n + 8 - 1) 8). pose proof (Z.mod_pos_bound (n + 8 - 1) 8). rewrite u32_small; lia.
Qed.

Lemma malloc_ok h F A n :
  heap_ok h F A -> 0 <= n <= 2 ^ 31 - 16 -> exists r h', malloc base n h = Ok r h' /\ outcome h F A (units n) r h'.
Proof.
  intros Hok Hn. destruct (units_ok n Hn) as (U1 & U2 & U3).
  destruct (malloc_loop_ok h F A (units n) Hok U1 U3) as (r & h' & Hrun & Hout). exists r, h'. split; [|done].
  rewrite <- Hrun. unfold malloc, gets. unfold mbind at 1, M_bind at 1.
  by rewrite (proj2 (Z.eqb_neq _ _) (freep_nonzero _ _ _ Hok)).
Qed.

(** The first call links [base] to itself. *)
Definition first (h : heap) : heap :=
  Heap (store_long (base + 4) 0 (store_long base base (h_mem h))) base (brk h) (top h).

Lemma first_ok h : 0 < base -> base + 8 <= brk h <= top h -> top h < 2 ^ 31 -> heap_ok (first h) [] [].
Proof.
  intros Hb Hbrk Htop. destruct (store_ptr base base (h_mem h)) as (P1 & _ & _); [lia|].
  destruct (store_size base 0 (store_long base base (h_mem h))) as (Z1 & Q1 & _); [lia|].
  constructor; cbn [first h_mem brk top freep]; try done; try lia.
  - cbn. split; [|done]. by rewrite Q1.
  - unfold sizes_ok. cbn. by repeat constructor.
  - cbn. lia.
  - intros f a Hf. by apply elem_of_nil in Hf.
  - left.
Qed.

Lemma malloc_first h n : 0 < base -> freep h = 0 -> malloc base n h = malloc base n (first h).
Proof.
  intros Hb Hfp. unfold malloc, gets, set_freep, set_hptr, set_hsize, hptr, modify, mbind, M_bind, mret, M_ret. cbn [first freep].
  rewrite Hfp. change (0 =? 0) with true. by rewrite (proj2 (Z.eqb_neq base 0)) by lia.
Qed.

(** *** Programs that use the allocator *)

(** A program calls [malloc] and [free], and stores bytes in the blocks it has. *)
Inductive use_step : heap * list block -> heap * list block -> Prop :=
  | U_malloc n a h h' A : 0 <= n <= 2 ^ 31 - 16 -> malloc base n h = Ok (a + 8) h' -> a + 8 <> 0 ->
      use_step (h, A) (h', (a, units n) :: A)
  | U_none n h h' A : 0 <= n <= 2 ^ 31 - 16 -> malloc base n h = Ok 0 h' -> use_step (h, A) (h', A)
  | U_free a n h h' A1 A2 : free (a + 8) h = Ok tt h' ->
      use_step (h, A1 ++ (a, n) :: A2) (h', A1 ++ A2)
  | U_store a n x v h A : (a, n) ∈ A -> a + 8 <= x < a + 8 * n ->
      use_step (h, A) (with_mem (<[x := v]> (h_mem h)) h, A).

(** The program's memory before its first call. *)
Definition fresh_heap (h : heap) : Prop :=
  0 < base /\ base + 8 <= brk h <= top h /\ top h < 2 ^ 31 /\ freep h = 0.

(** What holds between calls: all memory obtained is free or handed out. *)
Definition use_ok (lo : Z) (h : heap) (A : list block) : Prop :=
  (fresh_heap h /\ A = [] /\ brk h = lo) \/
  exists F, heap_ok h F A /\ 8 * (total F + total A) = brk h - lo.

Lemma store_ok h F A a n x v :
  heap_ok h F A -> (a, n) ∈ A -> a + 8 <= x < a + 8 * n -> heap_ok (with_mem (<[x := v]> (h_mem h)) h) F A.
Proof.
  intros [Hb Htop Hp Hs Hr Hh Hsep Hap Hfp] Ha Hx. pose proof (proj1 (Forall_forall _ _) Hh) as Hh'. cbn in Hh'.
  set (m' := <[x := v]> (h_mem h)).
  assert (forall y, y + 8 <= x \/ x < y -> ptr m' y = ptr (h_mem h) y /\ size m' y = size (h_mem h) y) as Hsame.
  { intros y Hy. split; apply load_long_ext; intros z Hz; apply ins_ne; lia. }
  apply list_elem_of_split in Ha as (A1 & A2 & ->). pose proof Hsep as [_ Hd]%sep_mid.
  assert (forall b, b ∈ (base, 0) :: F ++ A1 ++ (a, n) :: A2 -> b.1 + 8 <= x \/ x < b.1) as far.
  { intros b [->|[Hf|Hin]%elem_of_app]%elem_of_cons.
    - destruct (Hh' (a, n)); [in_list|]. cbn in *. lia.
    - assert (disj b (a, n)) as Hd' by (apply Hap; in_list). unfold disj in Hd'. cbn in Hd'.
      apply (run_bounds _ _ _ _ Hr) in Hf. lia.
    - specialize (Hh' b Hin). apply elem_of_app in Hin as [Hin|[->|Hin]%elem_of_cons]; [|cbn; lia|];
        (assert (disj (a, n) b) as Hd' by (apply Hd; in_list); unfold disj in Hd'; cbn in Hd'; lia). }
  constructor; cbn [with_mem h_mem brk top freep]; try done.
  - apply (path_ext (h_mem h)); [|done]. intros y Hy. change (base :: F.*1) with (((base, 0) :: F).*1) in Hy.
    apply list_elem_of_fmap in Hy as (b & -> & Hb'). apply Hsame, far. apply elem_of_cons in Hb' as [->|Hb']; in_list.
  - eapply sizes_same; [|exact Hs]. intros b Hb'. by apply Hsame, far.
Qed.

(** [malloc] in any state of a program; on the first call the ring is made. *)
Lemma malloc_any lo h A n :
  use_ok lo h A -> 0 <= n <= 2 ^ 31 - 16 ->
  exists h0 F r h', heap_ok h0 F A /\ 8 * (total F + total A) = brk h0 - lo /\ brk h0 = brk h /\ top h0 = top h /\
    held_same A (h_mem h) (h_mem h0) /\ malloc base n h = Ok r h' /\ outcome h0 F A (units n) r h'.
Proof.
  intros [((Hb & Hbrk & Htop & Hfp) & -> & Hlo)|(F & Hok & Htot)] Hn.
  - pose proof (first_ok h Hb Hbrk Htop) as Hok1. destruct (malloc_ok (first h) [] [] n Hok1 Hn) as (r & h1 & Hrun & Hout).
    exists (first h), [], r, h1. rewrite (malloc_first h n Hb Hfp). split_and!; try done; [cbn; lia|].
    intros b x Hin. by apply elem_of_nil in Hin.
  - destruct (malloc_ok h F A n Hok Hn) as (r & h1 & Hrun & Hout). by exists h, F, r, h1.
Qed.

Lemma use_ok_step lo h A h' A' : use_ok lo h A -> use_step (h, A) (h', A') -> use_ok lo h' A'.
Proof.
  intros Hok Hst.
  inversion Hst as [n a ? ? ? Hn Hrun Ha|n ? ? ? Hn Hrun|a n ? ? A1 A2 Hrun|a n x v ? ? Ha Hx]; subst.
  - destruct (malloc_any _ _ _ n Hok Hn) as (h0 & F & r & h1 & Hok0 & Htot & _ & _ & _ & Hrun' & (_ & _ & [(-> & _)|(a' & F' & -> & Hok' & Htot')]));
      rewrite Hrun in Hrun'; [by injection Hrun'|]. injection Hrun' as Ea <-. replace a' with a in * by lia.
    right. exists F'. split; [done|]. cbn. lia.
  - destruct (malloc_any _ _ _ n Hok Hn) as (h0 & F & r & h1 & Hok0 & Htot & _ & _ & _ & Hrun' & (_ & _ & [(-> & -> & _)|(a' & F' & -> & Hok' & Htot')]));
      rewrite Hrun in Hrun'; [injection Hrun' as ->; right; by exists F|]. injection Hrun' as Ea <-.
    pose proof (ok_held _ _ _ Hok') as [(? & _) _]%Forall_cons. pose proof (ok_base _ _ _ Hok0). cbn in *. lia.
  - destruct Hok as [(_ & HA & _)|(F & Hok & Htot)]; [by destruct A1|].
    destruct (free_ok _ _ _ _ _ _ Hok) as (h1 & F' & Hrun' & Hok' & _ & Hbrk & _ & _ & Htot').
    rewrite Hrun in Hrun'. injection Hrun' as <-. right. exists F'. split; [done|]. rewrite !total_app in *. cbn in *. lia.
  - destruct Hok as [(_ & -> & _)|(F & Hok & Htot)]; [by apply elem_of_nil in Ha|].
    right. exists F. split; [by eapply store_ok|done].
Qed.

Lemma use_ok_reach lo h0 h A : fresh_heap h0 -> brk h0 = lo -> rtc use_step (h0, []) (h, A) -> use_ok lo h A.
Proof.
  intros Hf Hlo Hr. assert (use_ok lo h0 []) as H0 by (by left).
  remember (h0, []) as s0 eqn:E0. remember (h, A) as s eqn:E.
  assert (forall s s', rtc use_step s s' -> use_ok lo s.1 s.2 -> use_ok lo s'.1 s'.2) as Hall.
  { clear. induction 1 as [|s s1 s' Hst _ IH]; [done|]. intros Hok. apply IH. destruct s, s1. by eapply use_ok_step. }
  specialize (Hall _ _ Hr). subst. by apply Hall.
Qed.

(** ** Theorems *)

(** C12: the allocator of user programs.  However a program calls [malloc] (for
    up to 2^31-16 bytes) and [free], and whatever it stores in the blocks it
    holds, both calls return.  [malloc] returns a block of at least the bytes
    asked for, inside the memory of the program and disjoint from every block
    it holds, or 0 when the kernel has no memory for it; no call changes a byte
    of the blocks held; and no memory is lost: the blocks held and the free
    ones are all that sbrk() has given. *)
Theorem malloc_exclusive h0 h A :
  fresh_heap h0 -> rtc use_step (h0, []) (h, A) ->
  (forall n, 0 <= n <= 2 ^ 31 - 16 -> exists r h', malloc base n h = Ok r h' /\ held_same A (h_mem h) (h_mem h') /\
     (r = 0 /\ top h < brk h + 8 * grow (units n) \/
      n <= 8 * units n - 8 /\ base + 8 <= r - 8 /\ r - 8 + 8 * units n <= brk h' /\
      forall b, b ∈ A -> disj (r - 8, units n) b)) /\
  (forall a n A1 A2, A = A1 ++ (a, n) :: A2 ->
     exists h', free (a + 8) h = Ok tt h' /\ held_same (A1 ++ A2) (h_mem h) (h_mem h')) /\
  (freep h <> 0 -> exists F, heap_ok h F A /\ 8 * (total F + total A) = brk h - brk h0).
Proof.
  intros Hf Hr. pose proof (use_ok_reach _ _ _ _ Hf eq_refl Hr) as Hok. split_and!.
  - intros n Hn. destruct (units_ok n Hn) as (_ & U2 & _).
    destruct (malloc_any _ _ _ n Hok Hn) as (h1 & F & r & h' & Hok1 & _ & Hbrk & Htop & Hh & Hrun & (_ & Hh' & Hout)).
    exists r, h'. split; [done|]. split; [intros b x Hb Hx; by rewrite (Hh' b x), (Hh b x)|].
    destruct Hout as [(-> & _ & Hroom & _)|(a & F' & -> & Hok' & _)]; [left; split; [done|congruence]|right].
    replace (a + 8 - 8) with a by lia. pose proof (ok_held _ _ _ Hok') as [(B1 & _ & B3) _]%Forall_cons.
    pose proof (ok_sep _ _ _ Hok') as [Hsep _]. rewrite Forall_forall in Hsep. cbn in B1, B3. split_and!; try done. lia.
  - intros a n A1 A2 ->. destruct Hok as [(_ & HA & _)|(F & Hok & _)]; [by destruct A1|].
    destruct (free_ok _ _ _ _ _ _ Hok) as (h' & F' & Hrun & _ & Hh & _). by exists h'.
  - intros Hfp. destruct Hok as [((_ & _ & _ & ?) & _)|(F & Hok & Htot)]; [done|]. by exists F.
Qed.

End inv.

(** A program with 128 kilobytes: it allocates 100 bytes, then 200. *)
Definition demo_heap : heap := Heap (fun _ => 0) 0 4096 131072.

Lemma malloc_exclusive_witness :
  exists h r h', rtc (use_step 1024) (demo_heap, []) (h, [(36752, 14)]) /\
    malloc 1024 200 h = Ok r h' /\ 1032 <= r - 8 /\ r + 200 <= brk h' /\ disj (r - 8, units 200) (36752, 14).
Proof.
  assert (match malloc 1024 100 demo_heap with
          | Ok r h => (r, brk h, top h) = (36760, 36864, 131072) | _ => False end) as E by (vm_compute; reflexivity).
  destruct (malloc 1024 100 demo_heap) as [r1 h1| | |] eqn:E1; [|destruct E..]. injection E as -> Eb Et.
  assert (rtc (use_step 1024) (demo_heap, []) (h1, [(36752, 14)])) as Hr
    by (apply rtc_once, (U_malloc 1024 100 36752); [lia|exact E1|lia]).
  destruct (malloc_exclusive 1024 demo_heap h1 [(36752, 14)]) as (Hm & _); [by repeat split|exact Hr|].
  destruct (Hm 200) as (r & h' & Hrun & _ & [[_ Hroom]|(H1 & H2 & H3 & H4)]); [lia| |].
  - rewrite Eb, Et in Hroom. vm_compute in Hroom. discriminate Hroom.
  - exists h1, r, h'. split_and!; [exact Hr|exact Hrun|lia|lia|]. apply H4. left.
Defined.
