(* ===== verification/Sys.v ===== *)
(** The system calls as user programs see them (user.h), and the library
    functions that make them (ulib.c, printf.c).

    A program is an interaction tree: it makes system calls, whose answers come
    from outside, and may run for ever.  A string is the list of its bytes
    without the NUL.  [run] drives a program with the answers of a [handler]. *)

From stdpp Require Import prelude strings gmap list.
From ITree Require Import ITree.
From S2P Require Import Prelude Param CString Ulib Fs.

(** ** System calls *)

(** The answers: [read] and [fstat] also store through a pointer, [pipe] two
    descriptors; [exit] has none.  The last four are for the programs that test
    the kernel: a byte of the memory of the program, which has no answer when
    the access traps, [int T_SYSCALL] with a given stack pointer, and [link]
    with a pointer that need not be one to a string. *)
Variant sysE : Type -> Type :=
| Fork : sysE Z
| Exit : sysE Empty_set
| Wait : sysE Z
| Pipe : sysE (Z * (Z * Z))
| Write (fd : Z) (bytes : list Z) : sysE Z
| Read (fd n : Z) : sysE (Z * list Z)
| Close (fd : Z) : sysE Z
| Kill (pid : Z) : sysE Z
| Exec (path : list Z) (argv : list (list Z)) : sysE Z
| Open (path : list Z) (mode : Z) : sysE Z
| Mknod (path : list Z) (major minor : Z) : sysE Z
| Unlink (path : list Z) : sysE Z
| Fstat (fd : Z) : sysE (Z * stat)
| Link (old new : list Z) : sysE Z
| Mkdir (path : list Z) : sysE Z
| Chdir (path : list Z) : sysE Z
| Dup (fd : Z) : sysE Z
| Getpid : sysE Z
| Sbrk (n : Z) : sysE Z
| SleepFor (n : Z) : sysE Z
| Uptime : sysE Z
| Load (a : Z) : sysE Z
| Store (a v : Z) : sysE unit
| IntAt (num esp : Z) : sysE Z
| LinkAt (old : list Z) (new : Z) : sysE Z.

Definition prog (A : Type) : Type := itree sysE A.

#[export] Instance prog_ret : MRet prog := fun A a => Ret a.
#[export] Instance prog_bind : MBind prog := fun A B f t => ITree.bind t f.

Definition sys {X} (e : sysE X) : prog X := ITree.trigger e.

(** [exit()] does not return. *)
Definition exit {A} : prog A := v ← sys Exit; match v : Empty_set with end.

(** [for(;;)] and [while]: the body says whether to go on, with the state of
    the loop, or to stop. *)
Definition loop {I A} (body : I -> prog (I + A)) : I -> prog A := ITree.iter body.

(** A [for] over a list. *)
Fixpoint for_list {A} (l : list A) (f : A -> prog unit) : prog unit :=
  match l with
  | [] => mret tt
  | a :: l => f a;; for_list l f
  end.

(** ** printf.c *)

Inductive parg :=
| PInt (x : Z)
| PStr (s : list Z).

(** The bytes of a literal. *)
Fixpoint str (s : string) : list Z :=
  match s with
  | EmptyString => []
  | String a s => Z.of_N (Ascii.N_of_ascii a) :: str s
  end.

(** The bytes [printf] writes; an argument that is missing or of another type
    is printed as nothing, and does not occur in the programs. *)
Fixpoint format (fmt : list Z) (args : list parg) (state : bool) : list Z :=
  match fmt with
  | [] => []
  | c :: fmt =>
      if negb state then
        if c =? 37 then format fmt args true else c :: format fmt args false
      else if c =? 100 then
        match args with
        | PInt a :: args => Ulib.printint (s32 a) 10 true ++ format fmt args false
        | _ => []
        end
      else if ((c =? 120) || (c =? 112))%bool then
        match args with
        | PInt a :: args => Ulib.printint (s32 a) 16 false ++ format fmt args false
        | _ => []
        end
      else if c =? 115 then
        match args with
        | PStr s :: args => s ++ format fmt args false
        | _ => []
        end
      else if c =? 99 then
        match args with
        | PInt a :: args => u8 a :: format fmt args false
        | _ => []
        end
      else if c =? 37 then c :: format fmt args false
      else 37 :: c :: format fmt args false
  end.

(** One [write] for each character. *)
Definition printf (fd : Z) (fmt : list Z) (args : list parg) : prog unit :=
  for_list (format fmt args false) (fun c => sys (Write fd [c]);; mret tt).

(** A newline, which the literals of this development do not hold. *)
Definition nl : list Z := [10].

(** ** ulib.c *)

Definition stat_path (n : list Z) : prog (Z * stat) :=
  fd ← sys (Open n O_RDONLY);
  if fd <? 0 then mret (-1, Stat 0 0 0 0 0)
  else
    '(r, st) ← sys (Fstat fd);
    sys (Close fd);;
    mret (r, st).

(** [gets(buf, max)]: the string left in [buf]; [room] is [max - 1 - i]. *)
Fixpoint gets_line (room : nat) : prog (list Z) :=
  match room with
  | O => mret []
  | S room =>
      '(cc, c) ← sys (Read 0 1);
      if cc <? 1 then mret []
      else
        let c := c.[0] in
        if ((c =? 10) || (c =? 13))%bool then mret [c]
        else l ← gets_line room; mret (c :: l)
  end.

Definition gets (max : Z) : prog (list Z) := gets_line (Z.to_nat (max - 1)).

(** ** Running a program *)

Definition handler (W : Type) : Type := forall X, sysE X -> W -> option (X * W).

(** How a run ends: with a value, in a call that has no answer ([exit] among
    them), or out of fuel. *)
Inductive ended (A W : Type) :=
| Returned (a : A) (w : W)
| Stopped (w : W)
| Running.
Arguments Returned {A W}.
Arguments Stopped {A W}.
Arguments Running {A W}.

Fixpoint run {A W} (h : handler W) (fuel : nat) (t : prog A) (w : W) : ended A W :=
  match fuel with
  | O => Running
  | S fuel =>
      match observe t with
      | RetF a => Returned a w
      | TauF t => run h fuel t w
      | VisF e k =>
          match h _ e w with
          | Some (x, w) => run h fuel (k x) w
          | None => Stopped w
          end
      end
  end.

(** The runs that end, without fuel. *)
Inductive runs {A W} (h : handler W) (t : prog A) (w : W) : ended A W -> Prop :=
| R_ret a : observe t = RetF a -> runs h t w (Returned a w)
| R_tau t' r : observe t = TauF t' -> runs h t' w r -> runs h t w r
| R_vis X (e : sysE X) k x w' r : observe t = VisF e k -> h X e w = Some (x, w') ->
    runs h (k x) w' r -> runs h t w r
| R_stop X (e : sysE X) k : observe t = VisF e k -> h X e w = None -> runs h t w (Stopped w).

Create HintDb runs.

Section runs.
Context {W : Type} (h : handler W).

(** A run that ends is found with enough fuel. *)
Lemma runs_run {A} (t : prog A) w r : runs h t w r -> exists fuel, run h fuel t w = r.
Proof.
  induction 1 as [t w a E|t w t' r E _ [fuel IH]|t w X e k x w' r E Eh _ [fuel IH]|t w X e k E Eh].
  - exists 1%nat. cbn. by rewrite E.
  - exists (S fuel). cbn. by rewrite E.
  - exists (S fuel). cbn. by rewrite E, Eh.
  - exists 1%nat. cbn. by rewrite E, Eh.
Qed.

(** And the result of a run with fuel is that of a run. *)
Lemma run_runs {A} fuel (t : prog A) w a w' : run h fuel t w = Returned a w' -> runs h t w (Returned a w').
Proof.
  revert t w. induction fuel as [|fuel IH]; intros t w E; [done|]. cbn in E.
  destruct (observe t) as [b|t'|X e k] eqn:Eo.
  - injection E as <- <-. by apply R_ret.
  - eapply R_tau; [done|]. by apply IH.
  - destruct (h X e w) as [[x w1]|] eqn:Eh; [|done]. eapply R_vis; [done..|]. by apply IH.
Qed.

Lemma runs_observe {A} (t t' : prog A) w r : observe t = observe t' -> runs h t w r -> runs h t' w r.
Proof.
  intros E Hr. destruct Hr as [a E1|t1 r E1 H1|X e k x w' r E1 Eh H1|X e k E1 Eh]; rewrite E in E1.
  - by apply R_ret.
  - by eapply R_tau.
  - by eapply R_vis.
  - by eapply R_stop.
Qed.

Lemma runs_eq {A} (t : prog A) w r r' : runs h t w r -> r = r' -> runs h t w r'.
Proof. by intros ? <-. Qed.

Lemma runs_mret {A} (a : A) w : runs h (mret a) w (Returned a w).
Proof. by apply R_ret. Qed.

Lemma runs_sys {X} (e : sysE X) w x w' : h X e w = Some (x, w') -> runs h (sys e) w (Returned x w').
Proof. intros Eh. eapply R_vis; [reflexivity|exact Eh|]. by apply R_ret. Qed.

Lemma runs_sys_stop {X} (e : sysE X) w : h X e w = None -> runs h (sys e) w (Stopped w).
Proof. intros Eh. by eapply R_stop. Qed.

Lemma observe_bind {A B} (t : prog A) (k : A -> prog B) :
  observe (t ≫= k) =
  match observe t with
  | RetF a => observe (k a)
  | TauF t' => TauF (t' ≫= k)
  | VisF e f => VisF e (fun x => f x ≫= k)
  end.
Proof.
  change (observe (t ≫= k)) with (observe (match observe t with
    | RetF r => k r
    | TauF t => Tau (ITree.subst k t)
    | VisF e f => Vis e (fun x => ITree.subst k (f x))
    end)). by destruct (observe t).
Qed.

Lemma runs_then {A B} (t : prog A) (k : A -> prog B) w a w' r :
  runs h t w (Returned a w') -> runs h (k a) w' r -> runs h (t ≫= k) w r.
Proof.
  remember (Returned a w') as o eqn:Eo. intros Ht Hk.
  induction Ht as [t w b E|t w t' o E _ IH|t w X e f x w1 o E Eh _ IH|t w X e f E Eh]; simplify_eq.
  - eapply runs_observe; [|exact Hk]. by rewrite observe_bind, E.
  - eapply R_tau; [rewrite observe_bind, E; reflexivity|]. by apply IH.
  - eapply (R_vis h _ _ X e); [rewrite observe_bind, E; reflexivity|exact Eh|]. by apply IH.
Qed.

Lemma runs_then_stop {A B} (t : prog A) (k : A -> prog B) w w' :
  runs h t w (Stopped w') -> runs h (t ≫= k) w (Stopped w').
Proof.
  remember (Stopped w') as o eqn:Eo. intros Ht.
  induction Ht as [t w b E|t w t' o E _ IH|t w X e f x w1 o E Eh _ IH|t w X e f E Eh]; simplify_eq.
  - eapply R_tau; [rewrite observe_bind, E; reflexivity|]. by apply IH.
  - eapply (R_vis h _ _ X e); [rewrite observe_bind, E; reflexivity|exact Eh|]. by apply IH.
  - eapply (R_stop h _ _ X e); [rewrite observe_bind, E; reflexivity|exact Eh].
Qed.

(** A [for_list] over bytes and other lists, one element after the other. *)
Lemma runs_for_list {A} (f : A -> prog unit) (st : list A -> W) l w :
  (forall a l', runs h (f a) (st (a :: l')) (Returned tt (st l'))) -> w = st l ->
  runs h (for_list l f) w (Returned tt (st [])).
Proof.
  intros Hf ->. induction l as [|a l IH]; [apply runs_mret|]. cbn [for_list]. eapply runs_then; [apply Hf|done].
Qed.

Lemma observe_loop {I A} (body : I -> prog (I + A)) i :
  observe (loop body i) =
  observe (body i ≫= fun o => match o with inl j => Tau (loop body j) | inr a => Ret a end).
Proof. done. Qed.

Lemma runs_loop_next {I A} (body : I -> prog (I + A)) i j w w' r :
  runs h (body i) w (Returned (inl j) w') -> runs h (loop body j) w' r -> runs h (loop body i) w r.
Proof.
  intros Hb Hl. eapply runs_observe; [symmetry; apply observe_loop|].
  eapply runs_then; [exact Hb|]. by eapply R_tau.
Qed.

Lemma runs_loop_last {I A} (body : I -> prog (I + A)) i a w w' :
  runs h (body i) w (Returned (inr a) w') -> runs h (loop body i) w (Returned a w').
Proof.
  intros Hb. eapply runs_observe; [symmetry; apply observe_loop|].
  eapply runs_then; [exact Hb|]. by apply R_ret.
Qed.

Lemma runs_exit {A} w : h _ Exit w = None -> runs h (exit : prog A) w (Stopped w).
Proof. intros E. apply runs_then_stop. by apply runs_sys_stop. Qed.
End runs.

#[export] Hint Resolve runs_mret runs_sys runs_sys_stop runs_exit : runs.
