(* ===== verification/Progs.v ===== *)
(** The small user programs: cat.c, wc.c, echo.c, kill.c, ln.c, mkdir.c, rm.c,
    zombie.c, init.c, ls.c, lsof.c, stressfs.c and forktest.c.

    [argv] is the list of the arguments with the name of the program first. *)

From stdpp Require Import prelude strings gmap list.
From S2P Require Import Prelude Bytes Param CString Ulib Vm Fs Dir Sys.

(** ** cat.c *)

Definition CAT_BUF : Z := 512.

(** The answer of the last [read]. *)
Definition cat_loop (fd : Z) : unit -> prog Z := loop (fun _ =>
  '(n, buf) ← sys (Read fd CAT_BUF);
  if 0 <? n then sys (Write 1 (take (Z.to_nat n) buf));; mret (inl tt)
  else mret (inr n)).

Definition cat (fd : Z) : prog unit :=
  n ← cat_loop fd tt;
  if n <? 0 then printf 1 (str "cat: read error" ++ nl) [];; exit
  else mret tt.

Definition cat_main (argv : list (list Z)) : prog unit :=
  match argv with
  | [] | [_] => cat 0;; exit
  | _ :: files =>
      for_list files (fun file =>
        fd ← sys (Open file 0);
        if fd <? 0 then printf 1 (str "cat: cannot open %s" ++ nl) [PStr file];; exit
        else cat fd;; sys (Close fd);; mret tt);;
      exit
  end.

(** ** wc.c *)

Record counts := Counts { wc_l : Z; wc_w : Z; wc_c : Z; wc_inword : bool }.

(** " \r\t\n\v" *)
Definition wc_space : list Z := [32; 13; 9; 10; 11].

Definition wc_char (s : counts) (b : Z) : counts :=
  let l := if b =? 10 then s32 (wc_l s + 1) else wc_l s in
  let c := s32 (wc_c s + 1) in
  if bool_decide (b ∈ wc_space) then Counts l (wc_w s) c false
  else if negb (wc_inword s) then Counts l (s32 (wc_w s + 1)) c true
  else Counts l (wc_w s) c true.

Definition wc_loop (fd : Z) : counts -> prog (Z * counts) := loop (fun s =>
  '(n, buf) ← sys (Read fd CAT_BUF);
  if 0 <? n then mret (inl (foldl wc_char s (take (Z.to_nat n) buf)))
  else mret (inr (n, s))).

Definition wc (fd : Z) (name : list Z) : prog unit :=
  '(n, s) ← wc_loop fd (Counts 0 0 0 false);
  if n <? 0 then printf 1 (str "wc: read error" ++ nl) [];; exit
  else printf 1 (str "%d %d %d %s" ++ nl) [PInt (wc_l s); PInt (wc_w s); PInt (wc_c s); PStr name].

Definition wc_main (argv : list (list Z)) : prog unit :=
  match argv with
  | [] | [_] => wc 0 [];; exit
  | _ :: files =>
      for_list files (fun file =>
        fd ← sys (Open file 0);
        if fd <? 0 then printf 1 (str "wc: cannot open %s" ++ nl) [PStr file];; exit
        else wc fd file;; sys (Close fd);; mret tt);;
      exit
  end.

(** ** echo.c, kill.c, ln.c, mkdir.c, rm.c, zombie.c *)

Fixpoint echo_args (args : list (list Z)) : prog unit :=
  match args with
  | [] => mret tt
  | [a] => printf 1 (str "%s%s") [PStr a; PStr nl]
  | a :: args => printf 1 (str "%s%s") [PStr a; PStr (str " ")];; echo_args args
  end.

Definition echo_main (argv : list (list Z)) : prog unit := echo_args (tail argv);; exit.

Definition atoi_str (s : list Z) : Z := default 0 (Ulib.atoi (S (length s)) 0 (fun a => s.[a])).

Definition kill_main (argv : list (list Z)) : prog unit :=
  (if Z.of_nat (length argv) <? 1 then printf 2 (str "usage: kill pid..." ++ nl) [];; exit else mret tt);;
  for_list (tail argv) (fun a => sys (Kill (atoi_str a));; mret tt);;
  exit.

Definition ln_main (argv : list (list Z)) : prog unit :=
  match argv with
  | [_; old; new] =>
      r ← sys (Link old new);
      (if r <? 0 then printf 2 (str "link %s %s: failed" ++ nl) [PStr old; PStr new] else mret tt);;
      exit
  | _ => printf 2 (str "Usage: ln old new" ++ nl) [];; exit
  end.

(** The loop of mkdir.c and rm.c, left at the first failure. *)
Fixpoint until_fails (call : list Z -> sysE Z) (msg : list Z) (files : list (list Z)) : prog unit :=
  match files with
  | [] => mret tt
  | file :: files =>
      r ← sys (call file);
      if r <? 0 then printf 2 msg [PStr file] else until_fails call msg files
  end.

Definition mkdir_main (argv : list (list Z)) : prog unit :=
  if Z.of_nat (length argv) <? 2 then printf 2 (str "Usage: mkdir files..." ++ nl) [];; exit
  else until_fails Mkdir (str "mkdir: %s failed to create" ++ nl) (tail argv);; exit.

Definition rm_main (argv : list (list Z)) : prog unit :=
  if Z.of_nat (length argv) <? 2 then printf 2 (str "Usage: rm files..." ++ nl) [];; exit
  else until_fails Unlink (str "rm: %s failed to delete" ++ nl) (tail argv);; exit.

Definition zombie_main : prog unit :=
  pid ← sys Fork;
  (if 0 <? pid then sys (SleepFor 5);; mret tt else mret tt);;
  exit.

(** ** init.c *)

Definition reap (pid : Z) : unit -> prog unit := loop (fun _ =>
  wpid ← sys Wait;
  if ((0 <=? wpid) && negb (wpid =? pid))%bool then printf 1 (str "zombie!" ++ nl) [];; mret (inl tt)
  else mret (inr tt)).

Definition start_sh : prog unit :=
  printf 1 (str "init: starting sh" ++ nl) [];;
  pid ← sys Fork;
  if pid <? 0 then printf 1 (str "init: fork failed" ++ nl) [];; exit
  else if pid =? 0 then
    sys (Exec (str "sh") [str "sh"]);;
    printf 1 (str "init: exec sh failed" ++ nl) [];;
    exit
  else reap pid tt.

Definition init_main : prog unit :=
  sys (Mknod (str "proc") 2 0);;
  fd ← sys (Open (str "console") O_RDWR);
  (if fd <? 0 then
     sys (Mknod (str "console") 1 1);;
     sys (Open (str "console") O_RDWR);; mret tt
   else mret tt);;
  sys (Dup 0);;
  sys (Dup 0);;
  loop (fun _ : unit => start_sh;; mret (inl tt)) tt.

(** ** ls.c *)

Definition ls_slash : Z := 47.

(** The part after the last slash. *)
Fixpoint last_part (path : list Z) : list Z :=
  match path with
  | [] => []
  | c :: path' =>
      if bool_decide (ls_slash ∈ path') then last_part path'
      else if c =? ls_slash then path' else path
  end.

(** [buf] is static: its last byte is always the NUL. *)
Definition fmtname (path : list Z) : list Z :=
  let p := last_part path in
  if DIRSIZ <=? Z.of_nat (length p) then p
  else p ++ replicate (Z.to_nat DIRSIZ - length p) 32.

Definition ls_line (name : list Z) (st : stat) : prog unit :=
  printf 1 (str "%s %d %d %d" ++ nl) [PStr (fmtname name); PInt (st_type st); PInt (st_ino st); PInt (st_size st)].

(** The bytes of [de.name] as a string, cut at 14. *)
Definition entry_name (de : list Z) : list Z :=
  let name := dirent_name de in cname (fun x => name.[x]) 0 (Z.to_nat DIRSIZ).

Definition ls_entry (path de : list Z) : prog unit :=
  if dirent_inum de =? 0 then mret tt
  else
    let buf := path ++ [ls_slash] ++ entry_name de in
    '(r, st) ← stat_path buf;
    if r <? 0 then printf 1 (str "ls: cannot stat %s" ++ nl) [PStr buf]
    else ls_line buf st.

Definition ls_dir (path : list Z) (fd : Z) : unit -> prog unit := loop (fun _ =>
  '(n, de) ← sys (Read fd sizeof_dirent);
  if n =? sizeof_dirent then ls_entry path de;; mret (inl tt)
  else mret (inr tt)).

Definition ls (path : list Z) : prog unit :=
  fd ← sys (Open path 0);
  if fd <? 0 then printf 2 (str "ls: cannot open %s" ++ nl) [PStr path]
  else
    '(r, st) ← sys (Fstat fd);
    if r <? 0 then
      printf 2 (str "ls: cannot stat %s" ++ nl) [PStr path];;
      sys (Close fd);; mret tt
    else
      (if st_type st =? T_FILE then ls_line path st
       else if ((st_type st =? T_DEV) || (st_type st =? T_DIR))%bool then
         if 512 <? Z.of_nat (length path) + 1 + DIRSIZ + 1 then printf 1 (str "ls: path too long" ++ nl) []
         else ls_dir path fd tt
       else mret tt);;
      sys (Close fd);; mret tt.

Definition ls_main (argv : list (list Z)) : prog unit :=
  match argv with
  | [] | [_] => ls (str ".");; exit
  | _ :: files => for_list files ls;; exit
  end.

(** ** lsof.c *)

(** The array [path], at address 0, after the five calls that fill it; the
    literals are stored at [LSOF_LIT].  lsof.c has its own copies of the
    functions [strncpy] and [itoa] of string.c. *)
Definition LSOF_LIT : Z := 4096.

Definition lsof_cpy (o : Z) (s : list Z) (n : Z) (m : mem) : mem :=
  strncpy o LSOF_LIT n (put_bytes LSOF_LIT (s ++ [0]) m).

Definition lsof_path_mem (i j : Z) (m : mem) : option mem :=
  let m := lsof_cpy 0 (str "/proc/") 7 m in
  o ← strlen 100 0 m;
  m ← itoa i o m;
  o ← strlen 100 0 m;
  let m := lsof_cpy o (str "/fdinfo/") 9 m in
  o ← strlen 100 0 m;
  m ← itoa j o m;
  o ← strlen 100 0 m;
  Some (lsof_cpy o [] 0 m).

(** The string in [path]; it does not depend on what the array held before. *)
Definition lsof_path (i j : Z) (junk : mem) : option (list Z) :=
  (fun m => cname m 0 100) <$> lsof_path_mem i j junk.

(** The 200 bytes of [buffer] after [read] has stored [bytes]. *)
Definition lsof_store (bytes buffer : list Z) : list Z := bytes ++ drop (length bytes) buffer.

(** One descriptor; [buffer] keeps what earlier calls have read.  [None] is a
    string that runs past the array: the program prints what lies beyond. *)
Definition lsof_fd (path buffer : list Z) : prog (option (list Z)) :=
  printf 1 (str "the path is: %s" ++ nl) [PStr path];;
  '(r, _) ← stat_path path;
  if r =? 0 then
    fd ← sys (Open path 0);
    if fd <? 0 then printf 1 (str "error!" ++ nl) [];; exit
    else
      '(_, bytes) ← sys (Read fd 200);
      let buffer := lsof_store bytes buffer in
      if negb (bool_decide (0 ∈ buffer)) then mret None
      else
        printf 1 (str "%s" ++ nl) [PStr (cname (fun x => buffer.[x]) 0 200)];;
        sys (Close fd);;
        mret (Some buffer)
  else mret (Some buffer).

Fixpoint lsof_loop (junk : mem) (l : list (Z * Z)) (buffer : list Z) : prog unit :=
  match l with
  | [] => exit
  | (i, j) :: l =>
      match lsof_path i j junk with
      | None => mret tt
      | Some path =>
          r ← lsof_fd path buffer;
          match r with
          | None => mret tt
          | Some buffer => lsof_loop junk l buffer
          end
      end
  end.

(** [i] from 1 to 64, [j] from 0 to 15. *)
Definition lsof_pairs : list (Z * Z) := i ← upto 64; (fun j => (i + 1, j)) <$> upto 16.

Definition lsof_main (junk : mem) (buffer : list Z) : prog unit := lsof_loop junk lsof_pairs buffer.

(** ** stressfs.c *)

(** The number of the process: how many forks returned 0. *)
Fixpoint stress_forks (n : nat) (i : Z) : prog Z :=
  match n with
  | O => mret i
  | S n => pid ← sys Fork; if 0 <? pid then mret i else stress_forks n (i + 1)
  end.

Definition stressfs_main : prog unit :=
  printf 1 (str "stressfs starting" ++ nl) [];;
  let data := replicate 512 97 in
  i ← stress_forks 4 0;
  printf 1 (str "write %d" ++ nl) [PInt i];;
  let path := str "stressfs" ++ [u8 (48 + i)] in
  fd ← sys (Open path (O_CREATE .| O_RDWR));
  for_list (upto 20) (fun _ => sys (Write fd data);; mret tt);;
  sys (Close fd);;
  printf 1 (str "read" ++ nl) [];;
  fd ← sys (Open path O_RDONLY);
  for_list (upto 20) (fun _ => sys (Read fd 512);; mret tt);;
  sys (Close fd);;
  sys Wait;;
  exit.

(** ** forktest.c *)

(** Its own [printf], which writes the format as it is. *)
Definition fputs (fd : Z) (s : list Z) : prog unit := sys (Write fd s);; mret tt.

Definition FORKTEST_N : nat := 1000.

(** The number of children, when a fork fails or at N. *)
Fixpoint fork_children (more : nat) (n : Z) : prog Z :=
  match more with
  | O => mret n
  | S more =>
      pid ← sys Fork;
      if pid <? 0 then mret n
      else if pid =? 0 then exit
      else fork_children more (n + 1)
  end.

Definition forktest : prog unit :=
  fputs 1 (str "fork test" ++ nl);;
  n ← fork_children FORKTEST_N 0;
  if n =? Z.of_nat FORKTEST_N then fputs 1 (str "fork claimed to work N times!" ++ nl);; exit
  else
    for_list (upto n) (fun _ =>
      r ← sys Wait;
      if r <? 0 then fputs 1 (str "wait stopped early" ++ nl);; exit else mret tt);;
    r ← sys Wait;
    if negb (r =? -1) then fputs 1 (str "wait got too many" ++ nl);; exit
    else fputs 1 (str "fork test OK" ++ nl).

Definition forktest_main : prog unit := forktest;; exit.
