(* ===== verification/Grep.v ===== *)
(** grep.c: the pattern matcher, and the loop that reads lines.

    Patterns and texts are lists of bytes without the NUL: a pointer into a
    string is the list of the bytes that follow it.  The array [buf] is in the
    memory of the program, at [GREP_BUF]. *)

From stdpp Require Import prelude strings functions gmap list.
From S2P Require Import Prelude Param CString Ulib Vm Sys.

Definition CARET : Z := 94.
Definition DOLLAR : Z := 36.
Definition STAR : Z := 42.
Definition DOT : Z := 46.

(** ** The matcher *)

(** [matchstar(c, re, text)]; [here] is [matchhere(re, _)]. *)
Fixpoint matchstar (here : list Z -> bool) (c : Z) (text : list Z) : bool :=
  here text ||
  match text with
  | [] => false
  | x :: text => if ((x =? c) || (c =? DOT))%bool then matchstar here c text else false
  end.

Fixpoint matchhere (re text : list Z) : bool :=
  match re with
  | [] => true
  | c :: re1 =>
      let plain :=
        if ((c =? DOLLAR) && match re1 with [] => true | _ => false end)%bool
        then match text with [] => true | _ => false end
        else
          match text with
          | [] => false
          | x :: text => if ((c =? DOT) || (c =? x))%bool then matchhere re1 text else false
          end
      in
      match re1 with
      | c' :: re2 => if c' =? STAR then matchstar (matchhere re2) c text else plain
      | [] => plain
      end
  end.

(** The text and all its tails, the empty one included. *)
Fixpoint match_loop (re text : list Z) : bool :=
  matchhere re text ||
  match text with
  | [] => false
  | _ :: text => match_loop re text
  end.

Definition match_ (re text : list Z) : bool :=
  match re with
  | c :: re' => if c =? CARET then matchhere re' text else match_loop re text
  | [] => match_loop re text
  end.

(** ** The loop over lines *)

Definition GREP_BUF : Z := 4096.
Definition GREP_SIZE : Z := 1024.

Section grep.
Context (msize : nat).        (* no string in memory is longer *)
Context (pattern : list Z).

Definition bytes_of (m : mem) (p q : Z) : list Z := (fun a => m (p + a)) <$> upto (q - p).

(** The position after the last newline, and the memory; [None] when a string
    does not end. *)
Fixpoint grep_lines (fuel : nat) (p : Z) (m : mem) : prog (option (Z * mem)) :=
  match fuel with
  | O => mret None
  | S fuel =>
      match Ulib.strchr msize p 10 m with
      | None => mret None
      | Some q =>
          if q =? 0 then mret (Some (p, m))
          else
            let m := <[q := 0]> m in
            m ← (if match_ pattern (bytes_of m p q) then
                   let m := <[q := 10]> m in
                   sys (Write 1 (bytes_of m p (q + 1)));; mret m
                 else mret m);
            grep_lines fuel (q + 1) m
      end
  end.

(** [n] is the variable [m] of the source: the bytes of an unfinished line. *)
Definition grep_body (fd : Z) (s : Z * mem) : prog (Z * mem + option mem) :=
  let '(n, m) := s in
  '(r, bytes) ← sys (Read fd (GREP_SIZE - n));
  if r <=? 0 then mret (inr (Some m))
  else
    let m := put_bytes (GREP_BUF + n) (take (Z.to_nat r) bytes) m in
    let n := n + r in
    o ← grep_lines msize GREP_BUF m;
    match o with
    | None => mret (inr None)
    | Some (p, m) =>
        let n := if p =? GREP_BUF then 0 else n in
        if 0 <? n then
          let n := n - (p - GREP_BUF) in
          mret (inl (n, Ulib.memmove GREP_BUF p n m))
        else mret (inl (n, m))
    end.

Definition grep (fd : Z) (m : mem) : prog (option mem) := loop (grep_body fd) (0, m).
End grep.

(** The files in turn; [m] is the memory the previous one leaves. *)
Fixpoint grep_files (msize : nat) (pattern : list Z) (files : list (list Z)) (m : mem) : prog unit :=
  match files with
  | [] => exit
  | file :: files =>
      fd ← sys (Open file 0);
      if fd <? 0 then printf 1 (str "grep: cannot open %s" ++ nl) [PStr file];; exit
      else
        o ← grep msize pattern fd m;
        match o with
        | None => mret tt
        | Some m => sys (Close fd);; grep_files msize pattern files m
        end
  end.

Definition grep_main (msize : nat) (argv : list (list Z)) (m : mem) : prog unit :=
  match argv with
  | [] | [_] => printf 2 (str "usage: grep pattern [file ...]" ++ nl) [];; exit
  | [_; pattern] => grep msize pattern 0 m;; exit
  | _ :: pattern :: files => grep_files msize pattern files m
  end.
