(* ===== verification/ShRun.v ===== *)
(** sh.c: running commands. *)

From stdpp Require Import prelude strings gmap list.
From S2P Require Import Prelude Param Sh Sys.

Definition sh_panic {A} (msg : list Z) : prog A := printf 2 (str "%s" ++ nl) [PStr msg];; exit.

Definition fork1 : prog Z :=
  pid ← sys Fork;
  if pid =? -1 then sh_panic (str "fork") else mret pid.

(** [runcmd] never returns; [exec] returns only when it fails. *)
Fixpoint runcmd (c : cmd) : prog unit :=
  match c with
  | EXEC [] => exit
  | EXEC (a :: argv) =>
      sys (Exec a (a :: argv));;
      printf 2 (str "exec %s failed" ++ nl) [PStr a];;
      exit
  | REDIR c file mode fd =>
      sys (Close fd);;
      r ← sys (Open file mode);
      (if r <? 0 then printf 2 (str "open %s failed" ++ nl) [PStr file];; exit else mret tt);;
      runcmd c;;
      exit
  | LIST c1 c2 =>
      pid ← fork1;
      (if pid =? 0 then runcmd c1 else mret tt);;
      sys Wait;;
      runcmd c2;;
      exit
  | PIPE c1 c2 =>
      '(r, (p0, p1)) ← sys Pipe;
      (if r <? 0 then sh_panic (str "pipe") else mret tt);;
      pid ← fork1;
      (if pid =? 0 then
         sys (Close 1);; sys (Dup p1);; sys (Close p0);; sys (Close p1);;
         runcmd c1
       else mret tt);;
      pid ← fork1;
      (if pid =? 0 then
         sys (Close 0);; sys (Dup p0);; sys (Close p0);; sys (Close p1);;
         runcmd c2
       else mret tt);;
      sys (Close p0);;
      sys (Close p1);;
      sys Wait;;
      sys Wait;;
      exit
  | BACK c =>
      pid ← fork1;
      (if pid =? 0 then runcmd c else mret tt);;
      exit
  end.

(** The line, or [None] at the end of the input. *)
Definition getcmd (nbuf : Z) : prog (option (list Z)) :=
  printf 2 (str "$ ") [];;
  buf ← gets nbuf;
  match buf with
  | [] => mret None
  | c :: _ => if c =? 0 then mret None else mret (Some buf)
  end.

(** The bytes of an array up to its NUL. *)
Fixpoint until_nul (l : list Z) : list Z :=
  match l with
  | [] => []
  | c :: l => if c =? 0 then [] else c :: until_nul l
  end.

(** [runcmd(parsecmd(buf))] in the child; the parser panics on a bad line, and
    says what is left over after a command. *)
Definition run_line (buf : list Z) : prog unit :=
  let s := until_nul buf in
  match parseline (parse_fuel s) s with
  | Good c r =>
      match snd (peek r []) with
      | [] => runcmd c
      | l => printf 2 (str "leftovers: %s" ++ nl) [PStr l];; sh_panic (str "syntax")
      end
  | Bad msg => sh_panic (str msg)
  | Fuel => exit
  end.

Definition open_console : unit -> prog unit := loop (fun _ =>
  fd ← sys (Open (str "console") O_RDWR);
  if 0 <=? fd then
    if 3 <=? fd then sys (Close fd);; mret (inr tt) else mret (inl tt)
  else mret (inr tt)).

(** One command of the loop of [main]; [cd] is run by the shell itself. *)
Definition sh_command (buf : list Z) : prog unit :=
  let buf := until_nul buf in
  match buf with
  | 99 :: 100 :: 32 :: dir =>
      let dir := removelast dir in
      r ← sys (Chdir dir);
      if r <? 0 then printf 2 (str "cannot cd %s" ++ nl) [PStr dir] else mret tt
  | _ =>
      pid ← fork1;
      (if pid =? 0 then run_line buf else mret tt);;
      sys Wait;; mret tt
  end.

Definition sh_main : prog unit :=
  open_console tt;;
  loop (fun _ : unit =>
    o ← getcmd 100;
    match o with
    | None => mret (inr tt)
    | Some buf => sh_command buf;; mret (inl tt)
    end) tt;;
  exit.
