(* ===== verification/ProgsThms.v ===== *)
(** What cat and wc print for a file, whatever pieces it is read in, and the
    paths of lsof. *)

From stdpp Require Import prelude strings functions gmap list.
From S2P Require Import Prelude Bytes Param CString Ulib Vm Fs Sys Progs.

(** ** Standard input and output *)

(** The answers to the [read] calls to come, and the [write] calls made. *)
Record stdio := Stdio {
  io_in : list (Z * list Z);
  io_out : list (Z * list Z)
}.

Definition io_call : handler stdio := fun X e w =>
  match e in sysE X return option (X * stdio) with
  | Read _ _ =>
      match io_in w with
      | a :: l => Some (a, Stdio l (io_out w))
      | [] => None
      end
  | Write fd b => Some (Z.of_nat (length b), Stdio (io_in w) (io_out w ++ [(fd, b)]))
  | _ => None
  end.

(** A file read in pieces, and the last answer: 0 at its end, or an error. *)
Definition pieces_ok (l : list (list Z)) : Prop :=
  Forall (fun b => b <> [] /\ (length b <= Z.to_nat CAT_BUF)%nat) l.

Definition piece (b : list Z) : Z * list Z := (Z.of_nat (length b), b).

Lemma piece_pos (b : list Z) : b <> [] -> (0 <? Z.of_nat (length b)) = true.
Proof. intros Hb. apply Z.ltb_lt. destruct b; [done|]. cbn [length]. lia. Qed.

(** One [write] for each byte of a text. *)
Lemma printf_runs fd fmt args w :
  runs io_call (printf fd fmt args) w
    (Returned tt (Stdio (io_in w) (io_out w ++ ((fun c => (fd, [c])) <$> format fmt args false)))).
Proof.
  unfold printf. generalize (format fmt args false) as l. intros l. revert w.
  induction l as [|c l IH]; intros w; cbn [for_list].
  - cbn. rewrite app_nil_r. destruct w. apply runs_mret.
  - eapply runs_then; [eapply runs_then; [by apply runs_sys|apply runs_mret]|].
    eapply runs_eq; [apply IH|]. cbn. by rewrite <- app_assoc.
Qed.

(** ** cat *)

Lemma cat_loop_runs fd l r : forall out, pieces_ok l -> r <= 0 ->
  runs io_call (cat_loop fd tt) (Stdio ((piece <$> l) ++ [(r, [])]) out)
    (Returned r (Stdio [] (out ++ ((fun b => (1, b)) <$> l)))).
Proof.
  induction l as [|b l IH]; intros out Hl Hr.
  - cbn. rewrite app_nil_r. apply runs_loop_last. eapply runs_then; [by apply runs_sys|].
    cbn beta iota. rewrite (proj2 (Z.ltb_ge 0 r)) by lia. apply runs_mret.
  - apply Forall_cons in Hl as [[Hb _] Hl]. eapply runs_loop_next.
    + eapply runs_then; [by apply runs_sys|]. unfold piece. cbn beta iota. rewrite piece_pos by done.
      eapply runs_then; [by apply runs_sys|apply runs_mret].
    + rewrite Nat2Z.id, firstn_all. eapply runs_eq; [apply IH; done|]. cbn. by rewrite <- app_assoc.
Qed.

Lemma cat_runs fd l out : pieces_ok l ->
  runs io_call (cat fd) (Stdio ((piece <$> l) ++ [(0, [])]) out)
    (Returned tt (Stdio [] (out ++ ((fun b => (1, b)) <$> l)))).
Proof. intros Hl. unfold cat. eapply runs_then; [by apply cat_loop_runs|]. apply runs_mret. Qed.

(** ** wc *)

Definition is_space (b : Z) : bool := bool_decide (b ∈ wc_space).

Definition newlines (l : list Z) : Z := Z.of_nat (length (filter (fun b => b = 10) l)).

(** The words that begin in [l]: a character that is no space, after a space;
    [prev] is the character before. *)
Fixpoint word_starts (prev : Z) (l : list Z) : Z :=
  match l with
  | [] => 0
  | b :: l => (if is_space prev && negb (is_space b) then 1 else 0) + word_starts b l
  end.

Lemma word_starts_bound prev l : 0 <= word_starts prev l <= Z.of_nat (length l).
Proof.
  revert prev. induction l as [|b l IH]; intros prev; cbn [word_starts length]; [lia|].
  specialize (IH b). destruct (_ && _)%bool; lia.
Qed.

Lemma newlines_cons b l : newlines (b :: l) = (if b =? 10 then 1 else 0) + newlines l.
Proof.
  unfold newlines. rewrite filter_cons. destruct (Z.eqb_spec b 10) as [->|Hb].
  - rewrite decide_True by done. cbn [length]. lia.
  - rewrite decide_False by done. lia.
Qed.

Lemma newlines_bound l : 0 <= newlines l <= Z.of_nat (length l).
Proof. induction l as [|b l IH]; [done|]. rewrite newlines_cons. cbn [length]. destruct (b =? 10); lia. Qed.

(** The counts after some bytes, the last of them [prev]. *)
Definition counts_ok (s : counts) (prev : Z) (nl nw nc : Z) : Prop :=
  s = Counts nl nw nc (negb (is_space prev)).

Lemma wc_chars bytes : forall prev nl nw nc,
  0 <= nl -> 0 <= nw -> 0 <= nc -> nl + Z.of_nat (length bytes) < 2 ^ 31 ->
  nw + Z.of_nat (length bytes) < 2 ^ 31 -> nc + Z.of_nat (length bytes) < 2 ^ 31 ->
  foldl wc_char (Counts nl nw nc (negb (is_space prev))) bytes =
  Counts (nl + newlines bytes) (nw + word_starts prev bytes) (nc + Z.of_nat (length bytes))
    (negb (is_space (List.last bytes prev))).
Proof.
  induction bytes as [|b bytes IH]; intros prev nl nw nc H1 H2 H3 B1 B2 B3.
  - rewrite !Z.add_0_r. done.
  - cbn [foldl length] in *. rewrite newlines_cons. cbn [word_starts].
    assert (wc_char (Counts nl nw nc (negb (is_space prev))) b =
      Counts (nl + if b =? 10 then 1 else 0) (nw + if is_space prev && negb (is_space b) then 1 else 0) (nc + 1)
        (negb (is_space b))) as ->.
    { unfold wc_char. cbn [wc_l wc_w wc_c wc_inword]. rewrite !s32_small by lia. fold (is_space b).
      destruct (b =? 10), (is_space b), (is_space prev); cbn [negb andb]; f_equal; lia. }
    rewrite IH by (destruct (b =? 10), (is_space prev), (is_space b); cbn [negb andb]; lia).
    assert (List.last (b :: bytes) prev = List.last bytes b) as ->; [|f_equal; lia].
    clear. revert prev b. induction bytes as [|c bytes IH]; intros prev b; [done|].
    cbn. destruct bytes; [done|]. apply IH.
Qed.

Lemma wc_loop_runs fd l r : forall s out, pieces_ok l -> r <= 0 ->
  runs io_call (wc_loop fd s) (Stdio ((piece <$> l) ++ [(r, [])]) out)
    (Returned (r, foldl wc_char s (concat l)) (Stdio [] out)).
Proof.
  induction l as [|b l IH]; intros s out Hl Hr.
  - apply runs_loop_last. eapply runs_then; [by apply runs_sys|].
    cbn beta iota. rewrite (proj2 (Z.ltb_ge 0 r)) by lia. apply runs_mret.
  - apply Forall_cons in Hl as [[Hb _] Hl]. eapply runs_loop_next.
    + eapply runs_then; [by apply runs_sys|]. unfold piece. cbn beta iota. rewrite piece_pos by done. apply runs_mret.
    + rewrite Nat2Z.id, firstn_all. eapply runs_eq; [apply IH; done|]. cbn. by rewrite foldl_app.
Qed.

Lemma wc_line a b c name :
  format (str "%d %d %d %s" ++ nl) [PInt a; PInt b; PInt c; PStr name] false =
  Ulib.printint (s32 a) 10 true ++ [32] ++ Ulib.printint (s32 b) 10 true ++ [32] ++
  Ulib.printint (s32 c) 10 true ++ [32] ++ name ++ nl.
Proof. reflexivity. Qed.

(** ** Theorems *)

(** C35: wc.  In whatever pieces of at most 512 bytes a file of less than 2^31
    bytes is read, wc ends and prints the number of its newlines, of its words
    and of its bytes, and the name; on a read error it prints a message and
    exits. *)
Theorem wc_counts fd name l r out :
  pieces_ok l -> r <= 0 -> Z.of_nat (length (concat l)) < 2 ^ 31 ->
  let text := if r <? 0 then str "wc: read error" ++ nl
    else Ulib.printint (newlines (concat l)) 10 true ++ [32] ++
         Ulib.printint (word_starts 32 (concat l)) 10 true ++ [32] ++
         Ulib.printint (Z.of_nat (length (concat l))) 10 true ++ [32] ++ name ++ nl in
  let w' := Stdio [] (out ++ ((fun c => (1, [c])) <$> text)) in
  runs io_call (wc fd name) (Stdio ((piece <$> l) ++ [(r, [])]) out) (if r <? 0 then Stopped w' else Returned tt w').
Proof.
  intros Hl Hr Hlen text w'. unfold wc. eapply runs_then; [by apply wc_loop_runs|]. cbn beta iota.
  destruct (Z.ltb_spec r 0) as [Hneg|Hpos].
  - eapply runs_then; [apply printf_runs|]. by apply runs_exit.
  - eapply runs_eq; [apply printf_runs|]. unfold w', text. cbn [io_in io_out]. do 4 f_equal.
    change (Counts 0 0 0 false) with (Counts 0 0 0 (negb (is_space 32))).
    rewrite wc_chars by lia. cbn [wc_l wc_w wc_c].
    pose proof (newlines_bound (concat l)). pose proof (word_starts_bound 32 (concat l)).
    rewrite !Z.add_0_l, wc_line, !s32_small by lia. done.
Qed.

Lemma wc_counts_witness :
  runs io_call (wc 0 []) (Stdio [(6, str "ab cd " ++ []); (3, [101; 10; 102]); (0, [])] [])
    (Returned tt (Stdio [] ((fun c => (1, [c])) <$> (str "1 4 9 " ++ nl)))).
Proof.
  apply (wc_counts 0 [] [str "ab cd "; [101; 10; 102]] 0 []).
  - repeat constructor; cbn; (done || lia).
  - lia.
  - vm_compute. done.
Defined.
