(* ===== verification/GrepThms.v ===== *)
(** The matcher of grep.c against the language of the pattern, and what grep
    prints for a file. *)

From stdpp Require Import prelude strings functions gmap list.
From S2P Require Import Prelude Param CString Ulib Vm CText Sys Progs ProgsThms Grep.

(** ** Patterns and their languages *)

(** [c] and [c*]; the dot is a character that fits any other. *)
Inductive atom :=
| One (c : Z)
| Many (c : Z).

Definition fits (c x : Z) : Prop := c = DOT \/ c = x.

Inductive lang : list atom -> list Z -> Prop :=
| L_nil : lang [] []
| L_one c x l s : fits c x -> lang l s -> lang (One c :: l) (x :: s)
| L_many c s1 l s2 : Forall (fits c) s1 -> lang l s2 -> lang (Many c :: l) (s1 ++ s2).

(** The atoms of a pattern, and whether it ends with the dollar sign. *)
Fixpoint compile (re : list Z) : list atom * bool :=
  match re with
  | [] => ([], false)
  | c :: re1 =>
      let plain :=
        if ((c =? DOLLAR) && match re1 with [] => true | _ => false end)%bool then ([], true)
        else (One c :: (compile re1).1, (compile re1).2) in
      match re1 with
      | c' :: re2 => if c' =? STAR then (Many c :: (compile re2).1, (compile re2).2) else plain
      | [] => plain
      end
  end.

(** A part of [text] that starts it. *)
Definition here (re text : list Z) : Prop :=
  exists mid post, text = mid ++ post /\ lang (compile re).1 mid /\ ((compile re).2 = true -> post = []).

Lemma matchstar_spec h c text :
  matchstar h c text = true <-> exists s rest, text = s ++ rest /\ Forall (fits c) s /\ h rest = true.
Proof.
  induction text as [|x text IH]; cbn [matchstar]; rewrite orb_true_iff.
  - split; [intros [Hh|]; [|done]; by exists [], []|]. intros (s & rest & E & _ & Hh).
    symmetry in E. apply app_nil in E as [-> ->]. by left.
  - split.
    + intros [Hh|Hs]; [by exists [], (x :: text)|].
      destruct ((x =? c) || (c =? DOT))%bool eqn:E; [|done]. apply IH in Hs as (s & rest & -> & Hs & Hh).
      exists (x :: s), rest. split_and!; try done. constructor; [|done]. unfold fits. lia.
    + intros ([|y s] & rest & E & Hs & Hh); cbn in E; [left; by subst|right]. injection E as -> ->.
      apply Forall_cons in Hs as [Hy Hs].
      assert (((y =? c) || (c =? DOT))%bool = true) as -> by (unfold fits in Hy; lia).
      apply IH. by exists s, rest.
Qed.

Lemma here_star c re text :
  here (c :: STAR :: re) text <-> exists s rest, text = s ++ rest /\ Forall (fits c) s /\ here re rest.
Proof.
  unfold here. cbn [compile]. rewrite Z.eqb_refl. cbn [fst snd]. split.
  - intros (mid & post & -> & Hl & Hp). inversion Hl as [| |? s1 ? s2 H1 H2]; subst.
    exists s1, (s2 ++ post). rewrite app_assoc. split_and!; try done. by exists s2, post.
  - intros (s & rest & -> & Hs & mid & post & -> & Hl & Hp).
    exists (s ++ mid), post. rewrite app_assoc. split_and!; try done. by constructor.
Qed.

Definition star_next (re1 : list Z) : bool := match re1 with c' :: _ => c' =? STAR | [] => false end.

Lemma here_plain c re1 text :
  star_next re1 = false -> (c =? DOLLAR) && match re1 with [] => true | _ => false end = false ->
  here (c :: re1) text <-> exists x rest, text = x :: rest /\ fits c x /\ here re1 rest.
Proof.
  intros Hs Hd. unfold here.
  assert (compile (c :: re1) = (One c :: (compile re1).1, (compile re1).2)) as ->.
  { cbn [compile]. rewrite Hd. destruct re1 as [|c' re2]; [done|]. cbn in Hs. by rewrite Hs. }
  cbn [fst snd]. split.
  - intros (mid & post & -> & Hl & Hp). inversion Hl as [|? x ? s H1 H2|]; subst.
    exists x, (s ++ post). split_and!; try done. by exists s, post.
  - intros (x & rest & -> & Hf & mid & post & -> & Hl & Hp).
    exists (x :: mid), post. split_and!; try done. by constructor.
Qed.

Lemma matchhere_plain c re1 text :
  star_next re1 = false ->
  matchhere (c :: re1) text =
  if ((c =? DOLLAR) && match re1 with [] => true | _ => false end)%bool
  then match text with [] => true | _ => false end
  else match text with
       | [] => false
       | x :: text => if ((c =? DOT) || (c =? x))%bool then matchhere re1 text else false
       end.
Proof. intros Hs. destruct re1 as [|c' re2]; [done|]. cbn in Hs. cbn [matchhere]. by rewrite Hs. Qed.

Lemma matchhere_spec n : forall re text, (length re < n)%nat -> matchhere re text = true <-> here re text.
Proof.
  induction n as [|n IH]; intros re text Hn; [lia|]. destruct re as [|c re1].
  { split; [|done]. intros _. exists [], text. split_and!; [done|constructor|done]. }
  cbn [length] in Hn. destruct (star_next re1) eqn:Es.
  - destruct re1 as [|c' re2]; [done|]. cbn in Es. pose proof Es as E. apply Z.eqb_eq in E. subst c'.
    rewrite here_star. cbn [matchhere]. rewrite Z.eqb_refl, matchstar_spec. cbn [length] in Hn.
    by setoid_rewrite (IH re2 _ ltac:(lia)).
  - rewrite matchhere_plain by done. destruct (_ && _)%bool eqn:Ed.
    + apply andb_true_iff in Ed as [Ec E1]. destruct re1; [|done]. unfold here. cbn [compile]. rewrite Ec. cbn [andb fst snd].
      split.
      * destruct text; [|done]. intros _. exists [], []. split_and!; [done|constructor|done].
      * intros (mid & post & -> & Hl & Hp). inversion Hl; subst. by rewrite Hp.
    + rewrite here_plain by done. destruct text as [|x text]; [by split; [|intros (? & ? & ? & _)]|].
      destruct ((c =? DOT) || (c =? x))%bool eqn:Ef.
      * rewrite IH by lia. split; [intros Hh; exists x, text; split_and!; [done|unfold fits; lia|done]|].
        intros (y & rest & [= <- <-] & _ & Hh). done.
      * split; [done|]. intros (y & rest & [= <- <-] & Hf & _). unfold fits in Hf. lia.
Qed.

Lemma match_loop_spec re text :
  match_loop re text = true <-> exists pre rest, text = pre ++ rest /\ matchhere re rest = true.
Proof.
  induction text as [|x text IH]; cbn [match_loop]; rewrite orb_true_iff.
  - split; [intros [Hh|]; [|done]; by exists [], []|]. intros (pre & rest & E & Hh).
    symmetry in E. apply app_nil in E as [-> ->]. by left.
  - rewrite IH. split.
    + intros [Hh|(pre & rest & -> & Hh)]; [by exists [], (x :: text)|by exists (x :: pre), rest].
    + intros ([|y pre] & rest & E & Hh); cbn in E; [left; by subst|right]. injection E as -> ->. by exists pre, rest.
Qed.

(** C25: the matcher of grep.  A pattern matches a text exactly when some part
    of the text is in the language of the pattern, read with its four
    operators: a part at the start of the text when the pattern begins with a
    caret, and at its end when it ends with the dollar sign. *)
Theorem match_spec re text :
  match_ re text = true <->
  let anchored := match re with c :: _ => c =? CARET | [] => false end in
  let body := if anchored then tail re else re in
  exists pre mid post, text = pre ++ mid ++ post /\ lang (compile body).1 mid /\
    (anchored = true -> pre = []) /\ ((compile body).2 = true -> post = []).
Proof.
  assert (forall r, match_loop r text = true <->
    exists pre mid post, text = pre ++ mid ++ post /\ lang (compile r).1 mid /\ (false = true -> pre = []) /\
      ((compile r).2 = true -> post = [])) as Hloop.
  { intros r. rewrite match_loop_spec. setoid_rewrite (matchhere_spec (S (length r)) r _ ltac:(lia)).
    unfold here. naive_solver. }
  destruct re as [|c re]; cbn [match_ tail]; [apply Hloop|].
  destruct (c =? CARET); [|apply Hloop]. rewrite (matchhere_spec (S (length re))) by lia. unfold here. split.
  - intros (mid & post & -> & Hl & Hp). by exists [], mid, post.
  - intros (pre & mid & post & -> & Hl & Hpre & Hp). rewrite (Hpre eq_refl). by exists mid, post.
Qed.

(** ** The lines grep prints *)

(** The lines of a text that end with a newline; [cur] is the beginning of the
    first one. *)
Fixpoint lines (cur l : list Z) : list (list Z) :=
  match l with
  | [] => []
  | c :: l => if c =? 10 then cur :: lines [] l else lines (cur ++ [c]) l
  end.

Lemma lines_first l1 : forall cur l2, 10 ∉ l1 -> lines cur (l1 ++ 10 :: l2) = (cur ++ l1) :: lines [] l2.
Proof.
  induction l1 as [|c l1 IH]; intros cur l2 Hn; cbn [app lines].
  - by rewrite app_nil_r.
  - apply not_elem_of_cons in Hn as [Hc Hn]. rewrite (proj2 (Z.eqb_neq c 10)) by done.
    rewrite IH by done. by rewrite <- app_assoc.
Qed.

Lemma lines_none l : forall cur, 10 ∉ l -> lines cur l = [].
Proof.
  induction l as [|c l IH]; intros cur Hn; cbn [lines]; [done|]. apply not_elem_of_cons in Hn as [Hc Hn].
  rewrite (proj2 (Z.eqb_neq c 10)) by done. by apply IH.
Qed.

Lemma strchr_found fuel m l1 : forall p l2, cstr m p (l1 ++ 10 :: l2) -> 10 ∉ l1 -> (length l1 < fuel)%nat ->
  Ulib.strchr fuel p 10 m = Some (p + Z.of_nat (length l1)).
Proof.
  revert fuel. induction l1 as [|c l1 IH]; intros [|fuel] p l2 Hc Hn Hf; cbn [length] in Hf; try lia;
    cbn [app] in Hc; apply cstr_cons in Hc as (Hm & Hc0 & Hc); cbn [Ulib.strchr]; rewrite Hm.
  - cbn. f_equal. lia.
  - apply not_elem_of_cons in Hn as [Hne Hn]. unfold ctrue. rewrite (proj2 (Z.eqb_neq c 0) Hc0). cbn [negb].
    rewrite (proj2 (Z.eqb_neq c (u8 10))) by (change (u8 10) with 10; done).
    rewrite (IH fuel (p + 1) l2) by (done || lia). cbn [length]. f_equal. lia.
Qed.

Lemma strchr_none fuel m l : forall p, cstr m p l -> 10 ∉ l -> (length l < fuel)%nat -> Ulib.strchr fuel p 10 m = Some 0.
Proof.
  revert fuel. induction l as [|c l IH]; intros [|fuel] p Hc Hn Hf; cbn [length] in Hf; try lia; cbn [Ulib.strchr].
  - apply cstr_nil in Hc. by rewrite Hc.
  - apply cstr_cons in Hc as (Hm & Hc0 & Hc). apply not_elem_of_cons in Hn as [Hne Hn]. rewrite Hm.
    unfold ctrue. rewrite (proj2 (Z.eqb_neq c 0) Hc0). cbn [negb].
    rewrite (proj2 (Z.eqb_neq c (u8 10))) by (change (u8 10) with 10; done). apply IH; [done|done|lia].
Qed.

Section grep_prints.
Context (msize : nat) (pattern : list Z).

Definition printed (l : list Z) : list (Z * list Z) :=
  (fun s => (1, s ++ [10])) <$> filter (fun s => match_ pattern s = true) (lines [] l).

Lemma bytes_of_cstr m p l q : bytes_at m p l -> q = p + Z.of_nat (length l) -> bytes_of m p q = l.
Proof.
  intros Hb ->. unfold bytes_of. replace (p + Z.of_nat (length l) - p) with (Z.of_nat (length l)) by lia.
  apply list_eq. intros i. unfold upto. rewrite Nat2Z.id, !list_lookup_fmap. rewrite bytes_at_lookup in Hb.
  destruct (l !! i) as [c|] eqn:E.
  - rewrite lookup_seq_lt by (by eapply lookup_lt_Some). cbn. f_equal. by apply Hb.
  - rewrite lookup_seq_ge by (by apply lookup_ge_None). done.
Qed.

Lemma grep_lines_runs fuel : forall l p m w,
  cstr m p l -> 0 < p -> (length l < fuel)%nat -> (length l < msize)%nat ->
  exists p' m', runs io_call (grep_lines msize pattern fuel p m) w
    (Returned (Some (p', m')) (Stdio (io_in w) (io_out w ++ printed l))) /\ p <= p'.
Proof.
  induction fuel as [|fuel IH]; intros l p m w Hc Hp Hf Hs; [lia|]. cbn [grep_lines].
  destruct (decide (10 ∈ l)) as [Hin|Hnot].
  2:{ rewrite (strchr_none _ _ l) by done. cbn. exists p, m. split; [|lia]. unfold printed.
      rewrite lines_none by done. cbn. rewrite app_nil_r. destruct w. apply runs_mret. }
  apply list_elem_of_split_l in Hin as (l1 & l2 & -> & Hn).
  rewrite (strchr_found msize m l1 p l2) by (done || (rewrite length_app in Hs; lia)).
  set (q := p + Z.of_nat (length l1)) in *. rewrite (proj2 (Z.eqb_neq q 0)) by lia.
  rewrite length_app in Hf, Hs. cbn [length] in Hf, Hs.
  assert (bytes_at m p l1 /\ cstr m (q + 1) l2) as [Hb Hc2].
  { destruct Hc as [Hb Hnn]. rewrite <- app_assoc in Hb. apply bytes_at_app in Hb as [Hb1 [_ Hb2]].
    split; [done|]. split; [done|]. apply Forall_app in Hnn as [_ [_ ?]%Forall_cons]. done. }
  assert (forall v, bytes_at (<[q := v]> m) p l1) as Hb0.
  { intros v. rewrite bytes_at_lookup in Hb |- *. intros i c Hi. pose proof (lookup_lt_Some _ _ _ Hi).
    rewrite ins_ne by lia. by apply Hb. }
  rewrite (bytes_of_cstr _ p l1 q) by done. unfold printed. rewrite lines_first, app_nil_l, filter_cons by done.
  destruct (match_ pattern l1) eqn:Em.
  - rewrite decide_True by done. cbn [fmap list_fmap].
    set (m1 := <[q := 10]> (<[q := 0]> m)).
    assert (bytes_of m1 p (q + 1) = l1 ++ [10]) as ->.
    { apply bytes_of_cstr; [|rewrite length_app; cbn [length]; lia]. apply bytes_at_app. split.
      - rewrite bytes_at_lookup in Hb |- *. intros i c Hi. pose proof (lookup_lt_Some _ _ _ Hi).
        unfold m1. rewrite !ins_ne by lia. by apply Hb.
      - cbn. split; [|done]. fold q. unfold m1. apply ins_eq. }
    destruct (IH l2 (q + 1) m1 (Stdio (io_in w) (io_out w ++ [(1, l1 ++ [10])]))) as (p' & m' & Hr & Hp'); [|lia..|].
    + eapply cstr_ext; [|exact Hc2]. intros x Hx. unfold m1. rewrite !ins_ne by lia. done.
    + exists p', m'. split; [|lia]. eapply runs_then; [eapply runs_then; [by apply runs_sys|apply runs_mret]|].
      eapply runs_eq; [exact Hr|]. cbn [io_in io_out]. rewrite <- app_assoc. done.
  - rewrite decide_False by done.
    destruct (IH l2 (q + 1) (<[q := 0]> m) w) as (p' & m' & Hr & Hp'); [|lia..|].
    + eapply cstr_ext; [|exact Hc2]. intros x Hx. rewrite ins_ne by lia. done.
    + exists p', m'. split; [|lia]. eapply runs_then; [apply runs_mret|exact Hr].
Qed.

(** The program before it reads: the array is zero. *)
Definition grep_fresh (m : mem) : Prop := forall x, GREP_BUF <= x < GREP_BUF + GREP_SIZE -> m x = 0.

(** Grep on a file of less than 1024 bytes, without NULs, that one read
    returns: it ends and prints exactly the lines that match, in order, each
    with its newline; what follows the last newline is not looked at. *)
Theorem grep_prints fd l m out :
  grep_fresh m -> no_nul l -> (0 < length l < 1024)%nat -> (1024 <= msize)%nat ->
  exists m', runs io_call (grep msize pattern fd m) (Stdio [piece l; (0, [])] out)
    (Returned (Some m') (Stdio [] (out ++ printed l))).
Proof.
  intros Hm Hl Hlen Hms.
  set (m1 := put_bytes GREP_BUF l m).
  assert (cstr m1 GREP_BUF l) as Hc.
  { split; [|done]. apply bytes_at_lookup. intros i c Hi. pose proof (lookup_lt_Some _ _ _ Hi) as Hi'.
    rewrite length_app in Hi'. cbn in Hi'. unfold m1, GREP_BUF in *. rewrite put_bytes_at.
    apply lookup_app_Some in Hi as [Hi|[Hge Hi]].
    - apply lookup_lt_Some in Hi as Hlt. rewrite decide_True by lia. replace (Z.to_nat _) with i by lia.
      by apply nth_lookup_Some.
    - apply list_lookup_singleton_Some in Hi as [Hi <-]. rewrite decide_False by lia. apply Hm. unfold GREP_BUF, GREP_SIZE. lia. }
  destruct (grep_lines_runs msize l GREP_BUF m1 (Stdio [(0, [])] out) Hc) as (p' & m2 & Hr & Hp'); [done|lia|lia|].
  assert (exists s', runs io_call (grep_body msize pattern fd (0, m)) (Stdio [piece l; (0, [])] out)
    (Returned (inl s') (Stdio [(0, [])] (out ++ printed l)))) as (s' & Hb).
  { destruct (0 <? (if p' =? GREP_BUF then 0 else 0 + Z.of_nat (length l))) eqn:E; eexists;
      (eapply runs_then; [by apply runs_sys|]); unfold piece; cbn beta iota;
      rewrite (proj2 (Z.leb_gt _ _)) by lia; rewrite Nat2Z.id, firstn_all; rewrite (Z.add_0_r GREP_BUF); fold m1;
      (eapply runs_then; [exact Hr|]); cbn beta iota zeta; rewrite E; apply runs_mret. }
  destruct s' as [n' m']. exists m'. unfold grep. eapply runs_loop_next; [exact Hb|].
  apply runs_loop_last. eapply runs_then; [by apply runs_sys|]. cbn beta iota. apply runs_mret.
Qed.
End grep_prints.

Lemma grep_prints_witness :
  exists m', runs io_call (grep 1024 (str "b") 0 (fun _ => 0)) (Stdio [(6, [97; 10; 98; 99; 10; 98]); (0, [])] [])
    (Returned (Some m') (Stdio [] [(1, [98; 99; 10])])).
Proof.
  destruct (grep_prints 1024 (str "b") 0 [97; 10; 98; 99; 10; 98] (fun _ => 0) []) as (m' & Hr).
  - done.
  - by repeat constructor.
  - cbn. lia.
  - lia.
  - exists m'. exact Hr.
Defined.

(** Grep repeats bytes of earlier reads.  The unfinished line is moved to
    the front of the array, but nothing marks its end: when the next read is
    shorter than the last one, the lines left over in the array are printed
    again.  Here the file is a, bb and cx, read in two pieces; a line b that is
    not in the file is printed. *)
Theorem grep_repeats :
  exists fuel, run io_call fuel (grep 100 [] 0 (fun _ => 0)) (Stdio [piece [97; 10; 98; 98; 10; 99]; piece [120; 10]] []) =
    Stopped (Stdio [] [(1, [97; 10]); (1, [98; 98; 10]); (1, [99; 120; 10]); (1, [98; 10])]).
Proof. exists 100%nat. vm_compute. reflexivity. Qed.
