(* ===== verification/ShRunThms.v ===== *)
(** What the processes of a command line of the shell do: the programs they
    become, with which descriptors, the waits, and what happens when a call
    fails. *)

From stdpp Require Import prelude strings gmap list.
From ITree Require Import ITree.
From S2P Require Import Prelude Param Sh Sys ShRun.

(** ** Descriptors *)

(** What a descriptor refers to. *)
Inductive object :=
| Inherited (i : Z)                     (* a descriptor the shell was started with *)
| FileAt (path : list Z) (mode : Z)
| PipeRd (k : nat)
| PipeWr (k : nat).

Abbreviation fdtable := (gmap Z object).

(** The least free descriptor, as fdalloc() finds it. *)
Definition lowest (f : fdtable) : Z :=
  match list_find (fun x => f !! x = None) (upto NOFILE) with
  | Some (_, x) => x
  | None => -1
  end.

(** A process and its descendants, as the kernel sees them: what each writes,
    when it waits for a child, which program it becomes or that it exits, and
    its descriptors at that time. *)
Inductive act :=
| AWrite (fd : Z) (bytes : list Z)
| AFork (child : list act)
| AWait (f : fdtable)
| AExec (path : list Z) (argv : list (list Z)) (f : fdtable)
| AExit (f : fdtable).

Section run.
(** Whether the [k]th call of [open], [pipe], [fork] or [exec] fails, as it may
    for want of memory, of processes or of the file. *)
Context (fails : nat -> bool).

(** The descriptors, the number of pipes made so far and of calls that might
    have failed. *)
Abbreviation world := (fdtable * nat * nat)%type.

(** The calls that change the descriptors. *)
Definition os_call : handler world := fun X e w =>
  let '(f, n, k) := w in
  match e in sysE X return option (X * world) with
  | Close fd => Some (if bool_decide (is_Some (f !! fd)) then 0 else -1, (delete fd f, n, k))
  | Dup fd =>
      match f !! fd with
      | Some o =>
          if lowest f =? -1 then Some (-1, (f, n, k))
          else Some (lowest f, (<[lowest f := o]> f, n, k))
      | None => Some (-1, (f, n, k))
      end
  | Open path mode =>
      if (fails k || (lowest f =? -1))%bool then Some (-1, (f, n, S k))
      else Some (lowest f, (<[lowest f := FileAt path mode]> f, n, S k))
  | Pipe =>
      let p0 := lowest f in
      let f1 := <[p0 := PipeRd n]> f in
      let p1 := lowest f1 in
      if (fails k || (p0 =? -1) || (p1 =? -1))%bool then Some ((-1, (0, 0)), (f, n, S k))
      else Some ((0, (p0, p1)), (<[p1 := PipeWr n]> f1, S n, S k))
  | _ => None
  end.

(** What a process does.  [exec] and [fork] return -1 when they fail; [fork]
    answers 0 to the child and any pid to the parent, and [wait] and [write]
    may answer anything. *)
Inductive acts {A} (t : prog A) (f : fdtable) (n k : nat) : list act -> nat -> nat -> Prop :=
| A_exit h : observe t = VisF Exit h -> acts t f n k [AExit f] n k
| A_tau t' l n' k' : observe t = TauF t' -> acts t' f n k l n' k' -> acts t f n k l n' k'
| A_exec path argv h : observe t = VisF (Exec path argv) h -> fails k = false ->
    acts t f n k [AExec path argv f] n (S k)
| A_noexec path argv h l n' k' : observe t = VisF (Exec path argv) h -> fails k = true ->
    acts (h (-1)) f n (S k) l n' k' -> acts t f n k l n' k'
| A_fork h l1 n1 k1 l2 n2 k2 : observe t = VisF Fork h -> fails k = false ->
    acts (h 0) f n (S k) l1 n1 k1 -> (forall pid, 0 < pid -> acts (h pid) f n1 k1 l2 n2 k2) ->
    acts t f n k (AFork l1 :: l2) n2 k2
| A_nofork h l n' k' : observe t = VisF Fork h -> fails k = true ->
    acts (h (-1)) f n (S k) l n' k' -> acts t f n k l n' k'
| A_wait h l n' k' : observe t = VisF Wait h -> (forall r, acts (h r) f n k l n' k') ->
    acts t f n k (AWait f :: l) n' k'
| A_write fd b h l n' k' : observe t = VisF (Write fd b) h -> (forall r, acts (h r) f n k l n' k') ->
    acts t f n k (AWrite fd b :: l) n' k'
| A_call X (e : sysE X) h x f1 n1 k1 l n' k' : observe t = VisF e h ->
    os_call X e (f, n, k) = Some (x, (f1, n1, k1)) -> acts (h x) f1 n1 k1 l n' k' -> acts t f n k l n' k'.

Lemma acts_observe {A} (t t' : prog A) f n k l n' k' :
  observe t = observe t' -> acts t f n k l n' k' -> acts t' f n k l n' k'.
Proof.
  intros E Hs. destruct Hs as [h E1|t1 l n' k' E1 H1|path argv h E1|path argv h l n' k' E1 F H1
    |h l1 n1 k1 l2 n2 k2 E1 F H1 H2|h l n' k' E1 F H1|h l n' k' E1 H1|fd b h l n' k' E1 H1
    |X e h x f1 n1 k1 l n' k' E1 Ec H1]; rewrite E in E1.
  - by eapply A_exit.
  - by eapply A_tau.
  - by eapply A_exec.
  - by eapply A_noexec.
  - by eapply A_fork.
  - by eapply A_nofork.
  - by eapply A_wait.
  - by eapply A_write.
  - by eapply A_call.
Qed.

(** What follows a process that does not return is not run. *)
Lemma acts_bind {A B} (t : prog A) (g : A -> prog B) f n k l n' k' :
  acts t f n k l n' k' -> acts (t ≫= g) f n k l n' k'.
Proof.
  induction 1 as [t f n k h E|t f n k t1 l n' k' E _ IH|t f n k path argv h E F|t f n k path argv h l n' k' E F _ IH
    |t f n k h l1 n1 k1 l2 n2 k2 E F _ IH1 _ IH2|t f n k h l n' k' E F _ IH|t f n k h l n' k' E _ IH
    |t f n k fd b h l n' k' E _ IH|t f n k X e h x f1 n1 k1 l n' k' E Ec _ IH];
    assert (observe (t ≫= g) = observe (ITree.bind t g)) as Eb by reflexivity;
    rewrite observe_bind, E in Eb.
  - by eapply A_exit.
  - by eapply A_tau.
  - by eapply A_exec.
  - by eapply A_noexec.
  - by eapply A_fork.
  - by eapply A_nofork.
  - by eapply A_wait.
  - by eapply A_write.
  - by eapply (A_call _ _ _ _ X e).
Qed.

(** What follows calls that return. *)
Lemma acts_after {A B} (t : prog A) (g : A -> prog B) f n k a f' n' k' l n2 k2 :
  runs os_call t (f, n, k) (Returned a (f', n', k')) -> acts (g a) f' n' k' l n2 k2 ->
  acts (t ≫= g) f n k l n2 k2.
Proof.
  remember (f, n, k) as w eqn:Ew. remember (Returned a (f', n', k')) as o eqn:Eo. intros Hr Hs.
  revert f n k Ew.
  induction Hr as [t w b E|t w t' o E _ IH|t w X e h x [[f1 n1] k1] o E Eh _ IH|t w X e h E Eh];
    intros f n k ->; simplify_eq.
  - eapply acts_observe; [|exact Hs]. by rewrite observe_bind, E.
  - eapply A_tau; [rewrite observe_bind, E; reflexivity|]. by apply IH.
  - eapply (A_call _ _ _ _ X e); [rewrite observe_bind, E; reflexivity|exact Eh|]. by apply IH.
Qed.

Lemma acts_sys {X B} (e : sysE X) (g : X -> prog B) f n k x f' n' k' l n2 k2 :
  os_call X e (f, n, k) = Some (x, (f', n', k')) -> acts (g x) f' n' k' l n2 k2 ->
  acts (sys e ≫= g) f n k l n2 k2.
Proof. intros E. apply acts_after. by apply runs_sys. Qed.

Lemma acts_mret {A B} (a : A) (g : A -> prog B) f n k l n2 k2 :
  acts (g a) f n k l n2 k2 -> acts (mret a ≫= g) f n k l n2 k2.
Proof. apply acts_after, runs_mret. Qed.

Lemma acts_wait {B} (g : Z -> prog B) f n k l n2 k2 :
  (forall r, acts (g r) f n k l n2 k2) -> acts (sys Wait ≫= g) f n k (AWait f :: l) n2 k2.
Proof.
  intros H. eapply A_wait; [rewrite observe_bind; reflexivity|]. intros r.
  eapply acts_observe; [|apply (H r)]. by rewrite observe_bind.
Qed.

Lemma acts_exit {A} f n k : acts (exit : prog A) f n k [AExit f] n k.
Proof. unfold exit. apply acts_bind. by eapply A_exit. Qed.

(** A message, character by character. *)
Definition says (fd : Z) (m : list Z) : list act := (fun c => AWrite fd [c]) <$> m.

Lemma acts_printf {B} fd fmt args (g : unit -> prog B) f n k l n2 k2 :
  acts (g tt) f n k l n2 k2 ->
  acts (printf fd fmt args ≫= g) f n k (says fd (format fmt args false) ++ l) n2 k2.
Proof.
  intros Hg. unfold printf. induction (format fmt args false) as [|c m IH]; cbn [for_list].
  - by apply acts_mret.
  - eapply A_write; [rewrite !observe_bind; reflexivity|]. intros r.
    eapply acts_observe; [|exact IH]. reflexivity.
Qed.

(** The message of [panic] and the end of the process. *)
Definition panics (msg : list Z) (f : fdtable) : list act :=
  says 2 (format (str "%s" ++ nl) [PStr msg] false) ++ [AExit f].

Lemma acts_panic {A} msg f n k : acts (sh_panic msg : prog A) f n k (panics msg f) n k.
Proof. apply acts_printf, acts_exit. Qed.

(** [fork1] and a test of its answer. *)
Lemma acts_fork1 {B} (child : prog unit) (rest : prog B) f n k l1 n1 k1 l2 n2 k2 :
  fails k = false -> acts child f n (S k) l1 n1 k1 -> acts rest f n1 k1 l2 n2 k2 ->
  acts (pid ← fork1; (if pid =? 0 then child else mret tt);; rest) f n k (AFork l1 :: l2) n2 k2.
Proof.
  intros F Hc Hr. unfold fork1. eapply A_fork; [rewrite !observe_bind; reflexivity|done|..].
  - eapply acts_after; [eapply runs_then; [apply runs_mret|apply runs_mret]|]. by apply acts_bind.
  - intros pid Hp. eapply acts_after; [eapply runs_then; [apply runs_mret|]|].
    + rewrite (proj2 (Z.eqb_neq pid (-1))) by lia. apply runs_mret.
    + rewrite (proj2 (Z.eqb_neq pid 0)) by lia. by apply acts_mret.
Qed.

Lemma acts_nofork1 {B} (g : Z -> prog B) f n k :
  fails k = true -> acts (fork1 ≫= g) f n k (panics (str "fork") f) n (S k).
Proof.
  intros F. apply acts_bind. unfold fork1. eapply A_nofork; [rewrite !observe_bind; reflexivity|done|].
  eapply acts_after; [apply runs_mret|]. apply acts_panic.
Qed.

(** ** What a command is meant to do *)

(** The descriptors of a new pipe are 3 and 4. *)
Definition with_pipe (f : fdtable) (n : nat) : fdtable := <[4 := PipeWr n]> (<[3 := PipeRd n]> f).

(** What the process that runs a command does, with the descriptors the command
    line gives it; [n] numbers the pipes and [k] the calls that may fail. *)
Fixpoint plan (c : cmd) (f : fdtable) (n k : nat) : list act * nat * nat :=
  match c with
  | EXEC [] => ([AExit f], n, k)
  | EXEC (a :: argv) =>
      if fails k then
        (says 2 (format (str "exec %s failed" ++ nl) [PStr a] false) ++ [AExit f], n, S k)
      else ([AExec a (a :: argv) f], n, S k)
  | REDIR c file mode fd =>
      if fails k then
        (says 2 (format (str "open %s failed" ++ nl) [PStr file] false) ++ [AExit (delete fd f)], n, S k)
      else plan c (<[fd := FileAt file mode]> f) n (S k)
  | LIST c1 c2 =>
      if fails k then (panics (str "fork") f, n, S k)
      else
        let '(l1, n1, k1) := plan c1 f n (S k) in
        let '(l2, n2, k2) := plan c2 f n1 k1 in
        (AFork l1 :: AWait f :: l2, n2, k2)
  | PIPE c1 c2 =>
      if fails k then (panics (str "pipe") f, n, S k)
      else if fails (S k) then (panics (str "fork") (with_pipe f n), S n, S (S k))
      else
        let '(l1, n1, k1) := plan c1 (<[1 := PipeWr n]> f) (S n) (S (S k)) in
        if fails k1 then (AFork l1 :: panics (str "fork") (with_pipe f n), n1, S k1)
        else
          let '(l2, n2, k2) := plan c2 (<[0 := PipeRd n]> f) n1 (S k1) in
          ([AFork l1; AFork l2; AWait f; AWait f; AExit f], n2, k2)
  | BACK c =>
      if fails k then (panics (str "fork") f, n, S k)
      else let '(l, n1, k1) := plan c f n (S k) in ([AFork l; AExit f], n1, k1)
  end.

(** The three standard descriptors, and no other. *)
Definition std (f : fdtable) : Prop := forall x, is_Some (f !! x) <-> 0 <= x <= 2.

(** Every program of the processes is started, and every wait made, with these. *)
Fixpoint clean (a : act) : Prop :=
  match a with
  | AWait f | AExec _ _ f => std f
  | AFork l => fold_right (fun a P => clean a /\ P) True l
  | AWrite _ _ | AExit _ => True
  end.
Definition cleans (l : list act) : Prop := fold_right (fun a P => clean a /\ P) True l.

Lemma cleans_app l1 l2 : cleans l1 -> cleans l2 -> cleans (l1 ++ l2).
Proof. induction l1 as [|a l1 IH]; intros H1 H2; [done|]. destruct H1. split; [done|by apply IH]. Qed.

Lemma cleans_says fd m : cleans (says fd m).
Proof. by induction m. Qed.

Lemma cleans_panics msg f : cleans (panics msg f).
Proof. apply cleans_app; [apply cleans_says|done]. Qed.

(** The redirections the parser makes. *)
Fixpoint redirs_ok (c : cmd) : Prop :=
  match c with
  | EXEC _ => True
  | REDIR c _ _ fd => (fd = 0 \/ fd = 1) /\ redirs_ok c
  | PIPE c1 c2 | LIST c1 c2 => redirs_ok c1 /\ redirs_ok c2
  | BACK c => redirs_ok c
  end.

Lemma lowest_is f x :
  0 <= x < NOFILE -> f !! x = None -> (forall y, 0 <= y < x -> is_Some (f !! y)) -> lowest f = x.
Proof.
  intros Hx Hn Hy. unfold lowest.
  assert (list_find (fun x => f !! x = None) (upto NOFILE) = Some (Z.to_nat x, x)) as ->; [|done].
  apply list_find_Some. split_and!; [|done|].
  - unfold upto. rewrite list_lookup_fmap, lookup_seq_lt by lia. cbn. f_equal. lia.
  - intros j y Hj Hlt. apply lookup_upto in Hj as [-> _]. intros E.
    destruct (Hy (Z.of_nat j)) as [o Ho]; [lia|]. congruence.
Qed.

Lemma std_insert f x o : std f -> 0 <= x <= 2 -> std (<[x := o]> f).
Proof.
  intros Hf Hx y. destruct (decide (x = y)) as [->|]; [rewrite lookup_insert_eq; by split; [|intros; eexists]|].
  rewrite lookup_insert_ne by done. apply Hf.
Qed.

Lemma std_none f x : std f -> ~ 0 <= x <= 2 -> f !! x = None.
Proof. intros Hf Hx. apply eq_None_not_Some. by rewrite (Hf x). Qed.

(** [close(fd); open(...)] puts the file at [fd]. *)
Lemma redirect f fd o :
  std f -> 0 <= fd <= 2 -> lowest (delete fd f) = fd /\ <[fd := o]> (delete fd f) = <[fd := o]> f.
Proof.
  intros Hf Hx. split; [|apply insert_delete_eq]. apply lowest_is.
  - unfold NOFILE. lia.
  - apply lookup_delete_eq.
  - intros y Hy. rewrite lookup_delete_ne by lia. apply Hf. lia.
Qed.

Lemma pipe_fds f n k : std f -> fails k = false ->
  os_call _ Pipe (f, n, k) = Some ((0, (3, 4)), (with_pipe f n, S n, S k)).
Proof.
  intros Hf F. cbn [os_call].
  assert (lowest f = 3) as ->.
  { apply lowest_is; [unfold NOFILE; lia|apply std_none; [done|lia]|]. intros y Hy. apply Hf. lia. }
  assert (lowest (<[3 := PipeRd n]> f) = 4) as ->; [|by rewrite F].
  apply lowest_is; [unfold NOFILE; lia| |].
  - rewrite lookup_insert_ne by lia. apply std_none; [done|lia].
  - intros y Hy. destruct (decide (y = 3)) as [->|]; simplify_map_eq; [done|]. apply Hf. lia.
Qed.

(** Closing both ends again. *)
Lemma unpipe f n : std f -> delete 4 (delete 3 (with_pipe f n)) = f.
Proof.
  intros Hf. apply map_eq. intros y. unfold with_pipe.
  destruct (decide (y = 4)) as [->|]; [rewrite lookup_delete_eq, std_none by (done || lia); done|].
  rewrite lookup_delete_ne by done.
  destruct (decide (y = 3)) as [->|]; [rewrite lookup_delete_eq, std_none by (done || lia); done|].
  by rewrite lookup_delete_ne, !lookup_insert_ne by done.
Qed.

(** [close(x); dup(p); close(3); close(4)] puts the end [o] of the pipe at [x]. *)
Lemma plug {B} f n x p o (t : prog B) m k l n' k' :
  std f -> 0 <= x <= 1 -> p = 3 \/ p = 4 -> with_pipe f n !! p = Some o ->
  acts t (<[x := o]> f) m k l n' k' ->
  acts (sys (Close x);; sys (Dup p);; sys (Close 3);; sys (Close 4);; t) (with_pipe f n) m k l n' k'.
Proof.
  intros Hf Hx Hp Ho Hk. set (g := with_pipe f n) in *.
  eapply acts_sys; [reflexivity|].
  assert (lowest (delete x g) = x) as Hlow.
  { apply lowest_is; [unfold NOFILE; lia|apply lookup_delete_eq|]. intros y Hy. rewrite lookup_delete_ne by lia.
    unfold g, with_pipe. rewrite !lookup_insert_ne by lia. apply Hf. lia. }
  eapply acts_sys.
  { cbn [os_call]. rewrite lookup_delete_ne, Ho, Hlow by lia. rewrite (proj2 (Z.eqb_neq x (-1))) by lia. reflexivity. }
  eapply acts_sys; [reflexivity|]. eapply acts_sys; [reflexivity|].
  assert (delete 4 (delete 3 (<[x := o]> (delete x g))) = <[x := o]> f) as ->; [|done].
  rewrite insert_delete_eq, !delete_insert_ne by lia. unfold g. by rewrite unpipe.
Qed.

(** The command does what it is meant to do. *)
Definition does (c : cmd) : Prop := forall f n k, std f -> redirs_ok c ->
  let '(l, n', k') := plan c f n k in acts (runcmd c) f n k l n' k' /\ cleans l.

Lemma exec_does argv : does (EXEC argv).
Proof.
  intros f n k Hf _. destruct argv as [|a argv]; [split; [apply acts_exit|done]|].
  cbn [runcmd plan]. destruct (fails k) eqn:F.
  - split; [|apply cleans_app; [apply cleans_says|done]].
    eapply A_noexec; [rewrite observe_bind; reflexivity|done|]. eapply acts_after; [apply runs_mret|].
    apply acts_printf, acts_exit.
  - split; [|exact (conj Hf I)]. apply acts_bind. by eapply A_exec.
Qed.

Lemma redir_does c file mode fd : does c -> does (REDIR c file mode fd).
Proof.
  intros IH f n k Hf Hr. cbn [redirs_ok] in Hr. destruct Hr as [Hfd Hr]. cbn [runcmd plan].
  destruct (redirect f fd (FileAt file mode) Hf) as [E1 E2]; [lia|]. destruct (fails k) eqn:F.
  { split; [|apply cleans_app; [apply cleans_says|done]]. eapply acts_sys; [reflexivity|].
    eapply acts_sys; [cbn [os_call]; rewrite F; reflexivity|]. change (-1 <? 0) with true.
    apply acts_bind. apply acts_printf, acts_exit. }
  specialize (IH (<[fd := FileAt file mode]> f) n (S k)). destruct (plan c _ _ _) as [[l n'] k'].
  destruct IH as [Hs Hc]; [apply std_insert; [done|lia]|done|]. split; [|done].
  eapply acts_sys; [reflexivity|].
  eapply acts_sys; [cbn [os_call]; rewrite F, E1, E2, (proj2 (Z.eqb_neq fd (-1))) by lia; reflexivity|].
  rewrite (proj2 (Z.ltb_ge fd 0)) by lia. eapply acts_after; [apply runs_mret|]. by apply acts_bind.
Qed.

(** [pipe] and its test, when it succeeds. *)
Lemma acts_pipe (t : Z -> Z -> prog unit) f n k l n' k' :
  std f -> fails k = false -> acts (t 3 4) (with_pipe f n) (S n) (S k) l n' k' ->
  acts ('(r, (p0, p1)) ← sys Pipe; (if r <? 0 then sh_panic (str "pipe") else mret tt);; t p0 p1) f n k l n' k'.
Proof.
  intros Hf F Ht. eapply acts_sys; [by apply pipe_fds|]. change (0 <? 0) with false.
  by eapply acts_after; [apply runs_mret|].
Qed.

Lemma pipe_does c1 c2 : does c1 -> does c2 -> does (PIPE c1 c2).
Proof.
  intros IH1 IH2 f n k Hf [Hr1 Hr2]. cbn [runcmd plan]. destruct (fails k) eqn:F.
  { split; [|apply cleans_panics]. eapply acts_sys; [cbn [os_call]; rewrite F; reflexivity|].
    change (-1 <? 0) with true. apply acts_bind, acts_panic. }
  destruct (fails (S k)) eqn:F1.
  { split; [|apply cleans_panics]. apply acts_pipe; [done..|]. by apply acts_nofork1. }
  specialize (IH1 (<[1 := PipeWr n]> f) (S n) (S (S k))). destruct (plan c1 _ _ _) as [[l1 n1] k1].
  destruct IH1 as [Hs1 Hc1]; [apply std_insert; [done|lia]|done|].
  pose proof (plug f n 1 4 (PipeWr n) (runcmd c1) (S n) (S (S k)) l1 n1 k1 Hf ltac:(lia) ltac:(lia)
    (lookup_insert_eq _ _ _) Hs1) as Hleft.
  destruct (fails k1) eqn:F2.
  { split; [|split; [done|apply cleans_panics]]. apply acts_pipe; [done..|].
    eapply acts_fork1; [done|exact Hleft|by apply acts_nofork1]. }
  specialize (IH2 (<[0 := PipeRd n]> f) n1 (S k1)). destruct (plan c2 _ _ _) as [[l2 n2] k2].
  destruct IH2 as [Hs2 Hc2]; [apply std_insert; [done|lia]|done|].
  split; [|exact (conj Hc1 (conj Hc2 (conj Hf (conj Hf (conj I I)))))]. apply acts_pipe; [done..|].
  eapply acts_fork1; [done|exact Hleft|eapply acts_fork1; [done| |]].
  - eapply (plug f n 0 3 (PipeRd n)); [done|lia|lia| |exact Hs2].
    unfold with_pipe. by rewrite lookup_insert_ne, lookup_insert_eq.
  - eapply acts_sys; [reflexivity|]. eapply acts_sys; [reflexivity|]. rewrite unpipe by done.
    apply acts_wait. intros _. apply acts_wait. intros _. apply acts_exit.
Qed.

Lemma list_does c1 c2 : does c1 -> does c2 -> does (LIST c1 c2).
Proof.
  intros IH1 IH2 f n k Hf [Hr1 Hr2]. cbn [runcmd plan]. destruct (fails k) eqn:F.
  { split; [by apply acts_nofork1|apply cleans_panics]. }
  specialize (IH1 f n (S k) Hf Hr1). destruct (plan c1 _ _ _) as [[l1 n1] k1]. destruct IH1 as [Hs1 Hc1].
  specialize (IH2 f n1 k1 Hf Hr2). destruct (plan c2 _ _ _) as [[l2 n2] k2]. destruct IH2 as [Hs2 Hc2].
  split; [|exact (conj Hc1 (conj Hf Hc2))]. eapply acts_fork1; [done|exact Hs1|]. apply acts_wait.
  intros _. by apply acts_bind.
Qed.

Lemma back_does c : does c -> does (BACK c).
Proof.
  intros IH f n k Hf Hr. cbn [runcmd plan]. destruct (fails k) eqn:F.
  { split; [by apply acts_nofork1|apply cleans_panics]. }
  specialize (IH f n (S k) Hf Hr). destruct (plan c _ _ _) as [[l n1] k1]. destruct IH as [Hs Hc].
  split; [|exact (conj Hc (conj I I))]. eapply acts_fork1; [done|exact Hs|apply acts_exit].
Qed.

Lemma runcmd_does c : does c.
Proof. induction c; auto using exec_does, redir_does, pipe_does, list_does, back_does. Qed.
End run.

(** ** The redirections of the parser *)

Definition redir_ok (r : redir) : Prop := let '(_, _, fd) := r in fd = 0 \/ fd = 1.

Lemma pbind_Good {A B} (p : parse A) (k : A -> list Z -> parse B) b r :
  pbind p k = Good b r -> exists a s, p = Good a s /\ k a s = Good b r.
Proof. destruct p as [a s| |]; cbn; [|done..]. by exists a, s. Qed.

Lemma parseredirs_fds fuel : forall s l r, parseredirs fuel s = Good l r -> Forall redir_ok l.
Proof.
  induction fuel as [|fuel IH]; intros s l r; cbn [parseredirs]; [done|].
  destruct (peek s _) as [b s1]. destruct b; [|intros [= <- <-]; constructor].
  destruct (gettoken s1) as [[tok w1] s2]. destruct (gettoken s2) as [[tok2 w] s3].
  destruct (negb _); [done|]. intros (l' & s' & Hl & E)%pbind_Good. injection E as <- <-.
  constructor; [|by eapply IH]. destruct (tok =? LT); [by left|by right].
Qed.

Lemma parseargs_fds fuel : forall argc s ws l r, parseargs fuel argc s = Good (ws, l) r -> Forall redir_ok l.
Proof.
  induction fuel as [|fuel IH]; intros argc s ws l r; cbn [parseargs]; [done|].
  destruct (peek s _) as [b s1]. destruct b; [intros [= <- <- <-]; constructor|].
  destruct (gettoken s1) as [[tok w1] s2]. destruct (tok =? 0); [intros [= <- <- <-]; constructor|].
  destruct (negb _); [done|]. destruct (_ <=? _); [done|]. intros (l1 & s' & Hl & E)%pbind_Good.
  apply pbind_Good in E as ([ws' l2] & s'' & Hl2 & E). injection E as <- <- <-.
  apply Forall_app. split; [by eapply parseredirs_fds|by eapply IH].
Qed.

Lemma add_redirs_ok l : forall c, redirs_ok c -> Forall redir_ok l -> redirs_ok (foldl add_redir c l).
Proof.
  induction l as [|[[file mode] fd] l IH]; intros c Hc Hl; [done|]. apply Forall_cons in Hl as [Hr Hl].
  cbn [foldl]. by apply IH.
Qed.

Lemma parseback_fds fuel : forall c s c' r, redirs_ok c -> parseback fuel c s = Good c' r -> redirs_ok c'.
Proof.
  induction fuel as [|fuel IH]; intros c s c' r Hc; cbn [parseback]; [done|].
  destruct (peek s _) as [b s1]. destruct b; [|by intros [= <- <-]].
  destruct (gettoken s1) as [[tok w1] s2]. by apply IH.
Qed.

Lemma parse_redirs fuel :
  (forall s c r, parseline fuel s = Good c r -> redirs_ok c) /\
  (forall s c r, parsepipe fuel s = Good c r -> redirs_ok c) /\
  (forall s c r, parseexec fuel s = Good c r -> redirs_ok c) /\
  (forall s c r, parseblock fuel s = Good c r -> redirs_ok c).
Proof.
  induction fuel as [|fuel (IH1 & IH2 & IH3 & IH4)]; [done|].
  split_and!; intros s c r; cbn [parseline parsepipe parseexec parseblock].
  - intros (c1 & s1 & H1 & E)%pbind_Good. apply pbind_Good in E as (c2 & s2 & H2 & E).
    apply IH2 in H1. apply (parseback_fds _ _ _ _ _ H1) in H2.
    destruct (peek s2 _) as [b s3]. destruct b; [|by injection E as <- <-].
    destruct (gettoken s3) as [[tok w] s4]. apply pbind_Good in E as (c3 & s5 & H3 & E). injection E as <- <-.
    split; [done|by eapply IH1].
  - intros (c1 & s1 & H1 & E)%pbind_Good. apply IH3 in H1.
    destruct (peek s1 _) as [b s3]. destruct b; [|by injection E as <- <-].
    destruct (gettoken s3) as [[tok w] s4]. apply pbind_Good in E as (c3 & s5 & H3 & E). injection E as <- <-.
    split; [done|by eapply IH2].
  - destruct (peek s _) as [b s3]. destruct b; [by apply IH4|].
    intros (l1 & s1 & H1 & E)%pbind_Good. apply pbind_Good in E as ([ws l2] & s2 & H2 & E). injection E as <- <-.
    apply add_redirs_ok; [done|]. apply Forall_app. split; [by eapply parseredirs_fds|by eapply parseargs_fds].
  - destruct (peek s _) as [b s3]. destruct (negb b); [done|]. destruct (gettoken s3) as [[tok w] s4].
    intros (c1 & s1 & H1 & E)%pbind_Good. apply IH1 in H1. destruct (peek s1 _) as [b' s5]. destruct (negb b'); [done|].
    destruct (gettoken s5) as [[tok' w'] s6]. apply pbind_Good in E as (l & s7 & H2 & E). injection E as <- <-.
    apply add_redirs_ok; [done|by eapply parseredirs_fds].
Qed.

(** ** Theorem *)

(** C18: running a command line.  The process that runs a line the parser
    accepts, with the three standard descriptors open and no other, and the
    processes it forks do exactly what the command says, whichever of their
    calls of [open], [pipe], [fork] and [exec] fail.  A program starts with a
    redirected file in the place of its descriptor and with the two ends of a
    pipe at the output of one side and the input of the other; the shell waits
    for both sides of a pipe and for the left side of a list, but not for a
    background command; a call that fails is reported and ends the process.
    Every program started and every process that waits has the three standard
    descriptors and no other: no end of a pipe stays open by mistake. *)
Theorem shell_acts fails line c f n k :
  parsecmd (until_nul line) = Good c [] -> std f ->
  let '(l, n', k') := plan fails c f n k in
  acts fails (run_line line) f n k l n' k' /\ cleans l.
Proof.
  intros Hp Hf. unfold run_line. cbv zeta. unfold parsecmd in Hp. set (s := until_nul line) in *.
  apply pbind_Good in Hp as (c' & r & Hl & E). rewrite Hl. destruct (peek r []) as [b [|x y]] eqn:Ep; cbn [snd] in *; [|done].
  injection E as <-. apply runcmd_does; [done|]. exact (proj1 (parse_redirs (parse_fuel s)) _ _ _ Hl).
Qed.

(** "a | b > f" *)
Definition demo_line : list Z := [97; 32; 124; 32; 98; 32; 62; 32; 102; 10].
Definition demo_fds : fdtable := {[0 := Inherited 0; 1 := Inherited 1; 2 := Inherited 2]}.

(** The file of the right side cannot be opened. *)
Lemma shell_acts_witness :
  acts (fun k => bool_decide (k = 4%nat)) (run_line demo_line) demo_fds 0 0
    [AFork [AExec [97] [[97]] (<[1 := PipeWr 0]> demo_fds)];
     AFork (says 2 (str "open f failed" ++ nl) ++ [AExit (delete 1 (<[0 := PipeRd 0]> demo_fds))]);
     AWait demo_fds; AWait demo_fds; AExit demo_fds] 1 5 /\
  std (<[1 := PipeWr 0]> demo_fds).
Proof.
  destruct (shell_acts (fun k => bool_decide (k = 4%nat)) demo_line
    (PIPE (EXEC [[97]]) (REDIR (EXEC [[98]]) [102] (O_WRONLY .| O_CREATE) 1)) demo_fds 0 0) as [Hs Hc].
  - vm_compute. reflexivity.
  - intros x. unfold demo_fds. split.
    + intros [o Ho]. repeat (apply lookup_insert_Some in Ho as [[<- _]|[_ Ho]]; [lia|]).
      by apply lookup_singleton_Some in Ho as [<- _].
    + intros Hx. assert (x = 0 \/ x = 1 \/ x = 2) as [->|[->| ->]] by lia; vm_compute; eauto.
  - split; [exact Hs|]. exact (proj1 (proj1 Hc)).
Defined.
