(* ===== verification/Boot.v ===== *)
(** bootmain.c: the boot loader, which reads the kernel from the disk.

    The state is the devices and the physical memory.  The result is the entry
    point it jumps to, or none when the image is not an ELF file. *)

From stdpp Require Import prelude strings functions gmap list.
From S2P Require Import Prelude Bytes Param CString Kalloc Vm Hw Exec.

Record boot := Boot { bt_hw : hw; bt_mem : mem }.

Definition bhw {A} : M hw A -> M boot A := lift bt_hw (fun h s => Boot h (bt_mem s)).
Definition bmem (f : mem -> mem) : M boot unit := modify (fun s => Boot (bt_hw s) (f (bt_mem s))).

Definition SECTSIZE : Z := 512.
Definition ELF_AT : Z := 65536.   (* 0x10000 *)

Fixpoint waitdisk_loop (fuel : nat) : M hw unit :=
  match fuel with
  | O => fault "waiting for a device"
  | S fuel => r ← inb 503; if r .& 192 =? 64 then mret tt else waitdisk_loop fuel
  end.

Definition waitdisk : M hw unit := h ← get; waitdisk_loop (length (hw_in h)).

Definition readsect (dst offset : Z) : M boot unit :=
  bhw waitdisk;;
  bhw (outb 498 1);;
  bhw (outb 499 offset);;
  bhw (outb 500 (offset >> 8));;
  bhw (outb 501 (offset >> 16));;
  bhw (outb 502 ((offset >> 24) .| 224));;
  bhw (outb 503 32);;
  bhw waitdisk;;
  ws ← bhw (insl 496 (Z.to_nat (SECTSIZE / 4)));
  bmem (put_bytes dst (concat (le_split 4 <$> ws))).

(** [for(; pa < epa; pa += SECTSIZE, offset++)] *)
Fixpoint readseg_loop (fuel : nat) (pa epa offset : Z) : M boot unit :=
  if pa <? epa then
    match fuel with
    | O => fault "fuel"
    | S fuel => readsect pa offset;; readseg_loop fuel (u32 (pa + SECTSIZE)) epa (u32 (offset + 1))
    end
  else mret tt.

Definition readseg (pa count offset : Z) : M boot unit :=
  let epa := u32 (pa + count) in
  let pa := u32 (pa - offset mod SECTSIZE) in
  let offset := offset / SECTSIZE + 1 in
  readseg_loop (Z.to_nat (epa / SECTSIZE + 1)) pa epa offset.

(** A field of the headers in memory. *)
Definition field (k : nat) (addr : Z) : M boot Z :=
  gets (fun s => le_combine ((fun i => bt_mem s (addr + i)) <$> upto (Z.of_nat k))).

(** [for(; ph < eph; ph++)] *)
Fixpoint load_phs (fuel : nat) (ph eph : Z) : M boot unit :=
  if ph <? eph then
    match fuel with
    | O => fault "fuel"
    | S fuel =>
        pa ← field 4 (ph + 12);
        filesz ← field 4 (ph + 16);
        off ← field 4 (ph + 4);
        readseg pa filesz off;;
        memsz ← field 4 (ph + 20);
        filesz ← field 4 (ph + 16);
        when (filesz <? memsz) (bmem (stosb (u32 (pa + filesz)) 0 (Z.to_nat (memsz - filesz))));;
        load_phs fuel (u32 (ph + sizeof_proghdr)) eph
    end
  else mret tt.

Definition bootmain : M boot (option Z) :=
  readseg ELF_AT 4096 0;;
  magic ← field 4 ELF_AT;
  if negb (magic =? ELF_MAGIC) then mret None
  else
    phoff ← field 4 (ELF_AT + 28);
    phnum ← field 2 (ELF_AT + 44);
    let ph := u32 (ELF_AT + phoff) in
    load_phs (Z.to_nat phnum) ph (u32 (ph + sizeof_proghdr * phnum));;
    entry ← field 4 (ELF_AT + 24);
    mret (Some entry).
