(* ===== verification/BootThms.v ===== *)
(** Theorems about bootmain.c: the kernel is in memory where its program
    headers say. *)

From Stdlib Require Import Sorted.
From stdpp Require Import prelude strings functions gmap list numbers.
From S2P Require Import Prelude Bytes Param CString CText Kalloc Vm Hw Exec Ide IdeThms FsWrite Boot.

(** ** The image on the disk *)

(** The bytes of a sector, from the 128 words the controller transfers. *)
Definition sector_bytes (D : Z -> list Z) (s : Z) : list Z := concat (le_split 4 <$> (u32 <$> D s)).

(** Byte [i] of the kernel image, which starts at sector 1. *)
Definition img (D : Z -> list Z) (i : Z) : Z := (sector_bytes D (i / 512 + 1)).[i mod 512].
Definition ifield (D : Z -> list Z) (k : nat) (a : Z) : Z := le_combine ((fun i => img D (a + i)) <$> upto (Z.of_nat k)).

(** The disk answers the reads of a list of sectors: before each command and
    before its data it is busy for a while. *)
Inductive script (D : Z -> list Z) : list Z -> list Z -> list Z -> Prop :=
| script_nil ins : script D [] ins ins
| script_cons s ss b1 r1 b2 r2 ins rest :
    Forall (fun b => ready b = false) b1 -> ready r1 = true ->
    Forall (fun b => ready b = false) b2 -> ready r2 = true ->
    script D ss ins rest ->
    script D (s :: ss) (b1 ++ r1 :: b2 ++ r2 :: D s ++ ins) rest.

(** The sectors of [n] bytes at [off] of the image. *)
Definition sectors_of (n off : Z) : list Z :=
  seqZ (off / 512 + 1) ((n + off mod 512 + 511) / 512).

Definition asked_for (ev : list event) (s : Z) : Prop :=
  decode ev = Command false 0 s [] /\ last_out 503 ev = 32.

Lemma script_app D ss1 ss2 ins rest :
  script D (ss1 ++ ss2) ins rest -> exists mid, script D ss1 ins mid /\ script D ss2 mid rest.
Proof.
  revert ins. induction ss1 as [|s ss1 IH]; intros ins H; cbn [app] in H; [exists ins; split; [constructor|done]|].
  inversion H; subst. destruct (IH _ ltac:(eassumption)) as (mid & Hl & Hr). exists mid. split; [by constructor|done].
Qed.

Lemma length_sector_bytes D s : length (D s) = 128%nat -> length (sector_bytes D s) = 512%nat.
Proof. intros H. unfold sector_bytes. by rewrite length_concat_words, length_fmap, H. Qed.

(** ** A sector *)

Definition quiet (e : event) : Prop := match e with Outb _ _ | Outl _ _ => False | _ => True end.

Lemma last_out_quiet port t v :
  Forall quiet t -> foldl (fun v e => match e with Outb p w => if p =? port then w else v | _ => v end) v t = v.
Proof. induction 1 as [|e t He _ IH]; [done|]. by destruct e. Qed.

Lemma out_words_quiet t : Forall quiet t -> out_words t = [].
Proof. unfold out_words. induction 1 as [|e t He _ IH]; [done|]. by destruct e. Qed.

Lemma bhw_run {A} (m : M hw A) h a h' x : m h = Ok a h' -> bhw m (Boot h x) = Ok a (Boot h' x).
Proof. unfold bhw, lift. cbn. by intros ->. Qed.

Lemma waitdisk_loop_run busy r rest fuel h :
  waits h busy r rest -> (length busy < fuel)%nat ->
  exists ev, waitdisk_loop fuel h = Ok tt (after h rest ev) /\ Forall quiet ev.
Proof.
  revert fuel h. induction busy as [|b busy IH]; intros fuel h [E Hb Hr] Hf; (destruct fuel as [|fuel]; [cbn in Hf; lia|]);
    cbn [waitdisk_loop]; cbn [app] in E; rewrite (bind_run _ _ _ _ _ (inb_run 503 _ _ h E)).
  - unfold ready in Hr. change (IDE_BSY .| IDE_DRDY) with 192 in Hr. unfold IDE_DRDY in Hr. rewrite Hr.
    eexists. split; [reflexivity|]. by repeat constructor.
  - apply Forall_cons_1 in Hb as [Hb1 Hb]. unfold ready in Hb1. change (IDE_BSY .| IDE_DRDY) with 192 in Hb1.
    unfold IDE_DRDY in Hb1. rewrite Hb1.
    destruct (IH fuel (after h (busy ++ r :: rest) [Inb 503 (u8 b)])) as (ev & Hrun & Hev); [by split|cbn in Hf; lia|].
    exists (Inb 503 (u8 b) :: ev). rewrite Hrun, after_after. split; [done|]. by constructor.
Qed.

Lemma waitdisk_run busy r rest h :
  waits h busy r rest -> exists ev, waitdisk h = Ok tt (after h rest ev) /\ Forall quiet ev.
Proof.
  intros W. unfold waitdisk. erewrite bind_run; [|reflexivity]. apply (waitdisk_loop_run busy r); [done|].
  rewrite (wt_in _ _ _ _ W), length_app. cbn. lia.
Qed.

(** The registers of a sector number below 2^28. *)
Lemma boot_sector s :
  0 <= s < 2 ^ 28 ->
  let v := u8 ((s >> 24) .| 224) in
  (v >> 4) .& 1 = 0 /\ u8 s + (u8 (s >> 8) << 8) + (u8 (s >> 16) << 16) + ((v .& 15) << 24) = s.
Proof.
  intros Hs v. assert (0 <= s >> 24 < 16) as Hb.
  { rewrite Z.shiftr_div_pow2 by lia. split; [apply Z.div_pos; lia|apply Z.div_lt_upper_bound; lia]. }
  assert ((v >> 4) .& 1 = 0 /\ v .& 15 = s >> 24) as [-> ->].
  { unfold v. clear v. generalize dependent (s >> 24). intros b Hb.
    assert (b = 0 \/ b = 1 \/ b = 2 \/ b = 3 \/ b = 4 \/ b = 5 \/ b = 6 \/ b = 7 \/ b = 8 \/ b = 9 \/ b = 10 \/
      b = 11 \/ b = 12 \/ b = 13 \/ b = 14 \/ b = 15) as Eb by lia.
    repeat destruct Eb as [-> |Eb]; try (subst b); vm_compute; done. }
  split; [done|]. unfold u8. rewrite !Z.shiftl_mul_pow2, !Z.shiftr_div_pow2 by lia.
  change (2 ^ 8) with 256. change (2 ^ 16) with 65536. change (2 ^ 24) with 16777216.
  pose proof (Z.div_mod s 256). pose proof (Z.div_mod (s / 256) 256). pose proof (Z.div_mod (s / 65536) 256).
  rewrite Z.div_div in * by lia. change (256 * 256) with 65536 in *. change (65536 * 256) with 16777216 in *. lia.
Qed.

Lemma readsect_run D dst s b1 r1 b2 r2 ins h m :
  hw_in h = b1 ++ r1 :: b2 ++ r2 :: D s ++ ins ->
  Forall (fun b => ready b = false) b1 -> ready r1 = true ->
  Forall (fun b => ready b = false) b2 -> ready r2 = true ->
  length (D s) = 128%nat -> 0 <= s < 2 ^ 28 ->
  exists ev, readsect dst s (Boot h m) = Ok tt (Boot (after h ins ev) (put_bytes dst (sector_bytes D s) m)) /\
    asked_for ev s.
Proof.
  intros E B1 R1 B2 R2 HD Hs.
  destruct (waitdisk_run b1 r1 (b2 ++ r2 :: D s ++ ins) h) as (ev1 & W1 & Q1); [by split|].
  unfold readsect. rewrite (bind_run _ _ _ _ _ (bhw_run _ _ _ _ m W1)).
  do 6 (erewrite bind_run; [|apply bhw_run, outb_run]). rewrite !after_after. cbn [hw_in after with_in with_trace].
  match goal with |- context [after h ?i ?t] =>
    destruct (waitdisk_run b2 r2 (D s ++ ins) (after h i t)) as (ev2 & W2 & Q2); [by split|] end.
  rewrite (bind_run _ _ _ _ _ (bhw_run _ _ _ _ m W2)), after_after.
  change (Z.to_nat (SECTSIZE / 4)) with 128%nat. rewrite <- HD.
  erewrite bind_run; [|apply bhw_run, insl_run; reflexivity]. rewrite after_after.
  eexists. split; [reflexivity|].
  assert (Forall quiet ((Inl 496 ∘ u32) <$> D s)) as Q3 by (apply Forall_fmap, Forall_true; done).
  unfold asked_for, decode. rewrite !out_words_app, !(out_words_quiet _ Q1), (out_words_quiet _ Q2), (out_words_quiet _ Q3).
  unfold last_out. rewrite !foldl_app, !(fun p v => last_out_quiet p _ v Q3), !(fun p v => last_out_quiet p _ v Q2),
    !(fun p v => last_out_quiet p _ v Q1).
  cbn -[u8 Z.land Z.lor Z.shiftl Z.shiftr Z.pow].
  destruct (boot_sector s Hs) as [-> ->]. done.
Qed.

(** ** A segment *)

(** What the sectors from [s] on, read to [pa], leave at [x]. *)
Definition sectors_at (D : Z -> list Z) (s pa x : Z) : Z := (sector_bytes D (s + (x - pa) / 512)).[(x - pa) mod 512].

Lemma sectors_at_first D s pa x : pa <= x < pa + 512 -> sectors_at D s pa x = (sector_bytes D s).[x - pa].
Proof. intros H. unfold sectors_at. rewrite Z.div_small, Z.mod_small by lia. by rewrite Z.add_0_r. Qed.

Lemma sectors_at_next D s pa x : sectors_at D (s + 1) (pa + 512) x = sectors_at D s pa x.
Proof.
  unfold sectors_at. replace (x - pa) with (x - (pa + 512) + 1 * 512) by lia.
  rewrite Z.div_add, Z_mod_plus_full by lia. do 2 f_equal. lia.
Qed.

Lemma readseg_loop_run D (HD : forall s, length (D s) = 128%nat) k : forall fuel pa epa s rest h m,
  script D (seqZ s (Z.of_nat k)) (hw_in h) rest -> (k <= fuel)%nat ->
  pa + 512 * Z.of_nat k - 512 < epa <= pa + 512 * Z.of_nat k ->
  0 <= pa -> pa + 512 * Z.of_nat k < 2 ^ 32 -> 0 <= s -> s + Z.of_nat k <= 2 ^ 28 ->
  exists evs m', readseg_loop fuel pa epa s (Boot h m) = Ok tt (Boot (after h rest (concat evs)) m') /\
    Forall2 asked_for evs (seqZ s (Z.of_nat k)) /\
    forall x, m' x = if decide (pa <= x < pa + 512 * Z.of_nat k) then sectors_at D s pa x else m x.
Proof.
  induction k as [|k IH]; intros fuel pa epa s rest h m Hsc Hf He H0 H1 H2 H3.
  - inversion Hsc; subst. exists [], m. split_and!; [|constructor|intros x; by rewrite decide_False by lia].
    unfold after. cbn. rewrite app_nil_r.
    destruct fuel; cbn [readseg_loop]; rewrite (proj2 (Z.ltb_ge _ _)) by lia; by destruct h.
  - rewrite Nat2Z.inj_succ in *. rewrite seqZ_cons in * by lia. rewrite Z.pred_succ in *.
    inversion Hsc as [|? ? b1 r1 b2 r2 ins ? B1 R1 B2 R2 Hsc' Es Ei]; subst.
    destruct fuel as [|fuel]; [lia|]. cbn [readseg_loop]. rewrite (proj2 (Z.ltb_lt _ _)) by lia.
    destruct (readsect_run D pa s b1 r1 b2 r2 ins h m (eq_sym Ei) B1 R1 B2 R2 (HD s) ltac:(lia)) as (ev & Hrun & Ha).
    rewrite (bind_run _ _ _ _ _ Hrun). unfold SECTSIZE. rewrite !u32_small by lia.
    destruct (IH fuel (pa + 512) epa (s + 1) rest (after h ins ev) (put_bytes pa (sector_bytes D s) m))
      as (evs & m' & Hrun' & Has & Hm); [done|lia..|].
    exists (ev :: evs), m'. rewrite Hrun'. split_and!; [by rewrite after_after|by constructor|].
    intros x. rewrite Hm, put_bytes_at, length_sector_bytes, sectors_at_next by done.
    destruct (decide (pa <= x < pa + 512)); [|repeat case_decide; done || lia].
    rewrite decide_False, !decide_True by lia. by rewrite sectors_at_first.
Qed.

(** The range [readseg] writes: whole sectors. *)
Definition seg_first (pa off : Z) : Z := pa - off mod 512.
Definition seg_last (pa n off : Z) : Z := seg_first pa off + 512 * ((n + off mod 512 + 511) / 512).

Lemma seg_covers pa n off : 0 <= n -> 0 <= off ->
  seg_first pa off <= pa /\ pa + n <= seg_last pa n off < pa + n + 512.
Proof.
  intros Hn Ho. unfold seg_last, seg_first. pose proof (Z.mod_pos_bound off 512 ltac:(lia)).
  pose proof (Z.div_mod (n + off mod 512 + 511) 512 ltac:(lia)).
  pose proof (Z.mod_pos_bound (n + off mod 512 + 511) 512 ltac:(lia)). lia.
Qed.

Lemma readseg_run D (HD : forall s, length (D s) = 128%nat) pa n off rest h m :
  script D (sectors_of n off) (hw_in h) rest -> is_u32 n -> is_u32 off ->
  0 <= seg_first pa off -> seg_last pa n off < 2 ^ 32 ->
  exists evs m', readseg pa n off (Boot h m) = Ok tt (Boot (after h rest (concat evs)) m') /\
    Forall2 asked_for evs (sectors_of n off) /\
    forall x, m' x = if decide (seg_first pa off <= x < seg_last pa n off) then img D (off + (x - pa)) else m x.
Proof.
  intros Hsc Hn Ho H0 H1. destruct (seg_covers pa n off) as [Hp He]; [lia..|]. unfold readseg, SECTSIZE.
  fold (seg_first pa off). rewrite !u32_small by lia. unfold sectors_of in *.
  unfold seg_last in *. pose proof (Z.mod_pos_bound off 512 ltac:(lia)).
  assert (0 <= off / 512 < 2 ^ 23) as Hq by (split; [apply Z.div_pos; lia|apply Z.div_lt_upper_bound; lia]).
  set (k := (n + off mod 512 + 511) / 512) in *. assert (0 <= k <= 2 ^ 24) as Hk.
  { unfold k. split; [apply Z.div_pos; lia|]. apply Z.div_le_upper_bound; lia. }
  rewrite <- (Z2Nat.id k) in Hsc, H1, He |- * by lia.
  destruct (readseg_loop_run D HD (Z.to_nat k) (Z.to_nat ((pa + n) / 512 + 1)) (seg_first pa off) (pa + n)
    (off / 512 + 1) rest h m) as (evs & m' & Hrun & Has & Hm); try done; try lia.
  { apply Z2Nat.inj_le; [lia|apply Z.add_nonneg_nonneg; [apply Z.div_pos|]; lia|].
    rewrite Z2Nat.id in He by lia. pose proof (Z.div_mod (pa + n) 512 ltac:(lia)).
    pose proof (Z.mod_pos_bound (pa + n) 512 ltac:(lia)). lia. }
  exists evs, m'. split_and!; [done..|]. intros x. rewrite Hm. destruct (decide _) as [Hx|]; [|done].
  unfold sectors_at, img, seg_first. replace (x - (pa - off mod 512)) with (off mod 512 + (x - pa)) by lia.
  pose proof (Z.div_mod off 512 ltac:(lia)) as Eo.
  replace (off + (x - pa)) with (off mod 512 + (x - pa) + off / 512 * 512) by lia.
  rewrite Z.div_add, Z_mod_plus_full by lia. do 2 f_equal. lia.
Qed.

(** ** The headers *)

Record pheader := PH { p_off : Z; p_paddr : Z; p_filesz : Z; p_memsz : Z }.

(** The program header at [a] of the image, and all of them. *)
Definition header_at (D : Z -> list Z) (a : Z) : pheader :=
  PH (ifield D 4 (a + 4)) (ifield D 4 (a + 12)) (ifield D 4 (a + 16)) (ifield D 4 (a + 20)).
Definition headers (D : Z -> list Z) (a : Z) (n : nat) : list pheader :=
  (fun k => header_at D (a + sizeof_proghdr * k)) <$> seqZ 0 (Z.of_nat n).
Definition phs (D : Z -> list Z) : list pheader := headers D (ifield D 4 28) (Z.to_nat (ifield D 2 44)).

Definition p_first (p : pheader) : Z := seg_first (p_paddr p) (p_off p).
Definition p_end (p : pheader) : Z := p_paddr p + Z.max (p_filesz p) (p_memsz p).
Definition p_sectors (p : pheader) : list Z := sectors_of (p_filesz p) (p_off p).

(** The segment is in memory: its bytes of the file, then zeros. *)
Definition placed (D : Z -> list Z) (m : mem) (p : pheader) : Prop :=
  forall j, 0 <= j < Z.max (p_filesz p) (p_memsz p) ->
    m (p_paddr p + j) = if j <? p_filesz p then img D (p_off p + j) else 0.

(** The page of the headers is in the scratch space. *)
Definition scratch (D : Z -> list Z) (m : mem) : Prop := forall i, 0 <= i < 4096 -> m (ELF_AT + i) = img D i.

(** A segment lies above the scratch space and ends within a 32-bit address. *)
Definition fits (p : pheader) : Prop := ELF_AT + 4096 <= p_first p /\ p_end p + 512 <= 2 ^ 32.

(** A disk with a kernel that can be loaded: an ELF header, the program headers
    in the first page, and segments in increasing order of address. *)
Record bootable (D : Z -> list Z) : Prop := {
  bo_sectors : forall s, length (D s) = 128%nat;
  bo_magic : ifield D 4 0 = ELF_MAGIC;
  bo_headers : ifield D 4 28 + sizeof_proghdr * ifield D 2 44 <= 4096;
  bo_fit : Forall fits (phs D);
  bo_order : StronglySorted (fun p q => p_end p <= p_first q) (phs D)
}.

Lemma sector_bytes_ok D s : bytes_ok (sector_bytes D s).
Proof.
  unfold sector_bytes. generalize (u32 <$> D s). intros l. induction l as [|w l IH]; [constructor|].
  cbn -[le_split]. apply Forall_app. split; [apply le_split_ok|exact IH].
Qed.

Lemma ifield_range D k a : 0 <= ifield D k a < 256 ^ Z.of_nat k.
Proof.
  unfold ifield. replace k with (length ((fun i => img D (a + i)) <$> upto (Z.of_nat k))) at 3.
  - apply le_combine_range, Forall_fmap, Forall_true. intros i. cbn. unfold img.
    destruct (nth_in_or_default (Z.to_nat ((a + i) mod 512)) (sector_bytes D ((a + i) / 512 + 1)) 0) as [H | ->]; [|lia].
    exact (proj1 (Forall_forall _ _) (sector_bytes_ok D _) _ H).
  - by rewrite length_fmap, length_upto, Nat2Z.id.
Qed.

Lemma ifield_u32 D a : is_u32 (ifield D 4 a).
Proof. exact (ifield_range D 4 a). Qed.

Lemma field_run D m h k a :
  scratch D m -> 0 <= a -> a + Z.of_nat k <= 4096 -> field k (ELF_AT + a) (Boot h m) = Ok (ifield D k a) (Boot h m).
Proof.
  intros Hm H0 H1. unfold field, gets, ifield. cbn [bt_mem]. do 2 f_equal. apply list_fmap_ext. intros i x Hx.
  apply lookup_upto in Hx. rewrite <- Z.add_assoc. apply Hm. lia.
Qed.

Lemma headers_S D a n : headers D a (S n) = header_at D a :: headers D (a + sizeof_proghdr) n.
Proof.
  unfold headers. rewrite Nat2Z.inj_succ, seqZ_cons, Z.pred_succ by lia. cbn [fmap list_fmap].
  rewrite Z.mul_0_r, Z.add_0_r. f_equal. rewrite <- (fmap_add_seqZ 1 0), <- list_fmap_compose.
  apply list_fmap_ext. intros i x _. cbn. f_equal. lia.
Qed.

Lemma scratch_below D m m' :
  (forall x, x < ELF_AT + 4096 -> m' x = m x) -> scratch D m -> scratch D m'.
Proof. intros E H i Hi. rewrite E by lia. by apply H. Qed.

(** ** A header of the loop *)

(** The first segment of the loop, then the rest. *)
Lemma load_phs_step D (HD : forall s, length (D s) = 128%nat) fuel a eph mid h m :
  let p := header_at D a in
  scratch D m -> 0 <= a -> a + sizeof_proghdr <= 4096 -> ELF_AT + a < eph -> fits p ->
  script D (p_sectors p) (hw_in h) mid ->
  exists evs m', load_phs (S fuel) (ELF_AT + a) eph (Boot h m) =
      load_phs fuel (ELF_AT + (a + sizeof_proghdr)) eph (Boot (after h mid (concat evs)) m') /\
    Forall2 asked_for evs (p_sectors p) /\ placed D m' p /\ forall x, x < p_first p -> m' x = m x.
Proof.
  intros p Hm H0 H1 He [Hf1 Hf2] Hsc. unfold sizeof_proghdr in *.
  pose proof (ifield_u32 D (a + 4)) as Ho. pose proof (ifield_u32 D (a + 16)) as Hn.
  pose proof (ifield_u32 D (a + 20)) as Hz. pose proof (seg_covers (p_paddr p) (p_filesz p) (p_off p)
    (proj1 Hn) (proj1 Ho)) as [Hc1 Hc2].
  unfold p_end, p_first, ELF_AT in Hf1, Hf2.
  destruct (readseg_run D HD (p_paddr p) (p_filesz p) (p_off p) mid h m Hsc Hn Ho) as (evs & m1 & Hrun & Has & Hm1);
    [lia..|].
  assert (forall x, x < p_first p -> m1 x = m x) as Hlow.
  { intros x Hx. rewrite Hm1. unfold p_first in Hx. by rewrite decide_False by lia. }
  assert (scratch D m1) as Hs1.
  { apply (scratch_below D m); [|done]. intros x Hx. apply Hlow. unfold p_first, ELF_AT in *. lia. }
  cbn [load_phs]. rewrite (proj2 (Z.ltb_lt _ _) He), <- !Z.add_assoc.
  do 3 (erewrite bind_run; [|apply field_run; [exact Hm|lia..]]). rewrite (bind_run _ _ _ _ _ Hrun).
  do 2 (erewrite bind_run; [|apply field_run; [exact Hs1|lia..]]).
  change (ifield D 4 (a + 16)) with (p_filesz p) in *. change (ifield D 4 (a + 20)) with (p_memsz p) in *.
  change (ifield D 4 (a + 12)) with (p_paddr p). rewrite (u32_small (p_paddr p + p_filesz p)) by lia.
  rewrite (u32_small (ELF_AT + (a + sizeof_proghdr))) by (unfold ELF_AT, sizeof_proghdr; lia).
  assert (forall x, p_paddr p <= x < p_paddr p + p_filesz p -> m1 x = img D (p_off p + (x - p_paddr p))) as Hin.
  { intros x Hx. rewrite Hm1, decide_True by lia. done. }
  destruct (Z.ltb_spec (p_filesz p) (p_memsz p)) as [Hlt|Hge]; cbn [when].
  - erewrite bind_run; [|reflexivity]. cbn [bt_hw bt_mem]. eexists evs, _. split_and!; [reflexivity|done|..].
    + intros j Hj. rewrite stosb_spec. destruct (Z.ltb_spec j (p_filesz p)).
      * rewrite decide_False, Hin by lia. f_equal. lia.
      * by rewrite decide_True by lia.
    + intros x Hx. rewrite stosb_spec. unfold p_first in Hx. rewrite decide_False by lia. by apply Hlow.
  - erewrite bind_run; [|reflexivity]. exists evs, m1. split_and!; [done..| |done].
    intros j Hj. rewrite (proj2 (Z.ltb_lt _ _)), Hin by lia. f_equal. lia.
Qed.

Lemma placed_below D m m' p q :
  placed D m p -> p_end p <= q -> (forall x, x < q -> m' x = m x) -> placed D m' p.
Proof. intros H Hq E j Hj. rewrite E by (unfold p_end in Hq; lia). by apply H. Qed.

Lemma load_phs_run D (HD : forall s, length (D s) = 128%nat) n : forall fuel a rest h m low,
  let l := headers D a n in
  scratch D m -> 0 <= a -> a + sizeof_proghdr * Z.of_nat n <= 4096 -> (n <= fuel)%nat ->
  Forall fits l -> StronglySorted (fun p q => p_end p <= p_first q) l -> Forall (fun q => low <= p_first q) l ->
  script D (concat (p_sectors <$> l)) (hw_in h) rest ->
  exists evs m', load_phs fuel (ELF_AT + a) (ELF_AT + (a + sizeof_proghdr * Z.of_nat n)) (Boot h m) =
      Ok tt (Boot (after h rest (concat evs)) m') /\
    Forall2 asked_for evs (concat (p_sectors <$> l)) /\ Forall (placed D m') l /\ scratch D m' /\
    forall x, x < low -> m' x = m x.
Proof.
  unfold sizeof_proghdr. induction n as [|n IH]; intros fuel a rest h m low Hm H0 H1 Hf Hfit Hord Hlow Hsc.
  - cbn in Hsc. inversion Hsc; subst. exists [], m. split_and!; try done; try constructor.
    unfold after. cbn. rewrite app_nil_r.
    destruct fuel; cbn [load_phs]; rewrite (proj2 (Z.ltb_ge _ _)) by lia; by destruct h.
  - rewrite headers_S in *. cbn [fmap list_fmap concat] in *.
    apply Forall_cons_1 in Hfit as [Hp Hfit]. apply Forall_cons_1 in Hlow as [Hl Hlow].
    apply StronglySorted_inv in Hord as [Hord Hpq]. apply script_app in Hsc as (mid & Hs1 & Hs2).
    destruct fuel as [|fuel]; [lia|]. unfold sizeof_proghdr in *.
    destruct (load_phs_step D HD fuel a (ELF_AT + (a + 32 * Z.of_nat (S n))) mid h m) as (evs1 & m1 & Hrun1 & A1 & P1 & L1);
      try done; unfold sizeof_proghdr; try lia.
    destruct (IH fuel (a + 32) rest (after h mid (concat evs1)) m1 (p_end (header_at D a)))
      as (evs2 & m2 & Hrun2 & A2 & P2 & S2 & L2); try done; try lia.
    { apply (scratch_below D m); [|done]. intros x Hx. apply L1. destruct Hp as [Hp _]. lia. }
    exists (evs1 ++ evs2), m2. rewrite Hrun1. unfold sizeof_proghdr.
    replace (a + 32 * Z.of_nat (S n)) with (a + 32 + 32 * Z.of_nat n) by lia. rewrite Hrun2, after_after, concat_app.
    split_and!; [done|by apply Forall2_app| |done|].
    + constructor; [|done]. by eapply placed_below.
    + intros x Hx. rewrite L2, L1; [done|lia|].
      destruct (seg_covers (p_paddr (header_at D a)) (p_filesz (header_at D a)) (p_off (header_at D a))) as [Hc _];
        [apply ifield_u32..|]. pose proof (ifield_u32 D (a + 16)). unfold p_end, p_first in *. cbn in *. lia.
Qed.

(** ** bootmain *)

(** The first page is in the scratch space. *)
Lemma first_page D (HD : forall s, length (D s) = 128%nat) mid h m :
  script D (sectors_of 4096 0) (hw_in h) mid ->
  exists evs m', readseg ELF_AT 4096 0 (Boot h m) = Ok tt (Boot (after h mid (concat evs)) m') /\
    Forall2 asked_for evs (sectors_of 4096 0) /\ scratch D m'.
Proof.
  intros Hsc. destruct (readseg_run D HD ELF_AT 4096 0 mid h m Hsc) as (evs & m' & Hrun & Has & Hm'); try done.
  exists evs, m'. split_and!; [done..|]. intros i Hi. rewrite Hm', decide_True.
  - f_equal. lia.
  - change (seg_first ELF_AT 0) with ELF_AT. change (seg_last ELF_AT 4096 0) with (ELF_AT + 4096). lia.
Qed.

(** A disk without the magic number: the first page is read, and bootasm.S
    handles the error. *)
Lemma bootmain_not_elf D h m rest :
  (forall s, length (D s) = 128%nat) -> ifield D 4 0 <> ELF_MAGIC -> script D (sectors_of 4096 0) (hw_in h) rest ->
  exists evs m', bootmain (Boot h m) = Ok None (Boot (after h rest (concat evs)) m') /\
    Forall2 asked_for evs (sectors_of 4096 0).
Proof.
  intros HD Hmag Hsc. destruct (first_page D HD rest h m Hsc) as (evs & m' & Hrun & Has & Hm).
  exists evs, m'. split; [|done]. unfold bootmain. rewrite (bind_run _ _ _ _ _ Hrun).
  erewrite bind_run; [|apply (field_run D m' _ 4 0); [done|lia..]]. by rewrite (proj2 (Z.eqb_neq _ _) Hmag).
Qed.

(** C15: the boot loader loads the kernel.  From a disk whose image has an ELF
    header, its program headers in the first page and its segments in increasing
    order above the scratch space, [bootmain] reaches the entry point of the
    header, however long the disk is busy.  It asks the disk for the eight
    sectors of the first page, then for those of each segment in turn, and for
    nothing else.  At the end every segment is in memory at its physical address,
    the bytes of the file followed by zeros, although whole sectors are read. *)
Theorem bootmain_loads D h m rest :
  bootable D ->
  let asked := sectors_of 4096 0 ++ concat (p_sectors <$> phs D) in
  script D asked (hw_in h) rest ->
  exists evs m', bootmain (Boot h m) = Ok (Some (ifield D 4 24)) (Boot (after h rest (concat evs)) m') /\
    Forall2 asked_for evs asked /\ Forall (placed D m') (phs D).
Proof.
  intros [HD Hmag Hh Hfit Hord] asked Hsc. apply script_app in Hsc as (mid & Hs1 & Hs2).
  destruct (first_page D HD mid h m Hs1) as (evs1 & m1 & Hrun1 & A1 & S1). unfold sizeof_proghdr in Hh.
  pose proof (ifield_u32 D 28). pose proof (ifield_range D 2 44) as Hn. change (256 ^ Z.of_nat 2) with 65536 in Hn.
  destruct (load_phs_run D HD (Z.to_nat (ifield D 2 44)) (Z.to_nat (ifield D 2 44)) (ifield D 4 28) rest
    (after h mid (concat evs1)) m1 ELF_AT) as (evs2 & m2 & Hrun2 & A2 & P2 & S2 & _); try done; unfold sizeof_proghdr; try lia.
  { eapply Forall_impl; [|exact Hfit]. intros p [Hp _]. lia. }
  exists (evs1 ++ evs2), m2. split_and!; [|by apply Forall2_app|done].
  unfold bootmain. rewrite (bind_run _ _ _ _ _ Hrun1).
  erewrite bind_run; [|apply (field_run D m1 _ 4 0); [done|lia..]]. rewrite Hmag, Z.eqb_refl. cbn [negb].
  erewrite bind_run; [|apply (field_run D m1 _ 4 28); [done|lia..]].
  erewrite bind_run; [|apply (field_run D m1 _ 2 44); [done|lia..]]. cbv zeta. unfold sizeof_proghdr in *.
  rewrite (u32_small (ELF_AT + _)), u32_small by (unfold ELF_AT; lia). rewrite <- Z.add_assoc.
  rewrite Z2Nat.id in Hrun2 by lia. rewrite (bind_run _ _ _ _ _ Hrun2).
  erewrite bind_run; [|apply (field_run D m2 _ 4 24); [done|lia..]]. by rewrite after_after, concat_app.
Qed.

(** A kernel of one segment: three bytes of sector 2 for 0x100000, then two
    zeros; it starts at 0x10000c. *)
Definition demo_image (s : Z) : list Z :=
  if s =? 1 then [ELF_MAGIC; 0; 0; 0; 0; 0; 1048588; 52; 0; 0; 0; 1; 0; 1; 512; 0; 1048576; 3; 5] ++ replicate 109 0
  else replicate 128 (16909060 * s).

Lemma script_ready D ss : script D ss (concat ((fun s => 64 :: 64 :: D s) <$> ss)) [].
Proof. induction ss as [|s ss IH]; [constructor|]. by apply (script_cons D s ss [] 64 [] 64). Qed.

Lemma bootmain_loads_witness :
  exists evs m', bootmain (Boot (hw0 (concat ((fun s => 64 :: 64 :: demo_image s) <$> [1; 2; 3; 4; 5; 6; 7; 8; 2])))
      (fun _ => 255)) = Ok (Some 1048588)
      (Boot (after (hw0 (concat ((fun s => 64 :: 64 :: demo_image s) <$> [1; 2; 3; 4; 5; 6; 7; 8; 2]))) [] (concat evs)) m') /\
    Forall2 asked_for evs [1; 2; 3; 4; 5; 6; 7; 8; 2] /\ Forall (placed demo_image m') [PH 512 1048576 3 5].
Proof.
  assert (phs demo_image = [PH 512 1048576 3 5]) as E by (vm_compute; reflexivity).
  assert (bootable demo_image) as HB.
  { split.
    - intros s. unfold demo_image. by destruct (s =? 1).
    - vm_compute. reflexivity.
    - vm_compute. discriminate.
    - rewrite E. repeat constructor; vm_compute; discriminate.
    - rewrite E. repeat constructor. }
  pose proof (bootmain_loads demo_image (hw0 (concat ((fun s => 64 :: 64 :: demo_image s) <$> [1; 2; 3; 4; 5; 6; 7; 8; 2])))
    (fun _ => 255) [] HB) as H. rewrite E in H.
  change (sectors_of 4096 0 ++ concat (p_sectors <$> [PH 512 1048576 3 5])) with [1; 2; 3; 4; 5; 6; 7; 8; 2] in H.
  replace (ifield demo_image 4 24) with 1048588 in H by (vm_compute; reflexivity).
  apply H. apply script_ready.
Defined.
