(* ===== verification/Usertests.v ===== *)
(** usertests.c: the tests of the system calls, as programs.

    The variables that outlive a test are arguments: [buf], whose bytes a test
    returns when it changes them, and [uninit].  A message is printed on
    descriptor 1, the value of [stdout].  [memtest], which is mem(), runs on the heap of umalloc.c. *)

From stdpp Require Import prelude strings functions gmap list.
From S2P Require Import Prelude Bytes Param CString Kalloc Umalloc Fs Dir Sys Progs.

(** ** Common shapes *)

Definition ln (s : string) : list Z := str s ++ nl.
Definition say (msg : list Z) : prog unit := printf 1 msg [].

(** [if(b){ printf(1, msg, args); exit(); }] *)
Definition stop_if (b : bool) (msg : list Z) (args : list parg) : prog unit :=
  if b then printf 1 msg args;; exit else mret tt.

(** [if(bad(call)){ printf(1, msg); exit(); }] *)
Definition expect (bad : Z -> bool) (e : sysE Z) (msg : list Z) : prog unit :=
  r ← sys e; stop_if (bad r) msg [].

Definition neg (r : Z) : bool := r <? 0.
Definition nonneg (r : Z) : bool := 0 <=? r.
Definition zero (r : Z) : bool := r =? 0.
Definition nonzero (r : Z) : bool := negb (r =? 0).
Definition other (n r : Z) : bool := negb (r =? n).

(** A call whose answer is not looked at. *)
Definition do_ {X} (e : sysE X) : prog unit := sys e;; mret tt.

(** The array after [read] or [memset] has stored bytes at its start. *)
Definition fill (bytes buf : list Z) : list Z := bytes ++ drop (length bytes) buf.

Definition sizeof_buf : Z := 8192.

(** [for(;;);] *)
Definition spin {A} : prog A := loop (fun _ : unit => mret (inl tt)) tt.

(** The names of two characters: [c] and ['0' + i]. *)
Definition name2 (c i : Z) : list Z := [u8 c; u8 (48 + i)].

(** ** Directories and inodes *)

Definition iputtest : prog unit :=
  say (ln "iput test");;
  expect neg (Mkdir (str "iputdir")) (ln "mkdir failed");;
  expect neg (Chdir (str "iputdir")) (ln "chdir iputdir failed");;
  expect neg (Unlink (str "../iputdir")) (ln "unlink ../iputdir failed");;
  expect neg (Chdir (str "/")) (ln "chdir / failed");;
  say (ln "iput test ok").

Definition exitiputtest : prog unit :=
  say (ln "exitiput test");;
  pid ← sys Fork;
  stop_if (neg pid) (ln "fork failed") [];;
  (if zero pid then
     expect neg (Mkdir (str "iputdir")) (ln "mkdir failed");;
     expect neg (Chdir (str "iputdir")) (ln "child chdir failed");;
     expect neg (Unlink (str "../iputdir")) (ln "unlink ../iputdir failed");;
     exit
   else mret tt);;
  do_ Wait;;
  say (ln "exitiput test ok").

Definition openiputtest : prog unit :=
  say (ln "openiput test");;
  expect neg (Mkdir (str "oidir")) (ln "mkdir oidir failed");;
  pid ← sys Fork;
  stop_if (neg pid) (ln "fork failed") [];;
  (if zero pid then
     fd ← sys (Open (str "oidir") O_RDWR);
     stop_if (nonneg fd) (ln "open directory for write succeeded") [];;
     exit
   else mret tt);;
  do_ (SleepFor 1);;
  expect nonzero (Unlink (str "oidir")) (ln "unlink failed");;
  do_ Wait;;
  say (ln "openiput test ok").

(** ** Simple file system tests *)

Definition opentest : prog unit :=
  say (ln "open test");;
  fd ← sys (Open (str "echo") 0);
  stop_if (neg fd) (ln "open echo failed!") [];;
  do_ (Close fd);;
  fd ← sys (Open (str "doesnotexist") 0);
  stop_if (nonneg fd) (ln "open doesnotexist succeeded!") [];;
  say (ln "open test ok").

Definition writetest (buf : list Z) : prog (list Z) :=
  say (ln "small file test");;
  fd ← sys (Open (str "small") (O_CREATE .| O_RDWR));
  (if nonneg fd then say (ln "creat small succeeded; ok")
   else say (ln "error: creat small failed!");; exit);;
  for_list (upto 100) (fun i =>
    r ← sys (Write fd (str "aaaaaaaaaa"));
    stop_if (other 10 r) (ln "error: write aa %d new file failed") [PInt i];;
    r ← sys (Write fd (str "bbbbbbbbbb"));
    stop_if (other 10 r) (ln "error: write bb %d new file failed") [PInt i]);;
  say (ln "writes ok");;
  do_ (Close fd);;
  fd ← sys (Open (str "small") O_RDONLY);
  (if nonneg fd then say (ln "open small succeeded ok")
   else say (ln "error: open small failed!");; exit);;
  '(i, bytes) ← sys (Read fd 2000);
  (if i =? 2000 then say (ln "read succeeded ok") else say (ln "read failed");; exit);;
  do_ (Close fd);;
  expect neg (Unlink (str "small")) (ln "unlink small failed");;
  say (ln "small file test ok");;
  mret (fill bytes buf).

(** The [int] at the start of [buf]. *)
Definition first_int (buf : list Z) : Z := s32 (le_combine (take 4 buf)).

(** Writing the blocks of "big", each with its number. *)
Fixpoint write_blocks (l : list Z) (fd : Z) (buf : list Z) : prog (list Z) :=
  match l with
  | [] => mret buf
  | i :: l =>
      let buf := fill (le_split 4 i) buf in
      r ← sys (Write fd (take 512 buf));
      stop_if (other 512 r) (ln "error: write big file failed") [PInt i];;
      write_blocks l fd buf
  end.

Definition read_blocks (fd : Z) : list Z * Z -> prog (list Z) := loop (fun '(buf, n) =>
  '(i, bytes) ← sys (Read fd 512);
  let buf := fill bytes buf in
  if i =? 0 then
    stop_if (n =? MAXFILE - 1) (str "read only %d blocks from big") [PInt n];;
    mret (inr buf)
  else
    stop_if (other 512 i) (ln "read failed %d") [PInt i];;
    stop_if (other n (first_int buf)) (ln "read content of block %d is %d") [PInt n; PInt (first_int buf)];;
    mret (inl (buf, n + 1))).

Definition writetest1 (buf : list Z) : prog (list Z) :=
  say (ln "big files test");;
  fd ← sys (Open (str "big") (O_CREATE .| O_RDWR));
  stop_if (neg fd) (ln "error: creat big failed!") [];;
  buf ← write_blocks (upto MAXFILE) fd buf;
  do_ (Close fd);;
  fd ← sys (Open (str "big") O_RDONLY);
  stop_if (neg fd) (ln "error: open big failed!") [];;
  buf ← read_blocks fd (buf, 0);
  do_ (Close fd);;
  expect neg (Unlink (str "big")) (ln "unlink big failed");;
  say (ln "big files ok");;
  mret buf.

Definition createtest : prog unit :=
  say (ln "many creates, followed by unlink test");;
  for_list (upto 52) (fun i => fd ← sys (Open (name2 97 i) (O_CREATE .| O_RDWR)); do_ (Close fd));;
  for_list (upto 52) (fun i => do_ (Unlink (name2 97 i)));;
  say (ln "many creates, followed by unlink; ok").

Definition dirtest : prog unit :=
  say (ln "mkdir test");;
  expect neg (Mkdir (str "dir0")) (ln "mkdir failed");;
  expect neg (Chdir (str "dir0")) (ln "chdir dir0 failed");;
  expect neg (Chdir (str "..")) (ln "chdir .. failed");;
  expect neg (Unlink (str "dir0")) (ln "unlink dir0 failed");;
  say (ln "mkdir test ok").

Definition echoargv : list (list Z) := [str "echo"; str "ALL"; str "TESTS"; str "PASSED"].

Definition exectest : prog unit :=
  say (ln "exec test");;
  expect neg (Exec (str "echo") echoargv) (ln "exec echo failed").

(** ** Processes and pipes *)

(** Five writes of 1033 bytes that count on. *)
Fixpoint pipe1_write (n : nat) (fd seq : Z) (buf : list Z) : prog unit :=
  match n with
  | O => mret tt
  | S n =>
      let buf := fill ((fun i => u8 (seq + i)) <$> upto 1033) buf in
      expect (other 1033) (Write fd (take 1033 buf)) (ln "pipe1 oops 1");;
      pipe1_write n fd (seq + 1033) buf
  end.

(** The bytes are [seq], [seq + 1], ... *)
Fixpoint counts_from (seq : Z) (l : list Z) : bool :=
  match l with
  | [] => true
  | b :: l => if negb (b .& 255 =? seq .& 255) then false else counts_from (seq + 1) l
  end.

(** The total read and the array, or nothing after "oops 2". *)
Definition pipe1_read (fd : Z) : list Z * Z * Z * Z -> prog (list Z * option Z) := loop (fun '(buf, seq, total, cc) =>
  '(n, bytes) ← sys (Read fd cc);
  let buf := fill bytes buf in
  if 0 <? n then
    if negb (counts_from seq (take (Z.to_nat n) buf)) then say (ln "pipe1 oops 2");; mret (inr (buf, None))
    else
      let cc := cc * 2 in
      mret (inl (buf, seq + n, total + n, if sizeof_buf <? cc then sizeof_buf else cc))
  else mret (inr (buf, Some total))).

Definition pipe1 (buf : list Z) : prog (list Z) :=
  '(r, (fd0, fd1)) ← sys Pipe;
  stop_if (nonzero r) (ln "pipe() failed") [];;
  pid ← sys Fork;
  if zero pid then
    do_ (Close fd0);;
    pipe1_write 5 fd1 0 buf;;
    exit
  else if 0 <? pid then
    do_ (Close fd1);;
    '(buf, total) ← pipe1_read fd0 (buf, 0, 0, 1);
    match total with
    | None => mret buf
    | Some total =>
        stop_if (other (5 * 1033) total) (ln "pipe1 oops 3 total %d") [PInt total];;
        do_ (Close fd0);;
        do_ Wait;;
        say (ln "pipe1 ok");;
        mret buf
    end
  else say (ln "fork() failed");; exit.

Definition preempt (buf : list Z) : prog (list Z) :=
  say (str "preempt: ");;
  pid1 ← sys Fork;
  (if zero pid1 then spin else mret tt);;
  pid2 ← sys Fork;
  (if zero pid2 then spin else mret tt);;
  '(_, (fd0, fd1)) ← sys Pipe;
  pid3 ← sys Fork;
  (if zero pid3 then
     do_ (Close fd0);;
     r ← sys (Write fd1 (str "x"));
     (if other 1 r then say (str "preempt write error") else mret tt);;
     do_ (Close fd1);;
     spin
   else mret tt);;
  do_ (Close fd1);;
  '(r, bytes) ← sys (Read fd0 sizeof_buf);
  let buf := fill bytes buf in
  if other 1 r then say (str "preempt read error");; mret buf
  else
    do_ (Close fd0);;
    say (str "kill... ");;
    do_ (Kill pid1);;
    do_ (Kill pid2);;
    do_ (Kill pid3);;
    say (str "wait... ");;
    do_ Wait;;
    do_ Wait;;
    do_ Wait;;
    say (ln "preempt ok");;
    mret buf.

Fixpoint exitwait_loop (n : nat) : prog unit :=
  match n with
  | O => say (ln "exitwait ok")
  | S n =>
      pid ← sys Fork;
      if neg pid then say (ln "fork failed")
      else if nonzero pid then
        r ← sys Wait;
        if other pid r then say (ln "wait wrong pid") else exitwait_loop n
      else exit
  end.

Definition exitwait : prog unit := exitwait_loop 100.

(** ** mem *)

Section mem.
Context (base : Z).   (* the static header of umalloc.c *)

(** Blocks of 10001 bytes in a list, as long as there are any. *)
Fixpoint mem_fill (fuel : nat) (m1 : Z) : M heap Z :=
  match fuel with
  | O => fault "fuel"
  | S fuel =>
      m2 ← malloc base 10001;
      if m2 =? 0 then mret m1
      else set_hptr m2 m1;; mem_fill fuel m2
  end.

Fixpoint mem_free (fuel : nat) (m1 : Z) : M heap unit :=
  match fuel with
  | O => fault "fuel"
  | S fuel =>
      if m1 =? 0 then mret tt
      else m2 ← hptr m1; free m1;; mem_free fuel m2
  end.

(** What the child does with its memory, and whether the last block was there. *)
Definition mem_child : M heap bool :=
  fuel ← Prelude.gets ring_fuel;
  m1 ← mem_fill fuel 0;
  mem_free fuel m1;;
  m1 ← malloc base (1024 * 20);
  if m1 =? 0 then mret false else free m1;; mret true.

(** The child never returns; a fault of its memory ends it as well. *)
Definition memtest (h : heap) : prog unit :=
  say (ln "mem test");;
  ppid ← sys Getpid;
  pid ← sys Fork;
  if zero pid then
    match mem_child h with
    | Ok false _ => say (ln "couldn't allocate mem?!!");; do_ (Kill ppid);; exit
    | Ok true _ => say (ln "mem ok");; exit
    | _ => exit
    end
  else do_ Wait.
End mem.

(** ** More file system tests *)

(** The writes, until one fails. *)
Fixpoint sharedfd_write (n : nat) (fd : Z) (buf : list Z) : prog unit :=
  match n with
  | O => mret tt
  | S n =>
      r ← sys (Write fd buf);
      if other 10 r then say (ln "fstests: write sharedfd failed") else sharedfd_write n fd buf
  end.

Definition count (c : Z) (l : list Z) : Z := Z.of_nat (length (filter (fun b => b = c) l)).

(** All ten bytes are counted after every read. *)
Definition sharedfd_read (fd : Z) : list Z * Z * Z -> prog (Z * Z) := loop (fun '(buf, nc, np) =>
  '(n, bytes) ← sys (Read fd 10);
  let buf := fill bytes buf in
  if 0 <? n then mret (inl (buf, nc + count 99 buf, np + count 112 buf))
  else mret (inr (nc, np))).

Definition sharedfd : prog unit :=
  say (ln "sharedfd test");;
  do_ (Unlink (str "sharedfd"));;
  fd ← sys (Open (str "sharedfd") (O_CREATE .| O_RDWR));
  if neg fd then say (str "fstests: cannot open sharedfd for writing")
  else
    pid ← sys Fork;
    let buf := replicate 10 (if zero pid then 99 else 112) in
    sharedfd_write 1000 fd buf;;
    (if zero pid then exit else do_ Wait);;
    do_ (Close fd);;
    fd ← sys (Open (str "sharedfd") 0);
    if neg fd then say (ln "fstests: cannot open sharedfd for reading")
    else
      '(nc, np) ← sharedfd_read fd (buf, 0, 0);
      do_ (Close fd);;
      do_ (Unlink (str "sharedfd"));;
      if ((nc =? 10000) && (np =? 10000))%bool then say (ln "sharedfd ok")
      else printf 1 (ln "sharedfd oops %d %d") [PInt nc; PInt np];; exit.

Definition fourfiles_child (pi : Z) (fname buf : list Z) : prog unit :=
  fd ← sys (Open fname (O_CREATE .| O_RDWR));
  stop_if (neg fd) (ln "create failed") [];;
  let buf := fill (replicate 512 (48 + pi)) buf in
  for_list (upto 12) (fun _ =>
    n ← sys (Write fd (take 500 buf));
    stop_if (other 500 n) (ln "write failed %d") [PInt n]);;
  exit.

Definition fourfiles_read (i fd : Z) : list Z * Z -> prog (list Z * Z) := loop (fun '(buf, total) =>
  '(n, bytes) ← sys (Read fd sizeof_buf);
  let buf := fill bytes buf in
  if 0 <? n then
    stop_if (existsb (fun b => other (48 + i) (s8 b)) (take (Z.to_nat n) buf)) (ln "wrong char") [];;
    mret (inl (buf, total + n))
  else mret (inr (buf, total))).

(** The name of file [i]. *)
Definition fourfiles_name (i : Z) : list Z := name2 102 i.

Fixpoint fourfiles_check (l : list Z) (buf : list Z) : prog (list Z) :=
  match l with
  | [] => mret buf
  | i :: l =>
      fd ← sys (Open (fourfiles_name i) 0);
      '(buf, total) ← fourfiles_read i fd (buf, 0);
      do_ (Close fd);;
      stop_if (other (12 * 500) total) (ln "wrong length %d") [PInt total];;
      do_ (Unlink (fourfiles_name i));;
      fourfiles_check l buf
  end.

Definition fourfiles (buf : list Z) : prog (list Z) :=
  say (ln "fourfiles test");;
  for_list (upto 4) (fun pi =>
    do_ (Unlink (fourfiles_name pi));;
    pid ← sys Fork;
    stop_if (neg pid) (ln "fork failed") [];;
    if zero pid then fourfiles_child pi (fourfiles_name pi) buf else mret tt);;
  for_list (upto 4) (fun _ => do_ Wait);;
  buf ← fourfiles_check (upto 2) buf;
  say (ln "fourfiles ok");;
  mret buf.

Definition CREATEDELETE_N : Z := 20.

Definition createdelete_child (pi : Z) : prog unit :=
  for_list (upto CREATEDELETE_N) (fun i =>
    fd ← sys (Open (name2 (112 + pi) i) (O_CREATE .| O_RDWR));
    stop_if (neg fd) (ln "create failed") [];;
    do_ (Close fd);;
    if ((0 <? i) && (i mod 2 =? 0))%bool then expect neg (Unlink (name2 (112 + pi) (i / 2))) (ln "unlink failed")
    else mret tt);;
  exit.

Definition createdelete_check (i pi : Z) : prog unit :=
  let name := name2 (112 + pi) i in
  fd ← sys (Open name 0);
  (if (((i =? 0) || (CREATEDELETE_N / 2 <=? i)) && neg fd)%bool then
     printf 1 (ln "oops createdelete %s didn't exist") [PStr name];; exit
   else if ((1 <=? i) && (i <? CREATEDELETE_N / 2) && nonneg fd)%bool then
     printf 1 (ln "oops createdelete %s did exist") [PStr name];; exit
   else mret tt);;
  if nonneg fd then do_ (Close fd) else mret tt.

Definition createdelete : prog unit :=
  say (ln "createdelete test");;
  for_list (upto 4) (fun pi =>
    pid ← sys Fork;
    stop_if (neg pid) (ln "fork failed") [];;
    if zero pid then createdelete_child pi else mret tt);;
  for_list (upto 4) (fun _ => do_ Wait);;
  for_list (upto CREATEDELETE_N) (fun i => for_list (upto 4) (createdelete_check i));;
  for_list (upto CREATEDELETE_N) (fun i => for_list (upto 4) (fun _ => do_ (Unlink (name2 (112 + i) i))));;
  say (ln "createdelete ok").

Definition unlinkread (buf : list Z) : prog (list Z) :=
  say (ln "unlinkread test");;
  fd ← sys (Open (str "unlinkread") (O_CREATE .| O_RDWR));
  stop_if (neg fd) (ln "create unlinkread failed") [];;
  do_ (Write fd (str "hello"));;
  do_ (Close fd);;
  fd ← sys (Open (str "unlinkread") O_RDWR);
  stop_if (neg fd) (ln "open unlinkread failed") [];;
  expect nonzero (Unlink (str "unlinkread")) (ln "unlink unlinkread failed");;
  fd1 ← sys (Open (str "unlinkread") (O_CREATE .| O_RDWR));
  do_ (Write fd1 (str "yyy"));;
  do_ (Close fd1);;
  '(r, bytes) ← sys (Read fd sizeof_buf);
  let buf := fill bytes buf in
  stop_if (other 5 r) (str "unlinkread read failed") [];;
  stop_if (other 104 buf.[0]) (ln "unlinkread wrong data") [];;
  expect (other 10) (Write fd (take 10 buf)) (ln "unlinkread write failed");;
  do_ (Close fd);;
  do_ (Unlink (str "unlinkread"));;
  say (ln "unlinkread ok");;
  mret buf.

Definition linktest (buf : list Z) : prog (list Z) :=
  say (ln "linktest");;
  do_ (Unlink (str "lf1"));;
  do_ (Unlink (str "lf2"));;
  fd ← sys (Open (str "lf1") (O_CREATE .| O_RDWR));
  stop_if (neg fd) (ln "create lf1 failed") [];;
  expect (other 5) (Write fd (str "hello")) (ln "write lf1 failed");;
  do_ (Close fd);;
  expect neg (Link (str "lf1") (str "lf2")) (ln "link lf1 lf2 failed");;
  do_ (Unlink (str "lf1"));;
  expect nonneg (Open (str "lf1") 0) (ln "unlinked lf1 but it is still there!");;
  fd ← sys (Open (str "lf2") 0);
  stop_if (neg fd) (ln "open lf2 failed") [];;
  '(r, bytes) ← sys (Read fd sizeof_buf);
  stop_if (other 5 r) (ln "read lf2 failed") [];;
  do_ (Close fd);;
  expect nonneg (Link (str "lf2") (str "lf2")) (ln "link lf2 lf2 succeeded! oops");;
  do_ (Unlink (str "lf2"));;
  expect nonneg (Link (str "lf2") (str "lf1")) (ln "link non-existant succeeded! oops");;
  expect nonneg (Link (str ".") (str "lf1")) (ln "link . lf1 succeeded! oops");;
  say (ln "linktest ok");;
  mret (fill bytes buf).

(** ** Concurrent tests *)

(** The name of file [i] is "C" and ['0' + i]. *)
Definition concreate_make (i : Z) : prog unit :=
  let file := name2 67 i in
  do_ (Unlink file);;
  pid ← sys Fork;
  (if (nonzero pid && (i mod 3 =? 1))%bool then do_ (Link (str "C0") file)
   else if (zero pid && (i mod 5 =? 1))%bool then do_ (Link (str "C0") file)
   else
     fd ← sys (Open file (O_CREATE .| O_RDWR));
     stop_if (neg fd) (ln "concreate create %s failed") [PStr file];;
     do_ (Close fd));;
  if zero pid then exit else do_ Wait.

(** Counting the files in the directory; [fa] marks those seen. *)
Definition concreate_list (fd : Z) : list Z * list Z * Z -> prog Z := loop (fun '(de, fa, n) =>
  '(r, bytes) ← sys (Read fd sizeof_dirent);
  let de := fill bytes de in
  if 0 <? r then
    if dirent_inum de =? 0 then mret (inl (de, fa, n))
    else if ((de.[2] =? 67) && (de.[4] =? 0))%bool then
      let i := s8 de.[3] - 48 in
      stop_if ((i <? 0) || (40 <=? i))%bool (ln "concreate weird file %s") [PStr (entry_name de)];;
      stop_if (nonzero fa.[i]) (ln "concreate duplicate file %s") [PStr (entry_name de)];;
      mret (inl (de, <[Z.to_nat i := 1]> fa, n + 1))
    else mret (inl (de, fa, n))
  else mret (inr n)).

Definition concreate_remove (i : Z) : prog unit :=
  let file := name2 67 i in
  pid ← sys Fork;
  stop_if (neg pid) (ln "fork failed") [];;
  (if (((i mod 3 =? 0) && zero pid) || ((i mod 3 =? 1) && nonzero pid))%bool then
     for_list (upto 4) (fun _ => fd ← sys (Open file 0); do_ (Close fd))
   else for_list (upto 4) (fun _ => do_ (Unlink file)));;
  if zero pid then exit else do_ Wait.

(** [de0] is what the variable [de] holds at first. *)
Definition concreate (de0 : list Z) : prog unit :=
  say (ln "concreate test");;
  for_list (upto 40) concreate_make;;
  fd ← sys (Open (str ".") 0);
  n ← concreate_list fd (de0, replicate 40 0, 0);
  do_ (Close fd);;
  stop_if (other 40 n) (ln "concreate not enough files in directory listing") [];;
  for_list (upto 40) concreate_remove;;
  say (ln "concreate ok").

Fixpoint linkunlink_loop (n : nat) (x : Z) : prog unit :=
  match n with
  | O => mret tt
  | S n =>
      let x := u32 (x * 1103515245 + 12345) in
      (if x mod 3 =? 0 then fd ← sys (Open (str "x") (O_RDWR .| O_CREATE)); do_ (Close fd)
       else if x mod 3 =? 1 then do_ (Link (str "cat") (str "x"))
       else do_ (Unlink (str "x")));;
      linkunlink_loop n x
  end.

Definition linkunlink : prog unit :=
  say (ln "linkunlink test");;
  do_ (Unlink (str "x"));;
  pid ← sys Fork;
  stop_if (neg pid) (ln "fork failed") [];;
  linkunlink_loop 100 (if nonzero pid then 1 else 97);;
  (if nonzero pid then do_ Wait else exit);;
  say (ln "linkunlink ok").

(** ** Large and deep directories *)

Definition bigdir_name (i : Z) : list Z := [120; 48 + i / 64; 48 + i mod 64].

Definition bigdir : prog unit :=
  say (ln "bigdir test");;
  do_ (Unlink (str "bd"));;
  fd ← sys (Open (str "bd") O_CREATE);
  stop_if (neg fd) (ln "bigdir create failed") [];;
  do_ (Close fd);;
  for_list (upto 500) (fun i => expect nonzero (Link (str "bd") (bigdir_name i)) (ln "bigdir link failed"));;
  do_ (Unlink (str "bd"));;
  for_list (upto 500) (fun i => expect nonzero (Unlink (bigdir_name i)) (str "bigdir unlink failed"));;
  say (ln "bigdir ok").

(** [fd = open(path, mode); if(fd < 0){...}; write(fd, text, n); close(fd)] *)
Definition make_file (path text msg : list Z) : prog unit :=
  fd ← sys (Open path (O_CREATE .| O_RDWR));
  stop_if (neg fd) msg [];;
  do_ (Write fd text);;
  do_ (Close fd).

(** The calls of [subdir] that must fail. *)
Definition subdir_errors : prog unit :=
  expect nonneg (Open (str "dd/dd/ff") O_RDONLY) (ln "open (unlinked) dd/dd/ff succeeded!");;
  expect nonneg (Open (str "dd/ff/ff") (O_CREATE .| O_RDWR)) (ln "create dd/ff/ff succeeded!");;
  expect nonneg (Open (str "dd/xx/ff") (O_CREATE .| O_RDWR)) (ln "create dd/xx/ff succeeded!");;
  expect nonneg (Open (str "dd") O_CREATE) (ln "create dd succeeded!");;
  expect nonneg (Open (str "dd") O_RDWR) (ln "open dd rdwr succeeded!");;
  expect nonneg (Open (str "dd") O_WRONLY) (ln "open dd wronly succeeded!");;
  expect zero (Link (str "dd/ff/ff") (str "dd/dd/xx")) (ln "link dd/ff/ff dd/dd/xx succeeded!");;
  expect zero (Link (str "dd/xx/ff") (str "dd/dd/xx")) (ln "link dd/xx/ff dd/dd/xx succeeded!");;
  expect zero (Link (str "dd/ff") (str "dd/dd/ffff")) (ln "link dd/ff dd/dd/ffff succeeded!");;
  expect zero (Mkdir (str "dd/ff/ff")) (ln "mkdir dd/ff/ff succeeded!");;
  expect zero (Mkdir (str "dd/xx/ff")) (ln "mkdir dd/xx/ff succeeded!");;
  expect zero (Mkdir (str "dd/dd/ffff")) (ln "mkdir dd/dd/ffff succeeded!");;
  expect zero (Unlink (str "dd/xx/ff")) (ln "unlink dd/xx/ff succeeded!");;
  expect zero (Unlink (str "dd/ff/ff")) (ln "unlink dd/ff/ff succeeded!");;
  expect zero (Chdir (str "dd/ff")) (ln "chdir dd/ff succeeded!");;
  expect zero (Chdir (str "dd/xx")) (ln "chdir dd/xx succeeded!").

Definition subdir (buf : list Z) : prog (list Z) :=
  say (ln "subdir test");;
  do_ (Unlink (str "ff"));;
  expect nonzero (Mkdir (str "dd")) (ln "subdir mkdir dd failed");;
  make_file (str "dd/ff") (str "ff") (ln "create dd/ff failed");;
  expect nonneg (Unlink (str "dd")) (ln "unlink dd (non-empty dir) succeeded!");;
  expect nonzero (Mkdir (str "/dd/dd")) (ln "subdir mkdir dd/dd failed");;
  make_file (str "dd/dd/ff") (str "FF") (ln "create dd/dd/ff failed");;
  fd ← sys (Open (str "dd/dd/../ff") 0);
  stop_if (neg fd) (ln "open dd/dd/../ff failed") [];;
  '(cc, bytes) ← sys (Read fd sizeof_buf);
  let buf := fill bytes buf in
  stop_if (other 2 cc || other 102 buf.[0])%bool (ln "dd/dd/../ff wrong content") [];;
  do_ (Close fd);;
  expect nonzero (Link (str "dd/dd/ff") (str "dd/dd/ffff")) (ln "link dd/dd/ff dd/dd/ffff failed");;
  expect nonzero (Unlink (str "dd/dd/ff")) (ln "unlink dd/dd/ff failed");;
  expect nonneg (Open (str "dd/dd/ff") O_RDONLY) (ln "open (unlinked) dd/dd/ff succeeded");;
  expect nonzero (Chdir (str "dd")) (ln "chdir dd failed");;
  expect nonzero (Chdir (str "dd/../../dd")) (ln "chdir dd/../../dd failed");;
  expect nonzero (Chdir (str "dd/../../../dd")) (ln "chdir dd/../../dd failed");;
  expect nonzero (Chdir (str "./..")) (ln "chdir ./.. failed");;
  fd ← sys (Open (str "dd/dd/ffff") 0);
  stop_if (neg fd) (ln "open dd/dd/ffff failed") [];;
  '(r, bytes) ← sys (Read fd sizeof_buf);
  stop_if (other 2 r) (ln "read dd/dd/ffff wrong len") [];;
  do_ (Close fd);;
  subdir_errors;;
  expect nonzero (Unlink (str "dd/dd/ffff")) (ln "unlink dd/dd/ff failed");;
  expect nonzero (Unlink (str "dd/ff")) (ln "unlink dd/ff failed");;
  expect zero (Unlink (str "dd")) (ln "unlink non-empty dd succeeded!");;
  expect neg (Unlink (str "dd/dd")) (ln "unlink dd/dd failed");;
  expect neg (Unlink (str "dd")) (ln "unlink dd failed");;
  say (ln "subdir ok");;
  mret (fill bytes buf).

(** The sizes 499, 970, ... below 12 * 512. *)
Definition bigwrite_sizes : list Z := (fun k => 499 + 471 * k) <$> upto 12.

Definition bigwrite (buf : list Z) : prog unit :=
  say (ln "bigwrite test");;
  do_ (Unlink (str "bigwrite"));;
  for_list bigwrite_sizes (fun sz =>
    fd ← sys (Open (str "bigwrite") (O_CREATE .| O_RDWR));
    stop_if (neg fd) (ln "cannot create bigwrite") [];;
    for_list (upto 2) (fun _ =>
      cc ← sys (Write fd (take (Z.to_nat sz) buf));
      stop_if (other sz cc) (ln "write(%d) ret %d") [PInt sz; PInt cc]);;
    do_ (Close fd);;
    do_ (Unlink (str "bigwrite")));;
  say (ln "bigwrite ok").

Fixpoint bigfile_write (l : list Z) (fd : Z) (buf : list Z) : prog (list Z) :=
  match l with
  | [] => mret buf
  | i :: l =>
      let buf := fill (replicate 600 (u8 i)) buf in
      expect (other 600) (Write fd (take 600 buf)) (ln "write bigfile failed");;
      bigfile_write l fd buf
  end.

Definition bigfile_read (fd : Z) : list Z * Z * Z -> prog (list Z * Z) := loop (fun '(buf, i, total) =>
  '(cc, bytes) ← sys (Read fd 300);
  let buf := fill bytes buf in
  stop_if (neg cc) (ln "read bigfile failed") [];;
  if cc =? 0 then mret (inr (buf, total))
  else
    stop_if (other 300 cc) (ln "short read bigfile") [];;
    stop_if (other (i / 2) (s8 buf.[0]) || other (i / 2) (s8 buf.[299]))%bool (ln "read bigfile wrong data") [];;
    mret (inl (buf, i + 1, total + cc))).

Definition bigfile (buf : list Z) : prog (list Z) :=
  say (ln "bigfile test");;
  do_ (Unlink (str "bigfile"));;
  fd ← sys (Open (str "bigfile") (O_CREATE .| O_RDWR));
  stop_if (neg fd) (str "cannot create bigfile") [];;
  buf ← bigfile_write (upto 20) fd buf;
  do_ (Close fd);;
  fd ← sys (Open (str "bigfile") 0);
  stop_if (neg fd) (ln "cannot open bigfile") [];;
  '(buf, total) ← bigfile_read fd (buf, 0, 0);
  do_ (Close fd);;
  stop_if (other (20 * 600) total) (ln "read bigfile wrong total") [];;
  do_ (Unlink (str "bigfile"));;
  say (ln "bigfile test ok");;
  mret buf.

Definition fourteen : prog unit :=
  say (ln "fourteen test");;
  expect nonzero (Mkdir (str "12345678901234")) (ln "mkdir 12345678901234 failed");;
  expect nonzero (Mkdir (str "12345678901234/123456789012345")) (ln "mkdir 12345678901234/123456789012345 failed");;
  fd ← sys (Open (str "123456789012345/123456789012345/123456789012345") O_CREATE);
  stop_if (neg fd) (ln "create 123456789012345/123456789012345/123456789012345 failed") [];;
  do_ (Close fd);;
  fd ← sys (Open (str "12345678901234/12345678901234/12345678901234") 0);
  stop_if (neg fd) (ln "open 12345678901234/12345678901234/12345678901234 failed") [];;
  do_ (Close fd);;
  expect zero (Mkdir (str "12345678901234/12345678901234")) (ln "mkdir 12345678901234/12345678901234 succeeded!");;
  expect zero (Mkdir (str "123456789012345/12345678901234")) (ln "mkdir 12345678901234/123456789012345 succeeded!");;
  say (ln "fourteen ok").

Definition rmdot : prog unit :=
  say (ln "rmdot test");;
  expect nonzero (Mkdir (str "dots")) (ln "mkdir dots failed");;
  expect nonzero (Chdir (str "dots")) (ln "chdir dots failed");;
  expect zero (Unlink (str ".")) (ln "rm . worked!");;
  expect zero (Unlink (str "..")) (ln "rm .. worked!");;
  expect nonzero (Chdir (str "/")) (ln "chdir / failed");;
  expect zero (Unlink (str "dots/.")) (ln "unlink dots/. worked!");;
  expect zero (Unlink (str "dots/..")) (ln "unlink dots/.. worked!");;
  expect nonzero (Unlink (str "dots")) (ln "unlink dots failed!");;
  say (ln "rmdot ok").

Definition dirfile : prog unit :=
  say (ln "dir vs file");;
  fd ← sys (Open (str "dirfile") O_CREATE);
  stop_if (neg fd) (ln "create dirfile failed") [];;
  do_ (Close fd);;
  expect zero (Chdir (str "dirfile")) (ln "chdir dirfile succeeded!");;
  expect nonneg (Open (str "dirfile/xx") 0) (ln "create dirfile/xx succeeded!");;
  expect nonneg (Open (str "dirfile/xx") O_CREATE) (ln "create dirfile/xx succeeded!");;
  expect zero (Mkdir (str "dirfile/xx")) (ln "mkdir dirfile/xx succeeded!");;
  expect zero (Unlink (str "dirfile/xx")) (ln "unlink dirfile/xx succeeded!");;
  expect zero (Link (str "README") (str "dirfile/xx")) (ln "link to dirfile/xx succeeded!");;
  expect nonzero (Unlink (str "dirfile")) (ln "unlink dirfile failed!");;
  expect nonneg (Open (str ".") O_RDWR) (ln "open . for writing succeeded!");;
  fd ← sys (Open (str ".") 0);
  r ← sys (Write fd (str "x"));
  stop_if (0 <? r) (ln "write . succeeded!") [];;
  do_ (Close fd);;
  say (ln "dir vs file OK").

Definition iref : prog unit :=
  say (ln "empty file name");;
  for_list (upto (50 + 1)) (fun _ =>
    expect nonzero (Mkdir (str "irefd")) (ln "mkdir irefd failed");;
    expect nonzero (Chdir (str "irefd")) (ln "chdir irefd failed");;
    do_ (Mkdir []);;
    do_ (Link (str "README") []);;
    fd ← sys (Open [] O_CREATE);
    (if nonneg fd then do_ (Close fd) else mret tt);;
    fd ← sys (Open (str "xx") O_CREATE);
    (if nonneg fd then do_ (Close fd) else mret tt);;
    do_ (Unlink (str "xx")));;
  do_ (Chdir (str "/"));;
  say (ln "empty file name OK").

(** ** Limits *)

Definition ut_forktest : prog unit :=
  say (ln "fork test");;
  n ← fork_children 1000 0;
  stop_if (n =? 1000) (ln "fork claimed to work 1000 times!") [];;
  for_list (upto n) (fun _ => expect neg Wait (ln "wait stopped early"));;
  expect (other (-1)) Wait (ln "wait got too many");;
  say (ln "fork test OK").

Definition BIG : Z := 100 * 1024 * 1024.

(** [sbrk] with its result as a pointer. *)
Definition usbrk (n : Z) : prog Z := r ← sys (Sbrk (s32 n)); mret (u32 r).

(** One byte at a time: the address after the last. *)
Fixpoint sbrk_bytes (l : list Z) (a : Z) : prog Z :=
  match l with
  | [] => mret a
  | i :: l =>
      b ← usbrk 1;
      stop_if (other a b) (ln "sbrk test failed %d %x %x") [PInt i; PInt a; PInt b];;
      sys (Store b 1);;
      sbrk_bytes l (u32 (b + 1))
  end.

(** Can one grow the address space, de-allocate a page and allocate it again? *)
Definition sbrk_big : prog unit :=
  a ← usbrk 0;
  p ← usbrk (u32 (BIG - a));
  stop_if (other a p) (ln "sbrk test failed to grow big address space; enough phys mem?") [];;
  let lastaddr := BIG - 1 in
  sys (Store lastaddr 99);;
  a ← usbrk 0;
  c ← usbrk (-4096);
  stop_if (c =? 4294967295) (ln "sbrk could not deallocate") [];;
  c ← usbrk 0;
  stop_if (other (u32 (a - 4096)) c) (ln "sbrk deallocation produced wrong address, a %x c %x") [PInt a; PInt c];;
  a ← usbrk 0;
  c ← usbrk 4096;
  wrong ← (if other a c then mret true else e ← usbrk 0; mret (other (u32 (a + 4096)) e));
  stop_if wrong (ln "sbrk re-allocation failed, a %x c %x") [PInt a; PInt c];;
  v ← sys (Load lastaddr);
  stop_if (v =? 99) (ln "sbrk de-allocation didn't really deallocate") [].

(** Can we read the kernel's memory? *)
Definition sbrk_kernel (a : Z) : prog unit :=
  ppid ← sys Getpid;
  pid ← sys Fork;
  stop_if (neg pid) (ln "fork failed") [];;
  (if zero pid then
     v ← sys (Load a);
     printf 1 (ln "oops could read %x = %x") [PInt a; PInt (s8 v)];;
     do_ (Kill ppid);;
     exit
   else mret tt);;
  do_ Wait.

(** Ten children that allocate a lot of memory; their process ids. *)
Fixpoint sbrk_children (n : nat) (fd0 fd1 : Z) : prog (list Z) :=
  match n with
  | O => mret []
  | S n =>
      pid ← sys Fork;
      (if zero pid then
         e ← usbrk 0;
         usbrk (u32 (BIG - e));;
         do_ (Write fd1 (str "x"));;
         loop (fun _ : unit => sys (SleepFor 1000);; mret (inl tt)) tt
       else mret tt);;
      (if other (-1) pid then do_ (Read fd0 1) else mret tt);;
      pids ← sbrk_children n fd0 fd1;
      mret (pid :: pids)
  end.

(** [sbrk(-(sbrk(0) - oldbrk))] *)
Definition sbrk_back (oldbrk : Z) : prog Z := e ← usbrk 0; usbrk (- (e - oldbrk)).

Definition sbrktest : prog unit :=
  say (ln "sbrk test");;
  oldbrk ← usbrk 0;
  a ← usbrk 0;
  a ← sbrk_bytes (upto 5000) a;
  pid ← sys Fork;
  stop_if (neg pid) (ln "sbrk test fork failed") [];;
  usbrk 1;;
  c ← usbrk 1;
  stop_if (other (u32 (a + 1)) c) (ln "sbrk test failed post-fork") [];;
  (if zero pid then exit else mret tt);;
  do_ Wait;;
  sbrk_big;;
  a ← usbrk 0;
  c ← sbrk_back oldbrk;
  stop_if (other a c) (ln "sbrk downsize failed, a %x c %x") [PInt a; PInt c];;
  for_list ((fun k => KERNBASE + 50000 * k) <$> upto 40) sbrk_kernel;;
  '(r, (fd0, fd1)) ← sys Pipe;
  stop_if (nonzero r) (ln "pipe() failed") [];;
  pids ← sbrk_children 10 fd0 fd1;
  c ← usbrk 4096;
  for_list pids (fun pid => if pid =? -1 then mret tt else do_ (Kill pid);; do_ Wait);;
  stop_if (c =? 4294967295) (ln "failed sbrk leaked memory") [];;
  e ← usbrk 0;
  (if oldbrk <? e then sbrk_back oldbrk;; mret tt else mret tt);;
  say (ln "sbrk test OK").

(** System call 13 is sleep. *)
Definition validateint (p : Z) : prog unit := do_ (IntAt 13 p).

Definition validatetest : prog unit :=
  say (ln "validate test");;
  for_list ((fun k => 4096 * k) <$> upto (1100 * 1024 / 4096 + 1)) (fun p =>
    pid ← sys Fork;
    (if zero pid then validateint p;; exit else mret tt);;
    do_ (SleepFor 0);;
    do_ (SleepFor 0);;
    do_ (Kill pid);;
    do_ Wait;;
    expect (other (-1)) (LinkAt (str "nosuchfile") p) (ln "link should not succeed"));;
  say (ln "validate ok").

Definition bsstest (uninit : list Z) : prog unit :=
  say (ln "bss test");;
  stop_if (existsb nonzero uninit) (ln "bss test failed") [];;
  say (ln "bss test ok").

Definition bigarg : list Z := ln "bigargs test: failed" ++ replicate 199 32.

Definition bigargtest : prog unit :=
  do_ (Unlink (str "bigarg-ok"));;
  pid ← sys Fork;
  (if zero pid then
     say (ln "bigarg test");;
     do_ (Exec (str "echo") (replicate (Z.to_nat (MAXARG - 1)) bigarg));;
     say (ln "bigarg test ok");;
     fd ← sys (Open (str "bigarg-ok") O_CREATE);
     do_ (Close fd);;
     exit
   else stop_if (neg pid) (ln "bigargtest: fork failed") []);;
  do_ Wait;;
  fd ← sys (Open (str "bigarg-ok") 0);
  stop_if (neg fd) (ln "bigarg test failed!") [];;
  do_ (Close fd);;
  do_ (Unlink (str "bigarg-ok")).

(** ** Filling the disk *)

Definition fsfull_name (n : Z) : list Z :=
  [102; u8 (48 + n / 1000); u8 (48 + n mod 1000 / 100); u8 (48 + n mod 100 / 10); u8 (48 + n mod 10)].

(** The bytes written, until a write is short. *)
Definition fsfull_fill (fd : Z) (buf : list Z) : Z -> prog Z := loop (fun total =>
  cc ← sys (Write fd (take 512 buf));
  if cc <? 512 then mret (inr total) else mret (inl (total + cc))).

(** The number of the last file. *)
Definition fsfull_write (buf : list Z) : Z -> prog Z := loop (fun nfiles =>
  let name := fsfull_name nfiles in
  printf 1 (ln "writing %s") [PStr name];;
  fd ← sys (Open name (O_CREATE .| O_RDWR));
  if neg fd then printf 1 (ln "open %s failed") [PStr name];; mret (inr nfiles)
  else
    total ← fsfull_fill fd buf 0;
    printf 1 (ln "wrote %d bytes") [PInt total];;
    do_ (Close fd);;
    if total =? 0 then mret (inr nfiles) else mret (inl (nfiles + 1))).

Definition fsfull (buf : list Z) : prog unit :=
  say (ln "fsfull test");;
  nfiles ← fsfull_write buf 0;
  for_list (reverse (upto (nfiles + 1))) (fun n => do_ (Unlink (fsfull_name n)));;
  say (ln "fsfull test finished").

(** The next [randstate], which is also the result. *)
Definition rand (randstate : Z) : Z := u32 (randstate * 1664525 + 1013904223).

(** ** main *)

(** [buf] and [uninit] are what the arrays hold at the start, [de0] the local variable
    of [concreate], [base] and [h] the heap at the call of [memtest]. *)
Definition usertests_main (buf uninit de0 : list Z) (base : Z) (h : heap) : prog unit :=
  say (ln "usertests starting");;
  expect nonneg (Open (str "usertests.ran") 0) (ln "already ran user tests -- rebuild fs.img");;
  fd ← sys (Open (str "usertests.ran") O_CREATE);
  do_ (Close fd);;
  createdelete;;
  linkunlink;;
  concreate de0;;
  buf ← fourfiles buf;
  sharedfd;;
  bigargtest;;
  bigwrite buf;;
  bigargtest;;
  bsstest uninit;;
  sbrktest;;
  validatetest;;
  opentest;;
  buf ← writetest buf;
  buf ← writetest1 buf;
  createtest;;
  openiputtest;;
  exitiputtest;;
  iputtest;;
  memtest base h;;
  buf ← pipe1 buf;
  buf ← preempt buf;
  exitwait;;
  rmdot;;
  fourteen;;
  buf ← bigfile buf;
  buf ← subdir buf;
  buf ← linktest buf;
  buf ← unlinkread buf;
  dirfile;;
  iref;;
  ut_forktest;;
  bigdir;;
  exectest;;
  exit.
