(* ===== verification/System.v ===== *)
(** User programs on the kernel.

    A [handler] that answers the system calls of a program with the kernel of
    this development: trap.c, syscall.c, sysfile.c, file.c, fs.c, log.c, bio.c and
    memide.c, from the arguments on the stack of the process to the sectors of the
    disk.  One process runs; the calls that need another one, or other memory,
    are not answered.

    The memory of the process holds the arguments of the call being made: the
    programs of this development keep their variables themselves. *)

From stdpp Require Import prelude strings gmap list.
From S2P Require Import Prelude Bytes Param BlockCache CString Pipe Kalloc Vm Proc Bio.
From S2P Require Import Log TxDisk Fs Dir Hw Console File Syscall Exec SysFile Procfs Kernel Sys Mkfs.

Abbreviation KS := (fsys (lstate bcache) krest).

(** ** The process *)

(** Sixteen pages from address 0 on, mapped by one page table.  The physical
    addresses of the page directory, the page table and the pages: *)
Definition USER_PAGES : Z := 16.
Definition UPGDIR : Z := 4096.
Definition UPGTAB : Z := 8192.
Definition UFRAME : Z := 1048576.

Definition table_byte (a : Z) : Z :=
  let pa := a - KERNBASE in
  if ((UPGDIR <=? pa) && (pa <? UPGDIR + 4))%bool then (le_split 4 (UPGTAB .| 7)).[pa - UPGDIR]
  else if ((UPGTAB <=? pa) && (pa <? UPGTAB + 4 * USER_PAGES))%bool then
    (le_split 4 ((UFRAME + PGSIZE * ((pa - UPGTAB) / 4)) .| 7)).[(pa - UPGTAB) mod 4]
  else 0.

(** The memory of the machine, with the bytes of the process given. *)
Definition user_mem (m : gmap Z Z) : mem := fun a =>
  match m !! (a - (KERNBASE + UFRAME)) with
  | Some b => b
  | None => table_byte a
  end.

Fixpoint bytes_at (a : Z) (l : list Z) (m : gmap Z Z) : gmap Z Z :=
  match l with
  | [] => m
  | b :: l => bytes_at (a + 1) l (<[a := b]> m)
  end.

Definition first_proc : proc :=
  Proc (PGSIZE * USER_PAGES) (KERNBASE + UPGDIR) 0 RUNNING 1 None tf0 None 0
    (replicate (Z.to_nat NOFILE) 0) 0 (replicate 16 0).

(** ** System calls *)

(** The counters of bio.c that procfs.c shows. *)
Definition bstats : M KS (Z * Z * Z * Z) :=
  c ← Prelude.gets (fun s : KS => ls_cache (fs_disk s));
  mret (get_free_block_number c, get_total_block_number c, get_number_of_hits c, get_number_of_block_acsses c).

(** [int T_SYSCALL] with the stack at [esp], where the arguments follow the
    return address; [data] are the strings and arrays the program has in
    memory. *)
Definition kcall (num esp : Z) (args : list Z) (data : list (Z * list Z)) : M KS Z :=
  let m := bytes_at (esp + 4) (concat (le_split 4 <$> args)) ∅ in
  let m := foldl (fun m d => bytes_at d.1 d.2 m) m data in
  onrest (modify (fun r => set_kmem (KMem 0 0 (user_mem m)) r));;
  trap_syscall (fun _ => 0) bstats 0 0 [] (Trapframe num 0 esp 0 0 0 0 0 []);;
  p ← curproc;
  mret (s32 (tf_eax (p_tf p))).

(** Where the program has its first and its second string or array. *)
Definition ARG1 : Z := 4096.
Definition ARG2 : Z := 16384.

Definition zstr (s : list Z) : list Z := s ++ [0].

Definition kread (fd n : Z) : M KS (Z * list Z) :=
  r ← kcall 5 0 [fd; ARG2; n] [];
  bytes ← uld_bytes ARG2 (Z.to_nat r);
  mret (r, bytes).

Definition kfstat (fd : Z) : M KS (Z * stat) :=
  r ← kcall 8 0 [fd; ARG2] [];
  b ← uld_bytes ARG2 20;
  let field k n := le_combine (take n (drop k b)) in
  mret (r, Stat (s16 (field 0%nat 2%nat)) (s32 (field 4%nat 4%nat)) (field 8%nat 4%nat) (s16 (field 12%nat 2%nat))
             (field 16%nat 4%nat)).

(** A call that panics, sleeps or faults has no answer. *)
Definition answer_of {X} (m : M KS X) (s : KS) : option (X * KS) :=
  match m s with Ok x s => Some (x, s) | _ => None end.

Definition kernel_call : handler KS := fun X e =>
  match e in sysE X return KS -> option (X * KS) with
  | Write fd bytes => answer_of (kcall 16 0 [fd; ARG2; Z.of_nat (length bytes)] [(ARG2, bytes)])
  | Read fd n => answer_of (kread fd n)
  | Close fd => answer_of (kcall 21 0 [fd] [])
  | Open path mode => answer_of (kcall 15 0 [ARG1; mode] [(ARG1, zstr path)])
  | Mknod path major minor => answer_of (kcall 17 0 [ARG1; major; minor] [(ARG1, zstr path)])
  | Unlink path => answer_of (kcall 18 0 [ARG1] [(ARG1, zstr path)])
  | Fstat fd => answer_of (kfstat fd)
  | Link old new => answer_of (kcall 19 0 [ARG1; ARG2] [(ARG1, zstr old); (ARG2, zstr new)])
  | Mkdir path => answer_of (kcall 20 0 [ARG1] [(ARG1, zstr path)])
  | Chdir path => answer_of (kcall 9 0 [ARG1] [(ARG1, zstr path)])
  | Dup fd => answer_of (kcall 10 0 [fd] [])
  | Getpid => answer_of (kcall 11 0 [] [])
  | Kill pid => answer_of (kcall 6 0 [pid] [])
  | Uptime => answer_of (kcall 14 0 [] [])
  | IntAt num esp => answer_of (kcall num esp [] [])
  | LinkAt old new => answer_of (kcall 19 0 [ARG1; new] [(ARG1, zstr old)])
  | _ => fun _ => None
  end.

(** ** The machine *)

(** Before main(): the disk holds [image], and the process is the first of the
    table. *)
Definition powered (image : gmap Z block) : KS :=
  FSys (LState log0 (binit image) []) iinit []
    (KRest fileinit ∅ (KMem 0 0 (fun _ => 0)) (first_proc :: replicate 63 proc0) 2 (Some 0%nat) 0 0 0 0 UPGDIR input0 []).

(** [forkret], whose static variable is [first]: the first process recovers the
    log. *)
Definition forkret (first : Z) : M KS Z :=
  if ctrue first then dio initlog;; mret 0 else mret first.

(** The first process is scheduled, and starts in the root directory. *)
Definition start : M KS unit :=
  forkret 1;;
  r ← namei (kdevsw (fun _ => 0) bstats) 0 [SLASH];
  match r with
  | Some ip => p ← curproc; set_curproc (set_cwd (ip + 1) p)
  | None => panic "no root"
  end.

(** The machine on a disk mkfs.c makes of some files. *)
Definition booted (files : list (list Z * list Z)) : option KS :=
  match main_xv6 files mk0 with
  | Ok _ mk => match start (powered (mk_img mk)) with Ok _ s => Some s | _ => None end
  | _ => None
  end.

(** What init.c does before it starts the shell. *)
Definition open_console : prog unit :=
  sys (Mknod (str "proc") 2 0);;
  sys (Mknod (str "console") 1 1);;
  sys (Open (str "console") O_RDWR);;
  sys (Dup 0);;
  sys (Dup 0);;
  mret tt.

(** The characters on the console. *)
Definition screen (s : KS) : list Z :=
  omap (fun e => match e with Put c => Some c | _ => None end) (k_console (fs_rest s)).

(** What a program leaves on the screen of the machine, when it returns within
    [fuel] steps. *)
Definition shown {A} (files : list (list Z * list Z)) (fuel : nat) (t : prog A) : option (list Z) :=
  match booted files with
  | Some s =>
      match run kernel_call fuel t s with
      | Returned _ s => Some (screen s)
      | _ => None
      end
  | None => None
  end.
