(* ===== verification/SystemThms.v ===== *)
(** The tests of usertests.c: what [pipe1] accepts, and tests that the kernel
    of this development passes. *)

From stdpp Require Import prelude strings gmap list.
From S2P Require Import Prelude Param Fs File Console Log Bio Mkfs Sys Progs ProgsThms Usertests System.

(** ** pipe1 *)

(** The parent: [fork] gives a process id, [read] the answers to come. *)
Definition pipe1_call : handler stdio := fun X e w =>
  match e in sysE X return option (X * stdio) with
  | Pipe => Some ((0, (3, 4)), w)
  | Fork => Some (7, w)
  | Wait => Some (7, w)
  | Close _ => Some (0, w)
  | Read fd n => io_call _ (Read fd n) w
  | Write fd b => io_call _ (Write fd b) w
  | _ => None
  end.

(** The text on descriptor 1, however the program ends. *)
Definition said {A} (e : ended A stdio) : list Z :=
  match e with
  | Returned _ w | Stopped w => concat (snd <$> filter (fun o => o.1 = 1) (io_out w))
  | Running => []
  end.

Lemma say_runs fmt args w :
  runs pipe1_call (printf 1 fmt args) w
    (Returned tt (Stdio (io_in w) (io_out w ++ ((fun c => (1, [c])) <$> format fmt args false)))).
Proof.
  unfold printf. generalize (format fmt args false) as l. intros l. revert w.
  induction l as [|c l IH]; intros w; cbn [for_list].
  - cbn. rewrite app_nil_r. destruct w. apply runs_mret.
  - eapply runs_then; [eapply runs_then; [by apply runs_sys|apply runs_mret]|].
    eapply runs_eq; [apply IH|]. cbn. by rewrite <- app_assoc.
Qed.

Lemma said_text (l : list Z) : concat (snd <$> filter (fun o : Z * list Z => o.1 = 1) ((fun c => (1, [c])) <$> l)) = l.
Proof. induction l as [|c l IH]; [done|]. cbn [fmap list_fmap]. rewrite filter_cons_True by done. cbn. by f_equal. Qed.

Lemma counts_from_app q l1 l2 :
  counts_from q (l1 ++ l2) = (counts_from q l1 && counts_from (q + Z.of_nat (length l1)) l2)%bool.
Proof.
  revert q. induction l1 as [|b l1 IH]; intros q; cbn [counts_from app length]; [by rewrite Z.add_0_r|].
  destruct (negb _); [done|]. rewrite IH. do 2 f_equal. lia.
Qed.

(** The check accepts the bytes that count on, and only them. *)
Lemma counts_from_spec q l : Forall (fun b => is_u8 b) l ->
  counts_from q l = true <-> l = (fun i => u8 (q + i)) <$> upto (Z.of_nat (length l)).
Proof.
  intros Hl. revert q. induction Hl as [|b l Hb Hl IH]; intros q; [done|]. cbn [counts_from length].
  change 255 with (Z.ones 8). rewrite !Z.land_ones by lia. rewrite (Z.mod_small b) by (cbn; lia).
  assert ((fun i => u8 (q + i)) <$> upto (Z.of_nat (S (length l))) =
    u8 q :: ((fun i => u8 (q + 1 + i)) <$> upto (Z.of_nat (length l)))) as ->.
  { unfold upto. rewrite !Nat2Z.id. cbn [seq fmap list_fmap]. rewrite Z.add_0_r. f_equal.
    rewrite <- fmap_S_seq, <- !list_fmap_compose. apply list_fmap_ext. intros i x _. cbn. f_equal. lia. }
  unfold u8 at 1. change (2 ^ 8) with 256. destruct (Z.eqb_spec b (q mod 256)) as [->|Hne]; cbn [negb].
  - rewrite IH. split; [by intros <-|]. by intros [= <-].
  - split; [done|]. by intros [= ? _].
Qed.

Definition oops2 : list (Z * list Z) := (fun c => (1, [c])) <$> format (ln "pipe1 oops 2") [] false.

Lemma pipe1_read_runs fd l r : forall buf q total cc out, Forall (fun b => b <> []) l -> r <= 0 ->
  let w := Stdio ((piece <$> l) ++ [(r, [])]) out in
  exists buf' rest, runs pipe1_call (pipe1_read fd (buf, q, total, cc)) w
    (if counts_from q (concat l) then Returned (buf', Some (total + Z.of_nat (length (concat l)))) (Stdio [] out)
     else Returned (buf', None) (Stdio rest (out ++ oops2))).
Proof.
  induction l as [|b l IH]; intros buf q total cc out Hl Hr w.
  - exists (fill [] buf), []. cbn. rewrite Z.add_0_r. apply runs_loop_last. eapply runs_then; [by apply runs_sys|].
    cbn beta iota. rewrite (proj2 (Z.ltb_ge 0 r)) by lia. apply runs_mret.
  - apply Forall_cons_1 in Hl as [Hb Hl]. cbn [concat]. rewrite counts_from_app.
    destruct (counts_from q b) eqn:Eb; cbn [andb].
    + destruct (IH (fill b buf) (q + Z.of_nat (length b)) (total + Z.of_nat (length b))
        (if sizeof_buf <? cc * 2 then sizeof_buf else cc * 2) out Hl Hr) as (buf' & rest & Hrun).
      exists buf', rest. eapply runs_loop_next.
      * eapply runs_then; [by apply runs_sys|]. unfold piece. cbn beta iota. rewrite piece_pos by done.
        unfold fill. rewrite Nat2Z.id, take_app_length, Eb. cbn [negb]. apply runs_mret.
      * eapply runs_eq; [exact Hrun|]. rewrite length_app, Nat2Z.inj_add, Z.add_assoc. done.
    + exists (fill b buf), ((piece <$> l) ++ [(r, [])]). unfold oops2. apply runs_loop_last.
      eapply runs_then; [by apply runs_sys|]. unfold piece. cbn beta iota. rewrite piece_pos by done.
      unfold fill. rewrite Nat2Z.id, take_app_length, Eb. cbn [negb]. eapply runs_then; [apply say_runs|]. apply runs_mret.
Qed.

(** [pipe1] tests what it is for: in whatever pieces the parent reads from the
    pipe, it ends, and it says "pipe1 ok" exactly when the bytes are those that
    the child has written, in order. *)
Theorem pipe1_checks buf l r :
  Forall (fun b => b <> []) l -> Forall (fun b => is_u8 b) (concat l) -> r <= 0 ->
  exists e, runs pipe1_call (pipe1 buf) (Stdio ((piece <$> l) ++ [(r, [])]) []) e /\
    (said e = ln "pipe1 ok" <-> concat l = (fun i => u8 i) <$> upto (5 * 1033)).
Proof.
  intros Hl Hu Hr. destruct (pipe1_read_runs 3 l r buf 0 0 1 [] Hl Hr) as (buf' & rest & Hrun).
  pose proof (counts_from_spec 0 (concat l) Hu) as Hspec. set (n := Z.of_nat (length (concat l))) in *.
  assert (forall e, runs pipe1_call (pipe1_read 3 (buf, 0, 0, 1) ≫= fun '(buf, total) =>
      match total with
      | None => mret buf
      | Some total =>
          stop_if (other (5 * 1033) total) (ln "pipe1 oops 3 total %d") [PInt total];;
          do_ (Close 3);; do_ Wait;; say (ln "pipe1 ok");; mret buf
      end) (Stdio ((piece <$> l) ++ [(r, [])]) []) e -> runs pipe1_call (pipe1 buf) (Stdio ((piece <$> l) ++ [(r, [])]) []) e) as Hp.
  { intros e He. unfold pipe1. eapply runs_then; [by apply runs_sys|]. eapply runs_then; [apply runs_mret|].
    eapply runs_then; [by apply runs_sys|]. eapply runs_then; [eapply runs_then; [by apply runs_sys|apply runs_mret]|].
    exact He. }
  destruct (counts_from 0 (concat l)).
  - destruct (other (5 * 1033) n) eqn:En.
    + eexists. split.
      * apply Hp. eapply runs_then; [exact Hrun|]. cbn beta iota. rewrite Z.add_0_l, En.
        apply runs_then_stop. eapply runs_then; [apply say_runs|]. by apply runs_exit.
      * cbn [said io_out app]. rewrite said_text. split; [intros E; apply (f_equal (lookup 7%nat)) in E; lazy in E; discriminate|]. intros E.
        apply (f_equal length) in E. rewrite length_fmap, length_upto in E. unfold other in En. unfold n in En.
        rewrite E in En. done.
    + eexists. split.
      * apply Hp. eapply runs_then; [exact Hrun|]. cbn beta iota. rewrite Z.add_0_l, En.
        eapply runs_then; [apply runs_mret|]. eapply runs_then; [eapply runs_then; [by apply runs_sys|apply runs_mret]|].
        eapply runs_then; [eapply runs_then; [by apply runs_sys|apply runs_mret]|].
        eapply runs_then; [apply say_runs|]. apply runs_mret.
      * cbn [said io_out app]. rewrite said_text. split; [intros _|done]. apply negb_false_iff, Z.eqb_eq in En.
        rewrite <- En. etransitivity; [by apply Hspec|]. done.
  - eexists. split; [apply Hp; eapply runs_then; [exact Hrun|]; apply runs_mret|].
    cbn [said io_out app]. unfold oops2. rewrite said_text. split; [intros E; apply (f_equal (lookup 7%nat)) in E; lazy in E; discriminate|]. intros E.
    assert (false = true) as []%diff_false_true. apply Hspec. rewrite E at 1. unfold n. rewrite E, length_fmap, length_upto.
    by rewrite Z2Nat.id by lia.
Qed.

(** ** Runs on the kernel *)

Lemma shown_runs {A} files fuel (t : prog A) out :
  shown files fuel t = Some out ->
  exists s0 a s, booted files = Some s0 /\ runs kernel_call t s0 (Returned a s) /\ screen s = out.
Proof.
  unfold shown. destruct (booted files) as [s0|]; [|done].
  destruct (run kernel_call fuel t s0) as [a s| |] eqn:E; try done. intros [= <-].
  exists s0, a, s. split_and!; [done| |done]. by eapply run_runs.
Qed.

(** The files of the image, in the order mkfs.c is given them; their contents do
    not matter here. *)
Definition image_files : list (list Z * list Z) :=
  (fun name => (str name, replicate 20 65)) <$>
  ["README"; "_cat"; "_echo"; "_forktest"; "_grep"; "_init"; "_kill"; "_ln"; "_ls"; "_mkdir"; "_rm"; "_sh";
   "_stressfs"; "_usertests"; "_wc"; "_zombie"; "_lsof"].

Definition buf0 : list Z := replicate (Z.to_nat sizeof_buf) 0.

(** Tests that need one process, in the order of main(). *)
Definition file_tests : prog unit :=
  open_console;;
  opentest;;
  dirtest;;
  iputtest;;
  rmdot;;
  fourteen;;
  buf ← subdir buf0;
  buf ← linktest buf;
  buf ← unlinkread buf;
  dirfile.

Definition passed : list Z :=
  ln "open test" ++ ln "open test ok" ++ ln "mkdir test" ++ ln "mkdir test ok" ++ ln "iput test" ++ ln "iput test ok" ++
  ln "rmdot test" ++ ln "rmdot ok" ++ ln "fourteen test" ++ ln "fourteen ok" ++ ln "subdir test" ++ ln "subdir ok" ++
  ln "linktest" ++ ln "linktest ok" ++ ln "unlinkread test" ++ ln "unlinkread ok" ++ ln "dir vs file" ++ ln "dir vs file OK".

(** The kernel passes the tests of usertests.c.  On a disk made by mkfs.c the
    log is recovered and the console opened, then nine tests of one process run,
    each system call going through the arguments on the user stack, sysfile.c,
    file.c, fs.c, log.c, bio.c and the disk: every test ends, and the console shows
    for each that it has passed. *)
Theorem usertests_pass :
  exists s0 a s, booted image_files = Some s0 /\ runs kernel_call file_tests s0 (Returned a s) /\ screen s = passed.
Proof. apply (shown_runs image_files (Z.to_nat 20000)). vm_compute. reflexivity. Qed.

(** [ls("/proc")], and what it prints. *)
Definition ls_proc : prog unit := open_console;; ls (str "/proc").

Definition proc_listing : list Z :=
  ln ".              3 19 0" ++ ln "..             1 1 512" ++ ln "blockstat      3 660 0" ++
  ln "inodestat      3 670 0" ++ ln "1              3 700 0".

(** procfs.c knows the directory /proc by the inode number 19, the one [mknod]
    gives it on an image of 17 files.  With one file less it lists nothing. *)
Theorem proc_needs_17_files :
  (exists s0 a s, booted image_files = Some s0 /\ runs kernel_call ls_proc s0 (Returned a s) /\ screen s = proc_listing) /\
  (exists s0 a s, booted (removelast image_files) = Some s0 /\ runs kernel_call ls_proc s0 (Returned a s) /\ screen s = []).
Proof. split; apply (shown_runs _ (Z.to_nat 20000)); vm_compute; reflexivity. Qed.
