(* ===== verification/KernelSim.v ===== *)
(** Every system call is simulated: the kernel over one disk does what it does
    over another that [DiskSpec] relates to it.

    fs.c and file.c are simulated in FsSim.v and FileThms.v; here are proc.c,
    syscall.c, exec.c, sysfile.c and the devices. *)

From stdpp Require Import prelude strings gmap list.
From S2P Require Import Prelude Bytes Param BlockCache CString Pipe Kalloc Vm Proc Console.
From S2P Require Import Log TxDisk Fs Dir FsSim File FileThms Syscall Exec SysFile Procfs Kernel.

#[export] Hint Resolve onrest_sim of_option_sim : msim.

(** One step more than [fs_sim_step]: reading the table of processes. *)
Lemma msim_get {S T X} (R : S -> T -> Prop) (f : S -> M S X) (f' : T -> M T X) :
  (forall s t, R s t -> msim R (f s) (f' t)) -> msim R (get ≫= f) (get ≫= f').
Proof. intros Hf s t Hst. erewrite !bind_run by done. by apply Hf. Qed.

(** ** proc.c *)

Section proc.
Context {T A : Type} `{DiskSpec T A}.
Abbreviation R := (fs_rep (T:=T) (A:=A) (D:=krest)).

Definition proc_rep (s : pstate (fsys T krest)) (t : pstate (fsys A krest)) : Prop :=
  procs s = procs t /\ nextpid s = nextpid t /\ initproc s = initproc t /\ R (penv s) (penv t).

(** What proc.c calls does the same on both. *)
Record env_sim (E : ProcEnv (fsys T krest)) (E' : ProcEnv (fsys A krest)) : Prop := {
  es_kalloc : msim R pe_kalloc pe_kalloc;
  es_kfree v : msim R (pe_kfree v) (pe_kfree v);
  es_setupkvm : msim R pe_setupkvm pe_setupkvm;
  es_inituvm d : msim R (pe_inituvm d) (pe_inituvm d);
  es_copyuvm d sz : msim R (pe_copyuvm d sz) (pe_copyuvm d sz);
  es_allocuvm d o n : msim R (pe_allocuvm d o n) (pe_allocuvm d o n);
  es_deallocuvm d o n : msim R (pe_deallocuvm d o n) (pe_deallocuvm d o n);
  es_freevm d : msim R (pe_freevm d) (pe_freevm d);
  es_switchuvm d : msim R (pe_switchuvm d) (pe_switchuvm d);
  es_filedup f : msim R (pe_filedup f) (pe_filedup f);
  es_fileclose f : msim R (pe_fileclose f) (pe_fileclose f);
  es_idup ip : msim R (pe_idup ip) (pe_idup ip);
  es_iput ip : msim R (pe_iput ip) (pe_iput ip);
  es_namei_root : msim R pe_namei_root pe_namei_root;
  es_begin_op : msim R pe_begin_op pe_begin_op;
  es_end_op : msim R pe_end_op pe_end_op
}.

Lemma env_msim {X} (m : M (fsys T krest) X) m' : msim R m m' -> msim proc_rep (env m) (env m').
Proof.
  intros Hm s t (E1 & E2 & E3 & Hr). specialize (Hm _ _ Hr). unfold env, lift.
  destruct (m' (penv t)), (m (penv s)); simpl in *; unfold proc_rep; simpl; try done; tauto.
Qed.

Lemma set_procs_sim f : msim proc_rep (Proc.set_procs f) (Proc.set_procs f).
Proof. intros s t (E1 & E2 & E3 & Hr). unfold proc_rep. simpl. rewrite E1. tauto. Qed.

Lemma upd_proc_sim i f : msim proc_rep (upd_proc i f) (upd_proc i f).
Proof. apply set_procs_sim. Qed.

Lemma of_option_proc_sim {X} what (o : option X) : msim proc_rep (of_option what o) (of_option what o).
Proof. destruct o; cbn [of_option]; auto with msim. Qed.

Lemma get_proc_sim i : msim proc_rep (get_proc i) (get_proc i).
Proof. apply msim_get. intros s t (E1 & _). rewrite E1. apply of_option_proc_sim. Qed.

Lemma sleep_on_proc_sim {X} ch : msim (A:=X) proc_rep (sleep_on ch) (sleep_on ch).
Proof. by intros s t. Qed.

#[local] Hint Resolve env_msim set_procs_sim upd_proc_sim of_option_proc_sim get_proc_sim sleep_on_proc_sim : msim.

Context (E : ProcEnv (fsys T krest)) (E' : ProcEnv (fsys A krest)) (HE : env_sim E E').
#[local] Hint Resolve es_kalloc es_kfree es_setupkvm es_inituvm es_copyuvm es_allocuvm es_deallocuvm es_freevm
  es_switchuvm es_filedup es_fileclose es_idup es_iput es_namei_root es_begin_op es_end_op : msim.

Lemma allocproc_sim : msim proc_rep (allocproc (K:=fsys T krest)) (allocproc (K:=fsys A krest)).
Proof.
  unfold allocproc, allocproc_stack.
  assert (msim proc_rep (allocproc_take (K:=fsys T krest)) (allocproc_take (K:=fsys A krest))).
  { apply msim_get. intros s t (E1 & E2 & _). rewrite E1, E2. fs_sim.
    intros s' t' (F1 & F2 & F3 & Hr). unfold proc_rep. simpl. rewrite F2. tauto. }
  fs_sim.
Qed.
#[local] Hint Resolve allocproc_sim : msim.

Lemma growproc_sim cur n : msim proc_rep (growproc cur n) (growproc cur n).
Proof. unfold growproc. fs_sim. Qed.

Lemma yield_sim cur : msim proc_rep (yield cur) (yield cur).
Proof. unfold yield, sched. fs_sim. Qed.

Lemma fork_sim cur : msim proc_rep (fork cur) (fork cur).
Proof. unfold fork, fork_copy, fork_undo, fork_fill, fork_publish. fs_sim. Qed.

Lemma exit_end_sim cur : msim proc_rep (exit_end (K:=fsys T krest) cur) (exit_end cur).
Proof. apply msim_get. intros s t (E1 & E2 & E3 & _). rewrite E3. fs_sim. Qed.
#[local] Hint Resolve exit_end_sim : msim.

Lemma exit_sim cur : msim proc_rep (exit cur) (exit cur).
Proof. apply msim_get. intros s t (E1 & E2 & E3 & _). rewrite E3. unfold exit_release. fs_sim. Qed.

Lemma wait_sim cur : msim proc_rep (wait cur) (wait cur).
Proof. apply msim_get. intros s t (E1 & _). rewrite E1. fs_sim. Qed.

Lemma getProc_sim i : msim proc_rep (getProc (K:=fsys T krest) i) (getProc i).
Proof. apply msim_get. intros s t (E1 & _). rewrite E1. fs_sim. Qed.

Lemma getProcByPID_sim i : msim proc_rep (getProcByPID (K:=fsys T krest) i) (getProcByPID i).
Proof. apply msim_get. intros s t (E1 & _). rewrite E1. fs_sim. Qed.

Lemma onproc_sim {X} (m : M (pstate (fsys T krest)) X) m' : msim proc_rep m m' -> msim R (onproc m) (onproc m').
Proof.
  intros Hm s t Hst. pose proof Hst as (Hd & Hi & Hw & Hr). unfold onproc, lift. rewrite Hr.
  assert (proc_rep (PState (k_procs (fs_rest t)) (k_nextpid (fs_rest t)) (k_initproc (fs_rest t)) s)
    (PState (k_procs (fs_rest t)) (k_nextpid (fs_rest t)) (k_initproc (fs_rest t)) t)) as Hp
    by (split_and!; done).
  specialize (Hm _ _ Hp). destruct (m' _) as [x ps'| | |], (m _) as [y ps| | |]; simpl in *; try done.
  - destruct Hm as (-> & F1 & F2 & F3 & G1 & G2 & G3 & G4). split; [done|]. unfold fs_rep. simpl.
    rewrite F1, F2, F3, G4. tauto.
  - destruct Hm as (F1 & F2 & F3 & G1 & G2 & G3 & G4). unfold fs_rep. simpl.
    rewrite F1, F2, F3, G4. tauto.
Qed.

End proc.

(** ** syscall.c and sysproc.c *)

Section calls.
Context {T A : Type} `{DiskSpec T A}.
Abbreviation R := (fs_rep (T:=T) (A:=A) (D:=krest)).
Context (end_ data_ : Z) (initcode : list Z).
Context (devsw : Z -> devops (fsys T krest)) (devsw' : Z -> devops (fsys A krest)).
Hypothesis Hdev : forall major, dev_sim (devsw major) (devsw' major).

#[local] Hint Resolve readi_sim writei_sim dirlookup_sim dirlink_sim namex_sim ilock_sim iunlock_sim iunlockput_sim
  iput_sim idup_sim iupdate_sim ialloc_sim stati_sim is_dir_sim filealloc_sim filedup_sim fileclose_sim filestat_sim
  fileread_sim filewrite_sim pipealloc_sim : msim.

Ltac ksim := unfold get_file, set_file, curproc, set_curproc, onkmem, namei, nameiparent; fs_sim.

Lemma uldb_sim va : msim R (uldb va) (uldb va).
Proof. unfold uldb. ksim. Qed.

Lemma ustb_sim va b : msim R (ustb va b) (ustb va b).
Proof. unfold ustb. ksim. Qed.
#[local] Hint Resolve uldb_sim ustb_sim : msim.

Lemma uld_bytes_sim n va : msim R (uld_bytes va n) (uld_bytes va n).
Proof. revert va. induction n; intros; cbn [uld_bytes]; ksim. Qed.

Lemma ust_bytes_sim l va : msim R (ust_bytes va l) (ust_bytes va l).
Proof. revert va. induction l; intros; cbn [ust_bytes]; ksim. Qed.

Lemma fetchint_sim a : msim R (fetchint a) (fetchint a).
Proof. unfold fetchint, uldw. ksim. Qed.

Lemma fetchstr_loop_sim n s : msim R (fetchstr_loop n s) (fetchstr_loop n s).
Proof. revert s. induction n; intros; cbn [fetchstr_loop]; ksim. Qed.
#[local] Hint Resolve uld_bytes_sim ust_bytes_sim fetchint_sim fetchstr_loop_sim : msim.

Lemma fetchstr_sim a : msim R (fetchstr a) (fetchstr a).
Proof. unfold fetchstr. ksim. Qed.

Lemma argint_sim n : msim R (argint n) (argint n).
Proof. unfold argint. ksim. Qed.
#[local] Hint Resolve fetchstr_sim argint_sim : msim.

Lemma argptr_sim n size : msim R (argptr n size) (argptr n size).
Proof. unfold argptr. ksim. Qed.

Lemma argstr_sim n : msim R (argstr n) (argstr n).
Proof. unfold argstr. ksim. Qed.
#[local] Hint Resolve argptr_sim argstr_sim : msim.

Lemma switchuvm_sim d : msim R (switchuvm d) (switchuvm d).
Proof. unfold switchuvm. ksim. Qed.
#[local] Hint Resolve switchuvm_sim : msim.

Abbreviation E := (kernel_env end_ data_ initcode devsw).
Abbreviation E' := (kernel_env end_ data_ initcode devsw').

Lemma kernel_env_sim : env_sim E E'.
Proof.
  constructor; intros; cbv beta iota delta [pe_kalloc pe_kfree pe_setupkvm pe_inituvm pe_copyuvm pe_allocuvm pe_deallocuvm
    pe_freevm pe_switchuvm pe_filedup pe_fileclose pe_idup pe_iput pe_namei_root pe_begin_op pe_end_op kernel_env]; ksim.
Qed.

#[local] Hint Resolve onproc_sim fork_sim exit_sim wait_sim growproc_sim kernel_env_sim : msim.

Lemma sys_proc_sim :
  msim R (sys_fork end_ data_ initcode devsw) (sys_fork end_ data_ initcode devsw') /\
  msim R (sys_exit end_ data_ initcode devsw) (sys_exit end_ data_ initcode devsw') /\
  msim R (sys_wait end_ data_ initcode devsw) (sys_wait end_ data_ initcode devsw') /\
  msim R (sys_sbrk end_ data_ initcode devsw) (sys_sbrk end_ data_ initcode devsw') /\
  msim R sys_kill sys_kill /\ msim R sys_getpid sys_getpid /\ msim R sys_sleep sys_sleep /\ msim R sys_uptime sys_uptime.
Proof.
  unfold sys_fork, sys_exit, sys_wait, sys_sbrk, sys_kill, sys_getpid, sys_sleep, sleep_loop, sys_uptime, kcur.
  split_and!; ksim.
Qed.

(** ** exec.c *)

Lemma loaduvm_sim d addr ip off sz : msim R (loaduvm devsw d addr ip off sz) (loaduvm devsw' d addr ip off sz).
Proof.
  unfold loaduvm. destruct (ctrue _); [ksim|]. generalize 0 at 1 2 as i. intros i. revert i.
  generalize (Z.to_nat (sz / PGSIZE + 2)) as fuel. induction fuel; intros; cbn [loaduvm_loop]; ksim.
Qed.

Lemma exec_bad_sim d ip : msim R (exec_bad end_ d ip) (exec_bad end_ d ip).
Proof. unfold exec_bad. ksim. Qed.
#[local] Hint Resolve loaduvm_sim exec_bad_sim : msim.

Lemma load_segments_sim n d ip off sz :
  msim R (load_segments end_ devsw n d ip off sz) (load_segments end_ devsw' n d ip off sz).
Proof. revert off sz. induction n; intros; cbn [load_segments]; ksim. Qed.

Lemma push_args_sim d argv sp argc : msim R (push_args d sp argc argv) (push_args d sp argc argv).
Proof. revert sp argc. induction argv; intros; cbn [push_args]; ksim. Qed.
#[local] Hint Resolve load_segments_sim push_args_sim : msim.

Lemma exec_sim path argv : msim R (exec end_ data_ devsw path argv) (exec end_ data_ devsw' path argv).
Proof. unfold exec, exec_stack, exec_commit. ksim. Qed.
#[local] Hint Resolve exec_sim : msim.

(** ** sysfile.c *)

Lemma argfd_sim n : msim R (argfd n) (argfd n).
Proof. unfold argfd. ksim. Qed.

Lemma fdalloc_sim f : msim R (fdalloc f) (fdalloc f).
Proof. unfold fdalloc, set_fd. ksim. Qed.

Lemma upd_inode_sim ip f : msim R (upd_inode ip f) (upd_inode ip f).
Proof. unfold upd_inode. ksim. Qed.

Lemma end_ret_sim r : msim R (end_ret r) (end_ret r).
Proof. unfold end_ret. ksim. Qed.
#[local] Hint Resolve argfd_sim fdalloc_sim upd_inode_sim end_ret_sim : msim.

Lemma argrw_sim : msim R argrw argrw.
Proof. unfold argrw. ksim. Qed.
#[local] Hint Resolve argrw_sim : msim.

Lemma sys_file_sim :
  msim R sys_dup sys_dup /\ msim R (sys_read devsw) (sys_read devsw') /\ msim R (sys_write devsw) (sys_write devsw') /\
  msim R (sys_close end_) (sys_close end_) /\ msim R sys_fstat sys_fstat /\ msim R (sys_pipe end_) (sys_pipe end_).
Proof.
  unfold sys_dup, sys_read, sys_write, sys_close, sys_fstat, sys_pipe, ust_stat, set_fd. split_and!; ksim.
Qed.

Lemma link_bad_sim ip : msim R (link_bad ip) (link_bad ip).
Proof. unfold link_bad. ksim. Qed.

Lemma unlink_bad_sim dp : msim R (unlink_bad dp) (unlink_bad dp).
Proof. unfold unlink_bad. ksim. Qed.

Lemma isdirempty_sim dp : msim R (isdirempty devsw dp) (isdirempty devsw' dp).
Proof.
  unfold isdirempty. apply msim_bind; [auto with msim|]. intros i. generalize (2 * sizeof_dirent) as off.
  generalize (Z.to_nat (i_size i / sizeof_dirent + 2)) as fuel. induction fuel; intros; cbn [isdirempty_loop]; ksim.
Qed.
#[local] Hint Resolve link_bad_sim unlink_bad_sim isdirempty_sim : msim.

Lemma sys_link_sim : msim R (sys_link devsw) (sys_link devsw').
Proof. unfold sys_link, link_new, knameiparent, knamei, cwd. ksim. Qed.

Lemma sys_unlink_sim : msim R (sys_unlink devsw) (sys_unlink devsw').
Proof. unfold sys_unlink, unlink_entry, knameiparent, cwd. ksim. Qed.

Lemma create_sim path type major minor :
  msim R (create devsw path type major minor) (create devsw' path type major minor).
Proof. unfold create, create_new, knameiparent, cwd. ksim. Qed.
#[local] Hint Resolve create_sim : msim.

Lemma sys_open_sim : msim R (sys_open end_ devsw) (sys_open end_ devsw').
Proof. unfold sys_open, open_inode, open_fail, knamei, cwd. ksim. Qed.

Lemma sys_make_sim :
  msim R (sys_mkdir devsw) (sys_mkdir devsw') /\ msim R (sys_mknod devsw) (sys_mknod devsw').
Proof. unfold sys_mkdir, sys_mknod, make. split; ksim. Qed.

Lemma sys_chdir_sim : msim R (sys_chdir devsw) (sys_chdir devsw').
Proof. unfold sys_chdir, knamei, cwd. ksim. Qed.

Lemma exec_args_sim n a : msim R (exec_args n a) (exec_args n a).
Proof. revert a. induction n; intros; cbn [exec_args]; ksim. Qed.
#[local] Hint Resolve exec_args_sim : msim.

Lemma sys_exec_sim : msim R (sys_exec end_ data_ devsw) (sys_exec end_ data_ devsw').
Proof. unfold sys_exec. ksim. Qed.

(** The table of system calls, entry by entry. *)
Lemma syscalls_sim num :
  match syscalls end_ data_ initcode devsw num, syscalls end_ data_ initcode devsw' num with
  | Some f, Some f' => msim R f f'
  | None, None => True
  | _, _ => False
  end.
Proof.
  pose proof sys_proc_sim. pose proof sys_file_sim. pose proof sys_make_sim. destruct_and!.
  pose proof sys_link_sim. pose proof sys_unlink_sim. pose proof sys_open_sim. pose proof sys_chdir_sim. pose proof sys_exec_sim.
  unfold syscalls. destruct num as [|p|p]; [exact I| |exact I].
  do 5 try (destruct p as [p|p|]; first [exact I|assumption|idtac]).
Qed.

Lemma syscall_sim : msim R (syscall end_ data_ initcode devsw) (syscall end_ data_ initcode devsw').
Proof.
  unfold syscall, set_eax. apply msim_bind; [ksim|]. intros p. pose proof (syscalls_sim (s32 (tf_eax (p_tf p)))) as Hc.
  destruct (syscalls _ _ _ devsw _), (syscalls _ _ _ devsw' _); try done; ksim.
Qed.

End calls.

(** ** The devices *)

Section devices.
Context {T A : Type} `{DiskSpec T A}.
Abbreviation R := (fs_rep (T:=T) (A:=A) (D:=krest)).
Context (junk : mem) (bstat : M (fsys T krest) (Z * Z * Z * Z)) (bstat' : M (fsys A krest) (Z * Z * Z * Z)).
Hypothesis Hstat : msim R bstat bstat'.

#[local] Hint Resolve ilock_sim iunlock_sim onproc_sim getProc_sim getProcByPID_sim : msim.

Ltac dsim := unfold get_file, curproc, proc_at, puts_effects; fs_sim.

Lemma put_dirent_sim i de buf : msim R (put_dirent i de buf) (put_dirent i de buf).
Proof. unfold put_dirent. dsim. Qed.

Lemma buf_len_sim buf : msim R (buf_len buf) (buf_len buf).
Proof. unfold buf_len. dsim. Qed.

Lemma cpy_sim o s n buf : msim R (cpy o s n buf) (cpy o s n buf).
Proof. unfold cpy. dsim. Qed.
#[local] Hint Resolve put_dirent_sim buf_len_sim cpy_sim : msim.

Lemma cat_sim s n buf : msim R (cat s n buf) (cat s n buf).
Proof. unfold cat. dsim. Qed.

Lemma cat_int_sim x buf : msim R (cat_int x buf) (cat_int x buf).
Proof. unfold cat_int. dsim. Qed.
#[local] Hint Resolve cat_sim cat_int_sim : msim.

Lemma initProc_loop_sim ps i name buf : msim R (initProc_loop ps i name buf) (initProc_loop ps i name buf).
Proof. revert i name buf. induction ps; intros; cbn [initProc_loop]; dsim. Qed.

Lemma fdinfo_loop_sim l i pid index name buf : msim R (fdinfo_loop l i pid index name buf) (fdinfo_loop l i pid index name buf).
Proof. revert i index name buf. induction l; intros; cbn [fdinfo_loop]; dsim. Qed.
#[local] Hint Resolve initProc_loop_sim fdinfo_loop_sim : msim.

Lemma procfs_dirs_sim :
  (forall ip buf, msim R (initProc ip buf) (initProc ip buf)) /\
  (forall inum buf, msim R (initPID inum buf) (initPID inum buf)) /\
  (forall pid buf, msim R (fdinfo pid buf) (fdinfo pid buf)).
Proof. unfold initProc, initPID, fdinfo. split_and!; dsim. Qed.

Lemma gets_inodes_sim {X} (g : list inode -> X) :
  msim R (gets (fun s => g (fs_icache s))) (gets (fun s => g (fs_icache s))).
Proof. intros s t Hst. pose proof Hst as (_ & E & _). cbn. by rewrite E. Qed.

Lemma inode_counts_sim :
  msim R get_number_of_free_inode get_number_of_free_inode /\
  msim R number_of_valid_inode number_of_valid_inode /\
  msim R get_number_of_ref get_number_of_ref /\
  msim R get_number_of_active_inode get_number_of_active_inode.
Proof.
  assert (msim R get_number_of_free_inode get_number_of_free_inode)
    by apply (gets_inodes_sim (count_inodes (fun i => i_flags i =? 0))).
  split_and!; [done| | |].
  - apply (gets_inodes_sim (count_inodes (fun i => ctrue (i_flags i .& I_VALID)))).
  - apply (gets_inodes_sim (fun ic => s32 (foldr Z.add 0 (i_ref <$> ic)))).
  - unfold get_number_of_active_inode. dsim.
Qed.

Lemma procfs_files_sim :
  (forall pid buf, msim R (status junk pid buf) (status junk pid buf)) /\
  (forall pid buf, msim R (filesContent pid buf) (filesContent pid buf)) /\
  (forall buf, msim R (blockstat bstat buf) (blockstat bstat' buf)) /\
  (forall buf, msim R (inodestat buf) (inodestat buf)).
Proof.
  destruct inode_counts_sim as (? & ? & ? & ?).
  unfold status, filesContent, fileType, blockstat, inodestat.
  split_and!; dsim.
Qed.

Lemma procfsread_sim ip off n : msim R (procfsread junk bstat ip off n) (procfsread junk bstat' ip off n).
Proof.
  destruct procfs_dirs_sim as (H1' & H2' & H3'), procfs_files_sim as (H4' & H5' & H6' & H7').
  unfold procfsread, procfs_fill. dsim.
Qed.

Lemma procfs_ops_sim : dev_sim (procfs_ops junk bstat) (procfs_ops junk bstat').
Proof.
  constructor; cbn [procfs_ops dv_isdir dv_iread dv_read dv_write]; intros.
  - unfold procfsisdir. dsim.
  - unfold procfsiread. dsim.
  - apply procfsread_sim.
  - unfold procfswrite. dsim.
Qed.

Lemma puts_effects_sim l : msim R (puts_effects l) (puts_effects l).
Proof. dsim. Qed.
#[local] Hint Resolve puts_effects_sim : msim.

Lemma console_ops_sim : dev_sim (T:=T) (A:=A) console_ops console_ops.
Proof.
  constructor; cbn [console_ops dv_isdir dv_iread dv_read dv_write]; intros; try done.
  - unfold kconsoleread. dsim.
  - unfold kconsolewrite. dsim.
Qed.

(** The table of devices of the running kernel. *)
Lemma kdevsw_sim major : dev_sim (kdevsw junk bstat major) (kdevsw junk bstat' major).
Proof.
  unfold kdevsw, consoleinit, procfsinit. destruct (major =? CONSOLE); [apply console_ops_sim|].
  destruct (major =? PROCFS); [apply procfs_ops_sim|]. by constructor.
Qed.

Lemma kexit_sim {X} end_ data_ initcode :
  msim (A:=X) R (kexit junk bstat end_ data_ initcode) (kexit junk bstat' end_ data_ initcode).
Proof.
  pose proof (kernel_env_sim end_ data_ initcode _ _ kdevsw_sim).
  unfold kexit, kcur. fs_sim. by apply onproc_sim, exit_sim.
Qed.

(** A trap for a system call. *)
Lemma trap_syscall_sim end_ data_ initcode tf :
  msim R (trap_syscall junk bstat end_ data_ initcode tf) (trap_syscall junk bstat' end_ data_ initcode tf).
Proof.
  pose proof (syscall_sim end_ data_ initcode _ _ kdevsw_sim). pose proof (@kexit_sim).
  unfold trap_syscall, curproc, set_curproc. fs_sim.
Qed.

End devices.
