(* ===== verification/CrashThms.v ===== *)
(** Crash safety of the whole kernel.

    The machine runs a history of events: traps, with every system call among
    them, and what processes, the scheduler and the devices do in between, which
    is anything that leaves the file system alone.  At any sector write the
    power may fail. *)

From stdpp Require Import prelude strings gmap list.
From S2P Require Import Prelude Bytes Param BlockCache CString Pipe Kalloc Vm Proc ProcInv Bio.
From S2P Require Import Log LogCrash BioSpec BioOps TxDisk CrashDisk Fs Dir FsSim FsAlloc Hw Console File FileThms.
From S2P Require Import Syscall Exec SysFile Procfs Kernel KernelSim Mkfs FsCheck FsThms Sys System.

(** ** Histories *)

Inductive kevent :=
| ETrap (cpuid : Z) (running : bool) (tf : trapframe) (trapno : Z)
| EStep (f : krest -> krest) (g : hw -> hw).

(** A call that sleeps leaves the machine to the others as it is. *)
Definition after {S A} (r : res S A) : option S :=
  match r with
  | Ok _ s | Sleep _ s => Some s
  | Panic _ | Fault _ => None
  end.

Section history.
Context {T : Type} `{Disk T}.
Context (junk : mem) (bstat : M (fsys T krest) (Z * Z * Z * Z)) (end_ data_ : Z) (initcode : list Z).

Definition event_step (e : kevent) : M machine unit :=
  match e with
  | ETrap cpuid running tf trapno => trap junk bstat end_ data_ initcode cpuid running tf trapno
  | EStep f g => onk (onrest (modify f));; onhw (modify g)
  end.

Fixpoint history (es : list kevent) (s : machine) : option machine :=
  match es with
  | [] => Some s
  | e :: es =>
      match after (event_step e s) with
      | Some s => history es s
      | None => None
      end
  end.

End history.

(** ** Traps on two disks *)

Section traps.
Context {T A : Type} `{DiskSpec T A}.
Context (junk : mem) (bstat : M (fsys T krest) (Z * Z * Z * Z)) (bstat' : M (fsys A krest) (Z * Z * Z * Z)).
Hypothesis Hstat : msim fs_rep bstat bstat'.
Context (end_ data_ : Z) (initcode : list Z).

Definition machine_rep (s : machine (T:=T)) (t : machine (T:=A)) : Prop :=
  mc_hw s = mc_hw t /\ fs_rep (mc_k s) (mc_k t) /\ mc_gdts s = mc_gdts t /\ mc_idt s = mc_idt t /\
  mc_low s = mc_low t.

Lemma onhw_sim {X} (m : M hw X) : msim machine_rep (onhw m) (onhw m).
Proof.
  intros s t (E1 & H2 & H3). unfold onhw, lift. rewrite E1.
  by destruct (m (mc_hw t)); cbn [rsim].
Qed.

Lemma onk_sim {X} (m : M (fsys T krest) X) (m' : M (fsys A krest) X) :
  msim fs_rep m m' -> msim machine_rep (onk m) (onk m').
Proof.
  intros Hm s t (E1 & H2 & H3). specialize (Hm _ _ H2). unfold onk, lift.
  destruct (m' (mc_k t)), (m (mc_k s)); cbn [rsim] in *; try done. by destruct Hm.
Qed.

Lemma kintr_loop_sim fuel getc : msim machine_rep (kintr_loop fuel getc) (kintr_loop fuel getc).
Proof.
  induction fuel as [|fuel IH]; cbn [kintr_loop]; [apply msim_fault|].
  apply msim_bind; [apply onhw_sim|intros c]. destruct (c <? 0); [apply msim_ret|].
  apply msim_bind; [|intros _; exact IH]. apply onk_sim. unfold puts_effects. fs_sim.
Qed.

Lemma kintr_sim getc : msim machine_rep (kintr getc) (kintr getc).
Proof. intros s t Hr. pose proof Hr as (E & _). unfold kintr. erewrite !bind_run by done. rewrite E. by apply kintr_loop_sim. Qed.

#[local] Hint Resolve onhw_sim onk_sim kexit_sim kintr_sim trap_syscall_sim onproc_sim yield_sim : msim.

Lemma trap_sim cpuid running tf trapno :
  msim machine_rep (trap junk bstat end_ data_ initcode cpuid running tf trapno)
    (trap junk bstat' end_ data_ initcode cpuid running tf trapno).
Proof.
  unfold trap, trap_switch, exit_if_killed, tick, kbdintr, uartintr, curproc, set_curproc, kcur.
  repeat (fs_sim; try apply onk_sim).
Qed.

Lemma history_sim es s t t' :
  machine_rep s t -> history junk bstat' end_ data_ initcode es t = Some t' ->
  exists s', history junk bstat end_ data_ initcode es s = Some s' /\ machine_rep s' t'.
Proof.
  revert s t. induction es as [|e es IH]; intros s t Hr Ht; cbn [history] in *; [simplify_eq; eauto|].
  assert (msim machine_rep (event_step junk bstat end_ data_ initcode e) (event_step junk bstat' end_ data_ initcode e)) as Hm.
  { destruct e; cbn [event_step]; [apply trap_sim|]. apply msim_bind; [|intros _]; auto with msim. }
  specialize (Hm s t Hr). destruct (event_step _ _ _ _ _ e t), (event_step _ _ _ _ _ e s);
    cbn [after rsim] in *; try done; [destruct Hm as [_ Hm]|]; by eapply IH.
Qed.

End traps.

(** ** Crashes *)

(** The machine of [history] over the abstract disk; the counters of bio.c are
    not of it, so nothing is promised once they are read. *)
Definition no_bstat : M (fsys hdisk krest) (Z * Z * Z * Z) := fault "the counters of the cache".

(** The same machine as [s], its disk being [mem] and the log empty. *)
Definition h_machine (start size : Z) (mem : gmap Z block) (s : machine (T:=lstate bcache)) : machine (T:=hdisk) :=
  Machine (mc_hw s)
    (FSys (HDisk (TDisk mem ∅ ∅ ∅ 0 start size) [mem]) (fs_icache (mc_k s)) (fs_wakeups (mc_k s)) (fs_rest (mc_k s)))
    (mc_gdts s) (mc_idt s) (mc_low s).

Abbreviation mdisk s := (fs_disk (mc_k s)).

(** C1: the kernel is crash safe.  Take a machine whose files hold [mem], between
    transactions, and any history of events: system calls and other traps of
    any processes, in any order, with anything in between.  If over the
    abstract disk no event panics or leaves its domain, then the machine of
    fs.c, log.c, bio.c and memide.c goes through the same history, and ends with
    the same processes, files, memory and devices.  And whatever prefix of its
    sector writes reaches the disk before the power fails, and however often
    the recoveries that follow are interrupted, the next boot mounts, whole,
    the contents of the start or of one of the commits of the abstract run;
    those of the last one if every write was made. *)
Theorem kernel_crash_safe junk end_ data_ initcode es start size mem (s : machine (T:=lstate bcache)) t :
  disk_rep (mdisk s) (TDisk mem ∅ ∅ ∅ 0 start size) ->
  history junk no_bstat end_ data_ initcode es (h_machine start size mem s) = Some t ->
  exists s', history junk bstats end_ data_ initcode es s = Some s' /\
    mc_hw s' = mc_hw t /\ fs_rest (mc_k s') = fs_rest (mc_k t) /\ fs_icache (mc_k s') = fs_icache (mc_k t) /\
    forall k d, crashes (power_fail (mdisk s) (mdisk s') k) d ->
      exists m (r : lstate bcache), m ∈ hd_commits (mdisk t) /\
        ((length (disk_writes (ls_cache (mdisk s'))) <= length (disk_writes (ls_cache (mdisk s))) + k)%nat ->
          last (hd_commits (mdisk t)) = Some m) /\
        initlog (LState log0 (binit d) []) = Ok tt r /\ disk_rep r (TDisk m ∅ ∅ ∅ 0 start size).
Proof.
  intros Hd Ht.
  pose (crash_DiskSpec start size (disk_writes (ls_cache (mdisk s))) (memdisk (ls_cache (mdisk s))) bcache) as DS.
  assert (machine_rep (H1:=DS) s (h_machine start size mem s)) as Hr.
  { split_and!; try done. split_and!; try done. exact (crash_rep_start _ _ Hd eq_refl eq_refl). }
  destruct (history_sim (H1:=DS) junk bstats no_bstat (msim_fault _ _ _) end_ data_ initcode es s _ t Hr Ht)
    as (s' & Es & (E1 & (Rd & E2 & _ & E3) & _)).
  exists s'. split_and!; try done. intros k d Hc. exact (crash_rep_mount _ _ _ _ _ k d Rd Hc).
Qed.

(** *** A history *)

(** The stack and the strings of a process, then its system call. *)
Definition user_call (num : Z) (args : list Z) (data : list (Z * list Z)) : list kevent :=
  let m := bytes_at 4 (concat (le_split 4 <$> args)) ∅ in
  let m := foldl (fun m d => bytes_at d.1 d.2 m) m data in
  [EStep (set_kmem (KMem 0 0 (user_mem m))) id; ETrap 0 true (Trapframe num 0 0 0 0 0 0 0 []) T_SYSCALL].

(** mkdir("/d"), unlink("/a"), a tick of the clock, a sleep(10), and mkdir("/a"). *)
Definition small_history : list kevent :=
  user_call 20 [ARG1] [(ARG1, zstr [47; 100])] ++
  user_call 18 [ARG1] [(ARG1, zstr [47; 97])] ++
  [ETrap 0 true tf0 (T_IRQ0 + IRQ_TIMER)] ++ user_call 13 [10] [] ++
  user_call 20 [ARG1] [(ARG1, zstr [47; 97])].

(** Whether "/d" and "/a" are there. *)
Definition found (path : list Z) (m : gmap Z block) : bool :=
  match namei (fun _ => DevOps None None None None) 0 path (FSys (TDisk m ∅ ∅ ∅ 0 17 31) iinit [] tt) with
  | Ok (Some _) _ => true
  | _ => false
  end.
Definition found_both (m : gmap Z block) : bool * bool := (found [47; 100] m, found [47; 97] m).

Definition small_machine {T} (d : T) : machine (T:=T) :=
  Machine (hw0 []) (FSys d iinit [] (fs_rest (powered ∅))) [] [] (fun _ => 0).
Definition small_run : option (machine (T:=hdisk)) :=
  history (fun _ => 0) no_bstat 0 0 [] small_history
    (small_machine (HDisk (TDisk small_image ∅ ∅ ∅ 0 17 31) [small_image])).

Lemma small_run_commits :
  (fun t => found_both <$> hd_commits (mdisk t)) <$> small_run =
  Some [(false, true); (true, true); (true, false); (true, true)].
Proof. vm_compute. reflexivity. Qed.

Lemma kernel_crash_safe_witness :
  exists s s' : machine (T:=lstate bcache),
    history (fun _ => 0) bstats 0 0 [] small_history s = Some s' /\
    forall k d, crashes (power_fail (mdisk s) (mdisk s') k) d ->
      exists m (r : lstate bcache),
        found_both m ∈ [(false, true); (true, true); (true, false); (true, true)] /\
        initlog (LState log0 (binit d) []) = Ok tt r /\ disk_rep r (TDisk m ∅ ∅ ∅ 0 17 31).
Proof.
  destruct (mount_rep small_sb 17 small_image small_formatted) as (s0 & _ & R).
  pose proof small_run_commits as Hc. destruct small_run as [t|] eqn:E; [|discriminate Hc].
  destruct (kernel_crash_safe (fun _ => 0) 0 0 [] small_history 17 31 small_image (small_machine s0) t R E)
    as (s' & Es & _ & _ & _ & Hs).
  exists (small_machine s0), s'. split; [exact Es|]. intros k d Hd.
  destruct (Hs k d Hd) as (m & r & Hm & _ & Er & Rr). exists m, r. split; [|split; [exact Er|exact Rr]].
  cbn [fmap option_fmap option_map] in Hc. injection Hc as <-. by apply list_elem_of_fmap_2.
Defined.
